(* ===== verification/_CoqProject ===== *)
-Q . S2P
Prelude.v
NetBuffer.v
Kernel.v
World.v
Poller.v
Demo.v
Loop.v
LoopSched.v
Channels.v
Connection.v
ConnFacts.v
ConnStream.v
Inet.v
LoopPool.v
Server.v
ServerFacts.v
System.v
EchoFacts.v
Lifecycle.v
LoopThread.v
LogBuffer.v
AsyncWorker.v
Safety.v
SafeTasks.v
Handlers.v
SafeRun.v
Startup.v
LoopActs.v
LoopRefine.v
WellFormed.v
Gone.v
Shutdown.v
Message.v
Timestamp.v
Files.v
ThreadPool.v
LogFlush.v
Sinks.v
Backup.v
Logger.v
LogCalls.v
LogErrors.v
LogTest.v
Main.v
