(* ===== verification/Prelude.v ===== *)
(** * TcpServer: a verification development

    The repository is an event-driven TCP server library in the style of muduo
    (include/, src/), with an echo server on top of it (src/testserver.cpp) and
    an asynchronous logger beside it (log_system/logs_code/).  This library
    models them as executable functions and step relations and proves what
    makes them correct; where the code does not do what it means to, a theorem
    says what it does instead.

    ** The program and its model

    An [EventLoop] belongs to one thread.  It waits in an [EpollPoller] for
    descriptors, calls the [Channel] of each ready one, which calls back into
    its owner (a [TcpConnection], the [Acceptor] or the loop itself), and then
    runs the calls that were queued with [queueInLoop].  Other threads queue
    calls and write an eventfd to wake the loop.  [TcpServer] accepts
    connections on a base loop, hands them to the loops of an
    [EventLoopThreadPool] in turn, and keeps them in a map by name until they
    are closed.

    A log call formats a line, sends it to a backup server through a pool of
    worker threads if it is an error, and pushes it to the logger's buffer; the
    logger's thread takes what was pushed and writes it to the terminal and to
    files.  The network library only needs its logger to be registered.

    - [Prelude]: outcomes and faults, the state monad with faults, machine
      integers, list slices by [Z] index, memory accesses with bounds; and
      [along], the calculus for programs that only move their state along a
      preorder.
    - [NetBuffer] (include/Buffer.hpp, src/Buffer.cpp): [Buffer.t] is the vector
      with its two indices; one function per method.
    - [Kernel]: what the code asks of epoll and eventfd, as the class [Kernel]
      with its documented behaviour [KernelOk], and two instances.
    - [World]: the classes of include/ as records named after them, in one
      process state [World] of maps from addresses to objects; queued calls
      ([Functor]) and channel callbacks ([closure]) as data; the trace of
      observable events.
    - [Poller] (src/EpollPoller.cpp, src/Poller.cpp), [Loop] (src/EventLoop.cpp,
      [EpollPoller::poll]), [Channels] (src/Channel.cpp), [Connection]
      (src/TcpConnection.cpp), [Inet] (src/InetAddress.cpp), [LoopPool]
      (constructor and destructor of [EventLoop], src/DefaultPoller.cpp,
      src/EventLoopThread.cpp, src/EventLoopThreadPool.cpp), [Server]
      (src/Socket.cpp, src/Acceptor.cpp, src/TcpServer.cpp): a [Module] per
      class, a [Definition] per method, in the monad over [World].
    - [System] (src/EventLoop.cpp [loop], src/testserver.cpp): gives queued calls
      and callbacks their meaning and runs the loop; the echo server.
    - [LoopSched] (src/EventLoop.cpp): the loop's thread and the others as
      interleaved steps, over the operations of [Loop].
    - [LoopThread] (src/EventLoopThread.cpp, src/Thread.cpp): the owner of an
      [EventLoopThread] and its thread as interleaved steps around the loop of
      [LoopSched], with the lifetime of the loop on the thread's stack.
    - [LogBuffer] (log_system/logs_code/AsyncBuffer.hpp, the configuration in
      Util.hpp) and [AsyncWorker] (AsyncWorker.hpp): the logger's buffer, and
      its producers, worker and [Stop] as interleaved steps.
    - [Message] (Message.hpp, Level.hpp): the record, its text, and reading texts
      and files of them back; [Timestamp] (src/Timestamp.cpp,
      src/CurrentThread.cpp): the text of a time, and the cached thread
      identifier.
    - [Files] (Util.hpp): the logger's world of files, directories and observed
      events, stdio on it, [Util::Date], [Util::File], [Util::JsonUtil] and the
      loading of the configuration.
    - [LogFlush] (LogFlush.hpp): the three outputs and their factory, on [Files];
      [Sinks]: what the logger relies on of an output, as the class [Sink] with
      an instance for each.
    - [ThreadPool] (ThreadPool.hpp): workers, [enqueue] and the destructor as
      interleaved steps.
    - [Backup] (backlog/): the client [start_backup], and the server down to its
      file.
    - [Logger] (AsyncLogger.hpp, Manager.hpp, MyLog.cpp): the log calls, the
      builder and the registry; [log_step] joins [AsyncWorker] and [LogFlush],
      [LogCalls] joins it with the threads that log ([call_step]), and
      [LogErrors] that with [ThreadPool] and [start_backup] ([backed_step]).
    - [LogTest] (test.cpp): the logger's test program from [main]'s first line to
      its return, its thread as steps of [LogCalls] among those of the workers
      and of the pool.
    - [Main] (src/testserver.cpp, [main]): the set-up of the logger, and with
      [Startup] the whole program.
    - [Safety], [SafeTasks], [Handlers], [SafeRun], [Startup]: no definitions of
      code; the invariant that keeps every pointer of the running program valid,
      that tasks, handlers and whole runs keep it, and that the set-up of the
      server establishes it.  [WellFormed] says it of the echo server's state
      alone.
    - [Gone], [Shutdown] (src/TcpServer.cpp, [~TcpServer]): the loops with the
      server, or all but its map, destroyed, where a use of what is gone is the
      fault [DeadServer]; that they are otherwise as before; and the end of the
      server from the first line of its destructor to its last member's.
    - [LoopActs], [LoopRefine]: what each operation does to the queues, flags and
      eventfds of the loops (the hint database [respects]), and from it the
      simulation of the program's rounds by [LoopSched]; [executes] names the
      method or callback that runs for each queued call.
    - [Demo], [ConnFacts]: the concrete world of the witnesses, and the frame
      lemmas of the connection's operations.

    Source files are named from the repository's root.

    ** What is shown

    - Memory safety: whatever the kernel answers, the loops never touch a
      destroyed connection, a dangling string or memory outside a buffer, and no
      connection is leaked ([server_memory_safe]); so for the echo server from
      the first line of [main] ([echo_program_safe]), whose state keeps its shape
      ([echo_state_well_formed]): what happens to a connection happens on its own
      loop; and across the server's destructor, but for the calls that connections
      and queues may still make to the dead server
      ([server_destructor_hands_over]).
    - Refinement: the running program implements the interleaving model of a loop,
      whose started tasks are the calls that the program executes
      ([server_refines_schedule]), so a loop of the echo server never sleeps on
      work ([echo_loops_scheduled]); the network buffer refines a byte queue
      ([buffer_refines_byte_queue]).
    - Data structures: the log buffer's bounds ([log_push_cases]); printing and
      reading back addresses ([inet_address_roundtrip]); the order of printed
      times ([texts_sort_as_times]); balanced round robin
      ([getNextLoop_round_robin]).
    - Registration and dispatch: channel, poller and kernel agree through any
      calls ([poller_registration_consistent]); [handleEvent_dispatches].
    - Streams: what is sent reaches the kernel once and in order
      ([outgoing_stream_integrity]); the echo server returns every byte
      ([echo_server_echoes]), and the whole program does so on a concrete run
      ([echo_run]).
    - Connections: accepting, on the loop whose turn it is
      ([newConnection_registers]), and the complete end of a connection, across
      its own loop and the server's, with nothing left behind
      ([close_destroys_connection]).
    - Concurrency of a loop: [no_lost_wakeup], [tasks_fifo_exactly_once],
      [iteration_runs_queue], [quit_ends_loop]; of its thread:
      [startLoop_loop_lives], [destructor_can_join]; of the thread pool:
      [pool_runs_each_task_once], [pool_futures_ready], [pool_destructor_drains].
    - Outputs: what the logger accepts reaches each of its outputs, in order
      ([accepted_lines_reach_outputs]), across rolled files too
      ([roll_files_hold_everything]), and what they hold reads back to the
      messages of the threads that logged ([log_calls_read_back]), of which an
      error has been given, whole, to a write to the backup server before
      ([errors_reported_before_logged]); of the test program, to its 600000
      lines, and the sizes it adds up are theirs
      ([log_test_writes_every_line]).  All this is for [flush_log] 1 or 2 and a
      kernel none of whose calls fails: with [flush_log] 0, the value without a
      configuration file, bytes stay in stdio's buffer.  Directories
      are made as by mkdir -p ([CreateDirectory_makes_path]); the backup server
      stores what it reads ([backup_service_cases]).
    - Errors and defects: what exactly happens where the code goes wrong
      ([cross_thread_send_dangles], [sendFile_oversends],
      [high_water_mark_signalled], [early_destructor_hangs],
      [quit_touches_dead_loop], [stop_can_hang], [late_push_is_lost]).  Further
      lemmas: [refused_add_is_forgotten], [task_queued_before_loop_sleeps],
      [quit_abandons_queue], [no_poll_support], [append_too_long],
      [retrieveAsString_cases], [newConnection_failures],
      [removeConnectionInLoop_unregisters], [failed_open_crashes],
      [safe_push_fits], [push_goes_or_faults], [safe_runs_end_well],
      [unsafe_push_overruns], [log_delivered_in_order], [manager_first_wins], [concurrent_add_replaces],
      [log_line_reads_back], [accepted_lines_reach_files],
      [start_backup_cases], [start_service_accepts], [atoi_to_string],
      [pool_without_workers], [toString_faults], [tid_asks_once].

    ** Choices

    - The kernel.  Calls whose effect later calls see (epoll, eventfd) go
      through the class [Kernel].  Every other call takes the next answer of an
      arbitrary stream [w_oracle], cut to what its manual page allows (a write
      accepts at most what it was given), so theorems hold for every answer.
      [close] shows in the trace only.  [errno] is part of a call's answer: where
      the code tests it once more after a log call ([try_write]), the log call is
      taken to leave it alone.  [accept4] is given an uninitialised length; its
      effect is one of the answers.
    - Threads.  In the sequential model [w_tid] is the running thread: a call
      for a loop of another thread is queued, as in the code.  Interleavings
      are in [LoopSched], [LoopThread], [AsyncWorker] and [ThreadPool], whose
      steps are critical sections, atomic accesses and system calls; in
      [LogCalls], which adds to [AsyncWorker] the formatting of a line, and of
      an error its backup, as one step; in [LogErrors], where the enqueuing, the
      task and the return of the future are steps of their own; and in [SafeRun] and [LoopRefine], whose steps are whole iterations
      of one of several loops.
    - The logger's world ([LogWorld]) is apart from [World]: files by name, the
      directories through the class [Directories], and a stream of answers as
      above.  An append stream holds pending bytes; a call may hand over any
      part of them, or fail.  [localtime_r] and the text of a thread's
      identifier are the class [Platform], inet_addr and inet_ntop the class
      [InetLib], what jsoncpp reads, writes and converts functions; a conversion
      may throw, which nothing catches.  A future is the end of
      its task.
    - Undefined behaviour in a step relation.  A push that overruns its vector is
      no step of [AsyncWorker]; it is [push_fault], and [comes_to] says what runs
      end in.  In the safe mode it cannot happen while the buffer can grow; the
      theorems about runs of an unsafe logger speak of the states before it.
    - Lifetime.  A connection lives in [w_conns]; it is destroyed when neither
      the server's map nor a queued call holds a [shared_ptr] to it
      ([Server.Lifetime]).  User code is taken to keep none.
    - User code is the class [UserCode]: arbitrary programs of the same monad;
      theorems that need it to be harmless say so.
    - Logging needs a registered logger ([log]); otherwise it does not touch
      the network state.  [DEBUG_FLAG] is not defined.
    - Integers.  [size_t] values wrap at 2^64 where they are computed; [int]
      overflow is a fault or wraps ([std::atomic_int]), as in C++; vectors hold
      at most 2^63 - 1 bytes.
    - Fuel.  [System.loop] has the number of iterations of the event loop, which
      need not end; it says whether the loop ended, and per-iteration theorems
      ([echo_server_echoes], [iteration_runs_queue]) do not depend on it.
      [create_loop] has the length of the path, which is enough
      ([CreateDirectory_makes_path]).

    ** Not modelled

    - [loop.loop()] of src/testserver.cpp does not return: nobody calls [quit] on
      the base loop, so what [main] would do after it is not reached.
    - The end of the pool's loops, which are destroyed with what is left in their
      queues when their threads return: in [Shutdown] the pool's destructor tells
      them to quit, after which they take no rounds; joining a thread and the
      end of its loop are in [LoopThread], apart from the state of all
      connections.
    - The macros of MyLog.hpp, which only add file and line to a call, the text
      vasprintf makes (an argument of the log calls), and the times
      log_system/logs_code/test.cpp measures and prints.
    - Declarations without behaviour: deleted copies, forward declarations,
      virtual interfaces ([Poller], [LogFlush]) whose only implementations are
      modelled.
    - In [LogErrors] the kernel refuses nothing where a report is claimed; what
      a task does when it cannot connect is [start_backup_cases]. *)

From stdpp Require Import base tactics numbers list gmap strings option pretty.
From Stdlib Require Import ZArith Lia.
From Stdlib Require Export Strings.Byte.

Local Open Scope Z_scope.

(** ** Outcomes

    Every operation of the program that can misbehave returns an [outcome]:
    a value, or the fault the C++ code runs into.  [OutOfBounds], [Dangling],
    [DeadServer], [NullDeref] and [SignedOverflow] stand for undefined
    behaviour, [DeadServer] for a call to the destroyed [TcpServer]; the other
    faults are C++ exceptions or a failed [assert]. *)
Inductive fault :=
  | OutOfBounds
  | Dangling
  | DeadServer
  | NullDeref
  | SignedOverflow
  | BadFunctionCall
  | BadWeakPtr
  | LengthError
  | RuntimeError
  | Terminated
  | AssertFailure.

Inductive outcome (A : Type) :=
  | Ok (a : A)
  | Fault (f : fault).
Arguments Ok {A} a.
Arguments Fault {A} f.

#[export] Instance fault_eq_dec : EqDecision fault.
Proof. solve_decision. Defined.

#[export] Instance byte_eq_decision : EqDecision byte := Byte.byte_eq_dec.

Definition obind {A B} (m : outcome A) (k : A → outcome B) : outcome B :=
  match m with Ok a => k a | Fault f => Fault f end.

(** ** A state monad over outcomes *)

Definition M (S A : Type) : Type := S → outcome (A * S).

Section monad.
Context {S : Type}.

Definition ret {A} (a : A) : M S A := λ s, Ok (a, s).
Definition bind {A B} (m : M S A) (k : A → M S B) : M S B :=
  λ s, match m s with Ok (a, s') => k a s' | Fault f => Fault f end.
Definition throw {A} (f : fault) : M S A := λ _, Fault f.
Definition gets {A} (f : S → A) : M S A := λ s, Ok (f s, s).
Definition modify (f : S → S) : M S unit := λ s, Ok (tt, f s).
Definition lift {A} (o : outcome A) : M S A :=
  λ s, match o with Ok a => Ok (a, s) | Fault f => Fault f end.
Definition deref {A} (f : fault) (o : option A) : M S A :=
  match o with Some a => ret a | None => throw f end.
Definition when (b : bool) (m : M S unit) : M S unit :=
  if b then m else ret tt.

(** [for (x : l) f(x);] *)
Fixpoint mapM_ {A} (f : A → M S unit) (l : list A) : M S unit :=
  match l with
  | [] => ret tt
  | x :: l' => bind (f x) (λ _, mapM_ f l')
  end.

Lemma bind_Ok {A B} (m : M S A) (k : A → M S B) s a s' :
  m s = Ok (a, s') → bind m k s = k a s'.
Proof. intros H. unfold bind. by rewrite H. Qed.

Lemma bind_Fault {A B} (m : M S A) (k : A → M S B) s f :
  m s = Fault f → bind m k s = Fault f.
Proof. intros H. unfold bind. by rewrite H. Qed.

Lemma bind_inv {A B} (m : M S A) (k : A → M S B) s b s' :
  bind m k s = Ok (b, s') → ∃ a s1, m s = Ok (a, s1) ∧ k a s1 = Ok (b, s').
Proof. unfold bind. destruct (m s) as [[a s1]|] eqn:E; [|done]. eauto. Qed.

Lemma bind_assoc {A B C} (m : M S A) (k : A → M S B) (h : B → M S C) s :
  bind (bind m k) h s = bind m (λ a, bind (k a) h) s.
Proof. unfold bind. by destruct (m s) as [[a s1]|]. Qed.

Lemma ret_Ok {A} (a : A) s : ret a s = Ok (a, s).
Proof. done. Qed.

Lemma mapM_app {A} (f : A → M S unit) l1 l2 s :
  mapM_ f (l1 ++ l2) s = bind (mapM_ f l1) (λ _, mapM_ f l2) s.
Proof.
  revert s. induction l1 as [|x l1 IH]; intros s; cbn; [done|].
  rewrite bind_assoc. unfold bind. destruct (f x s) as [[u s1]|]; [|done]. apply IH.
Qed.
End monad.

(** *** Programs that only go along a relation of states *)
Section along.
Context {S : Type} (R : relation S) `{!PreOrder R}.

Definition along {A} (m : M S A) : Prop := ∀ s a s', m s = Ok (a, s') → R s s'.

Lemma along_ret {A} (a : A) : along (ret a).
Proof. by intros s ? ? [= <- <-]. Qed.
Lemma along_throw {A} f : along (A := A) (throw f).
Proof. by intros s ? ?. Qed.
Lemma along_gets {A} (f : S → A) : along (gets f).
Proof. by intros s ? ? [= <- <-]. Qed.
Lemma along_modify f : (∀ s, R s (f s)) → along (modify f).
Proof. by intros Hf s ? ? [= <- <-]. Qed.
Lemma along_lift {A} (o : outcome A) : along (lift o).
Proof. intros s a s' E. unfold lift in E. destruct o; [by injection E as <- <-|done]. Qed.
Lemma along_deref {A} f (o : option A) : along (deref f o).
Proof. destruct o; [apply along_ret|apply along_throw]. Qed.
Lemma along_bind {A B} (m : M S A) (k : A → M S B) :
  along m → (∀ a, along (k a)) → along (bind m k).
Proof.
  intros Hm Hk s b s' (a & s1 & E1 & E2)%bind_inv.
  etrans; [exact (Hm _ _ _ E1)|exact (Hk _ _ _ _ E2)].
Qed.
Lemma along_if {A} (b : bool) (m1 m2 : M S A) : along m1 → along m2 → along (if b then m1 else m2).
Proof. by destruct b. Qed.
Lemma along_when (b : bool) m : along m → along (when b m).
Proof. destruct b; [done|]. intros _. apply along_ret. Qed.
End along.

(** What single operations do to the relations in use. *)
Create HintDb along discriminated.

(** Goes through a program statement by statement. *)
Ltac along :=
  repeat lazymatch goal with
    | |- along _ (bind _ _) => apply along_bind; [apply _| |intros ?]
    | |- along _ (if _ then _ else _) => apply along_if
    | |- along _ (when _ _) => apply along_when; [apply _|]
    | |- along _ (ret _) => apply along_ret, _
    | |- along _ (throw _) => apply along_throw
    | |- along _ (gets _) => apply along_gets, _
    | |- along _ (lift _) => apply along_lift, _
    | |- along _ (deref _ _) => apply along_deref, _
    | |- _ => progress auto with along
    end.

Declare Scope prog_scope.
Delimit Scope prog_scope with prog.
Notation "'let!' x ':=' m 'in' k" := (bind m (λ x, k))
  (at level 10, x name, m at level 100, k at level 200) : prog_scope.
Notation "'let!' ' p ':=' m 'in' k" := (bind m (λ x, match x with p => k end))
  (at level 10, p pattern, m at level 100, k at level 200, only parsing) : prog_scope.
Notation "m ';;!' k" := (bind m (λ _, k))
  (at level 199, right associativity) : prog_scope.
Notation "'let?' x ':=' m 'in' k" := (obind m (λ x, k))
  (at level 10, x name, m at level 100, k at level 200) : prog_scope.

(** The database of the "this call succeeds" lemmas that [mstep] runs on. *)
Create HintDb mrun discriminated.
#[export] Hint Constants Opaque : mrun.
#[export] Hint Resolve ret_Ok : mrun.

(** [mstep] runs one statement of a monadic program by the lemmas of [mrun]. *)
Ltac mstep :=
  (erewrite bind_Ok; [| solve [eauto with mrun]]); cbv beta iota.

(** ** Machine integers *)

(** [size_t] arithmetic is modulo 2^64. *)
Definition wrap64 (z : Z) : Z := z mod 2 ^ 64.

(** Conversion to a 32-bit [int] keeps the low 32 bits, read as signed. *)
Definition int32 (z : Z) : Z := (z + 2 ^ 31) mod 2 ^ 32 - 2 ^ 31.

Definition INT_MAX : Z := 2 ^ 31 - 1.

Lemma wrap64_small z : 0 ≤ z < 2 ^ 64 → wrap64 z = z.
Proof. apply Z.mod_small. Qed.

Lemma wrap64_range z : 0 ≤ wrap64 z < 2 ^ 64.
Proof. apply Z.mod_pos_bound. lia. Qed.

Lemma int32_small z : - 2 ^ 31 ≤ z < 2 ^ 31 → int32 z = z.
Proof. intros H. unfold int32. rewrite Z.mod_small; lia. Qed.

Lemma int32_range z : - 2 ^ 31 ≤ int32 z < 2 ^ 31.
Proof.
  unfold int32. pose proof (Z.mod_pos_bound (z + 2 ^ 31) (2 ^ 32) ltac:(lia)). lia.
Qed.

(** Replaces [wrap64 e] by [e] wherever the bounds follow by [lia]. *)
Ltac unwrap :=
  repeat match goal with
  | |- context [wrap64 ?e] => rewrite (wrap64_small e) by lia
  | H : context [wrap64 ?e] |- _ => rewrite (wrap64_small e) in H by lia
  end.

(** ** Lists indexed by integers *)

Section zlist.
Context {A : Type}.
Implicit Types l d : list A.

Definition zlen (l : list A) : Z := Z.of_nat (length l).
Definition ztake (n : Z) (l : list A) : list A := take (Z.to_nat n) l.
Definition zdrop (n : Z) (l : list A) : list A := drop (Z.to_nat n) l.
(** The [n] elements that start at index [i]. *)
Definition slice (i n : Z) (l : list A) : list A := ztake n (zdrop i l).

Lemma zlen_nonneg l : 0 ≤ zlen l.
Proof. unfold zlen. lia. Qed.
Lemma zlen_nil : zlen (@nil A) = 0.
Proof. done. Qed.
Lemma zlen_cons x l : zlen (x :: l) = 1 + zlen l.
Proof. unfold zlen. cbn [length]. lia. Qed.
Lemma zlen_app l1 l2 : zlen (l1 ++ l2) = zlen l1 + zlen l2.
Proof. unfold zlen. rewrite length_app. lia. Qed.
Lemma zlen_replicate n (x : A) : 0 ≤ n → zlen (replicate (Z.to_nat n) x) = n.
Proof. unfold zlen. rewrite length_replicate. lia. Qed.
Lemma zlen_ztake n l : zlen (ztake n l) = Z.max 0 (Z.min n (zlen l)).
Proof. unfold zlen, ztake. rewrite length_take. lia. Qed.
Lemma zlen_zdrop n l : zlen (zdrop n l) = Z.max 0 (zlen l - Z.max 0 n).
Proof. unfold zlen, zdrop. rewrite length_drop. lia. Qed.
Lemma zlen_slice i n l :
  0 ≤ i → 0 ≤ n → i + n ≤ zlen l → zlen (slice i n l) = n.
Proof. intros. unfold slice. rewrite zlen_ztake, zlen_zdrop. lia. Qed.
Lemma zlen_0_inv l : zlen l = 0 → l = [].
Proof. destruct l; [done|]. unfold zlen. cbn. lia. Qed.

Lemma ztake_ge n l : zlen l ≤ n → ztake n l = l.
Proof. intros. apply take_ge. unfold zlen in *. lia. Qed.
Lemma ztake_0 n l : n ≤ 0 → ztake n l = [].
Proof. intros. unfold ztake. by replace (Z.to_nat n) with 0%nat by lia. Qed.
Lemma zdrop_0 n l : n ≤ 0 → zdrop n l = l.
Proof. intros. unfold zdrop. by replace (Z.to_nat n) with 0%nat by lia. Qed.
Lemma zdrop_ge n l : zlen l ≤ n → zdrop n l = [].
Proof. intros. apply drop_ge. unfold zlen in *. lia. Qed.
Lemma ztake_zdrop n l : ztake n l ++ zdrop n l = l.
Proof. apply take_drop. Qed.
Lemma zdrop_zdrop n m l : 0 ≤ n → 0 ≤ m → zdrop n (zdrop m l) = zdrop (m + n) l.
Proof. intros. unfold zdrop. rewrite drop_drop. f_equal. lia. Qed.
Lemma ztake_ztake n m l : ztake n (ztake m l) = ztake (Z.min n m) l.
Proof. unfold ztake. rewrite take_take. f_equal. lia. Qed.
Lemma zdrop_ztake n m l : 0 ≤ n → zdrop n (ztake m l) = ztake (m - n) (zdrop n l).
Proof.
  intros. unfold zdrop, ztake. rewrite skipn_firstn_comm. f_equal. lia.
Qed.
Lemma ztake_app_le n l1 l2 : n ≤ zlen l1 → ztake n (l1 ++ l2) = ztake n l1.
Proof. intros. apply take_app_le. unfold zlen in *. lia. Qed.
Lemma ztake_app_ge n l1 l2 :
  zlen l1 ≤ n → ztake n (l1 ++ l2) = l1 ++ ztake (n - zlen l1) l2.
Proof.
  intros. unfold ztake, zlen in *. rewrite take_app_ge by lia. do 2 f_equal. lia.
Qed.
Lemma zdrop_app_le n l1 l2 : n ≤ zlen l1 → zdrop n (l1 ++ l2) = zdrop n l1 ++ l2.
Proof. intros. apply drop_app_le. unfold zlen in *. lia. Qed.
Lemma zdrop_app_ge n l1 l2 :
  zlen l1 ≤ n → zdrop n (l1 ++ l2) = zdrop (n - zlen l1) l2.
Proof.
  intros. unfold zdrop, zlen in *. rewrite drop_app_ge by lia. f_equal. lia.
Qed.
Lemma slice_split i n m l :
  0 ≤ i → 0 ≤ n → 0 ≤ m → slice i (n + m) l = slice i n l ++ slice (i + n) m l.
Proof.
  intros. unfold slice. rewrite <- zdrop_zdrop by lia.
  unfold ztake, zdrop. rewrite Z2Nat.inj_add by lia.
  rewrite <- (take_drop (Z.to_nat n) (drop (Z.to_nat i) l)) at 1.
  rewrite take_app_ge by (rewrite length_take; lia).
  destruct (decide (Z.to_nat n ≤ length (drop (Z.to_nat i) l))%nat).
  - f_equal. f_equal. rewrite length_take. lia.
  - rewrite (drop_ge (drop _ _)) by lia. by rewrite !take_nil.
Qed.
Lemma zdrop_slice i n k l :
  0 ≤ i → 0 ≤ k → zdrop k (slice i n l) = slice (i + k) (n - k) l.
Proof. intros. unfold slice. rewrite zdrop_ztake, zdrop_zdrop by lia. done. Qed.
Lemma ztake_slice i n k l : k ≤ n → ztake k (slice i n l) = slice i k l.
Proof. intros. unfold slice. rewrite ztake_ztake. f_equal. lia. Qed.
Lemma slice_app_l i n l1 l2 :
  0 ≤ i → 0 ≤ n → i + n ≤ zlen l1 → slice i n (l1 ++ l2) = slice i n l1.
Proof.
  intros. unfold slice. rewrite zdrop_app_le, ztake_app_le; [done| |lia].
  rewrite zlen_zdrop. lia.
Qed.
Lemma slice_app_r i n l1 l2 :
  zlen l1 ≤ i → slice i n (l1 ++ l2) = slice (i - zlen l1) n l2.
Proof. intros. unfold slice. by rewrite zdrop_app_ge by lia. Qed.
Lemma slice_all l n : zlen l ≤ n → slice 0 n l = l.
Proof. intros. unfold slice. rewrite zdrop_0, ztake_ge; [done|lia|lia]. Qed.
Lemma slice_0 i n l : n ≤ 0 → slice i n l = [].
Proof. intros. unfold slice. by apply ztake_0. Qed.
End zlist.

Create Rewrite HintDb zlen.
#[export] Hint Rewrite @zlen_app @zlen_cons @zlen_nil @zlen_ztake @zlen_zdrop : zlen.

(** Arithmetic goals about lengths. *)
Ltac zlen_lia :=
  autorewrite with zlen in *;
  repeat match goal with
  | |- context [zlen ?l] =>
      lazymatch goal with H : 0 ≤ zlen l |- _ => fail | _ => pose proof (zlen_nonneg l) end
  | _ : context [zlen ?l] |- _ =>
      lazymatch goal with H : 0 ≤ zlen l |- _ => fail | _ => pose proof (zlen_nonneg l) end
  end;
  lia.

(** ** Contiguous memory: reads and writes that check their range *)

Definition mem_read {A} (i n : Z) (buf : list A) : outcome (list A) :=
  if (0 <=? i) && (0 <=? n) && (i + n <=? zlen buf)
  then Ok (slice i n buf) else Fault OutOfBounds.

Definition splice {A} (i : Z) (d buf : list A) : list A :=
  ztake i buf ++ d ++ zdrop (i + zlen d) buf.

Definition mem_write {A} (i : Z) (d buf : list A) : outcome (list A) :=
  if (0 <=? i) && (i + zlen d <=? zlen buf)
  then Ok (splice i d buf) else Fault OutOfBounds.

(** [std::vector<char>::max_size()] on a 64-bit target. *)
Definition max_size : Z := 2 ^ 63 - 1.

(** [std::vector<char>::resize]: throws [std::length_error] above [max_size],
    otherwise truncates or appends zero bytes. *)
Definition vec_resize (n : Z) (buf : list byte) : outcome (list byte) :=
  if max_size <? n then Fault LengthError
  else Ok (ztake n buf ++ replicate (Z.to_nat (n - zlen buf)) x00).

Section memory.
Context {A : Type}.
Implicit Types d buf : list A.

Lemma mem_read_Ok i n buf :
  0 ≤ i → 0 ≤ n → i + n ≤ zlen buf → mem_read i n buf = Ok (slice i n buf).
Proof. intros. unfold mem_read. by rewrite !(proj2 (Z.leb_le _ _)) by lia. Qed.

Lemma mem_write_Ok i d buf :
  0 ≤ i → i + zlen d ≤ zlen buf → mem_write i d buf = Ok (splice i d buf).
Proof. intros. unfold mem_write. by rewrite !(proj2 (Z.leb_le _ _)) by lia. Qed.

Lemma mem_write_OutOfBounds i d buf :
  zlen buf < i + zlen d → mem_write i d buf = Fault OutOfBounds.
Proof.
  intros. unfold mem_write. rewrite (proj2 (Z.leb_gt (i + zlen d) _)) by lia.
  by rewrite andb_false_r.
Qed.

Lemma zlen_splice i d buf :
  0 ≤ i → i + zlen d ≤ zlen buf → zlen (splice i d buf) = zlen buf.
Proof. intros. unfold splice. zlen_lia. Qed.

(** Below the written range nothing changes. *)
Lemma slice_splice_below j n i d buf :
  0 ≤ j → 0 ≤ n → j + n ≤ i → i + zlen d ≤ zlen buf →
  slice j n (splice i d buf) = slice j n buf.
Proof.
  intros. unfold splice. pose proof (zlen_nonneg d).
  rewrite slice_app_l by zlen_lia.
  rewrite <- (ztake_zdrop i buf) at 2. by rewrite slice_app_l by zlen_lia.
Qed.

(** The written range reads back. *)
Lemma slice_splice_same i d buf :
  0 ≤ i → i + zlen d ≤ zlen buf → slice i (zlen d) (splice i d buf) = d.
Proof.
  intros. unfold splice. pose proof (zlen_nonneg d).
  rewrite slice_app_r by zlen_lia.
  replace (i - zlen (ztake i buf)) with 0 by zlen_lia.
  rewrite slice_app_l by lia. by apply slice_all.
Qed.
End memory.

Lemma zlen_vec_resize n buf buf' :
  0 ≤ n → vec_resize n buf = Ok buf' → zlen buf' = n.
Proof.
  intros ? H. unfold vec_resize in H. destruct (max_size <? n); [done|].
  injection H as <-. rewrite zlen_app, zlen_ztake. unfold zlen at 2.
  rewrite length_replicate. zlen_lia.
Qed.

Lemma vec_resize_grow n buf :
  zlen buf ≤ n ≤ max_size →
  vec_resize n buf = Ok (buf ++ replicate (Z.to_nat (n - zlen buf)) x00).
Proof.
  intros. unfold vec_resize. rewrite (proj2 (Z.ltb_ge _ _)) by lia.
  by rewrite ztake_ge by lia.
Qed.

(** ** Printed numbers *)

(** Below 10^n a number has at most n digits. *)
Lemma pretty_N_go_length (n : nat) (x : N) s :
  (x < 10 ^ N.of_nat n)%N →
  (String.length (pretty_N_go x s) ≤ n + String.length s)%nat.
Proof.
  revert x s. induction n as [|n IH]; intros x s Hx.
  - change (10 ^ N.of_nat 0)%N with 1%N in Hx. replace x with 0%N by lia.
    by rewrite pretty_N_go_0.
  - destruct (decide (x = 0%N)) as [->|Hne]; [rewrite pretty_N_go_0; lia|].
    rewrite pretty_N_go_step by lia.
    rewrite Nat2N.inj_succ, N.pow_succ_r' in Hx.
    etrans; [apply IH; apply N.Div0.div_lt_upper_bound; lia|]. cbn [String.length]. lia.
Qed.
