(* ===== verification/NetBuffer.v ===== *)
(** * The network byte buffer (include/Buffer.hpp, src/Buffer.cpp)

    [Buffer.t] is the class [Buffer]: a [std::vector<char>] with a reader and
    a writer index.  The layout is

      | prependable | readable (the content) | writable |
      0      readerIndex_              writerIndex_     size()

    Every method is a function of the buffer; methods that may read or write
    outside the vector, or whose [resize] may throw, return an [outcome].
    [size_t] arithmetic wraps modulo 2^64.  The system calls [readv] and
    [write] are parameters: functions from what the code passes to what the
    kernel answers. *)

From stdpp Require Import base tactics numbers list.
From Stdlib Require Import ZArith Lia.
From S2P Require Import Prelude.

Local Open Scope Z_scope.
Local Open Scope prog_scope.

(** The answer of a reading system call: the bytes it stored, or [errno]. *)
Inductive read_result :=
  | ReadBytes (data : list byte)
  | ReadError (errno : Z).

(** The answer of a writing system call: the byte count, or [errno]. *)
Inductive write_result :=
  | Wrote (n : Z)
  | WriteError (errno : Z).

Module Buffer.
Definition CHEAP_PREPEND : Z := 8.
Definition INIT_SIZE : Z := 1024.
Definition extrabuf_size : Z := 65536.

Record t := mk {
  buffer_ : list byte;
  readerIndex_ : Z;
  writerIndex_ : Z }.

(** The constructor: the vector's size does not depend on [initialSize]. *)
Definition ctor (initialSize : Z) : t :=
  mk (replicate (Z.to_nat (CHEAP_PREPEND + INIT_SIZE)) x00)
     CHEAP_PREPEND CHEAP_PREPEND.

Definition size (b : t) : Z := zlen (buffer_ b).
Definition readableBytes (b : t) : Z := wrap64 (writerIndex_ b - readerIndex_ b).
Definition writableBytes (b : t) : Z := wrap64 (size b - writerIndex_ b).
Definition prependableBytes (b : t) : Z := readerIndex_ b.

(** [peek()] is an address; what the code reads through it is [n] bytes. *)
Definition peek (n : Z) (b : t) : outcome (list byte) :=
  mem_read (readerIndex_ b) n (buffer_ b).

Definition retrieveAll (b : t) : t := mk (buffer_ b) CHEAP_PREPEND CHEAP_PREPEND.

Definition retrieve (len : Z) (b : t) : t :=
  if len <? readableBytes b
  then mk (buffer_ b) (wrap64 (readerIndex_ b + len)) (writerIndex_ b)
  else retrieveAll b.

Definition retrieveAsString (len : Z) (b : t) : outcome (list byte * t) :=
  let? result := peek len b in
  Ok (result, retrieve len b).

Definition retrieveAllAsString (b : t) : outcome (list byte * t) :=
  retrieveAsString (readableBytes b) b.

Definition makeSpace (len : Z) (b : t) : outcome t :=
  if wrap64 (writableBytes b + prependableBytes b) <? wrap64 (len + CHEAP_PREPEND)
  then
    let? buf := vec_resize (wrap64 (writerIndex_ b + len)) (buffer_ b) in
    Ok (mk buf (readerIndex_ b) (writerIndex_ b))
  else
    let readable := readableBytes b in
    let? d := mem_read (readerIndex_ b) (writerIndex_ b - readerIndex_ b) (buffer_ b) in
    let? buf := mem_write CHEAP_PREPEND d (buffer_ b) in
    Ok (mk buf CHEAP_PREPEND (wrap64 (CHEAP_PREPEND + readable))).

Definition ensureWritableBytes (len : Z) (b : t) : outcome t :=
  if writableBytes b <? len then makeSpace len b else Ok b.

(** [append(data, len)] with [len] the length of [data]. *)
Definition append (data : list byte) (b : t) : outcome t :=
  let? b := ensureWritableBytes (zlen data) b in
  let? buf := mem_write (writerIndex_ b) data (buffer_ b) in
  Ok (mk buf (readerIndex_ b) (wrap64 (writerIndex_ b + zlen data))).

(** The lengths of the blocks [readFd] passes to [readv]: the writable space
    and, unless that is large, the 64 KB [extrabuf] on the stack. *)
Definition iovecs (b : t) : list Z :=
  if writableBytes b <? extrabuf_size
  then [writableBytes b; extrabuf_size] else [writableBytes b].

(** [readv] fills the first block, then the second.  [extrabuf] starts as
    zeros; the bytes beyond the writable space go there and are appended. *)
Definition readFd (readv : list Z → read_result) (b : t)
    : outcome (read_result * t) :=
  let writable := writableBytes b in
  match readv (iovecs b) with
  | ReadError errno => Ok (ReadError errno, b)
  | ReadBytes d =>
      let n := zlen d in
      let? buf := mem_write (writerIndex_ b) (ztake writable d) (buffer_ b) in
      let? extrabuf := mem_write 0 (zdrop writable d)
                         (replicate (Z.to_nat extrabuf_size) x00) in
      if n <=? writable
      then Ok (ReadBytes d, mk buf (readerIndex_ b) (wrap64 (writerIndex_ b + n)))
      else
        let? e := mem_read 0 (wrap64 (n - writable)) extrabuf in
        let? b' := append e (mk buf (readerIndex_ b) (size b)) in
        Ok (ReadBytes d, b')
  end.

(** [writeFd] hands the readable bytes to [write], whose answer is the result;
    the buffer is unchanged. *)
Definition writeFd {R} (write : list byte → R) (b : t) : outcome R :=
  let? d := peek (readableBytes b) b in
  Ok (write d).

(** ** Specification level *)

(** The content: the bytes appended and not yet retrieved. *)
Definition content (b : t) : list byte :=
  slice (readerIndex_ b) (writerIndex_ b - readerIndex_ b) (buffer_ b).

(** The class invariant. *)
Definition wf (b : t) : Prop :=
  CHEAP_PREPEND ≤ readerIndex_ b ∧ readerIndex_ b ≤ writerIndex_ b ∧
  writerIndex_ b ≤ size b ∧ size b ≤ max_size.

(** The vector's size after [append]ing [n] bytes. *)
Definition grown_size (n : Z) (b : t) : Z :=
  if CHEAP_PREPEND + zlen (content b) + n <=? size b then size b
  else writerIndex_ b + n.

(** What [readv] guarantees: no more bytes than the blocks hold. *)
Definition readv_bounded (readv : list Z → read_result) : Prop :=
  ∀ iov d, readv iov = ReadBytes d → zlen d ≤ Z.max 0 (foldr Z.add 0 iov).
End Buffer.

Import Buffer.

(** ** The invariant and the sizes *)

Ltac bcbn := cbn [obind buffer_ readerIndex_ writerIndex_].
Ltac buffer_unfold :=
  unfold wf, size, retrieveAll in *;
  cbn [buffer_ readerIndex_ writerIndex_] in *;
  unfold CHEAP_PREPEND, INIT_SIZE, extrabuf_size, max_size in *.

Section buffer.
Implicit Types b : Buffer.t.

Lemma content_mk buf r w : content (mk buf r w) = slice r (w - r) buf.
Proof. done. Qed.

Lemma ctor_wf n : wf (ctor n).
Proof.
  unfold wf, size, ctor, max_size; cbn [buffer_ readerIndex_ writerIndex_].
  rewrite zlen_replicate by (unfold CHEAP_PREPEND, INIT_SIZE; lia).
  unfold CHEAP_PREPEND, INIT_SIZE; lia.
Qed.

Lemma ctor_content n : content (ctor n) = [].
Proof. unfold content; cbn [ctor buffer_ readerIndex_ writerIndex_]. by apply slice_0. Qed.

Lemma readableBytes_wf b : wf b → readableBytes b = writerIndex_ b - readerIndex_ b.
Proof. intros. unfold readableBytes. buffer_unfold. apply wrap64_small. lia. Qed.

Lemma writableBytes_wf b : wf b → writableBytes b = size b - writerIndex_ b.
Proof. intros. unfold writableBytes. buffer_unfold. apply wrap64_small. lia. Qed.

Lemma zlen_content b : wf b → zlen (content b) = writerIndex_ b - readerIndex_ b.
Proof. intros. unfold content. buffer_unfold. apply zlen_slice; lia. Qed.

Lemma readableBytes_content b : wf b → readableBytes b = zlen (content b).
Proof. intros. by rewrite readableBytes_wf, zlen_content. Qed.

Lemma peek_all b : wf b → peek (readableBytes b) b = Ok (content b).
Proof.
  intros Hb. unfold peek. rewrite readableBytes_wf by done.
  unfold content. apply mem_read_Ok; buffer_unfold; lia.
Qed.

Lemma retrieveAll_wf b : wf b → wf (retrieveAll b).
Proof. intros. buffer_unfold. lia. Qed.

Lemma retrieveAll_content b : content (retrieveAll b) = [].
Proof. unfold content; bcbn. by apply slice_0. Qed.

Lemma retrieve_wf n b : wf b → 0 ≤ n → wf (retrieve n b).
Proof.
  intros Hb Hn. unfold retrieve. destruct (Z.ltb_spec n (readableBytes b)) as [Hlt|].
  - rewrite readableBytes_wf in Hlt by done. buffer_unfold. unwrap. lia.
  - by apply retrieveAll_wf.
Qed.

(** Retrieving drops exactly the first [n] bytes of the content. *)
Lemma retrieve_content n b :
  wf b → 0 ≤ n → content (retrieve n b) = zdrop n (content b).
Proof.
  intros Hb Hn. unfold retrieve. destruct (Z.ltb_spec n (readableBytes b)) as [Hlt|Hge].
  - rewrite readableBytes_wf in Hlt by done. unfold content at 1; bcbn.
    buffer_unfold. unwrap. unfold content. rewrite zdrop_slice by lia. f_equal. lia.
  - rewrite retrieveAll_content, zdrop_ge; [done|].
    by rewrite <- readableBytes_content.
Qed.

Lemma retrieve_size n b : size (retrieve n b) = size b.
Proof. unfold retrieve. by destruct (_ <? _). Qed.

(** Compaction: when the free bytes suffice, [makeSpace] moves the content
    to the front and keeps the vector. *)
Lemma makeSpace_compact n b :
  wf b → 0 ≤ n → CHEAP_PREPEND + zlen (content b) + n ≤ size b →
  ∃ b', makeSpace n b = Ok b' ∧ wf b' ∧ content b' = content b ∧
        size b' = size b ∧ n ≤ size b' - writerIndex_ b'.
Proof.
  intros Hb Hn Hfit. pose proof (zlen_content b Hb) as Hlen.
  unfold makeSpace, prependableBytes. rewrite writableBytes_wf, readableBytes_wf by done.
  buffer_unfold. unwrap. rewrite (proj2 (Z.ltb_ge _ _)) by lia.
  rewrite mem_read_Ok by lia. bcbn. fold (content b).
  rewrite mem_write_Ok by lia. bcbn.
  eexists. split; [done|]. bcbn.
  rewrite zlen_splice by lia. split_and!; try lia.
  rewrite content_mk, Z.add_simpl_l, <- Hlen. apply slice_splice_same; lia.
Qed.

(** Growth: otherwise the vector is resized to [writerIndex_ + n]. *)
Lemma makeSpace_grow n b :
  wf b → 0 ≤ n → size b < CHEAP_PREPEND + zlen (content b) + n →
  size b < writerIndex_ b + n ≤ max_size →
  ∃ b', makeSpace n b = Ok b' ∧ wf b' ∧ content b' = content b ∧
        size b' = writerIndex_ b + n ∧ n ≤ size b' - writerIndex_ b'.
Proof.
  intros Hb Hn Hfull Hmax. pose proof (zlen_content b Hb) as Hlen.
  unfold makeSpace, prependableBytes. rewrite writableBytes_wf by done.
  buffer_unfold. unwrap. rewrite (proj2 (Z.ltb_lt _ _)) by lia.
  rewrite vec_resize_grow by (unfold max_size; lia). bcbn.
  eexists. split; [done|]. bcbn.
  assert (Hz : zlen (buffer_ b ++ replicate (Z.to_nat (writerIndex_ b + n - zlen (buffer_ b))) x00)
           = writerIndex_ b + n) by (rewrite zlen_app, zlen_replicate; lia).
  rewrite Hz. split_and!; try lia. rewrite content_mk, slice_app_l by lia. done.
Qed.

Lemma makeSpace_ok n b :
  wf b → size b - writerIndex_ b < n → writerIndex_ b + n ≤ max_size →
  ∃ b', makeSpace n b = Ok b' ∧ wf b' ∧ content b' = content b ∧
        size b' = grown_size n b ∧ n ≤ size b' - writerIndex_ b'.
Proof.
  intros Hb Hn Hmax. assert (0 ≤ n) by (buffer_unfold; lia). unfold grown_size.
  destruct (Z.leb_spec (CHEAP_PREPEND + zlen (content b) + n) (size b)).
  - by apply makeSpace_compact.
  - apply makeSpace_grow; [done..|lia].
Qed.

Lemma ensureWritableBytes_ok n b :
  wf b → 0 ≤ n → writerIndex_ b + n ≤ max_size →
  ∃ b', ensureWritableBytes n b = Ok b' ∧ wf b' ∧ content b' = content b ∧
        size b' = grown_size n b ∧ n ≤ size b' - writerIndex_ b'.
Proof.
  intros Hb Hn Hmax. unfold ensureWritableBytes. rewrite writableBytes_wf by done.
  destruct (Z.ltb_spec (size b - writerIndex_ b) n); [by apply makeSpace_ok|].
  exists b. split_and!; [done..| |lia]. unfold grown_size.
  pose proof (zlen_content b Hb). rewrite (proj2 (Z.leb_le _ _)); [done|].
  buffer_unfold. lia.
Qed.

(** Storing [d] at the writer index of a buffer with enough space. *)
Lemma store_at_writer d b :
  wf b → zlen d ≤ size b - writerIndex_ b →
  let b' := mk (splice (writerIndex_ b) d (buffer_ b)) (readerIndex_ b)
               (wrap64 (writerIndex_ b + zlen d)) in
  mem_write (writerIndex_ b) d (buffer_ b) = Ok (splice (writerIndex_ b) d (buffer_ b)) ∧
  wf b' ∧ content b' = content b ++ d ∧ size b' = size b.
Proof.
  intros Hb Hd b'. subst b'. pose proof (zlen_nonneg d).
  rewrite content_mk. unfold content. buffer_unfold. unwrap.
  rewrite mem_write_Ok, zlen_splice by lia. split_and!; [done|lia..| |done].
  replace (writerIndex_ b + zlen d - readerIndex_ b)
    with (writerIndex_ b - readerIndex_ b + zlen d) by lia.
  rewrite slice_split by lia. f_equal; [apply slice_splice_below; lia|].
  rewrite Zplus_minus. apply slice_splice_same; lia.
Qed.

Lemma append_ok d b :
  wf b → writerIndex_ b + zlen d ≤ max_size →
  ∃ b', append d b = Ok b' ∧ wf b' ∧ content b' = content b ++ d ∧
        size b' = grown_size (zlen d) b.
Proof.
  intros Hb Hmax. pose proof (zlen_nonneg d).
  destruct (ensureWritableBytes_ok (zlen d) b) as (b1 & E & Hb1 & Hc & Hs & Hw); [done..|].
  unfold append. rewrite E. bcbn.
  destruct (store_at_writer d b1) as (-> & Hb2 & Hc2 & Hs2); [done..|]. bcbn.
  eexists. split; [done|]. split; [done|]. by rewrite Hc2, Hs2, Hc.
Qed.

(** The size never shrinks, and grows by at most the bytes appended. *)
Lemma grown_size_bounds n b :
  wf b → 0 ≤ n → size b ≤ grown_size n b ≤ size b + n.
Proof.
  intros Hb Hn. unfold grown_size. pose proof (zlen_content b Hb).
  destruct (Z.leb_spec (CHEAP_PREPEND + zlen (content b) + n) (size b));
    buffer_unfold; lia.
Qed.

Lemma extrabuf_roundtrip e :
  zlen e ≤ extrabuf_size →
  ∃ x, mem_write 0 e (replicate (Z.to_nat extrabuf_size) x00) = Ok x ∧
       mem_read 0 (zlen e) x = Ok e.
Proof.
  intros He. pose proof (zlen_nonneg e).
  assert (Hz : zlen (replicate (Z.to_nat extrabuf_size) x00) = extrabuf_size)
    by (apply zlen_replicate; unfold extrabuf_size; lia).
  eexists. split; [apply mem_write_Ok; lia|].
  rewrite mem_read_Ok by (rewrite ?zlen_splice; lia).
  f_equal. apply slice_splice_same; lia.
Qed.

Lemma readv_bounded_extra readv d b :
  wf b → readv_bounded readv → readv (iovecs b) = ReadBytes d →
  zlen (zdrop (writableBytes b) d) ≤ extrabuf_size.
Proof.
  intros Hb Hbd Hr. apply Hbd in Hr. unfold iovecs in Hr.
  pose proof (wrap64_range (size b - writerIndex_ b)).
  unfold writableBytes, extrabuf_size in *.
  destruct (_ <? _) in Hr; cbn [foldr] in Hr; zlen_lia.
Qed.

(** What [readv] delivered is in the vector, and the part that did not fit in
    [extrabuf], which is appended. *)
Lemma readFd_bytes readv d b :
  wf b → readv_bounded readv → readv (iovecs b) = ReadBytes d →
  ∃ b1 e, wf b1 ∧ content b1 ++ e = content b ++ d ∧ size b1 = size b ∧
    zlen e ≤ extrabuf_size ∧ writerIndex_ b1 ≤ size b ∧ (zlen d ≤ writableBytes b → e = []) ∧
    readFd readv b =
      if zlen d <=? writableBytes b then Ok (ReadBytes d, b1)
      else let? b' := append e b1 in Ok (ReadBytes d, b').
Proof.
  intros Hb Hbd Hr. pose proof (zlen_nonneg d).
  pose proof (readv_bounded_extra _ _ _ Hb Hbd Hr) as Hx0.
  destruct (extrabuf_roundtrip _ Hx0) as (x & Hx & Hxr).
  unfold readFd. rewrite Hr, Hx. rewrite writableBytes_wf in * by done.
  set (w := size b - writerIndex_ b) in *. assert (0 ≤ w) by (subst w; buffer_unfold; lia).
  destruct (store_at_writer (ztake w d) b) as (-> & Hb1 & Hc1 & Hs1);
    [done|subst w; zlen_lia|]. bcbn.
  destruct (Z.leb_spec (zlen d) w) as [Hle|Hgt].
  - rewrite (ztake_ge w d) in * by done. eexists _, []. split; [exact Hb1|].
    rewrite Hc1, app_nil_r. split_and!; try done. rewrite <- Hs1. buffer_unfold. lia.
  - assert (Hz : zlen (ztake w d) = w) by zlen_lia. rewrite Hz in *.
    assert (Hz' : zlen (zdrop w d) = zlen d - w) by zlen_lia.
    replace (wrap64 (writerIndex_ b + w)) with (size b) in *
      by (subst w; buffer_unfold; unwrap; lia).
    replace (wrap64 (zlen d - w)) with (zlen (zdrop w d))
      by (rewrite wrap64_small by (unfold extrabuf_size in *; lia); lia).
    rewrite Hxr. bcbn. eexists _, (zdrop w d). split; [exact Hb1|].
    rewrite Hc1, <- app_assoc, ztake_zdrop. split_and!; (done || lia).
Qed.

(** A [readv] answer is at most the writable space plus [extrabuf]. *)
Lemma readFd_ok readv d b :
  wf b → readv_bounded readv → readv (iovecs b) = ReadBytes d →
  size b + extrabuf_size ≤ max_size →
  ∃ b', readFd readv b = Ok (ReadBytes d, b') ∧ wf b' ∧ content b' = content b ++ d ∧
        size b ≤ size b' ≤ size b + extrabuf_size.
Proof.
  intros Hb Hbd Hr Hmax.
  destruct (readFd_bytes _ _ _ Hb Hbd Hr) as (b1 & e & Hb1 & Hc & Hs & He & Hw & Hnil & ->).
  destruct (Z.leb_spec (zlen d) (writableBytes b)) as [Hle|_].
  - exists b1. rewrite (Hnil Hle), app_nil_r in Hc. unfold extrabuf_size.
    split_and!; (done || lia).
  - destruct (append_ok e b1) as (b2 & -> & Hb2 & Hc2 & Hs2); [done|lia|]. bcbn.
    exists b2. rewrite Hc2, Hc.
    pose proof (grown_size_bounds (zlen e) b1 Hb1 (zlen_nonneg _)). split_and!; (done || lia).
Qed.

(** Without a bound on the sizes: the operations still end well, or throw
    [std::length_error]. *)
Lemma ensureWritableBytes_too_long n b :
  wf b → size b < CHEAP_PREPEND + zlen (content b) + n →
  max_size < writerIndex_ b + n → n ≤ max_size →
  ensureWritableBytes n b = Fault LengthError.
Proof.
  intros Hb Hfull Hmax Hn. pose proof (zlen_content b Hb) as Hlen.
  unfold ensureWritableBytes. rewrite writableBytes_wf by done.
  rewrite (proj2 (Z.ltb_lt _ _)) by (buffer_unfold; lia).
  unfold makeSpace, prependableBytes. rewrite writableBytes_wf by done.
  rewrite (wrap64_small (size b - _ + _)) by (buffer_unfold; lia).
  rewrite (wrap64_small (n + _)) by (buffer_unfold; lia).
  rewrite (proj2 (Z.ltb_lt _ _)) by (buffer_unfold; lia).
  rewrite wrap64_small by (buffer_unfold; lia).
  unfold vec_resize. by rewrite (proj2 (Z.ltb_lt _ _)).
Qed.

Lemma append_total d b :
  wf b → zlen d ≤ max_size →
  (∃ b', append d b = Ok b' ∧ wf b') ∨ append d b = Fault LengthError.
Proof.
  intros Hb Hd. pose proof (zlen_nonneg d).
  destruct (Z.le_gt_cases (writerIndex_ b + zlen d) max_size) as [Hmax|Hmax].
  { left. destruct (append_ok d b) as (b' & ? & ? & _); eauto. }
  destruct (Z.lt_ge_cases (size b) (CHEAP_PREPEND + zlen (content b) + zlen d)) as [Hfull|Hfit].
  { right. unfold append. by rewrite ensureWritableBytes_too_long. }
  left. destruct (makeSpace_compact (zlen d) b) as (b1 & E & Hb1 & _ & _ & Hw); [done..|].
  unfold append, ensureWritableBytes. rewrite writableBytes_wf by done.
  rewrite (proj2 (Z.ltb_lt _ _)) by (buffer_unfold; lia). rewrite E. bcbn.
  destruct (store_at_writer d b1) as (-> & Hb2 & _); [done..|]. bcbn. eauto.
Qed.

Lemma readFd_total readv b :
  wf b → readv_bounded readv →
  (∃ r b', readFd readv b = Ok (r, b') ∧ wf b') ∨ readFd readv b = Fault LengthError.
Proof.
  intros Hb Hbd. destruct (readv (iovecs b)) as [d|e] eqn:Hr.
  - destruct (readFd_bytes _ _ _ Hb Hbd Hr) as (b1 & e & Hb1 & _ & _ & He & _ & _ & ->).
    destruct (_ <=? _); [left; eauto|].
    destruct (append_total e b1 Hb1) as [(b2 & -> & Hb2)| ->];
      [unfold extrabuf_size, max_size in *; lia|left; eauto|by right].
  - left. unfold readFd. rewrite Hr. eauto.
Qed.

Lemma readFd_error readv e b :
  readv (iovecs b) = ReadError e → readFd readv b = Ok (ReadError e, b).
Proof. intros Hr. unfold readFd. by rewrite Hr. Qed.

Lemma writeFd_ok {R} (write : list byte → R) b :
  wf b → writeFd write b = Ok (write (content b)).
Proof. intros. unfold writeFd. by rewrite peek_all. Qed.

Lemma retrieveAsString_ok n b :
  wf b → 0 ≤ n ≤ zlen (content b) →
  retrieveAsString n b = Ok (ztake n (content b), retrieve n b).
Proof.
  intros Hb Hn. pose proof (zlen_content b Hb). unfold retrieveAsString, peek.
  rewrite mem_read_Ok by (buffer_unfold; lia). bcbn. unfold content.
  by rewrite ztake_slice by lia.
Qed.

Lemma retrieveAllAsString_ok b :
  wf b → retrieveAllAsString b = Ok (content b, retrieveAll b).
Proof.
  intros Hb. unfold retrieveAllAsString. pose proof (zlen_nonneg (content b)).
  rewrite readableBytes_content, retrieveAsString_ok by (done || lia).
  rewrite ztake_ge by done. unfold retrieve.
  by rewrite readableBytes_content, Z.ltb_irrefl.
Qed.
End buffer.

#[export] Hint Resolve ctor_wf retrieve_wf retrieveAll_wf : core.

(** ** Refinement of a byte queue

    The abstract buffer is a list of bytes.  Arriving bytes go to its end;
    retrieval takes from its front; [writeFd] shows all of it to the kernel. *)
Inductive op :=
  | Append (d : list byte)
  | Retrieve (n : Z)
  | RetrieveAllAsString
  | ReadFd (readv : list Z → read_result)
  | WriteFd (write : list byte → write_result).

Inductive out :=
  | ONone
  | OBytes (d : list byte)
  | ORead (r : read_result)
  | OWrote (r : write_result).

Definition exec (o : op) (b : Buffer.t) : outcome (out * Buffer.t) :=
  match o with
  | Append d => let? b' := append d b in Ok (ONone, b')
  | Retrieve n => Ok (ONone, retrieve n b)
  | RetrieveAllAsString => let? r := retrieveAllAsString b in Ok (OBytes r.1, r.2)
  | ReadFd readv => let? r := readFd readv b in Ok (ORead r.1, r.2)
  | WriteFd write => let? r := writeFd write b in Ok (OWrote r, b)
  end.

Fixpoint run (os : list op) (b : Buffer.t) : outcome (list out * Buffer.t) :=
  match os with
  | [] => Ok ([], b)
  | o :: os' =>
      let? r := exec o b in
      let? rs := run os' r.2 in
      Ok (r.1 :: rs.1, rs.2)
  end.

(** One step of the abstract queue. *)
Inductive qstep : op → list byte → out → list byte → Prop :=
  | q_append d q : qstep (Append d) q ONone (q ++ d)
  | q_retrieve n q : qstep (Retrieve n) q ONone (zdrop n q)
  | q_retrieveAll q : qstep RetrieveAllAsString q (OBytes q) []
  | q_read readv iov d q :
      readv iov = ReadBytes d → qstep (ReadFd readv) q (ORead (ReadBytes d)) (q ++ d)
  | q_read_error readv iov e q :
      readv iov = ReadError e → qstep (ReadFd readv) q (ORead (ReadError e)) q
  | q_write write q : qstep (WriteFd write) q (OWrote (write q)) q.

Inductive qsteps : list op → list byte → list out → list byte → Prop :=
  | qs_nil q : qsteps [] q [] q
  | qs_cons o os q r q1 rs q2 :
      qstep o q r q1 → qsteps os q1 rs q2 → qsteps (o :: os) q (r :: rs) q2.

Definition op_ok (o : op) : Prop :=
  match o with
  | Retrieve n => 0 ≤ n
  | ReadFd readv => readv_bounded readv
  | _ => True
  end.

(** How much a step can enlarge the vector. *)
Definition op_growth (o : op) : Z :=
  match o with
  | Append d => zlen d
  | ReadFd _ => extrabuf_size
  | _ => 0
  end.

Lemma op_growth_nonneg o : 0 ≤ op_growth o.
Proof. destruct o; cbn; [apply zlen_nonneg|done..]. Qed.

Lemma total_growth_nonneg os : 0 ≤ foldr Z.add 0 (op_growth <$> os).
Proof. induction os as [|o os IH]; cbn; [done|]. pose proof (op_growth_nonneg o). lia. Qed.

Lemma exec_refines o b :
  wf b → op_ok o → size b + op_growth o ≤ max_size →
  ∃ r b', exec o b = Ok (r, b') ∧ wf b' ∧ qstep o (content b) r (content b') ∧
          size b' ≤ size b + op_growth o.
Proof.
  intros Hb Ho Hg. destruct o as [d|n| |readv|write]; cbn [op_growth exec op_ok] in *.
  - destruct (append_ok d b) as (b' & -> & Hb' & Hc & Hs); [done|buffer_unfold; lia|].
    pose proof (grown_size_bounds (zlen d) b Hb (zlen_nonneg d)). cbn.
    do 2 eexists. split_and!; [done..| |lia]. rewrite Hc. constructor.
  - do 2 eexists. split; [done|]. rewrite retrieve_content, retrieve_size by done.
    split_and!; [eauto|constructor|lia].
  - rewrite retrieveAllAsString_ok by done. cbn. do 2 eexists. split; [done|].
    rewrite retrieveAll_content. split_and!; [eauto|constructor|].
    change (size (retrieveAll b)) with (size b). lia.
  - destruct (readv (iovecs b)) as [d|e] eqn:E.
    + destruct (readFd_ok readv d b) as (b' & -> & Hb' & Hc & Hs); [done..|]. cbn.
      do 2 eexists. split_and!; [done..| |lia]. rewrite Hc. by econstructor.
    + rewrite (readFd_error _ e) by done. cbn. do 2 eexists. split; [done|].
      split_and!; [done|by eapply q_read_error|unfold extrabuf_size; lia].
  - rewrite writeFd_ok by done. cbn. do 2 eexists. split; [done|].
    split_and!; [done|constructor|lia].
Qed.

(** C11: any sequence of buffer operations behaves like the byte queue: it
    never leaves the vector's bounds or throws while the vector can hold the
    bytes, keeps the class invariant, and its answers and final content are
    those of a run of the abstract queue. *)
Theorem buffer_refines_byte_queue os b :
  wf b → Forall op_ok os → size b + foldr Z.add 0 (op_growth <$> os) ≤ max_size →
  ∃ rs b', run os b = Ok (rs, b') ∧ wf b' ∧ qsteps os (content b) rs (content b').
Proof.
  revert b. induction os as [|o os IH]; intros b Hb Hos Hg.
  - exists [], b. split_and!; [done..|constructor].
  - inversion_clear Hos as [|? ? Ho Hos']. cbn [fmap list_fmap foldr] in Hg.
    pose proof (total_growth_nonneg os).
    destruct (exec_refines o b) as (r & b1 & E & Hb1 & Hq & Hs); [done..|lia|].
    destruct (IH b1) as (rs & b2 & E2 & Hb2 & Hqs); [done..|lia|].
    exists (r :: rs), b2. cbn [run]. rewrite E. cbn [obind fst snd]. rewrite E2.
    split_and!; [done..|]. by econstructor.
Qed.

(** A socket that delivers [d] when the blocks hold it. *)
Definition deliver (d : list byte) (iov : list Z) : read_result :=
  if zlen d <=? foldr Z.add 0 iov then ReadBytes d else ReadError 11.

Lemma deliver_bounded d : readv_bounded (deliver d).
Proof.
  intros iov d' H. unfold deliver in H.
  destruct (Z.leb_spec (zlen d) (foldr Z.add 0 iov)); [|done]. injection H as <-. lia.
Qed.

Lemma buffer_refines_byte_queue_witness :
  let os := [Append [x01; x02; x03]; Retrieve 2;
             ReadFd (deliver [x04]); RetrieveAllAsString] in
  ∃ rs b', run os (ctor 0) = Ok (rs, b') ∧ wf b' ∧
           qsteps os (content (ctor 0)) rs (content b').
Proof.
  apply buffer_refines_byte_queue.
  - apply ctor_wf.
  - repeat constructor; [done|apply deliver_bounded].
  - by vm_compute.
Defined.

(** Appending keeps the bytes already there, adds the new ones at the end,
    and reallocates only when the vector cannot hold [CHEAP_PREPEND], the
    content and the new bytes: otherwise the content is moved to the front. *)
Theorem append_content_and_growth d b :
  wf b → writerIndex_ b + zlen d ≤ max_size →
  ∃ b', append d b = Ok b' ∧ wf b' ∧ content b' = content b ++ d ∧
        size b' = if CHEAP_PREPEND + zlen (content b) + zlen d <=? size b
                  then size b else writerIndex_ b + zlen d.
Proof. apply append_ok. Qed.

Lemma append_content_and_growth_witness :
  let b := ctor 0 in
  ∃ b', append [x41; x42] b = Ok b' ∧ wf b' ∧ content b' = content b ++ [x41; x42] ∧
        size b' = if CHEAP_PREPEND + zlen (content b) + zlen [x41; x42] <=? size b
                  then size b else writerIndex_ b + zlen [x41; x42].
Proof. apply append_content_and_growth; [apply ctor_wf|by vm_compute]. Defined.

(** The byte count [retrieveAsString] is given is not checked against the
    readable bytes: within them it returns and removes a prefix of the
    content; beyond them but inside the vector it returns the content followed
    by stale bytes and empties the buffer; beyond the vector it reads out of
    bounds. *)
Theorem retrieveAsString_cases n b :
  wf b → 0 ≤ n →
  (n ≤ zlen (content b) ∧
     ∃ b', retrieveAsString n b = Ok (ztake n (content b), b') ∧ wf b' ∧
           content b' = zdrop n (content b)) ∨
  (zlen (content b) < n ≤ size b - readerIndex_ b ∧
     ∃ stale, retrieveAsString n b = Ok (content b ++ stale, retrieveAll b) ∧
              zlen stale = n - zlen (content b)) ∨
  (size b - readerIndex_ b < n ∧ retrieveAsString n b = Fault OutOfBounds).
Proof.
  intros Hb Hn. pose proof (zlen_content b Hb) as Hlen.
  destruct (Z.le_gt_cases n (zlen (content b))) as [Hle|Hgt]; [left|right].
  { split; [done|]. rewrite retrieveAsString_ok by done. eexists. split; [done|].
    split; [auto|by apply retrieve_content]. }
  unfold retrieveAsString, peek.
  destruct (Z.le_gt_cases n (size b - readerIndex_ b)) as [Hin|Hout]; [left|right].
  - rewrite mem_read_Ok by (buffer_unfold; lia). bcbn. split; [lia|].
    exists (slice (writerIndex_ b) (n - zlen (content b)) (buffer_ b)). split.
    + f_equal. f_equal.
      * replace n with (zlen (content b) + (n - zlen (content b))) at 1 by lia.
        rewrite slice_split by (buffer_unfold; lia). rewrite Hlen at 1 2.
        by rewrite Zplus_minus.
      * unfold retrieve. rewrite readableBytes_content by done.
        by rewrite (proj2 (Z.ltb_ge _ _)) by lia.
    + apply zlen_slice; buffer_unfold; lia.
  - split; [done|]. unfold mem_read.
    rewrite (proj2 (Z.leb_gt (readerIndex_ b + n) _)) by (buffer_unfold; lia).
    by rewrite andb_false_r.
Qed.

Lemma retrieveAsString_cases_witness :
  let b := ctor 0 in
  (2000 ≤ zlen (content b) ∧
     ∃ b', retrieveAsString 2000 b = Ok (ztake 2000 (content b), b') ∧ wf b' ∧
           content b' = zdrop 2000 (content b)) ∨
  (zlen (content b) < 2000 ≤ size b - readerIndex_ b ∧
     ∃ stale, retrieveAsString 2000 b = Ok (content b ++ stale, retrieveAll b) ∧
              zlen stale = 2000 - zlen (content b)) ∨
  (size b - readerIndex_ b < 2000 ∧ retrieveAsString 2000 b = Fault OutOfBounds).
Proof. apply retrieveAsString_cases; [apply ctor_wf|done]. Defined.

(** Making room for bytes the vector can never hold throws
    [std::length_error], and so does appending them. *)
Theorem append_too_long n b :
  wf b → size b < CHEAP_PREPEND + zlen (content b) + n →
  max_size < writerIndex_ b + n → n ≤ max_size →
  ensureWritableBytes n b = Fault LengthError ∧
  ∀ d, zlen d = n → append d b = Fault LengthError.
Proof.
  intros Hb Hfull Hmax Hn.
  pose proof (ensureWritableBytes_too_long _ _ Hb Hfull Hmax Hn) as E.
  split; [done|]. intros d Hd. unfold append. by rewrite Hd, E.
Qed.

Lemma append_too_long_witness :
  ensureWritableBytes (2 ^ 63 - 1) (ctor 0) = Fault LengthError ∧
  ∀ d, zlen d = 2 ^ 63 - 1 → append d (ctor 0) = Fault LengthError.
Proof. apply append_too_long; [apply ctor_wf|by vm_compute..]. Defined.
