(* ===== verification/Kernel.v ===== *)
(** * The operating system's side: epoll, eventfd and socket answers

    The code under src/ drives the kernel through [epoll_ctl], [epoll_wait],
    an [eventfd] and socket calls.  None of that is source of the program, so
    it is a parameter here: [Kernel] lists the stateful calls, and [KernelOk]
    the documented behaviour (epoll_ctl(2), eventfd(2)) the theorems rely on.
    [RefKernel] is an instance of both, used to evaluate the model.

    The other calls ([readv], [write], [accept4], ...) answer from an oracle:
    a stream of [sysret], which [World.v] clamps to what the manual pages
    allow, so that every stream is a possible behaviour of the kernel. *)

From stdpp Require Import base tactics numbers list gmap.
From Stdlib Require Import ZArith Lia.
From S2P Require Import Prelude.

Local Open Scope Z_scope.

(** Addresses of heap objects; 0 is [nullptr]. *)
Definition ptr : Type := Z.

(** A [Channel*]: channels live inside the object that owns them, an
    [EventLoop] (its wakeup channel), the [Acceptor] or a [TcpConnection]. *)
Inductive chptr :=
  | ChWakeup (l : ptr)
  | ChAccept
  | ChConn (p : ptr).

#[export] Instance chptr_eq_dec : EqDecision chptr.
Proof. solve_decision. Defined.

Inductive ctl_op := EPOLL_CTL_ADD | EPOLL_CTL_DEL | EPOLL_CTL_MOD.

#[export] Instance ctl_op_eq_dec : EqDecision ctl_op.
Proof. solve_decision. Defined.

(** The event bits of <sys/epoll.h>. *)
Definition EPOLLIN : Z := 1.
Definition EPOLLPRI : Z := 2.
Definition EPOLLOUT : Z := 4.
Definition EPOLLERR : Z := 8.
Definition EPOLLHUP : Z := 16.

(** The error numbers the code distinguishes. *)
Definition ENOENT : Z := 2.
Definition EINTR : Z := 4.
Definition EWOULDBLOCK : Z := 11.
Definition EEXIST : Z := 17.
Definition EPIPE : Z := 32.
Definition ECONNRESET : Z := 104.

(** The largest value of an eventfd counter. *)
Definition EVENTFD_MAX : Z := 2 ^ 64 - 2.

Class Kernel (K : Type) := {
  (** [epoll_ctl(epfd, op, fd, {events, data.ptr})]: the new state, and
      [None] for the return value 0 or [Some errno] for -1. *)
  epoll_ctl : Z → ctl_op → Z → Z → chptr → K → K * option Z;
  (** The interest list: what [epfd] watches [fd] for. *)
  interest : K → Z → Z → option (Z * chptr);
  (** [write] of the value 1 to, and [read] from, a non-blocking eventfd; the
      result is the return value of the call. *)
  eventfd_write : Z → K → K * Z;
  eventfd_read : Z → K → K * Z;
  eventfd_count : K → Z → Z }.

(** The interest-list entry a successful [epoll_ctl] leaves. *)
Definition ctl_entry (o : ctl_op) (ev : Z) (p : chptr) : option (Z * chptr) :=
  match o with EPOLL_CTL_DEL => None | _ => Some (ev, p) end.

Class KernelOk (K : Type) `{Kernel K} := {
  ctl_success ep o fd ev p k k' :
    epoll_ctl ep o fd ev p k = (k', None) →
    ∀ ep' fd', interest k' ep' fd' =
      if decide (ep' = ep ∧ fd' = fd) then ctl_entry o ev p else interest k ep' fd';
  ctl_failure ep o fd ev p k k' e :
    epoll_ctl ep o fd ev p k = (k', Some e) →
    ∀ ep' fd', interest k' ep' fd' = interest k ep' fd';
  ctl_add_present ep fd ev p k :
    interest k ep fd ≠ None → (epoll_ctl ep EPOLL_CTL_ADD fd ev p k).2 = Some EEXIST;
  ctl_absent ep o fd ev p k :
    o ≠ EPOLL_CTL_ADD → interest k ep fd = None → (epoll_ctl ep o fd ev p k).2 = Some ENOENT;
  ctl_present ep o fd ev p k :
    o ≠ EPOLL_CTL_ADD → interest k ep fd ≠ None → (epoll_ctl ep o fd ev p k).2 = None;
  ctl_count ep o fd ev p k fd' :
    eventfd_count (epoll_ctl ep o fd ev p k).1 fd' = eventfd_count k fd';
  evw_interest fd k ep fd' : interest (eventfd_write fd k).1 ep fd' = interest k ep fd';
  evr_interest fd k ep fd' : interest (eventfd_read fd k).1 ep fd' = interest k ep fd';
  evw_count fd k fd' :
    eventfd_count (eventfd_write fd k).1 fd' =
      if decide (fd' = fd ∧ eventfd_count k fd < EVENTFD_MAX)
      then eventfd_count k fd + 1 else eventfd_count k fd';
  evw_ret fd k :
    (eventfd_write fd k).2 = if decide (eventfd_count k fd < EVENTFD_MAX) then 8 else -1;
  evr_count fd k fd' :
    eventfd_count (eventfd_read fd k).1 fd' =
      if decide (fd' = fd) then 0 else eventfd_count k fd';
  evr_ret fd k :
    (eventfd_read fd k).2 = if decide (0 < eventfd_count k fd) then 8 else -1;
  evcount_range k fd : 0 ≤ eventfd_count k fd ≤ EVENTFD_MAX }.

(** [EPOLL_CTL_ADD] can fail for lack of resources (ENOMEM, ENOSPC); this
    says it does not in state [k]. *)
Definition ctl_has_room {K} `{Kernel K} (k : K) : Prop :=
  ∀ ep fd ev p, interest k ep fd = None → (epoll_ctl ep EPOLL_CTL_ADD fd ev p k).2 = None.

Section kernel.
Context {K : Type} `{KernelOk K}.

(** An entry after [epoll_ctl] was there before or is the one set. *)
Lemma ctl_entries ep o fd ev p (k : K) ep' fd' ev' q :
  interest (epoll_ctl ep o fd ev p k).1 ep' fd' = Some (ev', q) →
  interest k ep' fd' = Some (ev', q) ∨ (q = p ∧ ep' = ep ∧ fd' = fd ∧ o ≠ EPOLL_CTL_DEL).
Proof.
  destruct (epoll_ctl ep o fd ev p k) as [k' [e|]] eqn:E; cbn [fst].
  - rewrite (ctl_failure _ _ _ _ _ _ _ _ E). by left.
  - rewrite (ctl_success _ _ _ _ _ _ _ E). case_decide as Hd; [|by left].
    destruct Hd as [-> ->]. destruct o; cbn; intros [= <- <-]; by right.
Qed.

(** The three outcomes of [epoll_ctl] in terms of the interest list. *)
Lemma ctl_change_ok ep o fd ev p k :
  o ≠ EPOLL_CTL_ADD → interest k ep fd ≠ None →
  ∃ k', epoll_ctl ep o fd ev p k = (k', None) ∧
    interest k' ep fd = ctl_entry o ev p ∧
    (∀ ep' fd', ¬ (ep' = ep ∧ fd' = fd) → interest k' ep' fd' = interest k ep' fd').
Proof.
  intros Ho Hi. destruct (epoll_ctl ep o fd ev p k) as [k' r] eqn:E.
  pose proof (ctl_present ep o fd ev p k Ho Hi) as Hr. rewrite E in Hr. cbn in Hr. subst r.
  pose proof (ctl_success _ _ _ _ _ _ _ E) as Hs. exists k'. split_and!; [done| |].
  - rewrite Hs. by rewrite decide_True.
  - intros ep' fd' Hne. rewrite Hs. by rewrite decide_False.
Qed.

Lemma ctl_add_ok ep fd ev p k :
  ctl_has_room k → interest k ep fd = None →
  ∃ k', epoll_ctl ep EPOLL_CTL_ADD fd ev p k = (k', None) ∧
    interest k' ep fd = Some (ev, p) ∧
    (∀ ep' fd', ¬ (ep' = ep ∧ fd' = fd) → interest k' ep' fd' = interest k ep' fd').
Proof.
  intros Ho Hi. destruct (epoll_ctl ep EPOLL_CTL_ADD fd ev p k) as [k' r] eqn:E.
  pose proof (Ho ep fd ev p Hi) as Hr. rewrite E in Hr. cbn in Hr. subst r.
  pose proof (ctl_success _ _ _ _ _ _ _ E) as Hs. exists k'. split_and!; [done| |].
  - rewrite Hs. by rewrite decide_True.
  - intros ep' fd' Hne. rewrite Hs. by rewrite decide_False.
Qed.

(** An [epoll_ctl] on descriptor [fd] leaves the other entries alone. *)
Lemma ctl_frame ep o fd ev p (k : K) ep' fd' :
  ¬ (ep' = ep ∧ fd' = fd) →
  interest (epoll_ctl ep o fd ev p k).1 ep' fd' = interest k ep' fd'.
Proof.
  intros Hne. destruct (epoll_ctl ep o fd ev p k) as [k' [e|]] eqn:E; cbn [fst].
  - by rewrite (ctl_failure _ _ _ _ _ _ _ _ E).
  - rewrite (ctl_success _ _ _ _ _ _ _ E). by rewrite decide_False.
Qed.

(** A deletion leaves no entry, whether it succeeds or not. *)
Lemma ctl_del_gone ep fd ev p (k : K) :
  interest (epoll_ctl ep EPOLL_CTL_DEL fd ev p k).1 ep fd = None.
Proof.
  destruct (epoll_ctl ep EPOLL_CTL_DEL fd ev p k) as [k' [e|]] eqn:E; cbn [fst].
  - rewrite (ctl_failure _ _ _ _ _ _ _ _ E).
    destruct (interest k ep fd) as [i|] eqn:Ei; [|done].
    pose proof (ctl_present ep EPOLL_CTL_DEL fd ev p k) as Hp. rewrite E, Ei in Hp.
    by discriminate Hp.
  - rewrite (ctl_success _ _ _ _ _ _ _ E). by rewrite decide_True.
Qed.

(** A wakeup makes the eventfd readable, whatever its counter was. *)
Lemma evw_readable fd k : 0 < eventfd_count (eventfd_write fd k).1 fd.
Proof.
  rewrite evw_count. pose proof (evcount_range k fd). case_decide as Hd; [lia|].
  unfold EVENTFD_MAX in *. destruct (decide (eventfd_count k fd < 2 ^ 64 - 2)); [|lia].
  by destruct Hd.
Qed.

(** Writing never makes a readable eventfd unreadable. *)
Lemma evw_mono fd k fd' :
  eventfd_count k fd' ≤ eventfd_count (eventfd_write fd k).1 fd'.
Proof. rewrite evw_count. case_decide as Hd; [|lia]. destruct Hd as [-> _]. lia. Qed.
End kernel.

(** ** The reference instance *)
Module RefKernel.
Record t := mk {
  table : gmap (Z * Z) (Z * chptr);
  counters : gmap Z Z }.

Definition empty : t := mk ∅ ∅.

(** Counters are kept in range on reading, so the laws hold of every [t]. *)
Definition count (k : t) (fd : Z) : Z :=
  Z.max 0 (Z.min EVENTFD_MAX (default 0 (counters k !! fd))).

#[global] Instance kernel : Kernel t := {
  epoll_ctl ep o fd ev p k :=
    match o, table k !! (ep, fd) with
    | EPOLL_CTL_ADD, None => (mk (<[(ep, fd) := (ev, p)]> (table k)) (counters k), None)
    | EPOLL_CTL_ADD, Some _ => (k, Some EEXIST)
    | EPOLL_CTL_MOD, Some _ => (mk (<[(ep, fd) := (ev, p)]> (table k)) (counters k), None)
    | EPOLL_CTL_DEL, Some _ => (mk (delete (ep, fd) (table k)) (counters k), None)
    | _, None => (k, Some ENOENT)
    end;
  interest k ep fd := table k !! (ep, fd);
  eventfd_write fd k :=
    if decide (count k fd < EVENTFD_MAX)
    then (mk (table k) (<[fd := count k fd + 1]> (counters k)), 8) else (k, -1);
  eventfd_read fd k :=
    if decide (0 < count k fd)
    then (mk (table k) (<[fd := 0]> (counters k)), 8) else (k, -1);
  eventfd_count := count }.

Lemma count_insert fd v k fd' :
  0 ≤ v ≤ EVENTFD_MAX →
  count (mk (table k) (<[fd := v]> (counters k))) fd' = if decide (fd' = fd) then v else count k fd'.
Proof.
  intros Hv. unfold count; cbn [counters]. rewrite lookup_insert.
  repeat case_decide; subst; cbn; try done. lia.
Qed.

Lemma count_range k fd : 0 ≤ count k fd ≤ EVENTFD_MAX.
Proof. unfold count, EVENTFD_MAX. lia. Qed.

Lemma has_room k : ctl_has_room (K := t) k.
Proof. intros ep fd ev p. cbn. by intros ->. Qed.

#[global] Instance kernel_ok : KernelOk t.
Proof.
  assert (Hmax : 0 ≤ EVENTFD_MAX) by (by unfold EVENTFD_MAX).
  split; cbn.
  - intros ep o fd ev p k k' E ep' fd'.
    destruct o, (table k !! (ep, fd)); simplify_eq; cbn;
      rewrite ?lookup_insert, ?lookup_delete; repeat case_decide; naive_solver.
  - intros ep o fd ev p k k' e E ep' fd'. destruct o, (table k !! (ep, fd)); by simplify_eq.
  - intros ep fd ev p k Hi. by destruct (table k !! (ep, fd)).
  - intros ep o fd ev p k Ho Hi. rewrite Hi. by destruct o.
  - intros ep o fd ev p k Ho Hi. by destruct o, (table k !! (ep, fd)).
  - intros ep o fd ev p k fd'. by destruct o, (table k !! (ep, fd)).
  - intros fd k ep fd'. by case_decide.
  - intros fd k ep fd'. by case_decide.
  - intros fd k fd'. pose proof (count_range k fd). case_decide; cbn [fst].
    + rewrite count_insert by lia. repeat case_decide; naive_solver.
    + rewrite decide_False; naive_solver.
  - intros fd k. by case_decide.
  - intros fd k fd'. pose proof (count_range k fd). case_decide; cbn [fst].
    + by rewrite count_insert by lia.
    + case_decide; [|done]. subst. lia.
  - intros fd k. by case_decide.
  - intros k fd. apply count_range.
Qed.
End RefKernel.

(** ** A kernel out of resources: every [EPOLL_CTL_ADD] fails with ENOSPC *)
Module FullKernel.
Record t := mk { base : RefKernel.t }.

#[global] Instance kernel : Kernel t := {
  epoll_ctl ep o fd ev p k :=
    (k, Some (match o with EPOLL_CTL_ADD => 28 | _ => ENOENT end));
  interest k ep fd := None;
  eventfd_write fd k := let r := eventfd_write fd (base k) in (mk r.1, r.2);
  eventfd_read fd k := let r := eventfd_read fd (base k) in (mk r.1, r.2);
  eventfd_count k fd := eventfd_count (base k) fd }.

#[global] Instance kernel_ok : KernelOk t.
Proof.
  split; cbn [epoll_ctl interest eventfd_write eventfd_read eventfd_count kernel fst snd base];
    try done.
  - intros ep o fd ev p k Ho _. by destruct o.
  - intros fd k. apply evw_count.
  - intros fd k. apply evw_ret.
  - intros fd k. apply evr_count.
  - intros fd k. apply evr_ret.
  - intros k. apply evcount_range.
Qed.
End FullKernel.
