(* ===== verification/World.v ===== *)
(** * The objects of the network library

    The classes of include/ as records, the deferred calls ([Functor],
    [closure]) as data, and the process state [World] they live in.  An object
    that others point to is an entry of a map from addresses, so aliasing and
    dangling pointers are those of the code: [load_conn] of an address whose
    object was destroyed is the fault [Dangling]. *)

From stdpp Require Import base tactics numbers list gmap strings.
From Stdlib Require Import ZArith Lia.
From S2P Require Import Prelude NetBuffer Kernel.

Local Open Scope Z_scope.
Local Open Scope prog_scope.

(** A user callback ([std::function]): a token that names it, or empty. *)
Definition callback : Type := option Z.

(** The callbacks a [Channel] can hold: [std::bind]s of member functions. *)
Inductive closure :=
  | CbLoopHandleRead (l : ptr)
  | CbAcceptorHandleRead
  | CbConnHandleRead (p : ptr)
  | CbConnHandleWrite (p : ptr)
  | CbConnHandleClose (p : ptr)
  | CbConnHandleError (p : ptr).

(** What can wait in [EventLoop::pengdingFuntors_]. [FSendInLoop] holds the
    address of the caller's string, as [buf.c_str()] does, and its size. *)
Inductive Functor :=
  | FSendInLoop (p : ptr) (buf : ptr) (len : Z)
  | FSendFileInLoop (p : ptr) (fileDescriptor offset count : Z)
  | FShutdownInLoop (p : ptr)
  | FConnectEstablished (p : ptr)
  | FConnectDestroyed (p : ptr)
  | FWriteComplete (cb : callback) (p : ptr)
  | FHighWaterMark (cb : callback) (p : ptr) (len : Z)
  | FRemoveConnectionInLoop (p : ptr)
  | FListen
  | FUser (cb : Z).

#[export] Instance functor_eq_dec : EqDecision Functor.
Proof. solve_decision. Defined.

(** [TcpConnection::StateE]. *)
Inductive StateE := kDisconnected | kConnecting | kConnected | KDisconnecting.

#[export] Instance StateE_eq_dec : EqDecision StateE.
Proof. solve_decision. Defined.

(** The [sockaddr_in] of include/InetAddress.hpp; the port is in network byte
    order and the address as the kernel stores it. *)
Record InetAddress := mkInetAddress {
  sin_family : Z;
  sin_port : Z;
  sin_addr : Z }.

(** One answer of the kernel: a return value (negative: minus [errno]), the
    bytes a read delivers, the descriptors that are ready, and the socket
    address a call fills in. *)
Record sysret := mkSysret {
  sr_ret : Z;
  sr_data : list byte;
  sr_ready : list (Z * Z);
  sr_addr : InetAddress }.

(** An answer that is only a return value. *)
Definition ret_only (r : Z) : sysret := mkSysret r [] [] (mkInetAddress 2 0 0).

(** What can be observed of a run: the effect of system calls on sockets and
    files, and the calls of user callbacks. *)
Inductive event :=
  | EvWrite (fd : Z) (data : list byte)
  | EvRead (fd : Z) (data : list byte)
  | EvSendfile (out_fd in_fd offset n : Z)
  | EvShutdownWr (fd : Z)
  | EvSockopt (fd opt val : Z)
  | EvBind (fd : Z) (addr : InetAddress)
  | EvListen (fd : Z)
  | EvClose (fd : Z)
  | EvConnection (p : ptr) (connected : bool)
  | EvMessage (p : ptr)
  | EvWriteComplete (p : ptr)
  | EvHighWaterMark (p : ptr) (len : Z)
  | EvUser (cb : Z).

(** include/Channel.hpp. [tie_] is the [weak_ptr] to the owning connection. *)
Record Channel := mkChannel {
  ch_loop_ : ptr;
  fd_ : Z;
  events_ : Z;
  revents_ : Z;
  index_ : Z;
  tie_ : option ptr;
  tied_ : bool;
  readCallback_ : option closure;
  writeCallback_ : option closure;
  closeCallback_ : option closure;
  errorCallback_ : option closure }.

Definition set_events_ (v : Z) (x : Channel) : Channel :=
  mkChannel (ch_loop_ x) (fd_ x) v (revents_ x) (index_ x) (tie_ x) (tied_ x) 
    (readCallback_ x) (writeCallback_ x) (closeCallback_ x) (errorCallback_ x).
Definition set_revents_ (v : Z) (x : Channel) : Channel :=
  mkChannel (ch_loop_ x) (fd_ x) (events_ x) v (index_ x) (tie_ x) (tied_ x) 
    (readCallback_ x) (writeCallback_ x) (closeCallback_ x) (errorCallback_ x).
Definition set_index_ (v : Z) (x : Channel) : Channel :=
  mkChannel (ch_loop_ x) (fd_ x) (events_ x) (revents_ x) v (tie_ x) (tied_ x) 
    (readCallback_ x) (writeCallback_ x) (closeCallback_ x) (errorCallback_ x).
Definition set_tie_ (v : option ptr) (x : Channel) : Channel :=
  mkChannel (ch_loop_ x) (fd_ x) (events_ x) (revents_ x) (index_ x) v (tied_ x) 
    (readCallback_ x) (writeCallback_ x) (closeCallback_ x) (errorCallback_ x).
Definition set_tied_ (v : bool) (x : Channel) : Channel :=
  mkChannel (ch_loop_ x) (fd_ x) (events_ x) (revents_ x) (index_ x) (tie_ x) v 
    (readCallback_ x) (writeCallback_ x) (closeCallback_ x) (errorCallback_ x).
Definition set_readCallback_ (v : option closure) (x : Channel) : Channel :=
  mkChannel (ch_loop_ x) (fd_ x) (events_ x) (revents_ x) (index_ x) (tie_ x) (tied_ x) 
    v (writeCallback_ x) (closeCallback_ x) (errorCallback_ x).
Definition set_writeCallback_ (v : option closure) (x : Channel) : Channel :=
  mkChannel (ch_loop_ x) (fd_ x) (events_ x) (revents_ x) (index_ x) (tie_ x) (tied_ x) 
    (readCallback_ x) v (closeCallback_ x) (errorCallback_ x).
Definition set_closeCallback_ (v : option closure) (x : Channel) : Channel :=
  mkChannel (ch_loop_ x) (fd_ x) (events_ x) (revents_ x) (index_ x) (tie_ x) (tied_ x) 
    (readCallback_ x) (writeCallback_ x) v (errorCallback_ x).
Definition set_errorCallback_ (v : option closure) (x : Channel) : Channel :=
  mkChannel (ch_loop_ x) (fd_ x) (events_ x) (revents_ x) (index_ x) (tie_ x) (tied_ x) 
    (readCallback_ x) (writeCallback_ x) (closeCallback_ x) v.

(** include/Poller.hpp and include/EpollPoller.hpp. Of the event list [events_]
    only its length matters outside [poll]: [ep_events_size]. *)
Record EpollPoller := mkEpollPoller {
  ownerLoop_ : ptr;
  channels_ : gmap Z chptr;
  epollfd_ : Z;
  ep_events_size : Z }.

Definition set_channels_ (v : gmap Z chptr) (x : EpollPoller) : EpollPoller :=
  mkEpollPoller (ownerLoop_ x) v (epollfd_ x) (ep_events_size x).
Definition set_ep_events_size (v : Z) (x : EpollPoller) : EpollPoller :=
  mkEpollPoller (ownerLoop_ x) (channels_ x) (epollfd_ x) v.

(** include/EventLoop.hpp. The pending functors are data, run by [System.v]. *)
Record EventLoop := mkEventLoop {
  looping_ : bool;
  quit_ : bool;
  threadId_ : Z;
  pollReturnTime_ : Z;
  poller_ : option EpollPoller;
  wakeupFd_ : Z;
  wakeupChannel_ : Channel;
  activecChannels_ : list chptr;
  callingPendingFuntors_ : bool;
  pengdingFuntors_ : list Functor }.

Definition set_looping_ (v : bool) (x : EventLoop) : EventLoop :=
  mkEventLoop v (quit_ x) (threadId_ x) (pollReturnTime_ x) (poller_ x) (wakeupFd_ x) 
    (wakeupChannel_ x) (activecChannels_ x) (callingPendingFuntors_ x) 
    (pengdingFuntors_ x).
Definition set_quit_ (v : bool) (x : EventLoop) : EventLoop :=
  mkEventLoop (looping_ x) v (threadId_ x) (pollReturnTime_ x) (poller_ x) 
    (wakeupFd_ x) (wakeupChannel_ x) (activecChannels_ x) (callingPendingFuntors_ x) 
    (pengdingFuntors_ x).
Definition set_pollReturnTime_ (v : Z) (x : EventLoop) : EventLoop :=
  mkEventLoop (looping_ x) (quit_ x) (threadId_ x) v (poller_ x) (wakeupFd_ x) 
    (wakeupChannel_ x) (activecChannels_ x) (callingPendingFuntors_ x) 
    (pengdingFuntors_ x).
Definition set_poller_ (v : option EpollPoller) (x : EventLoop) : EventLoop :=
  mkEventLoop (looping_ x) (quit_ x) (threadId_ x) (pollReturnTime_ x) v (wakeupFd_ x) 
    (wakeupChannel_ x) (activecChannels_ x) (callingPendingFuntors_ x) 
    (pengdingFuntors_ x).
Definition set_wakeupChannel_ (v : Channel) (x : EventLoop) : EventLoop :=
  mkEventLoop (looping_ x) (quit_ x) (threadId_ x) (pollReturnTime_ x) (poller_ x) 
    (wakeupFd_ x) v (activecChannels_ x) (callingPendingFuntors_ x) 
    (pengdingFuntors_ x).
Definition set_activecChannels_ (v : list chptr) (x : EventLoop) : EventLoop :=
  mkEventLoop (looping_ x) (quit_ x) (threadId_ x) (pollReturnTime_ x) (poller_ x) 
    (wakeupFd_ x) (wakeupChannel_ x) v (callingPendingFuntors_ x) (pengdingFuntors_ x).
Definition set_callingPendingFuntors_ (v : bool) (x : EventLoop) : EventLoop :=
  mkEventLoop (looping_ x) (quit_ x) (threadId_ x) (pollReturnTime_ x) (poller_ x) 
    (wakeupFd_ x) (wakeupChannel_ x) (activecChannels_ x) v (pengdingFuntors_ x).
Definition set_pengdingFuntors_ (v : list Functor) (x : EventLoop) : EventLoop :=
  mkEventLoop (looping_ x) (quit_ x) (threadId_ x) (pollReturnTime_ x) (poller_ x) 
    (wakeupFd_ x) (wakeupChannel_ x) (activecChannels_ x) (callingPendingFuntors_ x) v.

(** include/TcpConnection.hpp. [socket_] is the descriptor the [Socket] wraps;
    [conn_closeCallback_] says whether the close callback was set, which is
    always [TcpServer::removeConnection]. *)
Record TcpConnection := mkTcpConnection {
  conn_loop_ : ptr;
  name_ : string;
  state_ : StateE;
  reading_ : bool;
  socket_ : Z;
  channel_ : Channel;
  localAddr_ : InetAddress;
  peerAddr_ : InetAddress;
  connectionCallback_ : callback;
  messageCallback_ : callback;
  writeCompleteCallback_ : callback;
  conn_closeCallback_ : bool;
  highWaterMarkCallback_ : callback;
  highWaterMark_ : Z;
  inputBuffer_ : Buffer.t;
  outputBuffer_ : Buffer.t }.

Definition set_state_ (v : StateE) (x : TcpConnection) : TcpConnection :=
  mkTcpConnection (conn_loop_ x) (name_ x) v (reading_ x) (socket_ x) (channel_ x) 
    (localAddr_ x) (peerAddr_ x) (connectionCallback_ x) (messageCallback_ x) 
    (writeCompleteCallback_ x) (conn_closeCallback_ x) (highWaterMarkCallback_ x) 
    (highWaterMark_ x) (inputBuffer_ x) (outputBuffer_ x).
Definition set_channel_ (v : Channel) (x : TcpConnection) : TcpConnection :=
  mkTcpConnection (conn_loop_ x) (name_ x) (state_ x) (reading_ x) (socket_ x) v 
    (localAddr_ x) (peerAddr_ x) (connectionCallback_ x) (messageCallback_ x) 
    (writeCompleteCallback_ x) (conn_closeCallback_ x) (highWaterMarkCallback_ x) 
    (highWaterMark_ x) (inputBuffer_ x) (outputBuffer_ x).
Definition set_connectionCallback_ (v : callback) (x : TcpConnection) : TcpConnection :=
  mkTcpConnection (conn_loop_ x) (name_ x) (state_ x) (reading_ x) (socket_ x) 
    (channel_ x) (localAddr_ x) (peerAddr_ x) v (messageCallback_ x) 
    (writeCompleteCallback_ x) (conn_closeCallback_ x) (highWaterMarkCallback_ x) 
    (highWaterMark_ x) (inputBuffer_ x) (outputBuffer_ x).
Definition set_messageCallback_ (v : callback) (x : TcpConnection) : TcpConnection :=
  mkTcpConnection (conn_loop_ x) (name_ x) (state_ x) (reading_ x) (socket_ x) 
    (channel_ x) (localAddr_ x) (peerAddr_ x) (connectionCallback_ x) v 
    (writeCompleteCallback_ x) (conn_closeCallback_ x) (highWaterMarkCallback_ x) 
    (highWaterMark_ x) (inputBuffer_ x) (outputBuffer_ x).
Definition set_writeCompleteCallback_ (v : callback) (x : TcpConnection) : TcpConnection :=
  mkTcpConnection (conn_loop_ x) (name_ x) (state_ x) (reading_ x) (socket_ x) 
    (channel_ x) (localAddr_ x) (peerAddr_ x) (connectionCallback_ x) 
    (messageCallback_ x) v (conn_closeCallback_ x) (highWaterMarkCallback_ x) 
    (highWaterMark_ x) (inputBuffer_ x) (outputBuffer_ x).
Definition set_conn_closeCallback_ (v : bool) (x : TcpConnection) : TcpConnection :=
  mkTcpConnection (conn_loop_ x) (name_ x) (state_ x) (reading_ x) (socket_ x) 
    (channel_ x) (localAddr_ x) (peerAddr_ x) (connectionCallback_ x) 
    (messageCallback_ x) (writeCompleteCallback_ x) v (highWaterMarkCallback_ x) 
    (highWaterMark_ x) (inputBuffer_ x) (outputBuffer_ x).
Definition set_highWaterMarkCallback_ (v : callback) (x : TcpConnection) : TcpConnection :=
  mkTcpConnection (conn_loop_ x) (name_ x) (state_ x) (reading_ x) (socket_ x) 
    (channel_ x) (localAddr_ x) (peerAddr_ x) (connectionCallback_ x) 
    (messageCallback_ x) (writeCompleteCallback_ x) (conn_closeCallback_ x) v 
    (highWaterMark_ x) (inputBuffer_ x) (outputBuffer_ x).
Definition set_highWaterMark_ (v : Z) (x : TcpConnection) : TcpConnection :=
  mkTcpConnection (conn_loop_ x) (name_ x) (state_ x) (reading_ x) (socket_ x) 
    (channel_ x) (localAddr_ x) (peerAddr_ x) (connectionCallback_ x) 
    (messageCallback_ x) (writeCompleteCallback_ x) (conn_closeCallback_ x) 
    (highWaterMarkCallback_ x) v (inputBuffer_ x) (outputBuffer_ x).
Definition set_inputBuffer_ (v : Buffer.t) (x : TcpConnection) : TcpConnection :=
  mkTcpConnection (conn_loop_ x) (name_ x) (state_ x) (reading_ x) (socket_ x) 
    (channel_ x) (localAddr_ x) (peerAddr_ x) (connectionCallback_ x) 
    (messageCallback_ x) (writeCompleteCallback_ x) (conn_closeCallback_ x) 
    (highWaterMarkCallback_ x) (highWaterMark_ x) v (outputBuffer_ x).
Definition set_outputBuffer_ (v : Buffer.t) (x : TcpConnection) : TcpConnection :=
  mkTcpConnection (conn_loop_ x) (name_ x) (state_ x) (reading_ x) (socket_ x) 
    (channel_ x) (localAddr_ x) (peerAddr_ x) (connectionCallback_ x) 
    (messageCallback_ x) (writeCompleteCallback_ x) (conn_closeCallback_ x) 
    (highWaterMarkCallback_ x) (highWaterMark_ x) (inputBuffer_ x) v.

(** include/Acceptor.hpp. [NewConnectionCallback_] says whether the callback was
    set, which is always [TcpServer::newConnection]. *)
Record Acceptor := mkAcceptor {
  acc_loop_ : ptr;
  acceptSocket_ : Z;
  acceptChannel_ : Channel;
  NewConnectionCallback_ : bool;
  listenning_ : bool }.

Definition set_acceptChannel_ (v : Channel) (x : Acceptor) : Acceptor :=
  mkAcceptor (acc_loop_ x) (acceptSocket_ x) v (NewConnectionCallback_ x) 
    (listenning_ x).
Definition set_NewConnectionCallback_ (v : bool) (x : Acceptor) : Acceptor :=
  mkAcceptor (acc_loop_ x) (acceptSocket_ x) (acceptChannel_ x) v (listenning_ x).
Definition set_listenning_ (v : bool) (x : Acceptor) : Acceptor :=
  mkAcceptor (acc_loop_ x) (acceptSocket_ x) (acceptChannel_ x) 
    (NewConnectionCallback_ x) v.

(** include/EventLoopThreadPool.hpp. A thread is represented by its name. *)
Record EventLoopThreadPool := mkEventLoopThreadPool {
  baseLoop_ : ptr;
  pool_name_ : string;
  pool_started_ : bool;
  numThreads_ : Z;
  next_ : Z;
  threads_ : list string;
  loops_ : list ptr }.

Definition set_pool_started_ (v : bool) (x : EventLoopThreadPool) : EventLoopThreadPool :=
  mkEventLoopThreadPool (baseLoop_ x) (pool_name_ x) v (numThreads_ x) (next_ x) 
    (threads_ x) (loops_ x).
Definition set_numThreads_ (v : Z) (x : EventLoopThreadPool) : EventLoopThreadPool :=
  mkEventLoopThreadPool (baseLoop_ x) (pool_name_ x) (pool_started_ x) v (next_ x) 
    (threads_ x) (loops_ x).
Definition set_next_ (v : Z) (x : EventLoopThreadPool) : EventLoopThreadPool :=
  mkEventLoopThreadPool (baseLoop_ x) (pool_name_ x) (pool_started_ x) (numThreads_ x) 
    v (threads_ x) (loops_ x).
Definition set_threads_ (v : list string) (x : EventLoopThreadPool) : EventLoopThreadPool :=
  mkEventLoopThreadPool (baseLoop_ x) (pool_name_ x) (pool_started_ x) (numThreads_ x) 
    (next_ x) v (loops_ x).
Definition set_loops_ (v : list ptr) (x : EventLoopThreadPool) : EventLoopThreadPool :=
  mkEventLoopThreadPool (baseLoop_ x) (pool_name_ x) (pool_started_ x) (numThreads_ x) 
    (next_ x) (threads_ x) v.

(** include/TcpServer.hpp. *)
Record TcpServer := mkTcpServer {
  srv_loop_ : ptr;
  ipPort_ : string;
  srv_name_ : string;
  acceptor_ : Acceptor;
  threadPool_ : EventLoopThreadPool;
  srv_connectionCallback_ : callback;
  srv_messageCallback_ : callback;
  srv_writeCompleteCallback_ : callback;
  threadInitCallback_ : callback;
  started_ : Z;
  nextConnId_ : Z;
  connections_ : gmap string ptr }.

Definition set_acceptor_ (v : Acceptor) (x : TcpServer) : TcpServer :=
  mkTcpServer (srv_loop_ x) (ipPort_ x) (srv_name_ x) v (threadPool_ x) 
    (srv_connectionCallback_ x) (srv_messageCallback_ x) (srv_writeCompleteCallback_ x) 
    (threadInitCallback_ x) (started_ x) (nextConnId_ x) (connections_ x).
Definition set_threadPool_ (v : EventLoopThreadPool) (x : TcpServer) : TcpServer :=
  mkTcpServer (srv_loop_ x) (ipPort_ x) (srv_name_ x) (acceptor_ x) v 
    (srv_connectionCallback_ x) (srv_messageCallback_ x) (srv_writeCompleteCallback_ x) 
    (threadInitCallback_ x) (started_ x) (nextConnId_ x) (connections_ x).
Definition set_srv_connectionCallback_ (v : callback) (x : TcpServer) : TcpServer :=
  mkTcpServer (srv_loop_ x) (ipPort_ x) (srv_name_ x) (acceptor_ x) (threadPool_ x) v 
    (srv_messageCallback_ x) (srv_writeCompleteCallback_ x) (threadInitCallback_ x) 
    (started_ x) (nextConnId_ x) (connections_ x).
Definition set_srv_messageCallback_ (v : callback) (x : TcpServer) : TcpServer :=
  mkTcpServer (srv_loop_ x) (ipPort_ x) (srv_name_ x) (acceptor_ x) (threadPool_ x) 
    (srv_connectionCallback_ x) v (srv_writeCompleteCallback_ x) 
    (threadInitCallback_ x) (started_ x) (nextConnId_ x) (connections_ x).
Definition set_srv_writeCompleteCallback_ (v : callback) (x : TcpServer) : TcpServer :=
  mkTcpServer (srv_loop_ x) (ipPort_ x) (srv_name_ x) (acceptor_ x) (threadPool_ x) 
    (srv_connectionCallback_ x) (srv_messageCallback_ x) v (threadInitCallback_ x) 
    (started_ x) (nextConnId_ x) (connections_ x).
Definition set_threadInitCallback_ (v : callback) (x : TcpServer) : TcpServer :=
  mkTcpServer (srv_loop_ x) (ipPort_ x) (srv_name_ x) (acceptor_ x) (threadPool_ x) 
    (srv_connectionCallback_ x) (srv_messageCallback_ x) (srv_writeCompleteCallback_ x) 
    v (started_ x) (nextConnId_ x) (connections_ x).
Definition set_started_ (v : Z) (x : TcpServer) : TcpServer :=
  mkTcpServer (srv_loop_ x) (ipPort_ x) (srv_name_ x) (acceptor_ x) (threadPool_ x) 
    (srv_connectionCallback_ x) (srv_messageCallback_ x) (srv_writeCompleteCallback_ x) 
    (threadInitCallback_ x) v (nextConnId_ x) (connections_ x).
Definition set_nextConnId_ (v : Z) (x : TcpServer) : TcpServer :=
  mkTcpServer (srv_loop_ x) (ipPort_ x) (srv_name_ x) (acceptor_ x) (threadPool_ x) 
    (srv_connectionCallback_ x) (srv_messageCallback_ x) (srv_writeCompleteCallback_ x) 
    (threadInitCallback_ x) (started_ x) v (connections_ x).
Definition set_connections_ (v : gmap string ptr) (x : TcpServer) : TcpServer :=
  mkTcpServer (srv_loop_ x) (ipPort_ x) (srv_name_ x) (acceptor_ x) (threadPool_ x) 
    (srv_connectionCallback_ x) (srv_messageCallback_ x) (srv_writeCompleteCallback_ x) 
    (threadInitCallback_ x) (started_ x) (nextConnId_ x) v.

(** The whole process: the running thread [w_tid], each thread's
    [t_loopInThisThread] ([w_tls]), the live objects, the kernel and its answers,
    the registered loggers, and the trace of observable events. *)
Record World (K : Type) := mkWorld {
  w_tid : Z;
  w_loops : gmap ptr EventLoop;
  w_tls : gmap Z ptr;
  w_conns : gmap ptr TcpConnection;
  w_server : TcpServer;
  w_strs : gmap ptr (list byte);
  w_kernel : K;
  w_oracle : nat → sysret;
  w_clock : nat;
  w_loggers : gset string;
  w_trace : list event }.
Arguments mkWorld {K}.
Arguments w_tid {K}.
Arguments w_loops {K}.
Arguments w_tls {K}.
Arguments w_conns {K}.
Arguments w_server {K}.
Arguments w_strs {K}.
Arguments w_kernel {K}.
Arguments w_oracle {K}.
Arguments w_clock {K}.
Arguments w_loggers {K}.
Arguments w_trace {K}.

Section world_setters.
Context {K : Type}.
Definition set_w_tid (v : Z) (x : World K) : World K :=
  mkWorld v (w_loops x) (w_tls x) (w_conns x) (w_server x) (w_strs x) (w_kernel x) 
    (w_oracle x) (w_clock x) (w_loggers x) (w_trace x).
Definition set_w_loops (v : gmap ptr EventLoop) (x : World K) : World K :=
  mkWorld (w_tid x) v (w_tls x) (w_conns x) (w_server x) (w_strs x) (w_kernel x) 
    (w_oracle x) (w_clock x) (w_loggers x) (w_trace x).
Definition set_w_tls (v : gmap Z ptr) (x : World K) : World K :=
  mkWorld (w_tid x) (w_loops x) v (w_conns x) (w_server x) (w_strs x) (w_kernel x) 
    (w_oracle x) (w_clock x) (w_loggers x) (w_trace x).
Definition set_w_conns (v : gmap ptr TcpConnection) (x : World K) : World K :=
  mkWorld (w_tid x) (w_loops x) (w_tls x) v (w_server x) (w_strs x) (w_kernel x) 
    (w_oracle x) (w_clock x) (w_loggers x) (w_trace x).
Definition set_w_server (v : TcpServer) (x : World K) : World K :=
  mkWorld (w_tid x) (w_loops x) (w_tls x) (w_conns x) v (w_strs x) (w_kernel x) 
    (w_oracle x) (w_clock x) (w_loggers x) (w_trace x).
Definition set_w_strs (v : gmap ptr (list byte)) (x : World K) : World K :=
  mkWorld (w_tid x) (w_loops x) (w_tls x) (w_conns x) (w_server x) v (w_kernel x) 
    (w_oracle x) (w_clock x) (w_loggers x) (w_trace x).
Definition set_w_kernel (v : K) (x : World K) : World K :=
  mkWorld (w_tid x) (w_loops x) (w_tls x) (w_conns x) (w_server x) (w_strs x) v 
    (w_oracle x) (w_clock x) (w_loggers x) (w_trace x).
Definition set_w_clock (v : nat) (x : World K) : World K :=
  mkWorld (w_tid x) (w_loops x) (w_tls x) (w_conns x) (w_server x) (w_strs x) 
    (w_kernel x) (w_oracle x) v (w_loggers x) (w_trace x).
Definition set_w_trace (v : list event) (x : World K) : World K :=
  mkWorld (w_tid x) (w_loops x) (w_tls x) (w_conns x) (w_server x) (w_strs x) 
    (w_kernel x) (w_oracle x) (w_clock x) (w_loggers x) v.
End world_setters.

(** ** Access to the objects *)
Section access.
Context {K : Type}.
Implicit Types w : World K.

Definition load_loop (l : ptr) : M (World K) EventLoop :=
  λ w, match w_loops w !! l with Some x => Ok (x, w) | None => Fault Dangling end.
Definition store_loop (l : ptr) (x : EventLoop) : M (World K) unit :=
  modify (λ w, set_w_loops (<[l := x]> (w_loops w)) w).
Definition load_conn (p : ptr) : M (World K) TcpConnection :=
  λ w, match w_conns w !! p with Some x => Ok (x, w) | None => Fault Dangling end.
Definition store_conn (p : ptr) (x : TcpConnection) : M (World K) unit :=
  modify (λ w, set_w_conns (<[p := x]> (w_conns w)) w).

Definition modify_loop (l : ptr) (f : EventLoop → EventLoop) : M (World K) unit :=
  let! x := load_loop l in store_loop l (f x).
Definition modify_conn (p : ptr) (f : TcpConnection → TcpConnection) : M (World K) unit :=
  let! x := load_conn p in store_conn p (f x).
Definition modify_server (f : TcpServer → TcpServer) : M (World K) unit :=
  modify (λ w, set_w_server (f (w_server w)) w).

(** A channel is a member of the object that owns it. *)
Definition load_channel (cp : chptr) : M (World K) Channel :=
  match cp with
  | ChWakeup l => let! x := load_loop l in ret (wakeupChannel_ x)
  | ChAccept => gets (λ w, acceptChannel_ (acceptor_ (w_server w)))
  | ChConn p => let! x := load_conn p in ret (channel_ x)
  end.
Definition modify_channel (cp : chptr) (f : Channel → Channel) : M (World K) unit :=
  match cp with
  | ChWakeup l => modify_loop l (λ x, set_wakeupChannel_ (f (wakeupChannel_ x)) x)
  | ChAccept =>
      modify_server (λ s,
        set_acceptor_ (set_acceptChannel_ (f (acceptChannel_ (acceptor_ s))) (acceptor_ s)) s)
  | ChConn p => modify_conn p (λ x, set_channel_ (f (channel_ x)) x)
  end.

(** The next answer of the kernel. *)
Definition syscall : M (World K) sysret :=
  λ w, Ok (w_oracle w (w_clock w), set_w_clock (S (w_clock w)) w).
Definition emit (e : event) : M (World K) unit :=
  modify (λ w, set_w_trace (w_trace w ++ [e]) w).

(** [mylog::GetLogger(name)->...]: logging has no effect on this state, but
    [GetLogger] is [nullptr] when no logger of that name was added. *)
Definition log (name : string) : M (World K) unit :=
  λ w, if decide (name ∈ w_loggers w) then Ok (tt, w) else Fault NullDeref.
End access.

(** ** Socket calls *)
Section sockets.
Context {K : Type}.

(** [write(fd, data, len)]: at most [len] bytes are accepted. *)
Definition sys_write (fd : Z) (data : list byte) : M (World K) write_result :=
  let! r := syscall in
  if sr_ret r <? 0 then ret (WriteError (- sr_ret r))
  else
    let n := Z.min (sr_ret r) (zlen data) in
    emit (EvWrite fd (ztake n data)) ;;!
    ret (Wrote n).

(** [readv(fd, iov, n)]: at most the bytes the blocks hold. *)
Definition readv_answer (r : sysret) (iov : list Z) : read_result :=
  if sr_ret r <? 0 then ReadError (- sr_ret r)
  else ReadBytes (ztake (foldr Z.add 0 iov) (sr_data r)).

(** [sendfile(out, in, &offset, count)]: at most [count] bytes are sent. *)
Definition sys_sendfile (out_fd in_fd offset count : Z) : M (World K) write_result :=
  let! r := syscall in
  if sr_ret r <? 0 then ret (WriteError (- sr_ret r))
  else
    let n := Z.min (sr_ret r) count in
    emit (EvSendfile out_fd in_fd offset n) ;;!
    ret (Wrote n).
End sockets.

(** ** Running a program on a world *)
Lemma insert_alter_eq {A} `{Countable B} (m : gmap B A) (f : A → A) i x y :
  m !! i = Some x → f x = y → <[i := y]> m = alter f i m.
Proof.
  intros Hx <-. apply map_eq. intros j.
  rewrite lookup_insert, lookup_alter. case_decide; subst; [by rewrite Hx|done].
Qed.

Section access_lemmas.
Context {K : Type}.
Implicit Types w : World K.

Lemma load_loop_ok l x w : w_loops w !! l = Some x → load_loop l w = Ok (x, w).
Proof. intros H. unfold load_loop. by rewrite H. Qed.
Lemma load_conn_ok p x w : w_conns w !! p = Some x → load_conn p w = Ok (x, w).
Proof. intros H. unfold load_conn. by rewrite H. Qed.
Lemma store_loop_ok l x w :
  store_loop l x w = Ok (tt, set_w_loops (<[l := x]> (w_loops w)) w).
Proof. done. Qed.
Lemma store_conn_ok p x w :
  store_conn p x w = Ok (tt, set_w_conns (<[p := x]> (w_conns w)) w).
Proof. done. Qed.
Lemma modify_loop_ok l f x w :
  w_loops w !! l = Some x →
  modify_loop l f w = Ok (tt, set_w_loops (<[l := f x]> (w_loops w)) w).
Proof. intros H. unfold modify_loop, bind. by rewrite (load_loop_ok _ _ _ H). Qed.
Lemma modify_conn_ok p f x w :
  w_conns w !! p = Some x →
  modify_conn p f w = Ok (tt, set_w_conns (<[p := f x]> (w_conns w)) w).
Proof. intros H. unfold modify_conn, bind. by rewrite (load_conn_ok _ _ _ H). Qed.
Lemma log_ok name w : name ∈ w_loggers w → log name w = Ok (tt, w).
Proof. intros H. unfold log. by rewrite decide_True. Qed.
Lemma emit_ok e w : emit e w = Ok (tt, set_w_trace (w_trace w ++ [e]) w).
Proof. done. Qed.
Lemma readv_answer_bounded r : Buffer.readv_bounded (readv_answer r).
Proof.
  intros iov d H. unfold readv_answer in H. destruct (_ <? _); [done|].
  injection H as <-. rewrite zlen_ztake. lia.
Qed.

(** The channel a [Channel*] points to, and the world with it replaced. *)
Definition chan_of w (cp : chptr) : option Channel :=
  match cp with
  | ChWakeup l => wakeupChannel_ <$> w_loops w !! l
  | ChAccept => Some (acceptChannel_ (acceptor_ (w_server w)))
  | ChConn p => channel_ <$> w_conns w !! p
  end.
Definition put_chan (cp : chptr) (ch : Channel) w : World K :=
  match cp with
  | ChWakeup l => set_w_loops (alter (set_wakeupChannel_ ch) l (w_loops w)) w
  | ChAccept =>
      set_w_server (set_acceptor_ (set_acceptChannel_ ch (acceptor_ (w_server w)))
        (w_server w)) w
  | ChConn p => set_w_conns (alter (set_channel_ ch) p (w_conns w)) w
  end.

Lemma load_channel_ok cp ch w : chan_of w cp = Some ch → load_channel cp w = Ok (ch, w).
Proof.
  destruct cp as [l| |p]; cbn; intros H.
  - apply fmap_Some in H as (x & Hx & ->). unfold bind. by rewrite (load_loop_ok _ _ _ Hx).
  - by injection H as <-.
  - apply fmap_Some in H as (x & Hx & ->). unfold bind. by rewrite (load_conn_ok _ _ _ Hx).
Qed.
Lemma modify_channel_ok cp f ch w :
  chan_of w cp = Some ch → modify_channel cp f w = Ok (tt, put_chan cp (f ch) w).
Proof.
  destruct cp as [l| |p]; cbn; intros H.
  - apply fmap_Some in H as (x & Hx & ->). rewrite (modify_loop_ok _ _ _ _ Hx).
    do 3 f_equal. by eapply insert_alter_eq.
  - by injection H as <-.
  - apply fmap_Some in H as (x & Hx & ->). rewrite (modify_conn_ok _ _ _ _ Hx).
    do 3 f_equal. by eapply insert_alter_eq.
Qed.
End access_lemmas.

#[export] Hint Resolve load_loop_ok load_conn_ok store_loop_ok store_conn_ok modify_loop_ok
  modify_conn_ok log_ok emit_ok load_channel_ok modify_channel_ok : mrun.
