(* ===== verification/Poller.v ===== *)
(** * The epoll poller (src/Poller.cpp, src/EpollPoller.cpp)

    The methods act on the poller [P], the kernel state [k] and the channel
    they are given, and return the new ones.  [EpollPoller::update] and its
    callers also write log lines; [Loop.v] accounts for those. *)

From stdpp Require Import base tactics numbers list gmap.
From Stdlib Require Import ZArith Lia.
From S2P Require Import Prelude NetBuffer Kernel World.

Local Open Scope Z_scope.

(** The states of [Channel::index_]. *)
Definition NEW : Z := -1.
Definition ADDED : Z := 1.
Definition DELETED : Z := 2.

Module EpollPoller.
Section ops.
Context {K : Type} `{Kernel K}.

Definition initEventListSize : Z := 16.

(** [epoll_create1] is given as the descriptor it returned. *)
Definition ctor (loop : ptr) (epfd : Z) : EpollPoller :=
  mkEpollPoller loop ∅ epfd initEventListSize.

(** [EpollPoller::update]: a failure is logged and otherwise ignored. *)
Definition update (operation : ctl_op) (cp : chptr) (ch : Channel)
    (P : EpollPoller) (k : K) : K :=
  (epoll_ctl (epollfd_ P) operation (fd_ ch) (events_ ch) cp k).1.

Definition updateChannel (cp : chptr) (ch : Channel) (P : EpollPoller) (k : K)
    : Channel * EpollPoller * K :=
  let index := index_ ch in
  if (index =? NEW) || (index =? DELETED) then
    let P' := if index =? NEW
              then set_channels_ (<[fd_ ch := cp]> (channels_ P)) P else P in
    let ch' := set_index_ ADDED ch in
    (ch', P', update EPOLL_CTL_ADD cp ch' P' k)
  else if events_ ch =? 0 then
    let k' := update EPOLL_CTL_DEL cp ch P k in
    (set_index_ DELETED ch, P, k')
  else (ch, P, update EPOLL_CTL_MOD cp ch P k).

Definition removeChannel (cp : chptr) (ch : Channel) (P : EpollPoller) (k : K)
    : Channel * EpollPoller * K :=
  let fd := fd_ ch in
  let P' := set_channels_ (delete fd (channels_ P)) P in
  let k' := if index_ ch =? ADDED then update EPOLL_CTL_DEL cp ch P' k else k in
  (set_index_ NEW ch, P', k').

(** [Poller::hasChannel]. *)
Definition hasChannel (cp : chptr) (ch : Channel) (P : EpollPoller) : bool :=
  bool_decide (channels_ P !! fd_ ch = Some cp).
End ops.
End EpollPoller.

(** ** Registration

    [registered] says that the three records of a channel's registration
    agree: its own [index_], the poller's [channels_], and the kernel's
    interest list, which then holds the channel's current [events_]. *)
Section registration.
Context {K : Type} `{KernelOk K}.
Implicit Types (P : EpollPoller) (k : K) (ch : Channel).

Inductive registered (cp : chptr) ch P k : Prop :=
  | reg_new :
      index_ ch = NEW → channels_ P !! fd_ ch = None →
      interest k (epollfd_ P) (fd_ ch) = None → registered cp ch P k
  | reg_added :
      index_ ch = ADDED → channels_ P !! fd_ ch = Some cp →
      interest k (epollfd_ P) (fd_ ch) = Some (events_ ch, cp) → registered cp ch P k
  | reg_deleted :
      index_ ch = DELETED → channels_ P !! fd_ ch = Some cp →
      interest k (epollfd_ P) (fd_ ch) = None → registered cp ch P k.

(** Everything but the descriptor of [ch] is as it was. *)
Definition poller_frame ch P k P' k' : Prop :=
  epollfd_ P' = epollfd_ P ∧
  (∀ fd, fd ≠ fd_ ch → channels_ P' !! fd = channels_ P !! fd) ∧
  (∀ ep fd, ¬ (ep = epollfd_ P ∧ fd = fd_ ch) → interest k' ep fd = interest k ep fd).

(** A channel whose [events_] were just changed, before [update()] is called. *)
Lemma update_registers cp ch0 ev P k :
  registered cp ch0 P k → ctl_has_room k →
  ∃ ch' P' k',
    EpollPoller.updateChannel cp (set_events_ ev ch0) P k = (ch', P', k') ∧
    registered cp ch' P' k' ∧ poller_frame ch0 P k P' k' ∧
    ch' = set_index_ (if decide (index_ ch0 = ADDED ∧ ev = 0) then DELETED else ADDED)
                     (set_events_ ev ch0).
Proof.
  intros Hreg Hroom. unfold EpollPoller.updateChannel, EpollPoller.update.
  destruct Hreg as [Hi Hc Hk|Hi Hc Hk|Hi Hc Hk]; cbn; rewrite Hi; cbn.
  - destruct (ctl_add_ok (epollfd_ P) (fd_ ch0) ev cp k) as (k' & -> & Hin & Hfr); [done..|].
    cbn. do 3 eexists. split; [done|]. split_and!; cbn.
    + apply reg_added; cbn; [done|by simplify_map_eq|done].
    + split_and!; cbn; [done| |done]. intros fd Hfd. by simplify_map_eq.
    + rewrite decide_False; [done|]. intros [E _]. congruence || by rewrite ?Hi in E.
  - destruct (Z.eqb_spec ev 0) as [->|Hev].
    + destruct (ctl_change_ok (epollfd_ P) EPOLL_CTL_DEL (fd_ ch0) 0 cp k)
        as (k' & -> & Hin & Hfr); [done|by rewrite Hk|].
      cbn. do 3 eexists. split; [done|]. split_and!; cbn.
      * apply reg_deleted; cbn; done.
      * done.
      * by rewrite decide_True.
    + destruct (ctl_change_ok (epollfd_ P) EPOLL_CTL_MOD (fd_ ch0) ev cp k)
        as (k' & -> & Hin & Hfr); [done|by rewrite Hk|].
      cbn. do 3 eexists. split; [done|]. split_and!; cbn.
      * apply reg_added; cbn; done.
      * done.
      * rewrite decide_False by naive_solver. destruct ch0; cbn in *; by subst.
  - destruct (ctl_add_ok (epollfd_ P) (fd_ ch0) ev cp k) as (k' & -> & Hin & Hfr); [done..|].
    cbn. do 3 eexists. split; [done|]. split_and!; cbn.
    + apply reg_added; cbn; done.
    + done.
    + rewrite decide_False; [done|]. intros [E _]. congruence || by rewrite ?Hi in E.
Qed.

Lemma remove_unregisters cp ch P k :
  registered cp ch P k →
  ∃ P' k', EpollPoller.removeChannel cp ch P k = (set_index_ NEW ch, P', k') ∧
    registered cp (set_index_ NEW ch) P' k' ∧ poller_frame ch P k P' k' ∧
    channels_ P' = delete (fd_ ch) (channels_ P).
Proof.
  intros Hreg. unfold EpollPoller.removeChannel, EpollPoller.update.
  destruct Hreg as [Hi Hc Hk|Hi Hc Hk|Hi Hc Hk]; cbn; rewrite Hi; cbn.
  - do 2 eexists. split; [done|]. split_and!; cbn; [|split_and!|done]; cbn; try done.
    + apply reg_new; cbn; [done|by simplify_map_eq|done].
    + intros fd Hfd. by simplify_map_eq.
  - destruct (ctl_change_ok (epollfd_ P) EPOLL_CTL_DEL (fd_ ch) (events_ ch) cp k)
      as (k' & -> & Hin & Hfr); [done|by rewrite Hk|].
    cbn. do 2 eexists. split; [done|]. split_and!; cbn; [|split_and!|done]; cbn; try done.
    + apply reg_new; cbn; [done|by simplify_map_eq|done].
    + intros fd Hfd. by simplify_map_eq.
  - do 2 eexists. split; [done|]. split_and!; cbn; [|split_and!|done]; cbn; try done.
    + apply reg_new; cbn; [done|by simplify_map_eq|done].
    + intros fd Hfd. by simplify_map_eq.
Qed.
End registration.

(** ** Sequences of registration changes *)

(** What a channel's owner can ask for: new events, or removal. *)
Inductive chan_op :=
  | CUpdate (ev : Z)
  | CRemove.

(** What the kernel watches the channel's descriptor for, as a state machine
    on its own: a muted channel ([Some 0] asked while watched) leaves the
    interest list, and any update of an unwatched channel enters it. *)
Definition watch_step (o : chan_op) (watched : option Z) : option Z :=
  match o, watched with
  | CRemove, _ => None
  | CUpdate ev, Some _ => if ev =? 0 then None else Some ev
  | CUpdate ev, None => Some ev
  end.

Section sequences.
Context {K : Type} `{KernelOk K}.

Definition chan_step (cp : chptr) (o : chan_op) (s : Channel * EpollPoller * K)
    : Channel * EpollPoller * K :=
  let '(ch, P, k) := s in
  match o with
  | CUpdate ev => EpollPoller.updateChannel cp (set_events_ ev ch) P k
  | CRemove => EpollPoller.removeChannel cp ch P k
  end.

Definition chan_run (cp : chptr) (os : list chan_op) (s : Channel * EpollPoller * K) :=
  foldl (λ s o, chan_step cp o s) s os.

Lemma chan_step_registered cp o ch P k :
  registered cp ch P k → ctl_has_room k →
  ∃ ch' P' k', chan_step cp o (ch, P, k) = (ch', P', k') ∧
    registered cp ch' P' k' ∧ fd_ ch' = fd_ ch ∧ poller_frame ch P k P' k' ∧
    fst <$> interest k' (epollfd_ P) (fd_ ch) =
      watch_step o (fst <$> interest k (epollfd_ P) (fd_ ch)).
Proof.
  intros Hreg Hroom. destruct o as [ev|]; cbn.
  - destruct (update_registers cp ch ev P k) as (ch' & P' & k' & E & Hr & Hf & Hch); [done..|].
    exists ch', P', k'. subst ch'. split_and!; [done..|].
    destruct Hf as (Hep & _ & _).
    destruct Hreg as [Hi _ Hk|Hi _ Hk|Hi _ Hk]; rewrite Hk;
      destruct Hr as [Hi' _ Hk'|Hi' _ Hk'|Hi' _ Hk']; cbn in *;
      rewrite Hep in Hk'; rewrite Hk', ?Hi in *; cbn in *;
      destruct (Z.eqb_spec ev 0); repeat case_decide; naive_solver.
  - destruct (remove_unregisters cp ch P k Hreg) as (P' & k' & E & Hr & Hf & _).
    exists (set_index_ NEW ch), P', k'. split_and!; [done..|].
    destruct Hf as (Hep & _ & _).
    destruct Hr as [_ _ Hk'|Hi _ _|Hi _ _]; [|done..].
    cbn in Hk'. by rewrite Hep in Hk'; rewrite Hk'.
Qed.

(** C28: as long as no [EPOLL_CTL_ADD] is refused for lack of resources,
    whatever sequence of [update()] and [remove()] calls its owner makes, a
    channel that is registered consistently stays so: [index_], the poller's map and
    the kernel's interest list agree, the kernel watches exactly what the
    calls asked for, and no other descriptor is touched. (A refused
    [EPOLL_CTL_ADD] breaks this: [refused_add_is_forgotten].) *)
Theorem poller_registration_consistent cp os ch P k :
  registered cp ch P k → (∀ k : K, ctl_has_room k) →
  ∃ ch' P' k', chan_run cp os (ch, P, k) = (ch', P', k') ∧
    registered cp ch' P' k' ∧ fd_ ch' = fd_ ch ∧ poller_frame ch P k P' k' ∧
    fst <$> interest k' (epollfd_ P) (fd_ ch) =
      foldl (λ s o, watch_step o s) (fst <$> interest k (epollfd_ P) (fd_ ch)) os.
Proof.
  intros Hreg Hroom. revert ch P k Hreg. induction os as [|o os IH]; intros ch P k Hreg.
  - exists ch, P, k. by split_and!.
  - destruct (chan_step_registered cp o ch P k) as (ch1 & P1 & k1 & E & Hr & Hfd & Hf & Hw);
      [done..|].
    destruct (IH ch1 P1 k1 Hr) as (ch2 & P2 & k2 & E2 & Hr2 & Hfd2 & Hf2 & Hw2).
    exists ch2, P2, k2. unfold chan_run. cbn [foldl]. rewrite E.
    destruct Hf as (Hep & Hc & Hi), Hf2 as (Hep2 & Hc2 & Hi2).
    split_and!; [done|done|congruence| |].
    + split_and!; [congruence| |].
      * intros fd Hne. rewrite Hc2 by congruence. by apply Hc.
      * intros ep fd Hne. rewrite Hi2 by (rewrite Hep, Hfd; done). by apply Hi.
    + rewrite Hep, Hfd in Hw2. by rewrite <- Hw.
Qed.

(** A refused [EPOLL_CTL_ADD] is only logged: the channel is marked as
    added although the kernel does not watch it, and a later request for
    events is a modification, which fails, so the descriptor stays
    unwatched. *)
Theorem refused_add_is_forgotten cp ch P k e ev :
  index_ ch = NEW → interest k (epollfd_ P) (fd_ ch) = None →
  (epoll_ctl (epollfd_ P) EPOLL_CTL_ADD (fd_ ch) (events_ ch) cp k).2 = Some e →
  ev ≠ 0 →
  ∃ ch' P' k',
    chan_run cp [CUpdate (events_ ch); CUpdate ev] (ch, P, k) = (ch', P', k') ∧
    index_ ch' = ADDED ∧ channels_ P' !! fd_ ch = Some cp ∧
    interest k' (epollfd_ P) (fd_ ch) = None.
Proof.
  intros Hi Hk He Hev. unfold chan_run, chan_step, EpollPoller.updateChannel, EpollPoller.update.
  cbn. rewrite Hi. cbn. rewrite (proj2 (Z.eqb_neq ev 0) Hev).
  do 3 eexists. split; [done|]. cbn. split_and!; [done|by simplify_map_eq|].
  destruct (epoll_ctl _ EPOLL_CTL_ADD _ _ _ k) as [k1 r1] eqn:E1. cbn in He. subst r1.
  pose proof (ctl_failure _ _ _ _ _ _ _ _ E1) as Hf1. cbn.
  destruct (epoll_ctl (epollfd_ P) EPOLL_CTL_MOD _ _ _ k1) as [k2 r2] eqn:E2.
  assert (interest k1 (epollfd_ P) (fd_ ch) = None) as Hk1 by (by rewrite Hf1).
  pose proof (ctl_absent (epollfd_ P) EPOLL_CTL_MOD (fd_ ch) ev cp k1) as Hr2.
  rewrite E2 in Hr2. cbn in Hr2. rewrite Hr2 in E2 by done.
  cbn. by rewrite (ctl_failure _ _ _ _ _ _ _ _ E2).
Qed.
End sequences.

Definition demo_channel : Channel :=
  mkChannel 1 7 0 0 NEW None false None None None None.

Lemma poller_registration_consistent_witness :
  let P := EpollPoller.ctor 1 3 in
  ∃ ch' P' (k' : RefKernel.t),
    chan_run (ChConn 9) [CUpdate 3; CUpdate 7; CUpdate 0; CUpdate 0; CRemove]
      (demo_channel, P, RefKernel.empty) = (ch', P', k') ∧
    registered (ChConn 9) ch' P' k' ∧ fd_ ch' = 7 ∧
    poller_frame demo_channel P RefKernel.empty P' k' ∧
    fst <$> interest k' 3 7 =
      foldl (λ s o, watch_step o s) (fst <$> interest RefKernel.empty 3 7)
        [CUpdate 3; CUpdate 7; CUpdate 0; CUpdate 0; CRemove].
Proof.
  apply poller_registration_consistent.
  - by apply reg_new.
  - intros k. apply RefKernel.has_room.
Defined.

Lemma refused_add_is_forgotten_witness :
  let P := EpollPoller.ctor 1 3 in
  let k := FullKernel.mk RefKernel.empty in
  let ch := set_events_ 3 demo_channel in
  ∃ ch' P' k',
    chan_run (ChConn 9) [CUpdate (events_ ch); CUpdate 7] (ch, P, k) = (ch', P', k') ∧
    index_ ch' = ADDED ∧ channels_ P' !! fd_ ch = Some (ChConn 9) ∧
    interest k' (epollfd_ P) (fd_ ch) = None.
Proof. by apply (refused_add_is_forgotten _ _ _ _ 28). Defined.
