(* ===== verification/Demo.v ===== *)
(** * A small concrete world, on which the witnesses evaluate

    One loop (address 1, thread 100, epoll descriptor 3, eventfd 4), one
    established connection (address 9, descriptor 7) registered for reading,
    and a server (base loop 1) that has it in its map.  The kernel's answers
    are the argument. *)

From stdpp Require Import base tactics numbers list gmap strings.
From Stdlib Require Import ZArith Lia.
From S2P Require Import Prelude NetBuffer Kernel World Poller.

Local Open Scope string_scope.
Local Open Scope list_scope.
Local Open Scope Z_scope.

Definition demo_wakeup_channel : Channel :=
  mkChannel 1 4 3 0 ADDED None false (Some (CbLoopHandleRead 1)) None None None.

Definition demo_poller : EpollPoller :=
  mkEpollPoller 1 (<[4 := ChWakeup 1]> {[7 := ChConn 9]}) 3 16.

Definition demo_loop : EventLoop :=
  mkEventLoop true false 100 0 (Some demo_poller) 4 demo_wakeup_channel [] false [].

Definition demo_conn_channel : Channel :=
  mkChannel 1 7 3 5 ADDED (Some 9) true
    (Some (CbConnHandleRead 9)) (Some (CbConnHandleWrite 9))
    (Some (CbConnHandleClose 9)) (Some (CbConnHandleError 9)).

Definition demo_addr : InetAddress := mkInetAddress 2 36895 16777343.

Definition demo_conn : TcpConnection :=
  mkTcpConnection 1 "srv-127.0.0.1:80801" kConnected true 7 demo_conn_channel
    demo_addr demo_addr (Some 1) (Some 2) (Some 3) true None (64 * 1024 * 1024)
    (Buffer.ctor 1024) (Buffer.ctor 1024).

Definition demo_acceptor : Acceptor :=
  mkAcceptor 1 5 (mkChannel 1 5 0 0 NEW None false (Some CbAcceptorHandleRead) None None None)
    true false.

Definition demo_server : TcpServer :=
  mkTcpServer 1 "127.0.0.1:8080" "srv" demo_acceptor
    (mkEventLoopThreadPool 1 "srv" true 0 0 [] []) (Some 1) (Some 2) (Some 3) None 1 2
    {["srv-127.0.0.1:80801" := 9]}.

Definition demo_kernel : RefKernel.t :=
  RefKernel.mk (<[(3, 4) := (3, ChWakeup 1)]> {[(3, 7) := (3, ChConn 9)]}) ∅.

(** The world with the given loop and connection. *)
Definition demo_world_of (x : EventLoop) (c : TcpConnection) (oracle : nat → sysret)
    : World RefKernel.t :=
  mkWorld 100 {[1 := x]} {[100 := 1]} {[9 := c]} demo_server ∅ demo_kernel oracle 0
    {["asynclogger"]} [].

Definition demo_world := demo_world_of demo_loop demo_conn.
