(* ===== verification/Loop.v ===== *)
(** * The event loop's operations (src/EventLoop.cpp, EpollPoller::poll)

    Channel registration, cross-thread task queueing, wakeups and one round of
    pending functors.  What a functor does when it runs is the argument
    [run_functor] (defined in [System.v]); [loop()] itself is there too. *)

From stdpp Require Import base tactics numbers list gmap strings.
From Stdlib Require Import ZArith Lia.
From S2P Require Import Prelude NetBuffer Kernel World Poller.

Local Open Scope string_scope.
Local Open Scope list_scope.
Local Open Scope Z_scope.
Local Open Scope prog_scope.

Module EventLoop.
Section ops.
Context {K : Type} `{Kernel K}.
Local Abbreviation M := (M (World K)).

(** [threadId_ == CurrentThread::tid()]. *)
Definition isInLoopThread (x : EventLoop) (w : World K) : bool :=
  threadId_ x =? w_tid w.

(** [poller_->...] through the [unique_ptr]. *)
Definition with_poller (l : ptr) (cp : chptr)
    (f : Channel → EpollPoller → K → Channel * EpollPoller * K) : M unit :=
  let! x := load_loop l in
  match poller_ x with
  | None => throw NullDeref
  | Some P =>
      log "asynclogger" ;;!
      let! ch := load_channel cp in
      let! k := gets w_kernel in
      let '(ch', P', k') := f ch P k in
      modify_loop l (set_poller_ (Some P')) ;;!
      modify_channel cp (λ _, ch') ;;!
      modify (set_w_kernel k')
  end.

Definition updateChannel (l : ptr) (cp : chptr) : M unit :=
  with_poller l cp (EpollPoller.updateChannel cp).

Definition removeChannel (l : ptr) (cp : chptr) : M unit :=
  with_poller l cp (EpollPoller.removeChannel cp).

Definition hasChannel (l : ptr) (cp : chptr) : M bool :=
  let! x := load_loop l in
  match poller_ x with
  | None => throw NullDeref
  | Some P => let! ch := load_channel cp in ret (EpollPoller.hasChannel cp ch P)
  end.

(** [wakeup]: adds 1 to the eventfd; a short write is only logged. *)
Definition wakeup (l : ptr) : M unit :=
  let! x := load_loop l in
  let! k := gets w_kernel in
  let r := eventfd_write (wakeupFd_ x) k in
  modify (set_w_kernel r.1) ;;!
  when (negb (r.2 =? 8)) (log "asynclogger").

(** [handleRead]: resets the eventfd. *)
Definition handleRead (l : ptr) : M unit :=
  let! x := load_loop l in
  let! k := gets w_kernel in
  let r := eventfd_read (wakeupFd_ x) k in
  modify (set_w_kernel r.1) ;;!
  when (negb (r.2 =? 8)) (log "asynclogger").

(** The critical section of [queueInLoop]. *)
Definition push_functor (f : Functor) (x : EventLoop) : EventLoop :=
  set_pengdingFuntors_ (pengdingFuntors_ x ++ [f]) x.

(** Whether [queueInLoop] wakes the loop's thread. *)
Definition needs_wakeup (in_loop_thread : bool) (x : EventLoop) : bool :=
  negb in_loop_thread || callingPendingFuntors_ x.

Definition queueInLoop (l : ptr) (cb : Functor) : M unit :=
  modify_loop l (push_functor cb) ;;!
  let! x := load_loop l in
  let! here := gets (isInLoopThread x) in
  when (needs_wakeup here x) (wakeup l).

(** [run] is the call [cb()] itself. *)
Definition runInLoop (l : ptr) (cb : Functor) (run : M unit) : M unit :=
  let! x := load_loop l in
  let! here := gets (isInLoopThread x) in
  if (here : bool) then run else queueInLoop l cb.

Definition quit (l : ptr) : M unit :=
  modify_loop l (set_quit_ true) ;;!
  let! x := load_loop l in
  let! here := gets (isInLoopThread x) in
  when (negb here) (wakeup l).

(** The critical section of [doPendingFunctions]: the whole list is taken. *)
Definition swap_functors (x : EventLoop) : list Functor * EventLoop :=
  (pengdingFuntors_ x, set_pengdingFuntors_ [] x).

(** The local vector [functors] dies at the end: [drop_functors] releases what
    the calls hold. *)
Definition doPendingFunctions (run_functor : Functor → M unit)
    (drop_functors : list Functor → M unit) (l : ptr) : M unit :=
  modify_loop l (set_callingPendingFuntors_ true) ;;!
  let! x := load_loop l in
  let r := swap_functors x in
  store_loop l r.2 ;;!
  mapM_ run_functor r.1 ;;!
  modify_loop l (set_callingPendingFuntors_ false) ;;!
  drop_functors r.1.

(** The entries [epoll_wait] may report: registered descriptors, each once,
    with the requested bits and EPOLLERR, EPOLLHUP, at most [maxevents]. *)
Fixpoint ready_events (k : K) (ep : Z) (seen : list Z) (l : list (Z * Z))
    : list (Z * chptr) :=
  match l with
  | [] => []
  | (fd, bits) :: l' =>
      match interest k ep fd with
      | Some (ev, cp) =>
          let r := Z.land bits (Z.lor ev (Z.lor EPOLLERR EPOLLHUP)) in
          if bool_decide (fd ∈ seen) || (r =? 0) then ready_events k ep seen l'
          else (r, cp) :: ready_events k ep (fd :: seen) l'
      | None => ready_events k ep seen l'
      end
  end.

Definition epoll_wait (P : EpollPoller) : M (Z + list (Z * chptr)) :=
  let! r := syscall in
  let! k := gets w_kernel in
  if sr_ret r <? 0 then ret (inl (- sr_ret r))
  else ret (inr (ztake (ep_events_size P) (ready_events k (epollfd_ P) [] (sr_ready r)))).

(** [Timestamp::now()]. *)
Definition now : M Z := let! r := syscall in ret (sr_ret r).

(** [EpollPoller::fillActiveChannels]. *)
Definition fillActiveChannels (l : ptr) (evs : list (Z * chptr)) : M unit :=
  mapM_ (λ e,
    modify_channel e.2 (set_revents_ e.1) ;;!
    modify_loop l (λ x, set_activecChannels_ (activecChannels_ x ++ [e.2]) x)) evs.

(** [EpollPoller::poll], with [activecChannels_] as the output list. *)
Definition poll (l : ptr) : M Z :=
  let! x := load_loop l in
  match poller_ x with
  | None => throw NullDeref
  | Some P =>
      let! r := epoll_wait P in
      let! t := now in
      match r with
      | inl errno =>
          when (negb (errno =? EINTR)) (log "asynclogger") ;;! ret t
      | inr evs =>
          fillActiveChannels l evs ;;!
          when ((0 <? zlen evs) && (zlen evs =? ep_events_size P))
            (modify_loop l (λ x,
               set_poller_ (set_ep_events_size (ep_events_size P * 2) <$> poller_ x) x)) ;;!
          ret t
      end
  end.
End ops.
End EventLoop.

(** ** What the operations do to the world *)

Ltac wcbn :=
  cbn [w_tid w_loops w_tls w_conns w_server w_strs w_kernel w_oracle w_clock w_loggers w_trace
       set_w_tid set_w_loops set_w_tls set_w_conns set_w_server set_w_strs set_w_kernel set_w_clock
       set_w_trace fst snd] in *.

Section loop_lemmas.
Context {K : Type} `{KernelOk K}.
Implicit Types w : World K.

Lemma gets_ok {A} (f : World K → A) w : gets f w = Ok (f w, w).
Proof. done. Qed.
Lemma modify_ok (f : World K → World K) w : modify f w = Ok (tt, f w).
Proof. done. Qed.
Lemma when_log_ok b w : "asynclogger" ∈ w_loggers w → when b (log "asynclogger") w = Ok (tt, w).
Proof. intros Hlog. destruct b; [by apply log_ok|done]. Qed.

Lemma wakeup_ok l x w :
  w_loops w !! l = Some x → "asynclogger" ∈ w_loggers w →
  EventLoop.wakeup l w =
    Ok (tt, set_w_kernel (eventfd_write (wakeupFd_ x) (w_kernel w)).1 w).
Proof.
  intros Hl Hlog. unfold EventLoop.wakeup.
  rewrite (bind_Ok _ _ _ _ _ (load_loop_ok _ _ _ Hl)).
  rewrite (bind_Ok _ _ _ _ _ (gets_ok _ _)), (bind_Ok _ _ _ _ _ (modify_ok _ _)).
  by apply when_log_ok.
Qed.

(** The kernel state after [queueInLoop] on loop [x]. *)
Definition queue_kernel (x : EventLoop) (w : World K) : K :=
  if EventLoop.needs_wakeup (EventLoop.isInLoopThread x w) x
  then (eventfd_write (wakeupFd_ x) (w_kernel w)).1 else w_kernel w.

Lemma queueInLoop_ok l f x w :
  w_loops w !! l = Some x → "asynclogger" ∈ w_loggers w →
  EventLoop.queueInLoop l f w =
    Ok (tt, set_w_kernel (queue_kernel x w)
              (set_w_loops (<[l := EventLoop.push_functor f x]> (w_loops w)) w)).
Proof.
  intros Hl Hlog. unfold EventLoop.queueInLoop.
  rewrite (bind_Ok _ _ _ _ _ (modify_loop_ok _ _ _ _ Hl)).
  set (w1 := set_w_loops _ w).
  assert (Hl1 : w_loops w1 !! l = Some (EventLoop.push_functor f x))
    by (subst w1; wcbn; apply lookup_insert_eq).
  rewrite (bind_Ok _ _ _ _ _ (load_loop_ok _ _ _ Hl1)).
  rewrite (bind_Ok _ _ _ _ _ (gets_ok _ _)).
  unfold queue_kernel.
  change (EventLoop.isInLoopThread (EventLoop.push_functor f x) w1)
    with (EventLoop.isInLoopThread x w).
  change (EventLoop.needs_wakeup (EventLoop.isInLoopThread x w) (EventLoop.push_functor f x))
    with (EventLoop.needs_wakeup (EventLoop.isInLoopThread x w) x).
  destruct (EventLoop.needs_wakeup _ _); cbn [when].
  - by rewrite (wakeup_ok _ _ _ Hl1) by done.
  - by destruct w.
Qed.
End loop_lemmas.

#[export] Hint Resolve gets_ok modify_ok when_log_ok : mrun.
