(* ===== verification/LoopSched.v ===== *)
(** * The event loop and the other threads (src/EventLoop.cpp)

    [EventLoop::loop] as the steps of its own thread, interleaved with the
    steps of the threads that call [queueInLoop] and [quit] on it.  A step is
    what no other thread can observe a part of: a critical section, an atomic
    load or store, a system call.  The operations on the loop are those of
    [Loop.v].  In particular a caller from another thread appends its task in
    one step and writes the eventfd in a later one: [s_wakers] counts the
    callers in between. *)

From stdpp Require Import base tactics numbers list relations gmap.
From Stdlib Require Import ZArith Lia.
From S2P Require Import Prelude NetBuffer Kernel World Poller Demo Loop.

Local Open Scope Z_scope.

(** Where the loop's thread is. *)
Inductive pc :=
  | AtStart                          (* before [looping_ = true] *)
  | AtReset                          (* before [quit_ = false] *)
  | AtCheck                          (* before [while (!quit_)] *)
  | AtPoll                           (* before or in [epoll_wait] *)
  | AtDispatch (woken : bool)        (* in the handlers; [woken]: the eventfd is
                                        reported and its handler yet to run *)
  | AtSwap                           (* [callingPendingFuntors_] is set *)
  | AtRun (rest : list Functor)      (* in the calls; [rest] are left *)
  | AtEnd.

(** [s_pushed], [s_done] and [s_quits] are histories: the tasks queued, the
    tasks started, and the number of [quit] calls since [loop] began. *)
Record sched (K : Type) := mkSched {
  s_loop : EventLoop;
  s_kernel : K;
  s_pc : pc;
  s_wakers : nat;
  s_pushed : list Functor;
  s_done : list Functor;
  s_quits : nat }.
Arguments mkSched {K}.
Arguments s_loop {K}.
Arguments s_kernel {K}.
Arguments s_pc {K}.
Arguments s_wakers {K}.
Arguments s_pushed {K}.
Arguments s_done {K}.
Arguments s_quits {K}.

Section steps.
Context {K : Type} `{Kernel K}.
Implicit Types s : sched K.

(** Whether the loop has passed [quit_ = false]. *)
Definition begun (p : pc) : bool :=
  match p with AtStart | AtReset => false | _ => true end.

(** The eventfd's counter. *)
Definition count s : Z := eventfd_count (s_kernel s) (wakeupFd_ (s_loop s)).

(** [wakeup()] if [queueInLoop] decides so, by the loop's own thread. *)
Definition own_wakeup (x : EventLoop) (k : K) : K :=
  if EventLoop.needs_wakeup true x then (eventfd_write (wakeupFd_ x) k).1 else k.

(** Steps of the loop's thread. *)
Inductive loop_step : sched K → sched K → Prop :=
  | l_start x k n ps ds q :
      loop_step (mkSched x k AtStart n ps ds q)
                (mkSched (set_looping_ true x) k AtReset n ps ds q)
  | l_reset x k n ps ds q :
      loop_step (mkSched x k AtReset n ps ds q)
                (mkSched (set_quit_ false x) k AtCheck n ps ds q)
  | l_check_go x k n ps ds q :
      quit_ x = false →
      loop_step (mkSched x k AtCheck n ps ds q) (mkSched x k AtPoll n ps ds q)
  | l_check_end x k n ps ds q :
      quit_ x = true →
      loop_step (mkSched x k AtCheck n ps ds q)
                (mkSched (set_looping_ false x) k AtEnd n ps ds q)
  (** [epoll_wait] returns: for the eventfd only if its counter is positive,
      otherwise for another descriptor, the timeout or a signal *)
  | l_poll x k n ps ds q woken :
      (woken = true → 0 < eventfd_count k (wakeupFd_ x)) →
      loop_step (mkSched x k AtPoll n ps ds q) (mkSched x k (AtDispatch woken) n ps ds q)
  | l_handle_wakeup x k n ps ds q :
      loop_step (mkSched x k (AtDispatch true) n ps ds q)
                (mkSched x (eventfd_read (wakeupFd_ x) k).1 (AtDispatch false) n ps ds q)
  (** a handler calls [queueInLoop] or [quit] *)
  | l_handler_queue x k n ps ds q woken f :
      let x' := EventLoop.push_functor f x in
      loop_step (mkSched x k (AtDispatch woken) n ps ds q)
                (mkSched x' (own_wakeup x' k) (AtDispatch woken) n (ps ++ [f]) ds q)
  | l_handler_quit x k n ps ds q woken :
      loop_step (mkSched x k (AtDispatch woken) n ps ds q)
                (mkSched (set_quit_ true x) k (AtDispatch woken) n ps ds (S q))
  | l_dispatched x k n ps ds q :
      loop_step (mkSched x k (AtDispatch false) n ps ds q)
                (mkSched (set_callingPendingFuntors_ true x) k AtSwap n ps ds q)
  | l_swap x k n ps ds q :
      let r := EventLoop.swap_functors x in
      loop_step (mkSched x k AtSwap n ps ds q) (mkSched r.2 k (AtRun r.1) n ps ds q)
  | l_run x k n ps ds q f rest :
      loop_step (mkSched x k (AtRun (f :: rest)) n ps ds q)
                (mkSched x k (AtRun rest) n ps (ds ++ [f]) q)
  (** a task calls [queueInLoop] or [quit] *)
  | l_task_queue x k n ps ds q rest f :
      let x' := EventLoop.push_functor f x in
      loop_step (mkSched x k (AtRun rest) n ps ds q)
                (mkSched x' (own_wakeup x' k) (AtRun rest) n (ps ++ [f]) ds q)
  | l_task_quit x k n ps ds q rest :
      loop_step (mkSched x k (AtRun rest) n ps ds q)
                (mkSched (set_quit_ true x) k (AtRun rest) n ps ds (S q))
  | l_ran x k n ps ds q :
      loop_step (mkSched x k (AtRun []) n ps ds q)
                (mkSched (set_callingPendingFuntors_ false x) k AtCheck n ps ds q).

(** Steps of the other threads. *)
Inductive other_step : sched K → sched K → Prop :=
  | o_queue x k p n ps ds q f :
      let x' := EventLoop.push_functor f x in
      other_step (mkSched x k p n ps ds q)
                 (mkSched x' k p (if EventLoop.needs_wakeup false x' then S n else n)
                    (ps ++ [f]) ds q)
  | o_quit x k p n ps ds q :
      other_step (mkSched x k p n ps ds q)
                 (mkSched (set_quit_ true x) k p (S n) ps ds (if begun p then S q else q))
  | o_wakeup x k p n ps ds q :
      other_step (mkSched x k p (S n) ps ds q)
                 (mkSched x (eventfd_write (wakeupFd_ x) k).1 p n ps ds q).

Definition step s s' : Prop := loop_step s s' ∨ other_step s s'.

(** A loop whose constructor has run, with nothing queued. *)
Definition initial s : Prop :=
  s_pc s = AtStart ∧ s_wakers s = 0%nat ∧ s_pushed s = [] ∧ s_done s = [] ∧ s_quits s = 0%nat ∧
  pengdingFuntors_ (s_loop s) = [] ∧ callingPendingFuntors_ (s_loop s) = false.

Definition reachable s : Prop := ∃ s0, initial s0 ∧ rtc step s0 s.

(** The tasks swapped out and not yet started. *)
Definition in_hand (p : pc) : list Functor :=
  match p with AtRun rest => rest | _ => [] end.

(** Positions from which the loop takes the whole queue before it polls. *)
Definition will_swap (p : pc) : bool :=
  match p with AtDispatch _ | AtSwap => true | _ => false end.
End steps.

Section invariants.
Context {K : Type} `{KernelOk K}.
Implicit Types s : sched K.

(** The loop will return from its next [epoll_wait], or a caller is about to
    make it so. *)
Definition alarmed s : Prop := 0 < count s ∨ (0 < s_wakers s)%nat.

Record sched_inv s : Prop := {
  i_fifo : s_pushed s = s_done s ++ in_hand (s_pc s) ++ pengdingFuntors_ (s_loop s);
  i_calling : callingPendingFuntors_ (s_loop s) =
    match s_pc s with AtSwap | AtRun _ => true | _ => false end;
  i_awake : pengdingFuntors_ (s_loop s) ≠ [] → will_swap (s_pc s) = true ∨ alarmed s;
  i_quit : s_pc s = AtPoll → quit_ (s_loop s) = true → alarmed s;
  i_quits : (0 < s_quits s)%nat → quit_ (s_loop s) = true;
  i_not_begun : begun (s_pc s) = false → s_quits s = 0%nat }.

Lemma sched_inv_initial s : initial s → sched_inv s.
Proof.
  destruct s as [x k p n ps ds q]. intros (Hp & Hn & Hps & Hds & Hq & Hf & Hc). cbn in *.
  subst. split; cbn; rewrite ?Hf; try done; lia.
Qed.

Lemma sched_inv_loop s s' : loop_step s s' → sched_inv s → sched_inv s'.
Proof.
  intros Hs [Hf Hc Ha Hq Hqs Hb]. unfold alarmed, count in *.
  destruct Hs; cbn in *; split; cbn; rewrite ?Hf, ?app_nil_r, <- ?app_assoc;
    auto; try done; try (intros; lia); try tauto.
  - (* the check failed to end the loop *) congruence.
  - (* a task queues one more: the loop wakes itself *)
    intros _. right; left. unfold own_wakeup, EventLoop.needs_wakeup. subst x'. cbn. rewrite Hc.
    apply (evw_readable (wakeupFd_ x)).
Qed.

Lemma sched_inv_other s s' : other_step s s' → sched_inv s → sched_inv s'.
Proof.
  intros Hs [Hf Hc Ha Hq Hqs Hb]. unfold alarmed, count in *.
  destruct Hs as [x k p n ps ds q f x'|x k p n ps ds q|x k p n ps ds q]; cbn in *.
  - split; cbn; auto; try done.
    + by rewrite Hf, <- !app_assoc.
    + intros _. right; right. cbn; lia.
    + intros Hp Hqt. right. cbn; lia.
  - split; cbn; auto; try done.
    + intros Hpend. right; right. cbn; lia.
    + intros _ _. right. cbn; lia.
    + intros Hp. rewrite Hp. auto.
  - pose proof (evw_readable (wakeupFd_ x) k) as Hw. split; cbn; auto.
    + intros _. right; left. exact Hw.
    + intros _ _. left. exact Hw.
Qed.

Lemma sched_inv_reachable s : reachable s → sched_inv s.
Proof.
  intros (s0 & Hinit & Hr). pose proof (sched_inv_initial _ Hinit) as Hi.
  clear Hinit. induction Hr as [|s1 s2 s3 [Hs|Hs] _ IH]; [done| |]; apply IH;
    eauto using sched_inv_loop, sched_inv_other.
Qed.

(** Past its reset the flag is set by counted calls only, and a loop ends
    because of one. *)
Definition quit_counted s : Prop :=
  (begun (s_pc s) = true → quit_ (s_loop s) = true → (0 < s_quits s)%nat) ∧
  (s_pc s = AtEnd → (0 < s_quits s)%nat).

Lemma quit_counted_step s s' : step s s' → quit_counted s → quit_counted s'.
Proof.
  unfold quit_counted. intros [Hs|Hs]; destruct Hs; cbn; try (destruct p); cbn; intros [Hq He];
    split; intros; try done; try lia; auto; try congruence.
Qed.

Lemma quit_counted_reachable s : reachable s → quit_counted s.
Proof.
  intros (s0 & Hinit & Hr).
  assert (Hi : quit_counted s0) by (unfold quit_counted; by rewrite (proj1 Hinit)). clear Hinit.
  induction Hr as [|s1 s2 s3 Hs _ IH]; [done|]. by eapply IH, quit_counted_step.
Qed.

(** C9: no wakeup is lost. Whatever the interleaving, when the loop is about
    to sleep in [epoll_wait] with a task in the queue or a [quit] to notice,
    either the eventfd is readable, so that it does not sleep, or the caller
    that queued or quit has yet to write to it; and that write makes it
    readable. *)
Theorem no_lost_wakeup s :
  reachable s → s_pc s = AtPoll →
  (pengdingFuntors_ (s_loop s) ≠ [] ∨ quit_ (s_loop s) = true) →
  (s_wakers s = 0%nat → 0 < count s) ∧
  (∀ s', other_step s s' → (s_wakers s' < s_wakers s)%nat → 0 < count s').
Proof.
  intros Hr Hp Hor. destruct (sched_inv_reachable _ Hr) as [_ _ Ha Hq _ _]. split.
  - intros Hn. assert (Hal : alarmed s).
    { destruct Hor as [Hpend|Hqt]; [|by apply Hq].
      destruct (Ha Hpend) as [Hw|?]; [|done]. by rewrite Hp in Hw. }
    destruct Hal; [done|lia].
  - intros s' Hs. destruct Hs as [x k p n ps ds q f x'|x k p n ps ds q|x k p n ps ds q]; cbn;
      intros Hlt; try lia. unfold count; cbn. apply evw_readable.
Qed.

(** C14: tasks run in the order they were queued, each exactly once: at any
    moment the tasks queued so far are those started, those taken and waiting
    their turn, and those in the queue, in this order. *)
Theorem tasks_fifo_exactly_once s :
  reachable s →
  s_pushed s = s_done s ++ in_hand (s_pc s) ++ pengdingFuntors_ (s_loop s).
Proof. intros Hr. apply (sched_inv_reachable _ Hr). Qed.

(** Steps by which the loop gets on without a timeout: its own, but it leaves
    [epoll_wait] only when the eventfd is readable, and the wakeups that are
    due. *)
Inductive prompt_step : sched K → sched K → Prop :=
  | pr_loop s s' : loop_step s s' → (s_pc s = AtPoll → 0 < count s) → prompt_step s s'
  | pr_wakeup x k p n ps ds q :
      prompt_step (mkSched x k p (S n) ps ds q)
                  (mkSched x (eventfd_write (wakeupFd_ x) k).1 p n ps ds q).

Lemma prompt_step_step s s' : prompt_step s s' → step s s'.
Proof. intros []; [by left|right; apply o_wakeup]. Qed.

Definition can_end s : Prop := ∃ s', rtc prompt_step s s' ∧ s_pc s' = AtEnd.

Lemma can_end_step s s' : loop_step s s' → (s_pc s = AtPoll → 0 < count s) → can_end s' → can_end s.
Proof. intros Hs Hp (s'' & Hr & He). exists s''. split; [|done]. eapply rtc_l; [by apply pr_loop|done]. Qed.

Lemma can_end_check x k n ps ds q : quit_ x = true → can_end (mkSched x k AtCheck n ps ds q).
Proof.
  intros Hq. eapply can_end_step; [by apply l_check_end|done|]. eexists. split; [apply rtc_refl|done].
Qed.

Lemma can_end_run x k n ps ds q rest : quit_ x = true → can_end (mkSched x k (AtRun rest) n ps ds q).
Proof.
  intros Hq. revert ds. induction rest as [|f rest IH]; intros ds.
  - eapply can_end_step; [apply l_ran|done|]. by apply can_end_check.
  - eapply can_end_step; [apply l_run|done|]. apply IH.
Qed.

Lemma can_end_swap x k n ps ds q : quit_ x = true → can_end (mkSched x k AtSwap n ps ds q).
Proof. intros Hq. eapply can_end_step; [apply l_swap|done|]. by apply can_end_run. Qed.

Lemma can_end_dispatch x k n ps ds q b :
  quit_ x = true → can_end (mkSched x k (AtDispatch b) n ps ds q).
Proof.
  assert (Hf : ∀ k', quit_ x = true → can_end (mkSched x k' (AtDispatch false) n ps ds q))
    by (intros k' Hq; eapply can_end_step; [apply l_dispatched|done|]; by apply can_end_swap).
  intros Hq. destruct b; [|by apply Hf]. eapply can_end_step; [apply l_handle_wakeup|done|]. by apply Hf.
Qed.

Lemma can_end_poll x k n ps ds q :
  quit_ x = true → 0 < eventfd_count k (wakeupFd_ x) → can_end (mkSched x k AtPoll n ps ds q).
Proof.
  intros Hq Hc. eapply can_end_step; [by apply (l_poll x k n ps ds q true)|done|].
  by apply can_end_dispatch.
Qed.

(** Wherever the loop is, once [quit] has been called. *)
Lemma quit_can_end s : reachable s → (0 < s_quits s)%nat → can_end s.
Proof.
  intros Hr Hq. destruct (sched_inv_reachable _ Hr) as [_ _ _ Hp Hqt Hb]. specialize (Hqt Hq).
  destruct s as [x k p n ps ds q]. cbn in *.
  destruct p; cbn in *; try (specialize (Hb eq_refl); lia);
    eauto using can_end_check, can_end_run, can_end_swap, can_end_dispatch.
  - destruct (Hp eq_refl Hqt) as [Hc|Hn]; cbn in *; [by apply can_end_poll|]. destruct n as [|n]; [lia|].
    destruct (can_end_poll x (eventfd_write (wakeupFd_ x) k).1 n ps ds q Hqt) as (s' & Hr' & He);
      [apply evw_readable|].
    exists s'. split; [|done]. eapply rtc_l; [apply pr_wakeup|done].
  - eexists. split; [apply rtc_refl|done].
Qed.

Lemma step_quits s s' : step s s' → begun (s_pc s) = true → (s_quits s ≤ s_quits s')%nat.
Proof. intros [Hs|Hs]; destruct Hs; cbn; try done; try lia. by intros ->; lia. Qed.

Lemma step_begun s s' : step s s' → begun (s_pc s) = true → begun (s_pc s') = true.
Proof. by intros [Hs|Hs]; destruct Hs. Qed.

(** C25: [quit] ends the loop. Once [quit] has been called, by any thread, on a
    loop that is past [quit_ = false], the flag holds for ever, whatever the
    threads do; and at every moment from then on the loop can get to its end by
    its own steps and the wakeups that are due, without waiting for a timeout
    or another event. *)
Theorem quit_ends_loop s s' :
  reachable s → (0 < s_quits s)%nat → rtc step s s' →
  quit_ (s_loop s') = true ∧ ∃ s'', rtc prompt_step s' s'' ∧ s_pc s'' = AtEnd.
Proof.
  intros Hr Hq Hs. assert (Hb : begun (s_pc s) = true).
  { pose proof (i_not_begun _ (sched_inv_reachable _ Hr)) as Hb. destruct (begun (s_pc s)); [done|].
    rewrite Hb in Hq by done. lia. }
  induction Hs as [s|s1 s2 s3 H12 _ IH].
  - split; [by apply (i_quits _ (sched_inv_reachable _ Hr))|by apply quit_can_end].
  - apply IH; [|by pose proof (step_quits _ _ H12 Hb); lia|by eapply step_begun].
    destruct Hr as (s0 & Hi & Hr). exists s0. split; [done|]. by eapply rtc_r.
Qed.

(** What has become of the tasks [ts] that were started or queued at an
    earlier moment: in the queue until it is swapped, then in hand, then
    started. *)
Definition tracked (ts : list Functor) s : Prop :=
  match s_pc s with
  | AtPoll | AtDispatch _ | AtSwap => ts `prefix_of` s_done s ++ pengdingFuntors_ (s_loop s)
  | AtRun rest => ts `prefix_of` s_done s ++ rest
  | _ => ts `prefix_of` s_done s
  end.

Lemma tracked_step ts s s' : step s s' → tracked ts s → tracked ts s'.
Proof.
  unfold tracked. intros [Hs|Hs]; destruct Hs; cbn in *; intros Ht; try done.
  - by apply prefix_app_r.
  - rewrite app_assoc. by apply prefix_app_r.
  - by rewrite <- app_assoc.
  - by rewrite app_nil_r in Ht.
  - destruct p; try done; rewrite app_assoc; by apply prefix_app_r.
Qed.

(** C13: one iteration runs everything. Whatever the other threads do, when
    the loop that was about to poll gets back to its check, every task that was
    in the queue has been started, in order, before any newer one; and the loop
    can get there by itself. *)
Theorem iteration_runs_queue s :
  s_pc s = AtPoll →
  (∀ s', rtc step s s' → s_pc s' = AtCheck ∨ s_pc s' = AtEnd →
     s_done s ++ pengdingFuntors_ (s_loop s) `prefix_of` s_done s') ∧
  (∃ s', rtc loop_step s s' ∧ s_pc s' = AtCheck).
Proof.
  intros Hp. split.
  - intros s' Hr Hend. assert (Ht : tracked (s_done s ++ pengdingFuntors_ (s_loop s)) s)
      by (unfold tracked; by rewrite Hp).
    clear Hp. revert Ht. generalize (s_done s ++ pengdingFuntors_ (s_loop s)). intros ts Ht.
    induction Hr as [|s1 s2 s3 Hs _ IH]; [|apply IH; [done|by eapply tracked_step]].
    unfold tracked in Ht. by destruct Hend as [E|E]; rewrite E in Ht.
  - destruct s as [x k p n ps ds q]. cbn in Hp. subst p.
    assert (Hrun : ∀ rest x' ds', ∃ s', rtc loop_step (mkSched x' k (AtRun rest) n ps ds' q) s' ∧
      s_pc s' = AtCheck).
    { intros rest x'. induction rest as [|f rest IH]; intros ds'.
      - eexists. split; [apply rtc_once, l_ran|done].
      - destruct (IH (ds' ++ [f])) as (s' & Hr & Hs'). exists s'. split; [|done].
        eapply rtc_l; [apply l_run|done]. }
    edestruct Hrun as (s' & Hr & Hs'). exists s'. split; [|exact Hs'].
    eapply rtc_l; [by apply (l_poll x k n ps ds q false)|].
    eapply rtc_l; [apply l_dispatched|]. eapply rtc_l; [apply l_swap|]. exact Hr.
Qed.

(** The loop goes round once with the eventfd reported and an empty queue. *)
Lemma idle_round x k n ps ds q :
  pengdingFuntors_ x = [] → quit_ x = false → 0 < eventfd_count k (wakeupFd_ x) →
  ∃ x', rtc loop_step (mkSched x k AtCheck n ps ds q)
              (mkSched x' (eventfd_read (wakeupFd_ x) k).1 AtPoll n ps ds q) ∧
    quit_ x' = false ∧ wakeupFd_ x' = wakeupFd_ x ∧ pengdingFuntors_ x' = [].
Proof.
  intros Hpend Hq Hc.
  exists (set_callingPendingFuntors_ false (set_pengdingFuntors_ []
            (set_callingPendingFuntors_ true x))).
  split; [|done].
  eapply rtc_l; [by apply l_check_go|].
  eapply rtc_l; [by apply (l_poll x k n ps ds q true)|].
  eapply rtc_l; [apply l_handle_wakeup|].
  eapply rtc_l; [apply l_dispatched|]. eapply rtc_l; [apply l_swap|].
  cbn [EventLoop.swap_functors fst snd].
  replace (pengdingFuntors_ (set_callingPendingFuntors_ true x)) with (@nil Functor) by done.
  eapply rtc_l; [apply l_ran|]. eapply rtc_l; [by apply l_check_go|]. done.
Qed.

(** A [quit] that comes before [loop] has begun is lost: [loop] resets the flag,
    and the loop can come to sleep with nothing left to wake it. *)
Lemma early_quit_lost x k :
  pengdingFuntors_ x = [] →
  ∃ s, rtc loop_step (mkSched (set_quit_ true x) (eventfd_write (wakeupFd_ x) k).1 AtStart 0 [] [] 0) s ∧
    s_pc s = AtPoll ∧ quit_ (s_loop s) = false ∧ s_wakers s = 0%nat ∧ count s = 0 ∧
    pengdingFuntors_ (s_loop s) = [] ∧ s_quits s = 0%nat.
Proof.
  intros Hpend. set (k1 := (eventfd_write (wakeupFd_ x) k).1).
  set (x1 := set_quit_ false (set_looping_ true (set_quit_ true x))).
  destruct (idle_round x1 k1 0 [] [] 0) as (x2 & Hr & Hq2 & Hfd2 & Hp2);
    [done|done|apply (evw_readable (wakeupFd_ x))|].
  eexists. split.
  { eapply rtc_l; [apply l_start|]. eapply rtc_l; [apply l_reset|]. exact Hr. }
  split_and!; try done. unfold count; cbn. rewrite Hfd2. rewrite evr_count. by rewrite decide_True.
Qed.

(** A task that the loop's own thread queues before it enters [loop]
    wakes nobody: the loop goes to sleep with the task in its queue. *)
Theorem task_queued_before_loop_sleeps s0 f (x' := EventLoop.push_functor f (s_loop s0)) :
  initial s0 → count s0 = 0 →
  ∃ s, rtc step (mkSched x' (own_wakeup x' (s_kernel s0)) AtStart 0 [f] [] 0) s ∧
    s_pc s = AtPoll ∧ pengdingFuntors_ (s_loop s) = [f] ∧ s_wakers s = 0%nat ∧ count s = 0.
Proof.
  destruct s0 as [x k p n ps ds q]. intros (Hp & Hn & Hps & Hds & Hq & Hpend & Hc) Hcount.
  unfold count in Hcount. cbn in *. subst x'. unfold own_wakeup, EventLoop.needs_wakeup. cbn.
  rewrite Hc. eexists. split.
  { eapply rtc_l; [left; apply l_start|]. eapply rtc_l; [left; apply l_reset|].
    eapply rtc_l; [left; by apply l_check_go|]. done. }
  split_and!; try done. cbn. by rewrite Hpend.
Qed.
(** A task that was queued before [quit] was called can be abandoned: when both
    come while the loop is in its calls, the next check ends the loop with the
    task in its queue. So is the [connectDestroyed] that the destructor of
    [TcpServer] queues before the pool's destructor stops the loop. *)
Lemma quit_abandons_queue s0 f :
  initial s0 →
  ∃ s1 s2 s3 s, rtc loop_step s0 s1 ∧ other_step s1 s2 ∧ s_pushed s2 = [f] ∧ s_quits s2 = 0%nat ∧
    other_step s2 s3 ∧ s_quits s3 = 1%nat ∧ rtc loop_step s3 s ∧ s_pc s = AtEnd ∧ s_done s = [] ∧
    pengdingFuntors_ (s_loop s) = [f].
Proof.
  destruct s0 as [x k p n ps ds q]. intros (Hp & Hn & Hps & Hds & Hq & Hpend & Hc). cbn in *. subst.
  set (x1 := set_callingPendingFuntors_ true (set_quit_ false (set_looping_ true x))).
  set (s1 := mkSched (set_pengdingFuntors_ [] x1) k (AtRun []) 0 [] [] 0).
  do 4 eexists. split_and!.
  - eapply rtc_l; [apply l_start|]. eapply rtc_l; [apply l_reset|]. eapply rtc_l; [by apply l_check_go|].
    eapply rtc_l; [by apply (l_poll _ _ _ _ _ _ false)|]. eapply rtc_l; [apply l_dispatched|].
    apply rtc_once. exact (eq_rect _ (λ l, loop_step _ (mkSched _ _ (AtRun l) _ _ _ _)) (l_swap x1 k 0 [] [] 0) [] Hpend).
  - by apply (o_queue _ _ _ _ _ _ _ f).
  - done.
  - done.
  - apply o_quit.
  - done.
  - eapply rtc_l; [apply l_ran|]. apply rtc_once. by apply l_check_end.
  - done.
  - done.
  - done.
Qed.
End invariants.

(** ** A concrete loop *)
Definition demo_sched0 : sched RefKernel.t :=
  mkSched demo_loop demo_kernel AtStart 0 [] [] 0.

Definition demo_polling : EventLoop := set_quit_ false (set_looping_ true demo_loop).

(** The loop is in [epoll_wait]; another thread has queued a task and not yet
    written to the eventfd. *)
Definition demo_sched1 : sched RefKernel.t :=
  mkSched (EventLoop.push_functor FListen demo_polling) demo_kernel AtPoll 1 [FListen] [] 0.

Lemma demo_sched1_reachable : reachable demo_sched1.
Proof.
  exists demo_sched0. split; [done|].
  eapply rtc_l; [left; apply l_start|]. eapply rtc_l; [left; apply l_reset|].
  eapply rtc_l; [left; by apply l_check_go|]. apply rtc_once. right. apply (o_queue _ _ _ 0 [] []).
Qed.

Lemma no_lost_wakeup_witness :
  (s_wakers demo_sched1 = 0%nat → 0 < count demo_sched1) ∧
  (∀ s', other_step demo_sched1 s' → (s_wakers s' < s_wakers demo_sched1)%nat → 0 < count s').
Proof. apply no_lost_wakeup; [apply demo_sched1_reachable|done|by left]. Defined.

Lemma tasks_fifo_exactly_once_witness :
  s_pushed demo_sched1 =
    s_done demo_sched1 ++ in_hand (s_pc demo_sched1) ++ pengdingFuntors_ (s_loop demo_sched1).
Proof. apply tasks_fifo_exactly_once, demo_sched1_reachable. Defined.

(** Another thread has called [quit] while the loop runs its (empty) batch. *)
Definition demo_sched2 : sched RefKernel.t :=
  mkSched (set_quit_ true demo_polling) demo_kernel AtCheck 1 [] [] 1.

Lemma demo_sched2_reachable : reachable demo_sched2.
Proof.
  exists demo_sched0. split; [done|].
  eapply rtc_l; [left; apply l_start|]. eapply rtc_l; [left; apply l_reset|].
  apply rtc_once. right. apply (o_quit _ _ AtCheck).
Qed.

Lemma quit_ends_loop_witness :
  quit_ (s_loop demo_sched2) = true ∧
  ∃ s'', rtc prompt_step demo_sched2 s'' ∧ s_pc s'' = AtEnd.
Proof.
  apply (quit_ends_loop demo_sched2); [apply demo_sched2_reachable|cbn; lia|apply rtc_refl].
Defined.

Lemma iteration_runs_queue_witness :
  (∀ s', rtc step demo_sched1 s' → s_pc s' = AtCheck ∨ s_pc s' = AtEnd →
     s_done demo_sched1 ++ pengdingFuntors_ (s_loop demo_sched1) `prefix_of` s_done s') ∧
  (∃ s', rtc loop_step demo_sched1 s' ∧ s_pc s' = AtCheck).
Proof. by apply iteration_runs_queue. Defined.

Lemma task_queued_before_loop_sleeps_witness :
  let x' := EventLoop.push_functor FListen (s_loop demo_sched0) in
  ∃ s, rtc step (mkSched x' (own_wakeup x' (s_kernel demo_sched0)) AtStart 0 [FListen] [] 0) s ∧
    s_pc s = AtPoll ∧ pengdingFuntors_ (s_loop s) = [FListen] ∧ s_wakers s = 0%nat ∧ count s = 0.
Proof. intros x'. by apply task_queued_before_loop_sleeps. Defined.
