(* ===== verification/Channels.v ===== *)
(** * Channels (include/Channel.hpp, src/Channel.cpp)

    A channel is addressed by a [chptr].  Its callbacks are closures; what a
    closure does when called is the argument [run_closure] of [handleEvent]
    (defined in [System.v]). *)

From stdpp Require Import base tactics numbers list gmap strings.
From Stdlib Require Import ZArith Lia.
From S2P Require Import Prelude NetBuffer Kernel World Poller Demo Loop.

Local Open Scope string_scope.
Local Open Scope list_scope.
Local Open Scope Z_scope.
Local Open Scope prog_scope.

Module Channel.
Definition noneEvent : Z := 0.
Definition readEvent : Z := Z.lor EPOLLIN EPOLLPRI.
Definition writeEvent : Z := EPOLLOUT.

Definition ctor (loop : ptr) (fd : Z) : Channel :=
  mkChannel loop fd 0 0 (-1) None false None None None None.

Definition isNoneEvent (ch : Channel) : bool := events_ ch =? noneEvent.
Definition isWriting (ch : Channel) : bool := negb (Z.land (events_ ch) writeEvent =? 0).
Definition isReading (ch : Channel) : bool := negb (Z.land (events_ ch) readEvent =? 0).

Section ops.
Context {K : Type} `{Kernel K}.
Local Abbreviation M := (M (World K)).

Definition update (cp : chptr) : M unit :=
  let! ch := load_channel cp in EventLoop.updateChannel (ch_loop_ ch) cp.

Definition remove (cp : chptr) : M unit :=
  let! ch := load_channel cp in EventLoop.removeChannel (ch_loop_ ch) cp.

(** [events_ = f(events_); update();] *)
Definition change_events (f : Z → Z) (cp : chptr) : M unit :=
  modify_channel cp (λ ch, set_events_ (f (events_ ch)) ch) ;;! update cp.

Definition enableReading := change_events (λ e, Z.lor e readEvent).
Definition disableReading := change_events (λ e, Z.land e (Z.lnot readEvent)).
Definition enableWriting := change_events (λ e, Z.lor e writeEvent).
Definition disableWriting := change_events (λ e, Z.land e (Z.lnot writeEvent)).
Definition disbaleAll := change_events (λ e, Z.land e noneEvent).

Definition tie (cp : chptr) (obj : ptr) : M unit :=
  modify_channel cp (λ ch, set_tied_ true (set_tie_ (Some obj) ch)).

(** [tie_.lock()]: non-null while the connection is alive. *)
Definition lock (ch : Channel) (w : World K) : bool :=
  match tie_ ch with
  | Some p => bool_decide (is_Some (w_conns w !! p))
  | None => false
  end.

(** Calling a callback that may be empty. *)
Definition call (run : closure → M unit) (cb : option closure) : M unit :=
  match cb with Some c => run c | None => ret tt end.

Definition handleEventWithGuard (run : closure → M unit) (cp : chptr) : M unit :=
  log "asynclogger" ;;!
  let! ch := load_channel cp in
  when (negb (Z.land (revents_ ch) EPOLLHUP =? 0) && (Z.land (revents_ ch) EPOLLIN =? 0))
    (call run (closeCallback_ ch)) ;;!
  let! ch := load_channel cp in
  when (negb (Z.land (revents_ ch) EPOLLERR =? 0)) (call run (errorCallback_ ch)) ;;!
  let! ch := load_channel cp in
  when (negb (Z.land (revents_ ch) readEvent =? 0)) (call run (readCallback_ ch)) ;;!
  let! ch := load_channel cp in
  when (negb (Z.land (revents_ ch) writeEvent =? 0)) (call run (writeCallback_ ch)).

Definition handleEvent (run : closure → M unit) (cp : chptr) : M unit :=
  let! ch := load_channel cp in
  if tied_ ch then
    let! guard := gets (lock ch) in
    when guard (handleEventWithGuard run cp)
  else handleEventWithGuard run cp.
End ops.
End Channel.

(** ** Event dispatch *)

(** The callbacks an event mask selects, in the order they are called. *)
Definition dispatch (ch : Channel) (revents : Z) : list closure :=
  omap id [
    if Z.testbit revents 4 && negb (Z.testbit revents 0) then closeCallback_ ch else None;
    if Z.testbit revents 3 then errorCallback_ ch else None;
    if Z.testbit revents 0 || Z.testbit revents 1 then readCallback_ ch else None;
    if Z.testbit revents 2 then writeCallback_ ch else None].

Lemma land_bit_eqb z n : 0 ≤ n → (Z.land z (2 ^ n) =? 0) = negb (Z.testbit z n).
Proof.
  intros Hn. destruct (Z.testbit z n) eqn:E; cbn.
  - apply Z.eqb_neq. intros H0. assert (Hb : Z.testbit (Z.land z (2 ^ n)) n = true).
    { rewrite Z.land_spec, E, Z.pow2_bits_true by done. done. }
    rewrite H0, Z.bits_0 in Hb. done.
  - apply Z.eqb_eq. apply Z.bits_inj'. intros m Hm.
    rewrite Z.land_spec, Z.bits_0. destruct (decide (m = n)) as [->|Hne].
    + by rewrite E.
    + by rewrite Z.pow2_bits_false, andb_false_r by congruence.
Qed.

Lemma land_read_eqb z :
  (Z.land z Channel.readEvent =? 0) = negb (Z.testbit z 0 || Z.testbit z 1).
Proof.
  change Channel.readEvent with (Z.lor (2 ^ 0) (2 ^ 1)). rewrite Z.land_lor_distr_r.
  pose proof (land_bit_eqb z 0 ltac:(done)) as H0.
  pose proof (land_bit_eqb z 1 ltac:(done)) as H1.
  apply eq_true_iff_eq. rewrite Z.eqb_eq, Z.lor_eq_0_iff, negb_orb, andb_true_iff.
  by rewrite <- !Z.eqb_eq, H0, H1.
Qed.

(** The same list with the masks the code tests. *)
Lemma dispatch_masks ch r :
  omap id [
    if negb (Z.land r EPOLLHUP =? 0) && (Z.land r EPOLLIN =? 0) then closeCallback_ ch else None;
    if negb (Z.land r EPOLLERR =? 0) then errorCallback_ ch else None;
    if negb (Z.land r Channel.readEvent =? 0) then readCallback_ ch else None;
    if negb (Z.land r Channel.writeEvent =? 0) then writeCallback_ ch else None]
  = dispatch ch r.
Proof.
  unfold dispatch. rewrite land_read_eqb.
  change EPOLLHUP with (2 ^ 4). rewrite (land_bit_eqb r 4) by done.
  change EPOLLIN with (2 ^ 0). rewrite (land_bit_eqb r 0) by done.
  change EPOLLERR with (2 ^ 3). rewrite (land_bit_eqb r 3) by done.
  change Channel.writeEvent with (2 ^ 2). rewrite (land_bit_eqb r 2) by done.
  by rewrite !negb_involutive.
Qed.

(** The parts of a channel that callbacks leave alone: after construction,
    only [fillActiveChannels] sets [revents_] and nobody sets callbacks. *)
Definition same_dispatch (a b : Channel) : Prop :=
  revents_ a = revents_ b ∧ closeCallback_ a = closeCallback_ b ∧
  errorCallback_ a = errorCallback_ b ∧ readCallback_ a = readCallback_ b ∧
  writeCallback_ a = writeCallback_ b.

Section dispatch.
Context {K : Type} `{KernelOk K}.
Implicit Types w : World K.

(** [run] is a program that keeps channel [cp] alive and its dispatch data. *)
Definition keeps_channel (run : closure → M (World K) unit) (cp : chptr) : Prop :=
  ∀ c w w' ch, chan_of w cp = Some ch → run c w = Ok (tt, w') →
    ∃ ch', chan_of w' cp = Some ch' ∧ same_dispatch ch ch'.

Lemma mapM_omap_cons (run : closure → M (World K) unit) (o : option closure) os w :
  mapM_ run (omap id (o :: os)) w =
    bind (Channel.call run o) (λ _, mapM_ run (omap id os)) w.
Proof. by destruct o. Qed.

(** One [if (revents_ & mask) if (cb) cb();] of [handleEventWithGuard]. *)
Lemma dispatch_step run cp ch ch0 w (b : Channel → bool) (o : Channel → option closure) rest
    (k : M (World K) unit) :
  keeps_channel run cp → chan_of w cp = Some ch → same_dispatch ch0 ch →
  b ch = b ch0 → o ch = o ch0 →
  (∀ w' ch', chan_of w' cp = Some ch' → same_dispatch ch0 ch' →
     k w' = mapM_ run (omap id rest) w') →
  bind (load_channel cp) (λ ch, bind (when (b ch) (Channel.call run (o ch))) (λ _, k)) w =
    mapM_ run (omap id ((if b ch0 then o ch0 else None) :: rest)) w.
Proof.
  intros Hrun Hch Hsame Hb Ho Hk.
  rewrite (bind_Ok _ _ _ _ _ (load_channel_ok _ _ _ Hch)), Hb, Ho.
  destruct (b ch0); cbn [when]; [|by eapply Hk].
  rewrite mapM_omap_cons. unfold bind. destruct (o ch0) as [c|]; cbn; [|by eapply Hk].
  destruct (run c w) as [[[] w']|] eqn:E; [|done].
  destruct (Hrun _ _ _ _ Hch E) as (ch' & Hch' & Hs). eapply Hk; [done|].
  unfold same_dispatch in *. destruct_and!. split_and!; congruence.
Qed.

Lemma bind_ret_tt (m : M (World K) unit) w : bind m (λ _, ret tt) w = m w.
Proof. unfold bind, ret. by destruct (m w) as [[[] w']|]. Qed.

Lemma handleEventWithGuard_dispatch run cp ch w :
  keeps_channel run cp → chan_of w cp = Some ch → "asynclogger" ∈ w_loggers w →
  Channel.handleEventWithGuard run cp w = mapM_ run (dispatch ch (revents_ ch)) w.
Proof.
  intros Hrun Hch Hlog. unfold Channel.handleEventWithGuard.
  rewrite (bind_Ok _ _ _ _ _ (log_ok _ _ Hlog)).
  rewrite <- dispatch_masks.
  assert (Hs : same_dispatch ch ch) by done.
  apply (dispatch_step run cp ch ch w
    (λ ch, negb (Z.land (revents_ ch) EPOLLHUP =? 0) && (Z.land (revents_ ch) EPOLLIN =? 0))
    closeCallback_); [done..|]. intros w1 ch1 H1 S1.
  apply (dispatch_step run cp ch1 ch w1
    (λ ch, negb (Z.land (revents_ ch) EPOLLERR =? 0)) errorCallback_);
    [done..|by destruct S1 as (-> & _)|by destruct S1 as (_ & _ & -> & _)|].
  intros w2 ch2 H2 S2.
  apply (dispatch_step run cp ch2 ch w2
    (λ ch, negb (Z.land (revents_ ch) Channel.readEvent =? 0)) readCallback_);
    [done..|by destruct S2 as (-> & _)|by destruct S2 as (_ & _ & _ & -> & _)|].
  intros w3 ch3 H3 S3. rewrite <- bind_ret_tt.
  rewrite (bind_assoc (load_channel cp)).
  apply (dispatch_step run cp ch3 ch w3
    (λ ch, negb (Z.land (revents_ ch) Channel.writeEvent =? 0)) writeCallback_);
    [done..|by destruct S3 as (-> & _)|by destruct S3 as (_ & _ & _ & _ & ->)|done].
Qed.

(** C30: [handleEvent] calls exactly the callbacks the event mask selects, in
    the order close, error, read, write, skipping empty ones; for a channel
    tied to an object that is gone it calls none. *)
Theorem handleEvent_dispatches run cp ch w :
  keeps_channel run cp → chan_of w cp = Some ch → "asynclogger" ∈ w_loggers w →
  Channel.handleEvent run cp w =
    if tied_ ch && negb (Channel.lock ch w) then Ok (tt, w)
    else mapM_ run (dispatch ch (revents_ ch)) w.
Proof.
  intros Hrun Hch Hlog. unfold Channel.handleEvent.
  rewrite (bind_Ok _ _ _ _ _ (load_channel_ok _ _ _ Hch)).
  destruct (tied_ ch); cbn [andb].
  - rewrite (bind_Ok _ _ _ _ _ (gets_ok _ _)).
    destruct (Channel.lock ch w); cbn [when negb]; [|done].
    by apply handleEventWithGuard_dispatch.
  - by apply handleEventWithGuard_dispatch.
Qed.
End dispatch.

Lemma handleEvent_dispatches_witness :
  let w := demo_world (λ _, ret_only 0) in
  let run := (λ _ : closure, emit (EvMessage 9)) : closure → M (World RefKernel.t) unit in
  Channel.handleEvent run (ChConn 9) w =
    if tied_ demo_conn_channel && negb (Channel.lock demo_conn_channel w) then Ok (tt, w)
    else mapM_ run (dispatch demo_conn_channel (revents_ demo_conn_channel)) w.
Proof.
  intros w run. apply handleEvent_dispatches.
  - intros c w1 w2 ch H1 E. injection E as <-. exists ch. split; [by destruct w1|done].
  - done.
  - by vm_compute.
Defined.
