(* ===== verification/Connection.v ===== *)
(** * TCP connections (include/TcpConnection.hpp, src/TcpConnection.cpp)

    A connection is addressed by a pointer [p].  The user's callbacks are the
    class [UserCode]: arbitrary programs of the same state monad, named by the
    tokens the connection holds.  The close callback, which is always
    [TcpServer::removeConnection], is the argument [closeCallback]. *)

From stdpp Require Import base tactics numbers list gmap strings.
From Stdlib Require Import ZArith Lia.
From S2P Require Import Prelude NetBuffer Kernel World Poller Demo Loop Channels.

Local Open Scope string_scope.
Local Open Scope list_scope.
Local Open Scope Z_scope.
Local Open Scope prog_scope.

(** What the application supplies. *)
Class UserCode (K : Type) := {
  onConnection : Z → ptr → M (World K) unit;
  onMessage : Z → ptr → Z → M (World K) unit;
  onWriteComplete : Z → ptr → M (World K) unit;
  onHighWaterMark : Z → ptr → Z → M (World K) unit;
  onThreadInit : Z → ptr → M (World K) unit;
  onUser : Z → M (World K) unit }.

Module TcpConnection.
Section ops.
Context {K : Type} `{Kernel K} `{UserCode K}.
Context (closeCallback : ptr → M (World K) unit).
Local Abbreviation M := (M (World K)).

(** The constructor of the object at address [p]. *)
Definition ctor (p loop : ptr) (nameArg : string) (sockfd : Z)
    (localAddr peerAddr : InetAddress) : TcpConnection :=
  let ch :=
    set_errorCallback_ (Some (CbConnHandleError p))
      (set_closeCallback_ (Some (CbConnHandleClose p))
        (set_writeCallback_ (Some (CbConnHandleWrite p))
          (set_readCallback_ (Some (CbConnHandleRead p)) (Channel.ctor loop sockfd)))) in
  mkTcpConnection loop nameArg kConnecting true sockfd ch localAddr peerAddr
    None None None false None (64 * 1024 * 1024)
    (Buffer.ctor Buffer.INIT_SIZE) (Buffer.ctor Buffer.INIT_SIZE).

Definition connected (c : TcpConnection) : bool := bool_decide (state_ c = kConnected).

(** Calling a [std::function]: an empty one throws. *)
Definition call_connection (p : ptr) : M unit :=
  let! c := load_conn p in
  match connectionCallback_ c with
  | None => throw BadFunctionCall
  | Some cb => emit (EvConnection p (connected c)) ;;! onConnection cb p
  end.

Definition call_message (p : ptr) (receiveTime : Z) : M unit :=
  let! c := load_conn p in
  match messageCallback_ c with
  | None => throw BadFunctionCall
  | Some cb => emit (EvMessage p) ;;! onMessage cb p receiveTime
  end.

Definition call_close (p : ptr) : M unit :=
  let! c := load_conn p in
  if conn_closeCallback_ c then closeCallback p else throw BadFunctionCall.

(** [if (writeCompleteCallback_) loop_->queueInLoop(...)]. *)
Definition queue_write_complete (p : ptr) (c : TcpConnection) : M unit :=
  when (bool_decide (is_Some (writeCompleteCallback_ c)))
    (EventLoop.queueInLoop (conn_loop_ c) (FWriteComplete (writeCompleteCallback_ c) p)).

(** The first attempt of [sendInLoop]: [(nwrote, remaining, faultError)]. The
    code reads [errno] again after the log call; the log call is taken to leave
    it alone. *)
Definition try_write (p : ptr) (c : TcpConnection) (data : list byte) : M (Z * Z * bool) :=
  let len := zlen data in
  if negb (Channel.isWriting (channel_ c)) && (Buffer.readableBytes (outputBuffer_ c) =? 0) then
    let! r := sys_write (fd_ (channel_ c)) data in
    match r with
    | Wrote nwrote =>
        let remaining := wrap64 (len - nwrote) in
        when (remaining =? 0) (queue_write_complete p c) ;;!
        ret (nwrote, remaining, false)
    | WriteError errno =>
        if negb (errno =? EWOULDBLOCK) then
          log "asynclogger" ;;!
          ret (0, len, (errno =? EPIPE) || (errno =? ECONNRESET))
        else ret (0, len, false)
    end
  else ret (0, len, false).

(** The rest of [sendInLoop]: what was not written goes to the buffer. *)
Definition buffer_rest (p : ptr) (data : list byte) (nwrote remaining : Z) : M unit :=
  let! c := load_conn p in
  let oldLen := Buffer.readableBytes (outputBuffer_ c) in
  when ((highWaterMark_ c <=? wrap64 (oldLen + remaining)) && (oldLen <? highWaterMark_ c)
        && negb (highWaterMark_ c =? 0))
    (EventLoop.queueInLoop (conn_loop_ c)
       (FHighWaterMark (highWaterMarkCallback_ c) p (wrap64 (oldLen + remaining)))) ;;!
  let! d := lift (mem_read nwrote remaining data) in
  let! out := lift (Buffer.append d (outputBuffer_ c)) in
  store_conn p (set_outputBuffer_ out c) ;;!
  when (negb (Channel.isWriting (channel_ c))) (Channel.enableWriting (ChConn p)).

Definition sendInLoop (p : ptr) (data : list byte) : M unit :=
  let! c := load_conn p in
  if decide (state_ c = kDisconnected) then log "asynclogger"
  else
    let! r := try_write p c data in
    let '(nwrote, remaining, faultError) := r in
    when (negb faultError && (0 <? remaining)) (buffer_rest p data nwrote remaining).

(** A [const std::string &] is the address of a live string object. *)
Definition load_str (buf : ptr) : M (list byte) :=
  λ w, match w_strs w !! buf with Some s => Ok (s, w) | None => Fault Dangling end.

(** From another thread only the address of the bytes and their count go into
    the queue. *)
Definition send (p : ptr) (buf : ptr) : M unit :=
  let! c := load_conn p in
  if decide (state_ c = kConnected) then
    let! x := load_loop (conn_loop_ c) in
    let! here := gets (EventLoop.isInLoopThread x) in
    let! s := load_str buf in
    if (here : bool) then sendInLoop p s
    else EventLoop.queueInLoop (conn_loop_ c) (FSendInLoop p buf (zlen s))
  else ret tt.

(** The queued call: it reads the bytes when it runs, unless there are none or
    [sendInLoop] returns before it looks at them. *)
Definition run_sendInLoop (p buf : ptr) (len : Z) : M unit :=
  let! c := load_conn p in
  if decide (state_ c = kDisconnected) then sendInLoop p []
  else if len =? 0 then sendInLoop p []
  else
    let! s := load_str buf in
    let! d := lift (mem_read 0 len s) in
    sendInLoop p d.

(** [Socket::shutdownWrite]. *)
Definition shutdownWrite (fd : Z) : M unit :=
  let! r := syscall in
  if sr_ret r <? 0 then log "asynclogger" else emit (EvShutdownWr fd).

Definition shutdownInLoop (p : ptr) : M unit :=
  let! c := load_conn p in
  when (negb (Channel.isWriting (channel_ c))) (shutdownWrite (socket_ c)).

Definition shutdown (p : ptr) : M unit :=
  let! c := load_conn p in
  if decide (state_ c = kConnected) then
    store_conn p (set_state_ kDisconnected c) ;;!
    EventLoop.runInLoop (conn_loop_ c) (FShutdownInLoop p) (shutdownInLoop p)
  else ret tt.

Definition connectEstablished (p : ptr) : M unit :=
  modify_conn p (set_state_ kConnected) ;;!
  Channel.tie (ChConn p) p ;;!
  Channel.enableReading (ChConn p) ;;!
  call_connection p.

Definition connectDestroyed (p : ptr) : M unit :=
  let! c := load_conn p in
  (if decide (state_ c = kConnected) then
     store_conn p (set_state_ kDisconnected c) ;;!
     Channel.disbaleAll (ChConn p) ;;!
     call_connection p
   else ret tt) ;;!
  Channel.remove (ChConn p).

Definition handleClose (p : ptr) : M unit :=
  log "asynclogger" ;;!
  Channel.disbaleAll (ChConn p) ;;!
  call_connection p ;;!
  call_close p.

(** [handleError]: asks the socket for its error and logs it. *)
Definition handleError (p : ptr) : M unit :=
  let! _ := load_conn p in
  let! _ := syscall in
  log "asynclogger".

Definition handleRead (p : ptr) (receiveTime : Z) : M unit :=
  let! c := load_conn p in
  let! r := syscall in
  let! res := lift (Buffer.readFd (readv_answer r) (inputBuffer_ c)) in
  store_conn p (set_inputBuffer_ res.2 c) ;;!
  match res.1 with
  | ReadBytes d =>
      emit (EvRead (fd_ (channel_ c)) d) ;;!
      if 0 <? zlen d then call_message p receiveTime else handleClose p
  | ReadError _ => handleError p
  end.

Definition handleWrite (p : ptr) : M unit :=
  let! c := load_conn p in
  if Channel.isWriting (channel_ c) then
    let! write := lift (Buffer.writeFd (sys_write (fd_ (channel_ c))) (outputBuffer_ c)) in
    let! r := write in
    match r with
    | Wrote n =>
        if 0 <? n then
          let out := Buffer.retrieve n (outputBuffer_ c) in
          store_conn p (set_outputBuffer_ out c) ;;!
          when (Buffer.readableBytes out =? 0) (
            Channel.disableWriting (ChConn p) ;;!
            queue_write_complete p c ;;!
            let! c := load_conn p in
            if decide (state_ c = kDisconnected) then shutdownInLoop p else ret tt)
        else log "asynclogger"
    | WriteError _ => log "asynclogger"
    end
  else log "asynclogger".

(** [sendfile] advances the local [offset] by what it sent; [count] is not
    reduced when the rest is queued. *)
Definition sendFileInLoop (p : ptr) (fileDescriptor offset count : Z) : M unit :=
  let! c := load_conn p in
  if decide (state_ c = kDisconnected) then log "asynclogger"
  else
    let! r :=
      (if negb (Channel.isWriting (channel_ c))
          && (Buffer.readableBytes (outputBuffer_ c) =? 0) then
         let! res := sys_sendfile (socket_ c) fileDescriptor offset count in
         match res with
         | Wrote bytesSent =>
             let remaining := wrap64 (count - bytesSent) in
             when (remaining =? 0) (queue_write_complete p c) ;;!
             ret (remaining, offset + bytesSent, false)
         | WriteError errno =>
             when (negb (errno =? EWOULDBLOCK)) (log "asynclogger") ;;!
             ret (count, offset, (errno =? EPIPE) || (errno =? ECONNRESET))
         end
       else ret (count, offset, false)) in
    let '(remaining, offset, faultError) := r in
    when (negb faultError && (0 <? remaining))
      (EventLoop.queueInLoop (conn_loop_ c) (FSendFileInLoop p fileDescriptor offset count)).

Definition sendFile (p : ptr) (fileDescriptor offset count : Z) : M unit :=
  let! c := load_conn p in
  if connected c then
    let! x := load_loop (conn_loop_ c) in
    let! here := gets (EventLoop.isInLoopThread x) in
    if (here : bool) then sendFileInLoop p fileDescriptor offset count
    else EventLoop.runInLoop (conn_loop_ c) (FSendFileInLoop p fileDescriptor offset count)
           (sendFileInLoop p fileDescriptor offset count)
  else log "asynclogger".

(** The setters. *)
Definition setConnectionCallback (cb : callback) := set_connectionCallback_ cb.
Definition setMessageCallback (cb : callback) := set_messageCallback_ cb.
Definition setWriteCompleteCallback (cb : callback) := set_writeCompleteCallback_ cb.
Definition setCloseCallback := set_conn_closeCallback_ true.
Definition setHighWaterMarkback (cb : callback) (highWaterMark : Z) (c : TcpConnection) :=
  set_highWaterMark_ highWaterMark (set_highWaterMarkCallback_ cb c).
End ops.
End TcpConnection.

(** An application that does nothing. *)
Definition silent_user {K} : UserCode K := {|
  onConnection _ _ := ret tt;
  onMessage _ _ _ := ret tt;
  onWriteComplete _ _ := ret tt;
  onHighWaterMark _ _ _ := ret tt;
  onThreadInit _ _ := ret tt;
  onUser _ := ret tt |}.
