(* ===== verification/ConnFacts.v ===== *)
(** * What the connection's operations leave alone

    [conn_frame p] relates the world before and after an operation of
    connection [p]: other connections, the server and the string objects are
    untouched, and every loop keeps its identity and only gains pending
    functors.  It is a preorder, so the frames of the steps compose.  The
    lemmas below give each step's result and frame. *)

From stdpp Require Import base tactics numbers list gmap strings.
From Stdlib Require Import ZArith Lia.
From S2P Require Import Prelude NetBuffer Kernel World Poller Demo Loop Channels Connection.

Local Open Scope string_scope.
Local Open Scope list_scope.
Local Open Scope Z_scope.

(** ** Frames *)

Record loop_ext (x x' : EventLoop) : Prop := {
  le_thread : threadId_ x' = threadId_ x;
  le_wakeupFd : wakeupFd_ x' = wakeupFd_ x;
  le_calling : callingPendingFuntors_ x' = callingPendingFuntors_ x;
  le_quit : quit_ x' = quit_ x;
  le_poller : is_Some (poller_ x) → is_Some (poller_ x');
  le_pending : pengdingFuntors_ x `prefix_of` pengdingFuntors_ x' }.

#[export] Instance loop_ext_preorder : PreOrder loop_ext.
Proof.
  split.
  - intros x. split; done.
  - intros x y z [] []. split; try congruence; [naive_solver|by etrans].
Qed.

Record conn_frame {K} (p : ptr) (w w' : World K) : Prop := {
  cf_tid : w_tid w' = w_tid w;
  cf_server : w_server w' = w_server w;
  cf_tls : w_tls w' = w_tls w;
  cf_strs : w_strs w' = w_strs w;
  cf_oracle : w_oracle w' = w_oracle w;
  cf_loggers : w_loggers w' = w_loggers w;
  cf_conns q : q ≠ p → w_conns w' !! q = w_conns w !! q;
  cf_loops l x : w_loops w !! l = Some x →
    ∃ x', w_loops w' !! l = Some x' ∧ loop_ext x x' }.

#[export] Instance conn_frame_preorder {K} p : PreOrder (@conn_frame K p).
Proof.
  split.
  - intros w. split; try done. intros l x Hx. by exists x.
  - intros w1 w2 w3 [] []. split; try congruence.
    + intros q Hq. by rewrite cf_conns1, cf_conns0.
    + intros l x Hx. destruct (cf_loops0 _ _ Hx) as (y & Hy & ?).
      destruct (cf_loops1 _ _ Hy) as (z & Hz & ?). exists z. split; [done|by etrans].
Qed.

(** The connection [p] is alive on a live loop with a poller, and the logger
    the library writes to exists. *)
Record conn_env {K} (w : World K) (p : ptr) (c : TcpConnection) (x : EventLoop) : Prop := {
  ce_conn : w_conns w !! p = Some c;
  ce_loop : w_loops w !! conn_loop_ c = Some x;
  ce_poller : is_Some (poller_ x);
  ce_chan : ch_loop_ (channel_ c) = conn_loop_ c;
  ce_log : "asynclogger" ∈ w_loggers w }.

(** The fields of a connection that sending, writing and shutting down never
    change. *)
Record same_conn (c c' : TcpConnection) : Prop := {
  sc_loop : conn_loop_ c' = conn_loop_ c;
  sc_name : name_ c' = name_ c;
  sc_socket : socket_ c' = socket_ c;
  sc_fd : fd_ (channel_ c') = fd_ (channel_ c);
  sc_chan_loop : ch_loop_ (channel_ c') = ch_loop_ (channel_ c);
  sc_writeComplete : writeCompleteCallback_ c' = writeCompleteCallback_ c;
  sc_highWaterMark : highWaterMark_ c' = highWaterMark_ c;
  sc_highWaterMarkCallback : highWaterMarkCallback_ c' = highWaterMarkCallback_ c;
  sc_connection : connectionCallback_ c' = connectionCallback_ c;
  sc_message : messageCallback_ c' = messageCallback_ c;
  sc_close : conn_closeCallback_ c' = conn_closeCallback_ c;
  sc_input : inputBuffer_ c' = inputBuffer_ c }.

#[export] Instance same_conn_preorder : PreOrder same_conn.
Proof.
  split.
  - intros c. by split.
  - intros c1 c2 c3 [] []. split; congruence.
Qed.

(** Nor does it reach another channel's entry, or another epoll instance. *)
Lemma updateChannel_watch {K} `{KernelOk K} cp ch P (k : K) ch' P' k' :
  EpollPoller.updateChannel cp ch P k = (ch', P', k') →
  epollfd_ P' = epollfd_ P ∧
  ∀ ep fd ev q, interest k' ep fd = Some (ev, q) →
    interest k ep fd = Some (ev, q) ∨ (q = cp ∧ ep = epollfd_ P).
Proof.
  unfold EpollPoller.updateChannel, EpollPoller.update. intros E.
  repeat (case_match || (destruct (_ || _) in E) || (destruct (_ =? 0) in E)); simplify_eq;
    (split; [by try destruct (_ =? _)|]); intros ep fd ev q Hq;
    apply ctl_entries in Hq; destruct Hq as [?|(-> & -> & _)]; auto; right;
    (split; [done|by try destruct (_ =? _)]).
Qed.

Section facts.
Context {K : Type} `{KernelOk K}.
Implicit Types w : World K.

(** The environment survives a framed step that keeps the connection's loop. *)
Lemma conn_env_keep w w' p c x c' :
  conn_env w p c x → conn_frame p w w' → w_conns w' !! p = Some c' →
  conn_loop_ c' = conn_loop_ c → ch_loop_ (channel_ c') = ch_loop_ (channel_ c) →
  ∃ x', conn_env w' p c' x' ∧ loop_ext x x'.
Proof.
  intros [] Hf Hc' Hl Hcl. destruct (cf_loops _ _ _ Hf _ _ ce_loop0) as (x' & Hx' & He).
  exists x'. split; [|done]. split; try congruence.
  - by apply (le_poller _ _ He).
  - by rewrite (cf_loggers _ _ _ Hf).
Qed.

Lemma conn_env_frame w w' p c x c' :
  conn_env w p c x → conn_frame p w w' → w_conns w' !! p = Some c' → same_conn c c' →
  ∃ x', conn_env w' p c' x' ∧ loop_ext x x'.
Proof. intros ??? []. by eapply conn_env_keep. Qed.

(** ** Steps *)

Definition tick w : World K := set_w_clock (S (w_clock w)) w.
Definition answer w : sysret := w_oracle w (w_clock w).

Lemma syscall_ok w : syscall w = Ok (answer w, tick w).
Proof. done. Qed.

Lemma conn_frame_trace p t w : conn_frame p w (set_w_trace t w).
Proof. split; try done. intros l x Hx. by exists x. Qed.
Lemma conn_frame_tick p w : conn_frame p w (tick w).
Proof. split; try done. intros l x Hx. by exists x. Qed.
Lemma conn_frame_kernel p k w : conn_frame p w (set_w_kernel k w).
Proof. split; try done. intros l x Hx. by exists x. Qed.
Lemma conn_frame_conn p c w : conn_frame p w (set_w_conns (<[p := c]> (w_conns w)) w).
Proof.
  split; try done; wcbn.
  - intros q Hq. by rewrite lookup_insert_ne by congruence.
  - intros l x Hx. by exists x.
Qed.
Lemma conn_frame_loop p l x x' w :
  w_loops w !! l = Some x → loop_ext x x' →
  conn_frame p w (set_w_loops (<[l := x']> (w_loops w)) w).
Proof.
  intros Hx He. split; try done; wcbn.
  intros l' y Hy. destruct (decide (l' = l)) as [->|Hne].
  - rewrite lookup_insert_eq. exists x'. by simplify_eq.
  - rewrite lookup_insert_ne by congruence. by exists y.
Qed.

Lemma push_functor_ext f x : loop_ext x (EventLoop.push_functor f x).
Proof. split; try done. by apply prefix_app_r. Qed.

Lemma set_poller_ext P x : loop_ext x (set_poller_ (Some P) x).
Proof. by split. Qed.

(** [sys_write] consumes one answer of the kernel. *)
Definition write_answer w (data : list byte) : write_result :=
  if sr_ret (answer w) <? 0 then WriteError (- sr_ret (answer w))
  else Wrote (Z.min (sr_ret (answer w)) (zlen data)).

Definition after_write (fd : Z) (data : list byte) w : World K :=
  match write_answer w data with
  | Wrote n => set_w_trace (w_trace w ++ [EvWrite fd (ztake n data)]) (tick w)
  | WriteError _ => tick w
  end.

Lemma sys_write_ok fd data w :
  sys_write fd data w = Ok (write_answer w data, after_write fd data w).
Proof.
  unfold sys_write, after_write, write_answer. rewrite (bind_Ok _ _ _ _ _ (syscall_ok w)).
  by destruct (sr_ret (answer w) <? 0).
Qed.

Lemma after_write_frame p fd data w : conn_frame p w (after_write fd data w).
Proof.
  unfold after_write. destruct (write_answer w data); [|apply conn_frame_tick].
  etrans; [apply conn_frame_tick|]. apply (conn_frame_trace p _ (tick w)).
Qed.

Lemma after_write_conns fd data w : w_conns (after_write fd data w) = w_conns w.
Proof. unfold after_write. by destruct (write_answer w data). Qed.

Lemma after_write_kernel fd data w : w_kernel (after_write fd data w) = w_kernel w.
Proof. unfold after_write. by destruct (write_answer w data). Qed.

Lemma after_write_loops fd data w : w_loops (after_write fd data w) = w_loops w.
Proof. unfold after_write. by destruct (write_answer w data). Qed.

(** [queueInLoop] on a live loop: the task is appended, nothing else changes. *)
Lemma queue_ok l f x w p :
  w_loops w !! l = Some x → "asynclogger" ∈ w_loggers w →
  ∃ w', EventLoop.queueInLoop l f w = Ok (tt, w') ∧ conn_frame p w w' ∧
    w_conns w' = w_conns w ∧ w_trace w' = w_trace w ∧ w_clock w' = w_clock w ∧
    w_loops w' = <[l := EventLoop.push_functor f x]> (w_loops w) ∧
    (∀ ep fd, interest (w_kernel w') ep fd = interest (w_kernel w) ep fd).
Proof.
  intros Hx Hlog. rewrite (queueInLoop_ok _ _ _ _ Hx Hlog). eexists. split; [done|].
  split_and!; try done.
  - etrans; [eapply conn_frame_loop; [done|apply (push_functor_ext f)]|apply conn_frame_kernel].
  - intros ep fd. wcbn. unfold queue_kernel. destruct (EventLoop.needs_wakeup _ _); [|done].
    apply evw_interest.
Qed.

(** A change of a connection's events: the poller's [updateChannel] result is
    stored in the channel, the loop and the kernel. *)
Lemma change_events_ok f w p c x P ch' P' k' :
  conn_env w p c x → poller_ x = Some P →
  EpollPoller.updateChannel (ChConn p) (set_events_ (f (events_ (channel_ c))) (channel_ c))
    P (w_kernel w) = (ch', P', k') →
  Channel.change_events f (ChConn p) w =
    Ok (tt, set_w_kernel k'
              (set_w_conns (<[p := set_channel_ ch' c]> (w_conns w))
                (set_w_loops (<[conn_loop_ c := set_poller_ (Some P') x]> (w_loops w)) w))).
Proof.
  intros [Hc Hl Hpo Hch Hlog] HP Hu. unfold Channel.change_events.
  assert (Hcc : chan_of w (ChConn p) = Some (channel_ c)) by (cbn; by rewrite Hc).
  rewrite (bind_Ok _ _ _ _ _ (modify_channel_ok _ _ _ _ Hcc)). cbn [put_chan].
  set (ch1 := set_events_ _ _). set (w1 := set_w_conns _ w).
  assert (Hc1 : w_conns w1 !! p = Some (set_channel_ ch1 c))
    by (subst w1; wcbn; rewrite lookup_alter_eq, Hc; done).
  assert (Hcc1 : chan_of w1 (ChConn p) = Some ch1) by (unfold chan_of; by rewrite Hc1).
  unfold Channel.update. rewrite (bind_Ok _ _ _ _ _ (load_channel_ok _ _ _ Hcc1)).
  unfold EventLoop.updateChannel, EventLoop.with_poller.
  assert (Hl1 : w_loops w1 !! ch_loop_ ch1 = Some x) by (subst w1 ch1; wcbn; cbn; by rewrite Hch).
  rewrite (bind_Ok _ _ _ _ _ (load_loop_ok _ _ _ Hl1)), HP.
  rewrite (bind_Ok _ _ _ _ _ (log_ok _ w1 Hlog)).
  rewrite (bind_Ok _ _ _ _ _ (load_channel_ok _ _ _ Hcc1)).
  rewrite (bind_Ok _ _ _ _ _ (gets_ok _ _)).
  change (w_kernel w1) with (w_kernel w). fold ch1 in Hu. rewrite Hu.
  rewrite (bind_Ok _ _ _ _ _ (modify_loop_ok _ _ _ _ Hl1)).
  set (w2 := set_w_loops _ w1).
  assert (Hcc2 : chan_of w2 (ChConn p) = Some ch1) by exact Hcc1.
  rewrite (bind_Ok _ _ _ _ _ (modify_channel_ok _ _ _ _ Hcc2)). cbn [put_chan].
  unfold modify. do 2 f_equal. subst w2 w1 ch1. wcbn.
  rewrite <- Hch. cbn. unfold set_w_kernel, set_w_conns, set_w_loops; cbn. f_equal.
  apply map_eq. intros q. rewrite !lookup_alter, lookup_insert.
  repeat case_decide; subst; rewrite ?Hc; done.
Qed.

(** [Channel::remove] of a connection's channel. *)
Lemma remove_ok w p c x P ch' P' k' :
  conn_env w p c x → poller_ x = Some P →
  EpollPoller.removeChannel (ChConn p) (channel_ c) P (w_kernel w) = (ch', P', k') →
  Channel.remove (ChConn p) w =
    Ok (tt, set_w_kernel k'
              (set_w_conns (<[p := set_channel_ ch' c]> (w_conns w))
                (set_w_loops (<[conn_loop_ c := set_poller_ (Some P') x]> (w_loops w)) w))).
Proof.
  intros [Hc Hl Hpo Hch Hlog] HP Hu. unfold Channel.remove.
  assert (Hcc : chan_of w (ChConn p) = Some (channel_ c)) by (cbn; by rewrite Hc).
  rewrite (bind_Ok _ _ _ _ _ (load_channel_ok _ _ _ Hcc)), Hch.
  unfold EventLoop.removeChannel, EventLoop.with_poller.
  rewrite (bind_Ok _ _ _ _ _ (load_loop_ok _ _ _ Hl)), HP.
  rewrite (bind_Ok _ _ _ _ _ (log_ok _ w Hlog)).
  rewrite (bind_Ok _ _ _ _ _ (load_channel_ok _ _ _ Hcc)).
  rewrite (bind_Ok _ _ _ _ _ (gets_ok _ _)), Hu.
  rewrite (bind_Ok _ _ _ _ _ (modify_loop_ok _ _ _ _ Hl)). set (w2 := set_w_loops _ w).
  assert (Hcc2 : chan_of w2 (ChConn p) = Some (channel_ c)) by exact Hcc.
  rewrite (bind_Ok _ _ _ _ _ (modify_channel_ok _ _ _ _ Hcc2)). cbn [put_chan].
  unfold modify. do 3 f_equal. unfold set_w_conns; cbn. f_equal.
  symmetry. by eapply insert_alter_eq.
Qed.
End facts.

#[export] Hint Resolve syscall_ok sys_write_ok : mrun.

(** ** Consequences used by the theorems on connections *)

Lemma updateChannel_shape {K} `{Kernel K} cp ch P k ch' P' k' :
  EpollPoller.updateChannel cp ch P k = (ch', P', k') → ch' = set_index_ (index_ ch') ch.
Proof.
  unfold EpollPoller.updateChannel. intros E.
  destruct (_ || _) in E; [|destruct (_ =? 0) in E]; simplify_eq; (done || by destruct ch').
Qed.

Section facts.
Context {K : Type} `{KernelOk K}.
Implicit Types w : World K.

(** Changing the events of a connection's channel: only the channel's
    [events_] and [index_], the loop's poller and the kernel change. *)
Lemma change_events_frame f w p c x :
  conn_env w p c x →
  ∃ w' i c', Channel.change_events f (ChConn p) w = Ok (tt, w') ∧
    c' = set_channel_ (set_index_ i (set_events_ (f (events_ (channel_ c))) (channel_ c))) c ∧
    w_conns w' = <[p := c']> (w_conns w) ∧
    conn_frame p w w' ∧ same_conn c c' ∧ w_trace w' = w_trace w ∧ w_clock w' = w_clock w ∧
    (∃ x', w_loops w' = <[conn_loop_ c := x']> (w_loops w) ∧
           pengdingFuntors_ x' = pengdingFuntors_ x).
Proof.
  intros Henv. pose proof Henv as [Hc Hl [P HP] Hch Hlog].
  destruct (EpollPoller.updateChannel (ChConn p)
    (set_events_ (f (events_ (channel_ c))) (channel_ c)) P (w_kernel w)) as [[ch' P'] k'] eqn:E.
  rewrite (change_events_ok _ _ _ _ _ _ _ _ _ Henv HP E).
  apply updateChannel_shape in E. do 3 eexists. split; [done|]. split; [done|].
  split; [wcbn; by rewrite <- E|]. split.
  { etrans; [|apply conn_frame_kernel]. etrans; [|apply (conn_frame_conn p _ (set_w_loops _ w))].
    by eapply conn_frame_loop; [done|apply (set_poller_ext P')]. }
  split_and!; try done. by eexists.
Qed.

Lemma conn_env_intro w' p c c' x w :
  conn_env w p c x → conn_frame p w w' → w_conns w' = <[p := c']> (w_conns w) →
  same_conn c c' → ∃ x', conn_env w' p c' x' ∧ loop_ext x x'.
Proof.
  intros He Hf Hc Hs. eapply conn_env_frame; [done..| |done]. rewrite Hc.
  apply lookup_insert_eq.
Qed.

Lemma conn_env_same w' p c x w :
  conn_env w p c x → conn_frame p w w' → w_conns w' = w_conns w →
  ∃ x', conn_env w' p c x' ∧ loop_ext x x'.
Proof.
  intros He Hf Hc. eapply conn_env_frame; [done..| |done]. rewrite Hc. apply He.
Qed.

(** [if (writeCompleteCallback_) queueInLoop(...)] *)
Lemma queue_write_complete_ok w p c c' x :
  conn_env w p c' x → conn_loop_ c = conn_loop_ c' →
  ∃ w', TcpConnection.queue_write_complete p c w = Ok (tt, w') ∧ conn_frame p w w' ∧
    w_conns w' = w_conns w ∧ w_trace w' = w_trace w ∧ w_clock w' = w_clock w.
Proof.
  intros [Hc Hl HP Hch Hlog] El. unfold TcpConnection.queue_write_complete.
  destruct (bool_decide _); cbn [when].
  - destruct (queue_ok (conn_loop_ c) (FWriteComplete (writeCompleteCallback_ c) p) x w p)
      as (w' & -> & Hf & ? & ? & ? & _); [by rewrite El|done|].
    exists w'. by split_and!.
  - exists w. by split_and!.
Qed.

Lemma when_ok (b : bool) (m : M (World K) unit) (P : World K → Prop) w :
  (b = true → ∃ w', m w = Ok (tt, w') ∧ P w') → (b = false → P w) →
  ∃ w', when b m w = Ok (tt, w') ∧ P w'.
Proof. destruct b; cbn; [eauto|]. intros _ HP. exists w. split; [done|by apply HP]. Qed.
End facts.
