(* ===== verification/ConnStream.v ===== *)
(** * The outgoing byte stream of a connection

    What a connection was given to send and what the kernel accepted: nothing
    is lost, duplicated or reordered between [sendInLoop], the output buffer
    and [write], whatever the kernel answers, short of a broken pipe. *)

From stdpp Require Import base tactics numbers list gmap strings.
From Stdlib Require Import ZArith Lia.
From S2P Require Import Prelude NetBuffer Kernel World Poller Demo Loop Channels Connection.
From S2P Require Import ConnFacts.

Local Open Scope string_scope.
Local Open Scope list_scope.
Local Open Scope Z_scope.

(** The bytes the kernel accepted on descriptor [fd], in order. *)
Definition wire_of (fd : Z) (e : event) : list byte :=
  match e with
  | EvWrite fd' d => if decide (fd' = fd) then d else []
  | _ => []
  end.
Definition wire (fd : Z) (tr : list event) : list byte := concat (wire_of fd <$> tr).

Lemma wire_app fd t1 t2 : wire fd (t1 ++ t2) = wire fd t1 ++ wire fd t2.
Proof. unfold wire. by rewrite fmap_app, concat_app. Qed.

Lemma wire_write fd t d : wire fd (t ++ [EvWrite fd d]) = wire fd t ++ d.
Proof. rewrite wire_app. unfold wire; cbn. by rewrite decide_True, app_nil_r. Qed.

(** The descriptors whose write side was shut down. *)
Definition shutdowns (tr : list event) : list Z :=
  omap (λ e, match e with EvShutdownWr fd => Some fd | _ => None end) tr.

(** Everything but the writes. *)
Definition others (tr : list event) : list event :=
  omap (λ e, match e with EvWrite _ _ => None | _ => Some e end) tr.

Lemma others_write tr fd d : others (tr ++ [EvWrite fd d]) = others tr.
Proof. unfold others. rewrite omap_app. cbn. apply app_nil_r. Qed.

Lemma shutdowns_others tr : shutdowns tr = shutdowns (others tr).
Proof. unfold shutdowns, others. induction tr as [|[] tr IH]; csimpl; by rewrite ?IH. Qed.

Lemma shutdowns_app t1 t2 : shutdowns (t1 ++ t2) = shutdowns t1 ++ shutdowns t2.
Proof. apply omap_app. Qed.

(** What the connection has sent or will send. *)
Definition stream {K} (w : World K) (c : TcpConnection) : list byte :=
  wire (fd_ (channel_ c)) (w_trace w) ++ Buffer.content (outputBuffer_ c).

(** Unsent bytes wait for a write event: the buffer is well formed, and it is
    empty unless the channel watches for writability. *)
Definition out_inv (c : TcpConnection) : Prop :=
  Buffer.wf (outputBuffer_ c) ∧
  (Channel.isWriting (channel_ c) = false → Buffer.content (outputBuffer_ c) = []).

(** The kernel refuses this write for good (EPIPE, ECONNRESET). *)
Definition write_fault {K} (w : World K) (c : TcpConnection) : bool :=
  negb (Channel.isWriting (channel_ c)) &&
  bool_decide (Buffer.content (outputBuffer_ c) = []) &&
  (((- sr_ret (answer w)) =? EPIPE) || ((- sr_ret (answer w)) =? ECONNRESET)).

Lemma land_writeEvent e :
  negb (Z.land e Channel.writeEvent =? 0) = Z.testbit e 2.
Proof.
  change Channel.writeEvent with (2 ^ 2). rewrite land_bit_eqb by done. apply negb_involutive.
Qed.

Lemma isWriting_enabled i e ch :
  Channel.isWriting (set_index_ i (set_events_ (Z.lor e Channel.writeEvent) ch)) = true.
Proof.
  unfold Channel.isWriting; cbn. rewrite land_writeEvent, Z.lor_spec. apply orb_true_r.
Qed.

Lemma isWriting_disabled i e ch :
  Channel.isWriting
    (set_index_ i (set_events_ (Z.land e (Z.lnot Channel.writeEvent)) ch)) = false.
Proof.
  unfold Channel.isWriting; cbn. rewrite land_writeEvent, Z.land_spec. apply andb_false_r.
Qed.

Section stream.
Context {K : Type} `{KernelOk K}.
Implicit Types w : World K.

Lemma readable_0 b : Buffer.wf b → (Buffer.readableBytes b =? 0) = bool_decide (Buffer.content b = []).
Proof.
  intros Hb. rewrite readableBytes_content by done. apply eq_true_iff_eq.
  rewrite Z.eqb_eq, bool_decide_eq_true. split; [apply zlen_0_inv|by intros ->].
Qed.

(** One [write] on the connection's socket. *)
Lemma after_write_ok w p c x data (w1 := after_write (fd_ (channel_ c)) data w) :
  conn_env w p c x →
  conn_frame p w w1 ∧ w_conns w1 = w_conns w ∧ (∃ x1, conn_env w1 p c x1) ∧
  others (w_trace w1) = others (w_trace w) ∧
  wire (fd_ (channel_ c)) (w_trace w1) = wire (fd_ (channel_ c)) (w_trace w) ++
    match write_answer w data with Wrote n => ztake n data | WriteError _ => [] end.
Proof.
  intros Henv. assert (Hf1 : conn_frame p w w1) by apply after_write_frame.
  assert (Hc1 : w_conns w1 = w_conns w) by apply after_write_conns.
  destruct (conn_env_same _ _ _ _ _ Henv Hf1 Hc1) as (x1 & Henv1 & _).
  split_and!; [done..|by exists x1| |]; subst w1; unfold after_write;
    destruct (write_answer w data); cbn; rewrite ?app_nil_r; try done.
  - apply others_write.
  - apply wire_write.
Qed.

(** The first attempt of [sendInLoop]. *)
Lemma try_write_ok w p c x data :
  conn_env w p c x → Buffer.wf (outputBuffer_ c) → zlen data < 2 ^ 63 →
  ∃ w' nw fault, TcpConnection.try_write p c data w = Ok ((nw, zlen data - nw, fault), w') ∧
    fault = write_fault w c ∧ (fault = true → nw = 0) ∧ 0 ≤ nw ≤ zlen data ∧
    (0 < nw → Channel.isWriting (channel_ c) = false ∧ Buffer.content (outputBuffer_ c) = []) ∧
    conn_frame p w w' ∧ w_conns w' = w_conns w ∧
    others (w_trace w') = others (w_trace w) ∧
    wire (fd_ (channel_ c)) (w_trace w') = wire (fd_ (channel_ c)) (w_trace w) ++ ztake nw data.
Proof.
  intros Henv Hb Hlen. pose proof (zlen_nonneg data). unfold TcpConnection.try_write, write_fault.
  rewrite readable_0 by done.
  assert (Hno : ∃ w' nw fault, ret (S := World K) (0, zlen data, false) w
            = Ok ((nw, zlen data - nw, fault), w') ∧ fault = false ∧ (fault = true → nw = 0) ∧ 0 ≤ nw ≤ zlen data ∧
    (0 < nw → Channel.isWriting (channel_ c) = false ∧ Buffer.content (outputBuffer_ c) = []) ∧
    conn_frame p w w' ∧ w_conns w' = w_conns w ∧
    others (w_trace w') = others (w_trace w) ∧
    wire (fd_ (channel_ c)) (w_trace w') = wire (fd_ (channel_ c)) (w_trace w) ++ ztake nw data).
  { exists w, 0, false. rewrite Z.sub_0_r, ztake_0, app_nil_r by done. split_and!; try done; lia. }
  destruct (Channel.isWriting (channel_ c)) eqn:Hw; cbn [negb andb]; [by apply Hno|].
  case_bool_decide as Hcont; cbn [andb]; [|by apply Hno]. clear Hno.
  rewrite (bind_Ok _ _ _ _ _ (sys_write_ok _ _ w)).
  destruct (after_write_ok _ _ _ _ data Henv) as (Hf1 & Hc1 & (x1 & Henv1) & Hsd & Hwire).
  set (w1 := after_write _ _ w) in *.
  unfold write_answer in *. destruct (Z.ltb_spec (sr_ret (answer w)) 0) as [Hr|Hr].
  - assert (Herr : ∀ b, b = (((- sr_ret (answer w)) =? EPIPE) || ((- sr_ret (answer w)) =? ECONNRESET)) →
      ∃ w' nw fault, ret (S := World K) (0, zlen data, b) w1
            = Ok ((nw, zlen data - nw, fault), w') ∧
        fault = (((- sr_ret (answer w)) =? EPIPE) || ((- sr_ret (answer w)) =? ECONNRESET)) ∧
        (fault = true → nw = 0) ∧ 0 ≤ nw ≤ zlen data ∧
        (0 < nw → false = false ∧ Buffer.content (outputBuffer_ c) = []) ∧
        conn_frame p w w' ∧ w_conns w' = w_conns w ∧
    others (w_trace w') = others (w_trace w) ∧
        wire (fd_ (channel_ c)) (w_trace w') = wire (fd_ (channel_ c)) (w_trace w) ++ ztake nw data).
    { intros b ->. exists w1, 0. eexists. rewrite Z.sub_0_r, ztake_0 by done. split_and!; try done; lia. }
    destruct (Z.eqb_spec (- sr_ret (answer w)) EWOULDBLOCK) as [E|E]; cbn [negb].
    + apply Herr. by rewrite E.
    + rewrite (bind_Ok _ _ _ _ _ (log_ok _ _ (ce_log _ _ _ _ Henv1))). by apply Herr.
  - set (n := Z.min (sr_ret (answer w)) (zlen data)) in *.
    rewrite (wrap64_small (zlen data - n)) by lia.
    assert (Hflt : ((- sr_ret (answer w) =? EPIPE) || (- sr_ret (answer w) =? ECONNRESET)) = false).
    { unfold EPIPE, ECONNRESET. apply orb_false_iff. rewrite !Z.eqb_neq. lia. }
    rewrite Hflt.
    destruct (when_ok (zlen data - n =? 0) (TcpConnection.queue_write_complete p c)
      (λ w', conn_frame p w1 w' ∧ w_conns w' = w_conns w1 ∧ w_trace w' = w_trace w1) w1)
      as (w2 & E2 & Hf2 & Hc2 & Ht2).
    { intros _. destruct (queue_write_complete_ok w1 p c c x1) as (w2 & E & ? & ? & ? & _); eauto 10. }
    { done. }
    rewrite (bind_Ok _ _ _ _ _ E2). exists w2, n, false.
    split_and!; try done; try lia; [by etrans|congruence|by rewrite Ht2|by rewrite Ht2].
Qed.

Lemma same_conn_out c b : same_conn c (set_outputBuffer_ b c).
Proof. by split. Qed.

(** A connection that is not watching for writability starts to. *)
Lemma start_writing_ok w p c x :
  conn_env w p c x →
  ∃ w' c', when (negb (Channel.isWriting (channel_ c))) (Channel.enableWriting (ChConn p)) w
             = Ok (tt, w') ∧
    w_conns w' = <[p := c']> (w_conns w) ∧ conn_frame p w w' ∧ same_conn c c' ∧
    Channel.isWriting (channel_ c') = true ∧ outputBuffer_ c' = outputBuffer_ c ∧
    state_ c' = state_ c ∧ w_trace w' = w_trace w.
Proof.
  intros Henv. destruct (Channel.isWriting (channel_ c)) eqn:Hw; cbn [negb when].
  - exists w, c. rewrite insert_id by apply Henv. by split_and!.
  - unfold Channel.enableWriting.
    destruct (change_events_frame (λ e, Z.lor e Channel.writeEvent) _ _ _ _ Henv)
      as (w' & i & c' & -> & -> & Hcs & Hf & Hs & Ht & _ & _).
    eexists w', _. split; [done|]. split; [done|]. split_and!; try done.
    apply isWriting_enabled.
Qed.

Lemma buffer_rest_ok w p c x data nw :
  conn_env w p c x → Buffer.wf (outputBuffer_ c) → 0 ≤ nw ≤ zlen data →
  Buffer.writerIndex_ (outputBuffer_ c) + zlen data ≤ max_size →
  ∃ w' c', TcpConnection.buffer_rest p data nw (zlen data - nw) w = Ok (tt, w') ∧
    conn_frame p w w' ∧ w_conns w' !! p = Some c' ∧ same_conn c c' ∧ state_ c' = state_ c ∧
    Buffer.wf (outputBuffer_ c') ∧
    Buffer.content (outputBuffer_ c') = Buffer.content (outputBuffer_ c) ++ zdrop nw data ∧
    Channel.isWriting (channel_ c') = true ∧ w_trace w' = w_trace w ∧
    Buffer.size (outputBuffer_ c') ≤ Buffer.size (outputBuffer_ c) + zlen data.
Proof.
  intros Henv Hb Hnw Hmax. unfold TcpConnection.buffer_rest.
  rewrite (bind_Ok _ _ _ _ _ (load_conn_ok _ _ _ (ce_conn _ _ _ _ Henv))).
  set (oldLen := Buffer.readableBytes _).
  edestruct (when_ok ((highWaterMark_ c <=? wrap64 (oldLen + (zlen data - nw))) &&
      (oldLen <? highWaterMark_ c) && negb (highWaterMark_ c =? 0))
    (EventLoop.queueInLoop (conn_loop_ c) (FHighWaterMark (highWaterMarkCallback_ c) p
       (wrap64 (oldLen + (zlen data - nw)))))
    (λ w', conn_frame p w w' ∧ w_conns w' = w_conns w ∧ w_trace w' = w_trace w) w)
    as (w1 & E1 & Hf1 & Hc1 & Ht1); [|done|].
  { intros _. destruct (queue_ok (conn_loop_ c) (FHighWaterMark (highWaterMarkCallback_ c) p
      (wrap64 (oldLen + (zlen data - nw)))) x w p) as (w1 & ? & ? & ? & ? & _);
      [apply Henv..|eauto 10]. }
  rewrite (bind_Ok _ _ _ _ _ E1). rewrite mem_read_Ok by lia. cbn [lift].
  rewrite (bind_Ok _ _ w1 (slice nw (zlen data - nw) data) w1) by done.
  assert (Hsl : slice nw (zlen data - nw) data = zdrop nw data).
  { unfold slice. apply ztake_ge. zlen_lia. }
  destruct (append_ok (slice nw (zlen data - nw) data) (outputBuffer_ c))
    as (out & Ea & Hwf & Hcont & Hsize); [done|rewrite zlen_slice by lia; lia|].
  rewrite Ea. cbn [lift]. rewrite (bind_Ok _ _ w1 out w1) by done.
  destruct (conn_env_same _ _ _ _ _ Henv Hf1 Hc1) as (x1 & Henv1 & _).
  rewrite (bind_Ok _ _ _ _ _ (store_conn_ok _ _ w1)).
  set (c2 := set_outputBuffer_ out c). set (w2 := set_w_conns _ w1).
  destruct (conn_env_intro w2 p c c2 x1 w1) as (x2 & Henv2 & _);
    [done|apply conn_frame_conn|done|apply same_conn_out|].
  destruct (start_writing_ok w2 p c2 x2 Henv2)
    as (w3 & c3 & E3 & Hc3 & Hf3 & Hs3 & Hw3 & Ho3 & Hst3 & Ht3).
  change (channel_ c) with (channel_ c2). rewrite E3. exists w3, c3. split; [done|].
  rewrite Hc3, lookup_insert_eq, Ho3, Hst3, Ht3. split_and!; try done.
  - etrans; [exact Hf1|]. etrans; [apply conn_frame_conn|exact Hf3].
  - etrans; [apply same_conn_out|exact Hs3].
  - cbn. by rewrite Hcont, Hsl.
  - cbn. rewrite Hsize, zlen_slice by lia.
    pose proof (grown_size_bounds (zlen data - nw) (outputBuffer_ c) Hb). lia.
Qed.

(** [sendInLoop] on a connection that is not disconnected. *)
Lemma sendInLoop_ok w p c x data :
  conn_env w p c x → out_inv c → state_ c ≠ kDisconnected →
  Buffer.writerIndex_ (outputBuffer_ c) + zlen data ≤ max_size →
  ∃ w' c', TcpConnection.sendInLoop p data w = Ok (tt, w') ∧
    conn_frame p w w' ∧ w_conns w' !! p = Some c' ∧ same_conn c c' ∧ state_ c' = state_ c ∧
    out_inv c' ∧
    stream w' c' = stream w c ++ (if write_fault w c then [] else data) ∧
    Buffer.size (outputBuffer_ c') ≤ Buffer.size (outputBuffer_ c) + zlen data ∧
    others (w_trace w') = others (w_trace w).
Proof.
  intros Henv [Hb Hinv] Hst Hmax. unfold TcpConnection.sendInLoop, stream.
  rewrite (bind_Ok _ _ _ _ _ (load_conn_ok _ _ _ (ce_conn _ _ _ _ Henv))).
  rewrite decide_False by done.
  assert (zlen data < 2 ^ 63).
  { destruct Hb as (? & ? & _). unfold Buffer.CHEAP_PREPEND, max_size in *. lia. }
  destruct (try_write_ok w p c x data) as
    (w1 & nw & fault & E1 & -> & Hfault & Hnw & Hpos & Hf1 & Hc1 & Hsd & Hwire); [done..|].
  rewrite (bind_Ok _ _ _ _ _ E1).
  destruct (conn_env_same _ _ _ _ _ Henv Hf1 Hc1) as (x1 & Henv1 & _).
  destruct (write_fault w c); cbn [negb andb when].
  - exists w1, c. rewrite Hwire, (Hfault eq_refl), ztake_0, !app_nil_r by done.
    pose proof (zlen_nonneg data). split_and!; try done; [apply Henv1|lia].
  - destruct (Z.ltb_spec 0 (zlen data - nw)) as [Hrem|Hrem].
    + destruct (buffer_rest_ok w1 p c x1 data nw) as
        (w2 & c2 & E2 & Hf2 & Hc2 & Hs2 & Hst2 & Hwf2 & Hcont2 & Hwr2 & Ht2 & Hsz2); [done..|].
      exists w2, c2. rewrite (sc_fd _ _ Hs2), Ht2, Hwire, Hcont2.
      split_and!; try done.
      * by etrans.
      * split; [done|]. by rewrite Hwr2.
      * destruct (decide (0 < nw)) as [Hp|Hp].
        -- destruct (Hpos Hp) as [_ ->]. rewrite app_nil_r, <- !app_assoc. cbn.
           by rewrite ztake_zdrop.
        -- rewrite ztake_0, zdrop_0, app_nil_r by lia. by rewrite app_assoc.
    + exists w1, c. assert (nw = zlen data) as -> by lia. rewrite Hwire, ztake_ge by done.
      pose proof (zlen_nonneg data). split_and!; try done; [apply Henv1| |lia].
      destruct data as [|b data]; [by rewrite !app_nil_r|].
      destruct Hpos as [_ ->]; [zlen_lia|]. by rewrite !app_nil_r.
Qed.

(** ** The socket becomes writable *)

Lemma shutdownWrite_ok fd w p :
  "asynclogger" ∈ w_loggers w →
  ∃ w', TcpConnection.shutdownWrite fd w = Ok (tt, w') ∧ conn_frame p w w' ∧
    w_conns w' = w_conns w ∧
    w_trace w' = w_trace w ++ (if sr_ret (answer w) <? 0 then [] else [EvShutdownWr fd]).
Proof.
  intros Hlog. unfold TcpConnection.shutdownWrite. rewrite (bind_Ok _ _ _ _ _ (syscall_ok w)).
  destruct (sr_ret (answer w) <? 0).
  - rewrite (log_ok _ (tick w) Hlog). exists (tick w). rewrite app_nil_r.
    split_and!; [done|apply conn_frame_tick|done..].
  - eexists. split; [apply emit_ok|]. split_and!; [|done..].
    etrans; [apply conn_frame_tick|]. apply (conn_frame_trace p _ (tick w)).
Qed.

Lemma shutdownInLoop_ok w p c x :
  conn_env w p c x →
  ∃ w', TcpConnection.shutdownInLoop p w = Ok (tt, w') ∧ conn_frame p w w' ∧
    w_conns w' = w_conns w ∧
    (w_trace w' = w_trace w ∨
     Channel.isWriting (channel_ c) = false ∧ w_trace w' = w_trace w ++ [EvShutdownWr (socket_ c)]).
Proof.
  intros Henv. unfold TcpConnection.shutdownInLoop.
  rewrite (bind_Ok _ _ _ _ _ (load_conn_ok _ _ _ (ce_conn _ _ _ _ Henv))).
  destruct (Channel.isWriting (channel_ c)); cbn [negb when].
  - exists w. split_and!; auto; done.
  - destruct (shutdownWrite_ok (socket_ c) w p (ce_log _ _ _ _ Henv)) as (w' & -> & ? & ? & Ht).
    exists w'. split_and!; try done. rewrite Ht.
    destruct (_ <? 0); [left; apply app_nil_r|by right].
Qed.

Lemma wire_shutdown fd tr fd' : wire fd (tr ++ [EvShutdownWr fd']) = wire fd tr.
Proof. rewrite wire_app. apply app_nil_r. Qed.

Lemma others_shutdown tr fd : others (tr ++ [EvShutdownWr fd]) = others tr ++ [EvShutdownWr fd].
Proof. unfold others. by rewrite omap_app. Qed.

(** Everything is written: the channel stops watching for writability, the
    write-complete callback is queued, and a connection that was shut down
    meanwhile closes its write side. *)
Lemma drained_ok w p c0 c x :
  conn_env w p c x → conn_loop_ c0 = conn_loop_ c → Buffer.content (outputBuffer_ c) = [] →
  Buffer.wf (outputBuffer_ c) →
  ∃ w' c',
    bind (Channel.disableWriting (ChConn p)) (λ _,
      bind (TcpConnection.queue_write_complete p c0) (λ _,
        bind (load_conn p) (λ c, if decide (state_ c = kDisconnected)
          then TcpConnection.shutdownInLoop p else ret tt))) w = Ok (tt, w') ∧
    conn_frame p w w' ∧ w_conns w' !! p = Some c' ∧ same_conn c c' ∧ state_ c' = state_ c ∧
    outputBuffer_ c' = outputBuffer_ c ∧ Channel.isWriting (channel_ c') = false ∧
    (∀ fd, wire fd (w_trace w') = wire fd (w_trace w)) ∧
    (others (w_trace w') = others (w_trace w) ∨
     state_ c' = kDisconnected ∧
     others (w_trace w') = others (w_trace w) ++ [EvShutdownWr (socket_ c)]).
Proof.
  intros Henv Hl Hcont Hwf. unfold Channel.disableWriting.
  destruct (change_events_frame (λ e, Z.land e (Z.lnot Channel.writeEvent)) _ _ _ _ Henv)
    as (w1 & i & c1 & E1 & Hc1 & Hcs1 & Hf1 & Hs1 & Ht1 & _ & _).
  rewrite (bind_Ok _ _ _ _ _ E1).
  destruct (conn_env_intro _ _ _ _ _ _ Henv Hf1 Hcs1 Hs1) as (x1 & Henv1 & _).
  destruct (queue_write_complete_ok w1 p c0 c1 x1) as (w2 & E2 & Hf2 & Hcs2 & Ht2 & _);
    [done|by rewrite (sc_loop _ _ Hs1)|].
  rewrite (bind_Ok _ _ _ _ _ E2).
  destruct (conn_env_same _ _ _ _ _ Henv1 Hf2 Hcs2) as (x2 & Henv2 & _).
  rewrite (bind_Ok _ _ _ _ _ (load_conn_ok _ _ _ (ce_conn _ _ _ _ Henv2))).
  assert (Hst : state_ c1 = state_ c) by (by rewrite Hc1).
  assert (Hob : outputBuffer_ c1 = outputBuffer_ c) by (by rewrite Hc1).
  assert (Hw1 : Channel.isWriting (channel_ c1) = false)
    by (rewrite Hc1; apply isWriting_disabled).
  destruct (decide (state_ c1 = kDisconnected)) as [Hd|Hd].
  - destruct (shutdownInLoop_ok w2 p c1 x2 Henv2) as (w3 & E3 & Hf3 & Hcs3 & Ht3).
    exists w3, c1. rewrite Hcs3. split_and!; try done.
    + etrans; [exact Hf1|]. by etrans.
    + apply Henv2.
    + intros fd. destruct Ht3 as [->|[_ ->]]; rewrite ?wire_shutdown, Ht2, Ht1; done.
    + destruct Ht3 as [->|[_ ->]]; [left; by rewrite Ht2, Ht1|right].
      by rewrite others_shutdown, Ht2, Ht1, (sc_socket _ _ Hs1).
  - exists w2, c1. split_and!; try done.
    + by etrans.
    + apply Henv2.
    + intros fd. by rewrite Ht2, Ht1.
    + left. by rewrite Ht2, Ht1.
Qed.

(** [handleWrite] on a channel that watches for writability. *)
(** What a write event does to a connection. *)
Definition write_event p w c w' c' : Prop :=
  conn_frame p w w' ∧ w_conns w' !! p = Some c' ∧ same_conn c c' ∧ state_ c' = state_ c ∧
  out_inv c' ∧ stream w' c' = stream w c ∧
  Buffer.size (outputBuffer_ c') = Buffer.size (outputBuffer_ c) ∧
  (others (w_trace w') = others (w_trace w) ∨
   state_ c' = kDisconnected ∧ Channel.isWriting (channel_ c') = false ∧
   others (w_trace w') = others (w_trace w) ++ [EvShutdownWr (socket_ c)]).

(** The kernel took nothing. *)
Lemma nothing_written w p c x d (w1 := after_write (fd_ (channel_ c)) d w) :
  conn_env w p c x → out_inv c →
  match write_answer w d with Wrote n => n ≤ 0 | WriteError _ => True end →
  ∃ w' c', log "asynclogger" w1 = Ok (tt, w') ∧ write_event p w c w' c'.
Proof.
  intros Henv Ho Hn. destruct (after_write_ok _ _ _ _ d Henv) as (Hf1 & Hc1 & (x1 & Henv1) & Hsd & Hwire).
  exists w1, c. rewrite (log_ok "asynclogger" w1 (ce_log _ _ _ _ Henv1)).
  split; [done|]. split_and!; try done; [apply Henv1|apply Ho..| |by left].
  unfold stream, w1. rewrite Hwire. destruct (write_answer w d); [rewrite ztake_0 by done|];
    by rewrite app_nil_r.
Qed.

(** The bytes it took leave the buffer. *)
Lemma written_retrieved w p c x d n (w1 := after_write (fd_ (channel_ c)) d w)
    (c2 := set_outputBuffer_ (Buffer.retrieve n (outputBuffer_ c)) c)
    (w2 := set_w_conns (<[p := c2]> (w_conns w1)) w1) :
  conn_env w p c x → out_inv c → d = Buffer.content (outputBuffer_ c) →
  write_answer w d = Wrote n → 0 < n →
  conn_frame p w w2 ∧ (∃ x2, conn_env w2 p c2 x2) ∧ others (w_trace w2) = others (w_trace w) ∧
  Buffer.wf (outputBuffer_ c2) ∧ stream w2 c2 = stream w c.
Proof.
  intros Henv [Hb Hinv] -> Ea Hn. set (d := Buffer.content (outputBuffer_ c)) in *.
  destruct (after_write_ok _ _ _ _ d Henv) as (Hf1 & Hc1 & (x1 & Henv1) & Hsd & Hwire). rewrite Ea in Hwire.
  assert (Hnd : n ≤ zlen d) by (unfold write_answer in Ea; destruct (_ <? 0) in Ea; simplify_eq; lia).
  assert (Hcont : Buffer.content (outputBuffer_ c2) = zdrop n d) by (apply retrieve_content; [done|lia]).
  destruct (conn_env_intro w2 p c c2 x1 w1) as (x2 & Henv2 & _); [done|apply conn_frame_conn|done|apply same_conn_out|].
  split_and!; [etrans; [exact Hf1|apply conn_frame_conn]|by exists x2|exact Hsd|apply retrieve_wf; [done|lia]|].
  unfold stream. rewrite Hcont. change (w_trace w2) with (w_trace w1).
  change (fd_ (channel_ c2)) with (fd_ (channel_ c)). unfold w1. by rewrite Hwire, <- app_assoc, ztake_zdrop.
Qed.

Lemma handleWrite_ok w p c x :
  conn_env w p c x → out_inv c → Channel.isWriting (channel_ c) = true →
  ∃ w' c', TcpConnection.handleWrite p w = Ok (tt, w') ∧ write_event p w c w' c'.
Proof.
  intros Henv Ho Hwr. pose proof Ho as [Hb Hinv]. unfold TcpConnection.handleWrite.
  rewrite (bind_Ok _ _ _ _ _ (load_conn_ok _ _ _ (ce_conn _ _ _ _ Henv))), Hwr.
  rewrite writeFd_ok by done. cbn [lift].
  set (d := Buffer.content (outputBuffer_ c)).
  rewrite (bind_Ok _ _ w (sys_write (fd_ (channel_ c)) d) w) by done.
  rewrite (bind_Ok _ _ _ _ _ (sys_write_ok _ _ w)).
  pose proof (nothing_written w p c x d Henv Ho) as Hkeep.
  destruct (write_answer w d) as [n|e] eqn:Ea; [|by apply Hkeep].
  destruct (Z.ltb_spec 0 n) as [Hn|Hn]; [|by apply Hkeep]. clear Hkeep.
  rewrite (bind_Ok _ _ _ _ _ (store_conn_ok _ _ (after_write (fd_ (channel_ c)) d w))).
  destruct (written_retrieved w p c x d n Henv Ho eq_refl Ea Hn) as (Hf2 & (x2 & Henv2) & Hsd & Hwf2 & Hst2).
  set (c2 := set_outputBuffer_ _ c) in *. set (w2 := set_w_conns _ _) in *.
  change (Buffer.retrieve n (outputBuffer_ c)) with (outputBuffer_ c2).
  rewrite readable_0 by done. case_bool_decide as Hemp; cbn [when].
  - destruct (drained_ok w2 p c c2 x2) as
      (w3 & c3 & -> & Hf3 & Hc3 & Hs3 & Hst3 & Ho3 & Hw3 & Hwire3 & Hsd3); [done..|].
    exists w3, c3. split; [done|]. split_and!; try done.
    + by etrans.
    + etrans; [apply same_conn_out|exact Hs3].
    + split; rewrite Ho3; done.
    + rewrite <- Hst2. unfold stream. rewrite Hwire3, Ho3, (sc_fd _ _ Hs3). done.
    + rewrite Ho3. apply retrieve_size.
    + rewrite Hsd in Hsd3. destruct Hsd3 as [?|[? ?]]; [by left|right]. by split_and!.
  - exists w2, c2. split; [done|]. split_and!; try done.
    + subst w2; wcbn. apply lookup_insert_eq.
    + split; [done|]. change (channel_ c2) with (channel_ c). by rewrite Hwr.
    + apply retrieve_size.
    + by left.
Qed.
End stream.

(** ** Sessions: what the loop's thread does with a connection *)

(** The calls that touch the output side, made on the loop's thread. *)
Inductive conn_call :=
  | CSend (data : list byte)
  | CWritable
  | CShutdown.

Definition sends (l : list conn_call) : list (list byte) :=
  omap (λ q, match q with CSend d => Some d | _ => None end) l.

(** The kernel never breaks the connection. *)
Definition reliable (o : nat → sysret) : Prop :=
  ∀ n, - sr_ret (o n) ≠ EPIPE ∧ - sr_ret (o n) ≠ ECONNRESET.

Section session.
Context {K : Type} `{KernelOk K}.
Implicit Types w : World K.

Definition run_call (p : ptr) (q : conn_call) : M (World K) unit :=
  match q with
  | CSend d => TcpConnection.sendInLoop p d
  | CWritable => TcpConnection.handleWrite p
  | CShutdown => TcpConnection.shutdown p
  end.

(** The invariant between calls; the write side of the socket is closed only
    when nothing is left to write and nothing more will be. *)
Record session w (p : ptr) (c : TcpConnection) (x : EventLoop) : Prop := {
  ss_env : conn_env w p c x;
  ss_thread : threadId_ x = w_tid w;
  ss_out : out_inv c;
  ss_fin : socket_ c ∈ shutdowns (w_trace w) →
           state_ c = kDisconnected ∧ Channel.isWriting (channel_ c) = false }.

Lemma session_next w w' p c c' x :
  session w p c x → conn_frame p w w' → w_conns w' !! p = Some c' → same_conn c c' →
  out_inv c' →
  (socket_ c ∈ shutdowns (w_trace w') →
     state_ c' = kDisconnected ∧ Channel.isWriting (channel_ c') = false) →
  ∃ x', session w' p c' x'.
Proof.
  intros [Henv Hth Ho Hfin] Hf Hc Hs Ho' Hfin'.
  destruct (conn_env_frame _ _ _ _ _ _ Henv Hf Hc Hs) as (x' & Henv' & He).
  exists x'. split; [done| |done|by rewrite (sc_socket _ _ Hs)].
  by rewrite (le_thread _ _ He), Hth, (cf_tid _ _ _ Hf).
Qed.

Lemma shutdown_ok w p c x :
  conn_env w p c x → threadId_ x = w_tid w → state_ c = kConnected →
  ∃ w' c', TcpConnection.shutdown p w = Ok (tt, w') ∧ conn_frame p w w' ∧
    w_conns w' !! p = Some c' ∧ same_conn c c' ∧ state_ c' = kDisconnected ∧
    channel_ c' = channel_ c ∧ outputBuffer_ c' = outputBuffer_ c ∧
    (w_trace w' = w_trace w ∨
     Channel.isWriting (channel_ c) = false ∧
     w_trace w' = w_trace w ++ [EvShutdownWr (socket_ c)]).
Proof.
  intros Henv Hth Hst. unfold TcpConnection.shutdown.
  rewrite (bind_Ok _ _ _ _ _ (load_conn_ok _ _ _ (ce_conn _ _ _ _ Henv))).
  rewrite decide_True by done. rewrite (bind_Ok _ _ _ _ _ (store_conn_ok _ _ w)).
  set (c1 := set_state_ kDisconnected c). set (w1 := set_w_conns _ w).
  assert (Hs1 : same_conn c c1) by by split.
  destruct (conn_env_intro w1 p c c1 x w) as (x1 & Henv1 & He1);
    [done|apply conn_frame_conn|done..|].
  unfold EventLoop.runInLoop. change (conn_loop_ c) with (conn_loop_ c1).
  rewrite (bind_Ok _ _ _ _ _ (load_loop_ok _ _ _ (ce_loop _ _ _ _ Henv1))).
  rewrite (bind_Ok _ _ _ _ _ (gets_ok _ w1)).
  unfold EventLoop.isInLoopThread. rewrite (le_thread _ _ He1), Hth. change (w_tid w1) with (w_tid w).
  rewrite Z.eqb_refl.
  destruct (shutdownInLoop_ok w1 p c1 x1 Henv1) as (w2 & E2 & Hf2 & Hcs2 & Ht2).
  exists w2, c1. rewrite Hcs2. split_and!; try done.
  - etrans; [apply conn_frame_conn|done].
  - apply Henv1.
Qed.

(** What a call leaves, with the data it accepted. *)
Definition call_done w p c q w' c' x' acc : Prop :=
  conn_frame p w w' ∧ session w' p c' x' ∧
  same_conn c c' ∧ stream w' c' = stream w c ++ concat acc ∧ acc `sublist_of` sends [q] ∧
  Buffer.size (outputBuffer_ c') ≤
    Buffer.size (outputBuffer_ c) + match q with CSend d => zlen d | _ => 0 end ∧
  (reliable (w_oracle w) → state_ c ≠ kDisconnected → q ≠ CShutdown →
     acc = sends [q] ∧ state_ c' ≠ kDisconnected).

Lemma send_call_ok w p c x d :
  session w p c x → Buffer.size (outputBuffer_ c) + zlen d ≤ max_size →
  ∃ w' c' x' acc, run_call p (CSend d) w = Ok (tt, w') ∧ call_done w p c (CSend d) w' c' x' acc.
Proof.
  intros Hss Hmax. pose proof Hss as [Henv Hth Ho Hfin]. pose proof (proj1 Ho) as Hwf. unfold call_done. cbn [run_call].
  destruct (decide (state_ c = kDisconnected)) as [Hd|Hd].
  - exists w, c, x, []. unfold TcpConnection.sendInLoop.
    rewrite (bind_Ok _ _ _ _ _ (load_conn_ok _ _ _ (ce_conn _ _ _ _ Henv))).
    rewrite decide_True by done. rewrite (log_ok _ _ (ce_log _ _ _ _ Henv)).
    cbn [concat]. rewrite app_nil_r. pose proof (zlen_nonneg d).
    split_and!; try done; [apply sublist_nil_l|lia].
  - destruct (sendInLoop_ok w p c x d) as
      (w1 & c1 & E1 & Hf1 & Hc1 & Hs1 & Hst1 & Ho1 & Hstr1 & Hsz1 & Hsd1);
      [done..|buffer_unfold; lia|].
    destruct (session_next _ _ _ _ _ _ Hss Hf1 Hc1 Hs1 Ho1) as (x1 & Hss1).
    { rewrite shutdowns_others, Hsd1, <- shutdowns_others. intros Hin. by destruct (Hfin Hin). }
    exists w1, c1, x1, (if write_fault w c then [] else [d]).
    split_and!; try done.
    + rewrite Hstr1. destruct (write_fault w c); cbn; by rewrite ?app_nil_r.
    + destruct (write_fault w c); [apply sublist_nil_l|done].
    + intros Hrel _ _. rewrite Hst1. split; [|done].
      destruct (Hrel (w_clock w)) as [H1%Z.eqb_neq H2%Z.eqb_neq].
      unfold write_fault, answer. by rewrite H1, H2, andb_false_r.
Qed.

Lemma write_call_ok w p c x :
  session w p c x →
  ∃ w' c' x' acc, run_call p CWritable w = Ok (tt, w') ∧ call_done w p c CWritable w' c' x' acc.
Proof.
  intros Hss. pose proof Hss as [Henv Hth Ho Hfin]. pose proof (proj1 Ho) as Hwf. unfold call_done. cbn [run_call].
  destruct (Channel.isWriting (channel_ c)) eqn:Hwr.
  - destruct (handleWrite_ok w p c x) as
      (w1 & c1 & E1 & Hf1 & Hc1 & Hs1 & Hst1 & Ho1 & Hstr1 & Hsz1 & Hsd1); [done..|].
    destruct (session_next _ _ _ _ _ _ Hss Hf1 Hc1 Hs1 Ho1) as (x1 & Hss1).
    { destruct Hsd1 as [Hsd1|(? & ? & _)]; [|done].
      rewrite shutdowns_others, Hsd1, <- shutdowns_others. intros Hin.
      destruct (Hfin Hin). congruence. }
    exists w1, c1, x1, []. cbn [concat]. rewrite app_nil_r, Hst1.
    split_and!; try done. lia.
  - exists w, c, x, []. unfold TcpConnection.handleWrite.
    rewrite (bind_Ok _ _ _ _ _ (load_conn_ok _ _ _ (ce_conn _ _ _ _ Henv))), Hwr.
    rewrite (log_ok _ _ (ce_log _ _ _ _ Henv)). cbn [concat]. rewrite app_nil_r.
    split_and!; try done. lia.
Qed.

Lemma shutdown_call_ok w p c x :
  session w p c x →
  ∃ w' c' x' acc, run_call p CShutdown w = Ok (tt, w') ∧ call_done w p c CShutdown w' c' x' acc.
Proof.
  intros Hss. pose proof Hss as [Henv Hth Ho Hfin]. pose proof (proj1 Ho) as Hwf. unfold call_done. cbn [run_call].
  destruct (decide (state_ c = kConnected)) as [Hk|Hk].
  - destruct (shutdown_ok w p c x) as
      (w1 & c1 & E1 & Hf1 & Hc1 & Hs1 & Hst1 & Hch1 & Hob1 & Ht1); [done..|].
    destruct (session_next _ _ _ _ _ _ Hss Hf1 Hc1 Hs1) as (x1 & Hss1).
    { unfold out_inv. by rewrite Hob1, Hch1. }
    { rewrite Hch1. destruct Ht1 as [->|[Hw ->]]; [|done].
      intros Hin. split; [done|]. by apply Hfin. }
    exists w1, c1, x1, []. cbn [concat]. rewrite app_nil_r. split_and!; try done.
    + unfold stream. rewrite Hob1, Hch1.
      by destruct Ht1 as [->|[_ ->]]; rewrite ?wire_shutdown.
    + rewrite Hob1. lia.
  - exists w, c, x, []. unfold TcpConnection.shutdown.
    rewrite (bind_Ok _ _ _ _ _ (load_conn_ok _ _ _ (ce_conn _ _ _ _ Henv))).
    rewrite decide_False by done. cbn [concat]. rewrite app_nil_r.
    split_and!; try done. lia.
Qed.

Lemma run_call_ok w p c x q :
  session w p c x →
  Buffer.size (outputBuffer_ c) + match q with CSend d => zlen d | _ => 0 end ≤ max_size →
  ∃ w' c' x' acc, run_call p q w = Ok (tt, w') ∧ call_done w p c q w' c' x' acc.
Proof. destruct q; eauto using send_call_ok, write_call_ok, shutdown_call_ok. Qed.

Lemma sends_app l1 l2 : sends (l1 ++ l2) = sends l1 ++ sends l2.
Proof. apply omap_app. Qed.

Lemma sends_cons_growth q l :
  foldr Z.add 0 (zlen <$> sends (q :: l)) =
    match q with CSend d => zlen d | _ => 0 end + foldr Z.add 0 (zlen <$> sends l).
Proof. by destruct q. Qed.

(** C6: over any sequence of sends, write events and a shutdown on the loop's
    thread, and whatever the kernel answers: no operation faults; the bytes
    accepted by the kernel followed by those still buffered are the earlier
    ones followed by the data of the accepted sends, in order and each whole;
    every send is accepted unless the peer is gone (EPIPE, ECONNRESET) or the
    connection was shut down; and once the write side of the socket is closed
    nothing is left unsent. *)
Theorem outgoing_stream_integrity p calls w c x :
  session w p c x →
  Buffer.size (outputBuffer_ c) + foldr Z.add 0 (zlen <$> sends calls) ≤ max_size →
  ∃ w' c' x' acc, mapM_ (run_call p) calls w = Ok (tt, w') ∧ session w' p c' x' ∧
    fd_ (channel_ c') = fd_ (channel_ c) ∧
    wire (fd_ (channel_ c)) (w_trace w') ++ Buffer.content (outputBuffer_ c') =
      wire (fd_ (channel_ c)) (w_trace w) ++ Buffer.content (outputBuffer_ c) ++ concat acc ∧
    acc `sublist_of` sends calls ∧
    (reliable (w_oracle w) → state_ c ≠ kDisconnected → CShutdown ∉ calls → acc = sends calls) ∧
    (socket_ c ∈ shutdowns (w_trace w') → Buffer.content (outputBuffer_ c') = []).
Proof.
  revert w c x. induction calls as [|q calls IH]; intros w c x Hss Hmax.
  - exists w, c, x, []. cbn [concat]. rewrite app_nil_r. split_and!; try done.
    intros Hin. apply Hss. by apply Hss.
  - rewrite sends_cons_growth in Hmax.
    assert (0 ≤ foldr Z.add 0 (zlen <$> sends calls)).
    { clear. induction (sends calls) as [|d l IHl]; cbn; [done|]. pose proof (zlen_nonneg d). lia. }
    destruct (run_call_ok w p c x q) as
      (w1 & c1 & x1 & acc1 & E1 & Hf1 & Hss1 & Hs1 & Hstr1 & Hacc1 & Hsz1 & Hrel1);
      [done|lia|].
    destruct (IH w1 c1 x1) as
      (w2 & c2 & x2 & acc2 & E2 & Hss2 & Hfd2 & Hstr2 & Hacc2 & Hrel2 & Hfin2); [done|lia|].
    exists w2, c2, x2, (acc1 ++ acc2). cbn [mapM_]. rewrite (bind_Ok _ _ _ _ _ E1).
    rewrite (sc_fd _ _ Hs1) in *. rewrite (sc_socket _ _ Hs1) in *.
    change (q :: calls) with ([q] ++ calls). rewrite sends_app.
    unfold stream in Hstr1. rewrite (sc_fd _ _ Hs1) in Hstr1.
    split_and!; try done.
    + rewrite Hstr2, concat_app, (app_assoc (wire _ (w_trace w1))), Hstr1.
      by rewrite <- !app_assoc.
    + by apply sublist_app.
    + intros Hr Hd Hns. destruct Hrel1 as [-> Hd1]; [done..|set_solver|].
      rewrite Hrel2; [done| |done|set_solver]. by rewrite (cf_oracle _ _ _ Hf1).
Qed.
End session.

Lemma demo_session oracle : session (demo_world oracle) 9 demo_conn demo_loop.
Proof.
  split; [split; try done; by vm_compute|done| |].
  - split; [apply ctor_wf|]. intros _. apply ctor_content.
  - intros Hin. by apply elem_of_nil in Hin.
Qed.

(** The kernel takes two bytes at a time. *)
Lemma outgoing_stream_integrity_witness :
  let w := demo_world (λ _, ret_only 2) in
  let calls := [CSend [x41; x42; x43; x44]; CSend [x45]; CWritable; CShutdown; CWritable] in
  ∃ w' c' x' acc, mapM_ (run_call 9) calls w = Ok (tt, w') ∧ session w' 9 c' x' ∧
    fd_ (channel_ c') = 7 ∧
    wire 7 (w_trace w') ++ Buffer.content (outputBuffer_ c') =
      wire 7 (w_trace w) ++ Buffer.content (outputBuffer_ demo_conn) ++ concat acc ∧
    acc `sublist_of` sends calls ∧
    (reliable (w_oracle w) → state_ demo_conn ≠ kDisconnected → CShutdown ∉ calls →
       acc = sends calls) ∧
    (socket_ demo_conn ∈ shutdowns (w_trace w') → Buffer.content (outputBuffer_ c') = []).
Proof.
  intros w calls. apply (outgoing_stream_integrity 9 calls w demo_conn demo_loop).
  - apply demo_session.
  - by vm_compute.
Defined.
