(* ===== verification/Inet.v ===== *)
(** * Socket addresses (include/InetAddress.hpp, src/InetAddress.cpp)

    [inet_addr] and [inet_ntop] belong to the C library: the class [InetLib].
    [htons] and [ntohs] are those of a little-endian machine. *)

From stdpp Require Import base tactics numbers list strings pretty.
From Stdlib Require Import ZArith Lia Ascii.
From S2P Require Import Prelude NetBuffer Kernel World.

Local Open Scope string_scope.
Local Open Scope Z_scope.
Local Open Scope prog_scope.

Class InetLib := {
  inet_addr : string → Z;
  inet_ntop : Z → string }.

(** inet(3), inet_ntop(3): an address in dotted-quad form takes at most 15
    characters (INET_ADDRSTRLEN is 16) and reads back; [in_addr_t] has 32 bits. *)
Class InetLibOk `{InetLib} := {
  ntop_length a : 0 ≤ a < 2 ^ 32 → (String.length (inet_ntop a) ≤ 15)%nat;
  addr_ntop a : 0 ≤ a < 2 ^ 32 → inet_addr (inet_ntop a) = a;
  addr_range s : 0 ≤ inet_addr s < 2 ^ 32 }.

Module InetAddress.
Definition AF_INET : Z := 2.

(** Swaps the two bytes of a 16-bit integer. *)
Definition htons (p : Z) : Z := Z.lor (Z.shiftl (Z.land p 255) 8) (Z.shiftr p 8).
Definition ntohs : Z → Z := htons.

Section ops.
Context `{InetLib}.

Definition ctor (port : Z) (ip : string) : InetAddress :=
  mkInetAddress AF_INET (htons port) (inet_addr ip).

(** The 64-byte buffer of [toIp] and [toIpPort]: the text and its final NUL
    must fit. *)
Definition fits_buf (s : string) : outcome string :=
  if (String.length s + 1 <=? 64)%nat then Ok s else Fault OutOfBounds.

Definition toIp (a : InetAddress) : outcome string := fits_buf (inet_ntop (sin_addr a)).

Definition toPort (a : InetAddress) : Z := ntohs (sin_port a).

Definition toIpPort (a : InetAddress) : outcome string :=
  let? buf := fits_buf (inet_ntop (sin_addr a)) in
  fits_buf (buf +:+ ":" +:+ pretty (ntohs (sin_port a))).
End ops.
End InetAddress.

(** A [sockaddr_in] of an IPv4 socket. *)
Definition valid_addr (a : InetAddress) : Prop :=
  sin_family a = InetAddress.AF_INET ∧ 0 ≤ sin_port a < 2 ^ 16 ∧ 0 ≤ sin_addr a < 2 ^ 32.

(** ** Port conversion *)

(** The swap in arithmetic. *)
Lemma htons_arith p : 0 ≤ p < 2 ^ 16 → InetAddress.htons p = p mod 256 * 256 + p / 256.
Proof.
  intros Hp. unfold InetAddress.htons.
  change 255 with (Z.ones 8). rewrite Z.land_ones, Z.shiftl_mul_pow2, Z.shiftr_div_pow2 by lia.
  change (2 ^ 8) with 256. symmetry. apply Z.add_nocarry_lor.
  apply Z.bits_inj'. intros n Hn. rewrite Z.land_spec, Z.bits_0.
  change 256 with (2 ^ 8). destruct (Z.lt_ge_cases n 8) as [Hlt|Hge].
  - by rewrite Z.mul_pow2_bits_low.
  - assert (Hd : 0 ≤ p / 2 ^ 8 < 2 ^ 8)
      by (split; [apply Z.div_pos; lia|apply Z.div_lt_upper_bound; lia]).
    rewrite <- (Z.mod_small _ _ Hd), Z.mod_pow2_bits_high by lia. apply andb_false_r.
Qed.

Lemma htons_range p : 0 ≤ p < 2 ^ 16 → 0 ≤ InetAddress.htons p < 2 ^ 16.
Proof.
  intros Hp. rewrite htons_arith by done. Z.to_euclidean_division_equations. lia.
Qed.

Lemma htons_involutive p : 0 ≤ p < 2 ^ 16 → InetAddress.htons (InetAddress.htons p) = p.
Proof.
  intros Hp. rewrite (htons_arith (InetAddress.htons p)) by by apply htons_range.
  rewrite htons_arith by done. Z.to_euclidean_division_equations. lia.
Qed.

Lemma pretty_port_length p : 0 ≤ p < 2 ^ 16 → (String.length (pretty p) ≤ 5)%nat.
Proof.
  intros Hp. destruct p as [|p|p]; [by apply Nat.leb_le| |lia].
  change (pretty (Z.pos p)) with (pretty_N_go (N.pos p) "").
  apply (pretty_N_go_length 5 (N.pos p) ""). change (10 ^ N.of_nat 5)%N with 100000%N. lia.
Qed.

Lemma string_length_app s t : String.length (s +:+ t) = (String.length s + String.length t)%nat.
Proof.
  induction s as [|c s IH]; [done|].
  change (S (String.length (s +:+ t)) = S (String.length s + String.length t)). by rewrite IH.
Qed.

Section inet.
Context `{InetLibOk}.

Lemma inet_address_text a : valid_addr a → ∃ s, InetAddress.toIpPort a = Ok s.
Proof.
  intros (Hf & Hp & Ha). pose proof (ntop_length _ Ha) as Hlen.
  pose proof (pretty_port_length _ (htons_range _ Hp)) as Hpl.
  unfold InetAddress.toIpPort, InetAddress.fits_buf, InetAddress.ntohs.
  rewrite (proj2 (Nat.leb_le (String.length (inet_ntop (sin_addr a)) + 1) 64)) by lia.
  cbn [obind]. rewrite !string_length_app.
  rewrite (proj2 (Nat.leb_le _ 64)) by (cbn [String.length]; lia). by eexists.
Qed.

Lemma ctor_valid port ip : 0 ≤ port < 2 ^ 16 → valid_addr (InetAddress.ctor port ip).
Proof. intros Hp. split_and!; [done|by apply htons_range..|apply addr_range|apply addr_range]. Qed.

(** C31: printing a socket address never overruns the 64-byte buffer and gives
    "ip:port" with the port in host order, and the printed address and port
    read back to the same [sockaddr_in]. *)
Theorem inet_address_roundtrip a :
  valid_addr a →
  ∃ ip, InetAddress.toIp a = Ok ip ∧
    InetAddress.ctor (InetAddress.toPort a) ip = a ∧
    0 ≤ InetAddress.toPort a < 2 ^ 16 ∧
    InetAddress.toIpPort a = Ok (ip +:+ ":" +:+ pretty (InetAddress.toPort a)).
Proof.
  intros (Hf & Hp & Ha). exists (inet_ntop (sin_addr a)).
  pose proof (ntop_length _ Ha) as Hlen.
  unfold InetAddress.toIp, InetAddress.toIpPort, InetAddress.toPort, InetAddress.ntohs.
  pose proof (htons_range _ Hp) as Hr. pose proof (pretty_port_length _ Hr) as Hpl.
  unfold InetAddress.fits_buf.
  rewrite (proj2 (Nat.leb_le (String.length (inet_ntop (sin_addr a)) + 1) 64)) by lia.
  cbn [obind]. rewrite !string_length_app.
  rewrite (proj2 (Nat.leb_le _ 64)) by (cbn [String.length]; lia).
  split_and!; try done; try lia.
  unfold InetAddress.ctor. rewrite (addr_ntop _ Ha), htons_involutive by done.
  destruct a; cbn in *. by subst.
Qed.
End inet.

(** ** An instance to evaluate with: an address as eight letters *)
Module HexInet.
Definition nibble (a i : Z) : Z := (a / 16 ^ i) mod 16.
Definition letter (n : Z) : ascii := ascii_of_N (Z.to_N (65 + n)).
Definition unletter (c : ascii) : Z := Z.of_N (N_of_ascii c) - 65.
Fixpoint print (n : nat) (a : Z) : string :=
  match n with
  | O => ""
  | S n' => String (letter (a mod 16)) (print n' (a / 16))
  end.
Fixpoint parse (s : string) : Z :=
  match s with
  | EmptyString => 0
  | String c s' => unletter c + 16 * parse s'
  end.

#[global] Instance lib : InetLib := {
  inet_addr s := parse s mod 2 ^ 32;
  inet_ntop := print 8 }.

Lemma unletter_letter n : 0 ≤ n < 16 → unletter (letter n) = n.
Proof.
  intros Hn. unfold unletter, letter. rewrite N_ascii_embedding; lia.
Qed.

Lemma parse_print n a : 0 ≤ a < 16 ^ Z.of_nat n → parse (print n a) = a.
Proof.
  revert a. induction n as [|n IH]; intros a Ha; cbn [print parse].
  - cbn in Ha. lia.
  - rewrite Nat2Z.inj_succ, Z.pow_succ_r in Ha by lia.
    pose proof (Z.mod_pos_bound a 16 ltac:(lia)).
    rewrite unletter_letter by done.
    rewrite IH by (split; [apply Z.div_pos|apply Z.div_lt_upper_bound]; lia).
    pose proof (Z.div_mod a 16 ltac:(done)). lia.
Qed.

Lemma print_length n a : String.length (print n a) = n.
Proof. revert a. induction n as [|n IH]; intros a; cbn; [done|]. by rewrite IH. Qed.

#[global] Instance lib_ok : InetLibOk.
Proof.
  split; [intros a Ha; unfold inet_addr, inet_ntop, lib..|].
  - rewrite print_length. lia.
  - rewrite parse_print by (change (16 ^ Z.of_nat 8) with (2 ^ 32); lia).
    by apply Z.mod_small.
  - intros s. by apply Z.mod_pos_bound.
Qed.
End HexInet.

Lemma inet_address_roundtrip_witness :
  let a := mkInetAddress 2 36895 16777343 in
  ∃ ip, InetAddress.toIp a = Ok ip ∧
    InetAddress.ctor (InetAddress.toPort a) ip = a ∧
    0 ≤ InetAddress.toPort a < 2 ^ 16 ∧
    InetAddress.toIpPort a = Ok (ip +:+ ":" +:+ pretty (InetAddress.toPort a)).
Proof.
  intros a. apply inet_address_roundtrip. subst a.
  unfold valid_addr, InetAddress.AF_INET; cbn [sin_family sin_port sin_addr]. lia.
Defined.
