(* ===== verification/LoopPool.v ===== *)
(** * Event-loop objects and the thread pool (src/EventLoop.cpp constructor and
    destructor, src/DefaultPoller.cpp, src/EventLoopThread.cpp, src/Thread.cpp,
    src/EventLoopThreadPool.cpp)

    A thread is its identifier.  [startLoop] blocks until the new thread has
    built its loop and run the initialisation callback, so the two run here
    one after the other, with [w_tid] switched to the new thread meanwhile. *)

From stdpp Require Import base tactics numbers list gmap strings pretty.
From Stdlib Require Import ZArith Lia.
From S2P Require Import Prelude NetBuffer Kernel World Poller Demo Loop Channels Connection.
From S2P Require Import ConnFacts.

Local Open Scope string_scope.
Local Open Scope list_scope.
Local Open Scope Z_scope.
Local Open Scope prog_scope.

(** An address no live object of [m] has ([operator new]). *)
Definition fresh_addr {A} (m : gmap ptr A) : ptr :=
  1 + map_fold (λ p _ acc, Z.max p acc) 0 m.

Lemma fresh_addr_above {A} (m : gmap ptr A) p x : m !! p = Some x → p < fresh_addr m.
Proof.
  unfold fresh_addr. revert p x.
  apply (map_fold_weak_ind (λ acc m, ∀ p x, m !! p = Some x → p < 1 + acc)).
  - intros p x. by rewrite lookup_empty.
  - intros i y m' acc Hi IH p x. rewrite lookup_insert. case_decide as E.
    + subst. intros _. lia.
    + intros Hp. specialize (IH _ _ Hp). lia.
Qed.

Lemma fresh_addr_new {A} (m : gmap ptr A) : m !! fresh_addr m = None.
Proof.
  destruct (m !! fresh_addr m) eqn:E; [|done]. apply fresh_addr_above in E. lia.
Qed.

(** ** Construction and destruction of a loop *)
Module LoopObject.
Section ops.
Context {K : Type} `{Kernel K}.
(** Whether the environment sets [MUDUO_USE_POLL]. *)
Context (use_poll : bool).
Local Abbreviation M := (M (World K)).

(** A call that returns a descriptor, -1 on failure. *)
Definition open_fd : M Z :=
  let! r := syscall in
  if sr_ret r <? 0 then log "asynclogger" ;;! ret (-1) else ret (sr_ret r).

(** [Poller::newDefaultPoller]. *)
Definition newDefaultPoller (loop : ptr) : M (option EpollPoller) :=
  if use_poll then ret None
  else let! epfd := open_fd in ret (Some (EpollPoller.ctor loop epfd)).

Definition createEventfd : M Z := open_fd.

(** The constructor at address [l], run by the current thread. *)
Definition ctor (l : ptr) : M unit :=
  let! tid := gets w_tid in
  let! P := newDefaultPoller l in
  let! evtfd := createEventfd in
  store_loop l (mkEventLoop false false tid 0 P evtfd (Channel.ctor l evtfd) [] false []) ;;!
  let! t_loop := gets (λ w, w_tls w !! tid) in
  (if decide (is_Some t_loop) then log "asynclogger"
   else modify (λ w, set_w_tls (<[tid := l]> (w_tls w)) w)) ;;!
  modify_channel (ChWakeup l) (set_readCallback_ (Some (CbLoopHandleRead l))) ;;!
  Channel.enableReading (ChWakeup l).

(** [EpollPoller::~EpollPoller]. *)
Definition delete_poller (P : EpollPoller) : M unit := emit (EvClose (epollfd_ P)).

(** The destructor, and that of the poller it owns. *)
Definition dtor (l : ptr) : M unit :=
  log "asynclogger" ;;!
  Channel.disbaleAll (ChWakeup l) ;;!
  Channel.remove (ChWakeup l) ;;!
  let! x := load_loop l in
  emit (EvClose (wakeupFd_ x)) ;;!
  modify (λ w, set_w_tls (delete (w_tid w) (w_tls w)) w) ;;!
  mapM_ delete_poller (option_list (poller_ x)) ;;!
  modify (λ w, set_w_loops (delete l (w_loops w)) w).
End ops.
End LoopObject.

(** ** A loop in a thread of its own *)
Module EventLoopThread.
Section ops.
Context {K : Type} `{Kernel K} `{UserCode K}.
Context (use_poll : bool).
Local Abbreviation M := (M (World K)).

(** [if (callback_) callback_(&loop)]. *)
Definition call_init (cb : callback) (l : ptr) : M unit :=
  match cb with Some c => onThreadInit c l | None => ret tt end.

(** [threadFunc] up to the notification of [startLoop]. *)
Definition threadFunc_init (cb : callback) : M ptr :=
  let! l := gets (λ w, fresh_addr (w_loops w)) in
  LoopObject.ctor use_poll l ;;!
  call_init cb l ;;!
  ret l.

(** [Thread::start] gives the new thread its identifier; the caller waits. *)
Definition startLoop (cb : callback) : M ptr :=
  let! r := syscall in
  let! me := gets w_tid in
  modify (set_w_tid (sr_ret r)) ;;!
  let! l := threadFunc_init cb in
  modify (set_w_tid me) ;;!
  ret l.
End ops.
End EventLoopThread.

(** ** The pool *)
Module EventLoopThreadPool.
Definition ctor (baseLoop : ptr) (nameArg : string) : EventLoopThreadPool :=
  mkEventLoopThreadPool baseLoop nameArg false 0 0 [] [].

Definition setThreadNum (numThreads : Z) : EventLoopThreadPool → EventLoopThreadPool :=
  set_numThreads_ numThreads.

(** [loops_[next_++]] is unchecked. *)
Definition getNextLoop (pool : EventLoopThreadPool) : outcome (ptr * EventLoopThreadPool) :=
  match loops_ pool with
  | [] => Ok (baseLoop_ pool, pool)
  | _ =>
      if next_ pool <? 0 then Fault OutOfBounds else
      match loops_ pool !! Z.to_nat (next_ pool) with
      | None => Fault OutOfBounds
      | Some loop =>
          let next := next_ pool + 1 in
          Ok (loop, set_next_ (if zlen (loops_ pool) <=? next then 0 else next) pool)
      end
  end.

Definition getAllLoops (pool : EventLoopThreadPool) : list ptr :=
  match loops_ pool with [] => [baseLoop_ pool] | ls => ls end.

Section ops.
Context {K : Type} `{Kernel K} `{UserCode K}.
Context (use_poll : bool).
Local Abbreviation M := (M (World K)).

Definition get_pool : M EventLoopThreadPool := gets (λ w, threadPool_ (w_server w)).
Definition modify_pool (f : EventLoopThreadPool → EventLoopThreadPool) : M unit :=
  modify_server (λ s, set_threadPool_ (f (threadPool_ s)) s).

(** The loop body. If the pool had threads already, [threads_[i]] is one that
    runs, and giving it a new [std::thread] destroys a joinable one. *)
Definition start_thread (cb : callback) (i : nat) : M unit :=
  let! pool := get_pool in
  modify_pool (λ q, set_threads_ (threads_ q ++ [pool_name_ pool +:+ pretty (Z.of_nat i)]) q) ;;!
  (if decide (length (threads_ pool) = i) then ret tt else throw Terminated) ;;!
  let! l := EventLoopThread.startLoop use_poll cb in
  modify_pool (λ q, set_loops_ (loops_ q ++ [l]) q).

Definition start (cb : callback) : M unit :=
  modify_pool (set_pool_started_ true) ;;!
  let! pool := get_pool in
  mapM_ (start_thread cb) (seq 0 (Z.to_nat (numThreads_ pool))) ;;!
  when (numThreads_ pool =? 0) (EventLoopThread.call_init cb (baseLoop_ pool)).
End ops.
End EventLoopThreadPool.

(** ** Round robin *)
Section round_robin.
Implicit Types pool : EventLoopThreadPool.

(** [k] successive calls. *)
Fixpoint next_loops (k : nat) pool : outcome (list ptr * EventLoopThreadPool) :=
  match k with
  | O => Ok ([], pool)
  | S k' =>
      let? r := next_loops k' pool in
      let? s := EventLoopThreadPool.getNextLoop r.2 in
      Ok (r.1 ++ [s.1], s.2)
  end.

Definition pool_ok pool : Prop :=
  loops_ pool ≠ [] ∧ 0 ≤ next_ pool < zlen (loops_ pool).

(** The index the [i]-th call from [pool] picks. *)
Definition turn pool (i : nat) : Z := (next_ pool + Z.of_nat i) mod zlen (loops_ pool).

Lemma getNextLoop_ok pool :
  pool_ok pool →
  ∃ l, EventLoopThreadPool.getNextLoop pool =
         Ok (l, set_next_ ((next_ pool + 1) mod zlen (loops_ pool)) pool) ∧
    loops_ pool !! Z.to_nat (next_ pool) = Some l.
Proof.
  intros [Hne Hn]. unfold EventLoopThreadPool.getNextLoop.
  destruct (loops_ pool) as [|l0 ls] eqn:E; [done|]. rewrite <- E in *. clear Hne E.
  rewrite (proj2 (Z.ltb_ge _ _)) by lia.
  destruct (lookup_lt_is_Some_2 (loops_ pool) (Z.to_nat (next_ pool))) as [l Hl];
    [unfold zlen in *; lia|].
  rewrite Hl. exists l. split; [|done]. do 3 f_equal.
  destruct (Z.leb_spec (zlen (loops_ pool)) (next_ pool + 1)).
  - replace (next_ pool + 1) with (zlen (loops_ pool)) by lia. by rewrite Z.mod_same by lia.
  - by rewrite Z.mod_small by lia.
Qed.

Lemma next_loops_ok k pool :
  pool_ok pool →
  ∃ ls, next_loops k pool = Ok (ls, set_next_ (turn pool k) pool) ∧ length ls = k ∧
    ∀ i, (i < k)%nat → ls !! i = loops_ pool !! Z.to_nat (turn pool i).
Proof.
  intros Hok. pose proof Hok as [Hne Hn]. induction k as [|k (ls & E & Hlen & IH)].
  - exists []. unfold turn. rewrite Z.add_0_r, Z.mod_small by done.
    split_and!; [by destruct pool|done|lia].
  - cbn [next_loops]. rewrite E. cbn [obind fst snd].
    pose proof (Z.mod_pos_bound (next_ pool + Z.of_nat k) (zlen (loops_ pool)) ltac:(lia)) as Hb.
    destruct (getNextLoop_ok (set_next_ (turn pool k) pool)) as (l & -> & Hl); [by split|].
    cbn [obind fst snd]. exists (ls ++ [l]). split_and!.
    + do 2 f_equal. unfold turn. cbn. unfold set_next_; cbn. f_equal.
      rewrite Zplus_mod_idemp_l. f_equal. lia.
    + rewrite length_app. cbn. lia.
    + intros i Hi. destruct (decide (i < k)%nat).
      * rewrite lookup_app_l by lia. by apply IH.
      * replace i with k by lia. rewrite lookup_app_r by lia.
        by rewrite Hlen, Nat.sub_diag.
Qed.

(** How often [l] was handed out. *)
Definition served (l : ptr) (ls : list ptr) : Z := zlen (filter (λ x, x = l) ls).

Lemma served_snoc l ls x : served l (ls ++ [x]) = served l ls + (if decide (x = l) then 1 else 0).
Proof.
  unfold served. rewrite filter_app, zlen_app, filter_cons, filter_nil. by case_decide.
Qed.

(** Adding one to the dividend moves the quotient exactly at a multiple. *)
Lemma div_step a n : 0 < n → (a + 1) / n = a / n + (if decide ((a + 1) mod n = 0) then 1 else 0).
Proof.
  intros Hn. pose proof (Z.div_mod a n ltac:(lia)) as Ea. pose proof (Z.mod_pos_bound a n Hn) as Hb.
  destruct (decide (a mod n + 1 = n)) as [He|He].
  - assert (E : a + 1 = (a / n + 1) * n) by lia.
    rewrite decide_True by (rewrite E; apply Z.mod_mul; lia). rewrite E at 1.
    by rewrite Z.div_mul by lia.
  - rewrite decide_False; [|rewrite <- (Z.mod_unique (a + 1) n (a / n) (a mod n + 1)) by lia; lia].
    symmetry. rewrite Z.add_0_r. apply (Z.div_unique (a + 1) n (a / n) (a mod n + 1)); lia.
Qed.

(** The number of turns of index [j] among the first [k]. *)
Lemma turns_step a j n k :
  0 < n → 0 ≤ j < n →
  (k + 1 + (n - 1 - (j - a) mod n)) / n =
    (k + (n - 1 - (j - a) mod n)) / n + (if decide ((a + k) mod n = j) then 1 else 0).
Proof.
  intros Hn Hj.
  replace (k + 1 + (n - 1 - (j - a) mod n)) with (k + (n - 1 - (j - a) mod n) + 1) by lia.
  rewrite div_step by done. f_equal.
  assert (Hiff : (k + (n - 1 - (j - a) mod n) + 1) mod n = 0 ↔ (a + k) mod n = j).
  { replace (k + (n - 1 - (j - a) mod n) + 1) with (k - (j - a) mod n + 1 * n) by lia.
    rewrite Z.mod_add, Zminus_mod_idemp_r by lia.
    replace (k - (j - a)) with (a + k - j) by lia. split.
    - intros Hz. rewrite Zminus_mod, (Z.mod_small j) in Hz by done.
      pose proof (Z.mod_pos_bound (a + k) n Hn) as Hb.
      apply Z.mod_divide in Hz as [q Hq]; [|lia].
      assert (q < 1) by (apply (Z.mul_lt_mono_pos_r n); lia).
      assert (-1 < q) by (apply (Z.mul_lt_mono_pos_r n); lia).
      assert (q = 0) as -> by lia. lia.
    - intros <-. by rewrite Zminus_mod_idemp_r, Z.sub_diag. }
  repeat case_decide; tauto.
Qed.

Lemma served_count k pool ls pool' l (j : nat) :
  pool_ok pool → NoDup (loops_ pool) → loops_ pool !! j = Some l →
  next_loops k pool = Ok (ls, pool') →
  served l ls = (Z.of_nat k + (zlen (loops_ pool) - 1
    - (Z.of_nat j - next_ pool) mod zlen (loops_ pool))) / zlen (loops_ pool).
Proof.
  intros Hok Hnd Hj. pose proof Hok as [Hne Hn]. set (n := zlen (loops_ pool)) in *.
  assert (Hjn : 0 ≤ Z.of_nat j < n).
  { apply lookup_lt_Some in Hj. subst n. unfold zlen. lia. }
  revert ls pool'. induction k as [|k IH]; intros ls pool' E.
  - injection E as <- <-. symmetry. apply Z.div_small.
    pose proof (Z.mod_pos_bound (Z.of_nat j - next_ pool) n). lia.
  - destruct (next_loops_ok k pool Hok) as (ls0 & E0 & Hlen & Hget).
    destruct (next_loops_ok (S k) pool Hok) as (ls1 & E1 & Hlen1 & Hget1).
    rewrite E in E1. injection E1 as <- ->.
    assert (Hlast : ls = ls0 ++ [default (0 : ptr) (loops_ pool !! Z.to_nat (turn pool k))]).
    { apply list_eq. intros i. destruct (Nat.lt_trichotomy i k) as [Hi|[->|Hi]].
      - by rewrite lookup_app_l, Hget, Hget1 by lia.
      - rewrite lookup_app_r, Hlen, Nat.sub_diag, Hget1 by lia.
        pose proof (Z.mod_pos_bound (next_ pool + Z.of_nat k) n ltac:(lia)).
        destruct (lookup_lt_is_Some_2 (loops_ pool) (Z.to_nat (turn pool k))) as [y Hy];
          [unfold turn; fold n; unfold n, zlen in *; lia|].
        by rewrite Hy.
      - rewrite !lookup_ge_None_2; [done|rewrite length_app; cbn; lia|lia]. }
    rewrite Hlast, served_snoc, (IH _ _ E0).
    replace (Z.of_nat (S k)) with (Z.of_nat k + 1) by lia.
    rewrite turns_step by lia. f_equal.
    pose proof (Z.mod_pos_bound (next_ pool + Z.of_nat k) n ltac:(lia)) as Hb.
    unfold turn. fold n.
    destruct (lookup_lt_is_Some_2 (loops_ pool) (Z.to_nat ((next_ pool + Z.of_nat k) mod n)))
      as [y Hy]; [unfold n, zlen in *; lia|].
    rewrite Hy. cbn.
    assert (Hiff : y = l ↔ (next_ pool + Z.of_nat k) mod n = Z.of_nat j).
    { split; [intros ->|intros Hm].
      - pose proof (NoDup_lookup _ _ _ _ Hnd Hy Hj). lia.
      - rewrite Hm, Nat2Z.id in Hy. congruence. }
    repeat case_decide; tauto.
Qed.

(** C29: a pool with loops never faults handing them out; the [i]-th of [k]
    successive connections goes to the loop [i] places after [next_], cyclically;
    and the load is balanced: each loop gets the integer part of [k / n] or
    that rounded up, [n] being the number of loops. *)
Theorem getNextLoop_round_robin k pool :
  pool_ok pool →
  ∃ ls pool', next_loops k pool = Ok (ls, pool') ∧ pool_ok pool' ∧
    loops_ pool' = loops_ pool ∧ length ls = k ∧
    (∀ i, (i < k)%nat → ls !! i = loops_ pool !! Z.to_nat (turn pool i)) ∧
    (NoDup (loops_ pool) → ∀ l, l ∈ loops_ pool →
       Z.of_nat k / zlen (loops_ pool) ≤ served l ls ∧
       served l ls ≤ (Z.of_nat k + (zlen (loops_ pool) - 1)) / zlen (loops_ pool)).
Proof.
  intros Hok. pose proof Hok as [Hne Hn].
  destruct (next_loops_ok k pool Hok) as (ls & E & Hlen & Hget).
  pose proof (Z.mod_pos_bound (next_ pool + Z.of_nat k) (zlen (loops_ pool)) ltac:(lia)).
  exists ls, (set_next_ (turn pool k) pool). split_and!; try done.
  intros Hnd l [j Hj]%list_elem_of_lookup. rewrite (served_count _ _ _ _ _ _ Hok Hnd Hj E).
  pose proof (Z.mod_pos_bound (Z.of_nat j - next_ pool) (zlen (loops_ pool)) ltac:(lia)).
  split; apply Z.div_le_mono; lia.
Qed.
End round_robin.

Lemma getNextLoop_round_robin_witness :
  let pool := mkEventLoopThreadPool 1 "srv" true 3 2 ["srv0"; "srv1"; "srv2"] [11; 12; 13] in
  ∃ ls pool', next_loops 5 pool = Ok (ls, pool') ∧ pool_ok pool' ∧
    loops_ pool' = loops_ pool ∧ length ls = 5%nat ∧
    (∀ i, (i < 5)%nat → ls !! i = loops_ pool !! Z.to_nat (turn pool i)) ∧
    (NoDup (loops_ pool) → ∀ l, l ∈ loops_ pool →
       Z.of_nat 5 / zlen (loops_ pool) ≤ served l ls ∧
       served l ls ≤ (Z.of_nat 5 + (zlen (loops_ pool) - 1)) / zlen (loops_ pool)).
Proof. intros pool. apply getNextLoop_round_robin. by split. Defined.

(** ** Starting the pool *)
Section start.
Context {K : Type} `{KernelOk K} `{UserCode K}.
Implicit Types w : World K.

(** The parts of the world that building a loop leaves alone. *)
Record loop_frame (w w' : World K) : Prop := {
  lf_tid : w_tid w' = w_tid w;
  lf_conns : w_conns w' = w_conns w;
  lf_strs : w_strs w' = w_strs w;
  lf_oracle : w_oracle w' = w_oracle w;
  lf_loggers : w_loggers w' = w_loggers w;
  lf_trace : w_trace w' = w_trace w }.

#[export] Instance loop_frame_preorder : PreOrder loop_frame.
Proof. split; [by split|]. intros ??? [] []. split; congruence. Qed.

(** The answer of the [n]-th call from now. *)
Definition answer_at (n : Z) w : Z := sr_ret (w_oracle w (w_clock w + Z.to_nat n)%nat).

(** The descriptor it stands for, if it opens one. *)
Definition fd_at (n : Z) w : Z := if answer_at n w <? 0 then -1 else answer_at n w.

Lemma answer_at_shift n k w w' :
  0 ≤ n → w_oracle w' = w_oracle w → w_clock w' = (k + w_clock w)%nat →
  answer_at n w' = answer_at (n + Z.of_nat k) w.
Proof. intros Hn Ho Hc. unfold answer_at. rewrite Ho, Hc. do 2 f_equal. lia. Qed.

Lemma fd_at_shift n k w w' :
  0 ≤ n → w_oracle w' = w_oracle w → w_clock w' = (k + w_clock w)%nat →
  fd_at n w' = fd_at (n + Z.of_nat k) w.
Proof. intros Hn Ho Hc. unfold fd_at. by rewrite (answer_at_shift n k w w'). Qed.

(** A loop as its constructor leaves it. *)
Record new_loop (tid epfd evtfd : Z) (l : ptr) (x : EventLoop) : Prop := {
  nl_thread : threadId_ x = tid;
  nl_event : wakeupFd_ x = evtfd;
  nl_poller : epollfd_ <$> poller_ x = Some epfd;
  nl_idle : looping_ x = false ∧ quit_ x = false ∧ callingPendingFuntors_ x = false;
  nl_pending : pengdingFuntors_ x = [];
  nl_events : events_ (wakeupChannel_ x) = Channel.readEvent;
  nl_fd : fd_ (wakeupChannel_ x) = wakeupFd_ x;
  nl_read : readCallback_ (wakeupChannel_ x) = Some (CbLoopHandleRead l);
  nl_others : writeCallback_ (wakeupChannel_ x) = None ∧
    closeCallback_ (wakeupChannel_ x) = None ∧ errorCallback_ (wakeupChannel_ x) = None }.

(** Epoll watches for nothing it did not watch for, apart from the channels of
    [cps], each on the epoll instance given with it. *)
Definition watch_adds (cps : list (Z * chptr)) w w' : Prop :=
  ∀ ep fd ev q, interest (w_kernel w') ep fd = Some (ev, q) →
    interest (w_kernel w) ep fd = Some (ev, q) ∨ (ep, q) ∈ cps.

Lemma watch_adds_app cps1 cps2 w1 w2 w3 :
  watch_adds cps1 w1 w2 → watch_adds cps2 w2 w3 → watch_adds (cps1 ++ cps2) w1 w3.
Proof.
  intros A1 A2 ep fd ev q Hq. rewrite elem_of_app.
  destruct (A2 _ _ _ _ Hq) as [Hq'|]; [destruct (A1 _ _ _ _ Hq')|]; auto.
Qed.

Lemma open_fd_ok w :
  "asynclogger" ∈ w_loggers w →
  LoopObject.open_fd w = Ok (fd_at 0 w, set_w_clock (S (w_clock w)) w).
Proof.
  intros Hlog. unfold LoopObject.open_fd, bind, syscall, fd_at, answer_at, answer.
  change (Z.to_nat 0) with 0%nat. rewrite Nat.add_0_r.
  destruct (_ <? _); [|done].
  by rewrite (log_ok _ (set_w_clock (S (w_clock w)) w)) by done.
Qed.

(** A change of the events of a loop's own wakeup channel. *)
Lemma change_events_wakeup_ok f l x P w :
  w_loops w !! l = Some x → poller_ x = Some P → ch_loop_ (wakeupChannel_ x) = l →
  "asynclogger" ∈ w_loggers w →
  ∃ k' P' i, Channel.change_events f (ChWakeup l) w =
    Ok (tt, set_w_kernel k' (set_w_loops
      (<[l := set_wakeupChannel_
               (set_index_ i (set_events_ (f (events_ (wakeupChannel_ x))) (wakeupChannel_ x)))
               (set_poller_ (Some P') x)]> (w_loops w)) w)) ∧
    epollfd_ P' = epollfd_ P ∧ watch_adds [(epollfd_ P, ChWakeup l)] w (set_w_kernel k' w).
Proof.
  intros Hl HP Hch Hlog. unfold Channel.change_events.
  assert (Hc : chan_of w (ChWakeup l) = Some (wakeupChannel_ x)) by (cbn; by rewrite Hl).
  rewrite (bind_Ok _ _ _ _ _ (modify_channel_ok _ _ _ _ Hc)). cbn [put_chan].
  set (ch1 := set_events_ _ _). set (w1 := set_w_loops _ w).
  assert (Hl1 : w_loops w1 !! l = Some (set_wakeupChannel_ ch1 x))
    by (subst w1; wcbn; by rewrite lookup_alter_eq, Hl).
  assert (Hc1 : chan_of w1 (ChWakeup l) = Some ch1) by (cbn -[w1]; by rewrite Hl1).
  unfold Channel.update. rewrite (bind_Ok _ _ _ _ _ (load_channel_ok _ _ _ Hc1)).
  change (ch_loop_ ch1) with (ch_loop_ (wakeupChannel_ x)). rewrite Hch.
  unfold EventLoop.updateChannel, EventLoop.with_poller.
  rewrite (bind_Ok _ _ _ _ _ (load_loop_ok _ _ _ Hl1)).
  change (poller_ (set_wakeupChannel_ ch1 x)) with (poller_ x). rewrite HP.
  rewrite (bind_Ok _ _ _ _ _ (log_ok _ w1 Hlog)).
  rewrite (bind_Ok _ _ _ _ _ (load_channel_ok _ _ _ Hc1)).
  rewrite (bind_Ok _ _ _ _ _ (gets_ok _ _)).
  destruct (EpollPoller.updateChannel _ _ _ _) as [[ch' P'] k'] eqn:E.
  pose proof (updateChannel_watch _ _ _ _ _ _ _ E) as [HP' Hk]. apply updateChannel_shape in E.
  rewrite (bind_Ok _ _ _ _ _ (modify_loop_ok _ _ _ _ Hl1)). set (w2 := set_w_loops _ w1).
  assert (Hc2 : chan_of w2 (ChWakeup l) = Some ch1)
    by (cbn; by rewrite lookup_insert_eq).
  rewrite (bind_Ok _ _ _ _ _ (modify_channel_ok _ _ _ _ Hc2)). cbn [put_chan].
  exists k', P', (index_ ch'). split; [|split; [done|]].
  2:{ intros ep fd ev q Hq. rewrite list_elem_of_singleton.
      apply (Hk ep fd ev q) in Hq as [?|[-> ->]]; auto. }
  unfold modify. do 3 f_equal. subst w2 w1. wcbn.
  unfold set_w_loops; cbn. f_equal. rewrite E. apply map_eq. intros q.
  rewrite !lookup_alter, !lookup_insert, !lookup_alter. by repeat case_decide.
Qed.

Lemma ctor_ok l w :
  "asynclogger" ∈ w_loggers w →
  ∃ w' x, LoopObject.ctor false l w = Ok (tt, w') ∧
    w_loops w' = <[l := x]> (w_loops w) ∧ new_loop (w_tid w) (fd_at 0 w) (fd_at 1 w) l x ∧
    loop_frame w w' ∧ watch_adds [(fd_at 0 w, ChWakeup l)] w w' ∧
    w_server w' = w_server w ∧ w_clock w' = (w_clock w + 2)%nat ∧
    w_tls w' = match w_tls w !! w_tid w with
               | Some _ => w_tls w
               | None => <[w_tid w := l]> (w_tls w)
               end.
Proof.
  intros Hlog. unfold LoopObject.ctor, LoopObject.newDefaultPoller, LoopObject.createEventfd.
  rewrite (bind_Ok _ _ _ _ _ (gets_ok _ _)). cbv beta iota.
  rewrite bind_assoc, (bind_Ok _ _ _ _ _ (open_fd_ok w Hlog)). set (epfd := fd_at 0 w). rewrite (bind_Ok _ _ _ _ _ (ret_Ok _ _)).
  rewrite (bind_Ok _ _ _ _ _ (open_fd_ok (set_w_clock (S (w_clock w)) w) Hlog)).
  change (fd_at 1 w) with (fd_at (0 + Z.of_nat 1) w).
  rewrite <- (fd_at_shift 0 1 w (set_w_clock (S (w_clock w)) w)) by done.
  set (evtfd := fd_at 0 _). rewrite (bind_Ok _ _ _ _ _ (store_loop_ok _ _ _)).
  rewrite (bind_Ok _ _ _ _ _ (gets_ok _ _)). wcbn.
  set (x0 := mkEventLoop _ _ _ _ _ _ _ _ _ _).
  set (w3 := set_w_loops _ _).
  set (tls' := match w_tls w !! w_tid w with
               | Some _ => w_tls w | None => <[w_tid w := l]> (w_tls w) end).
  assert (E3 : (if decide (is_Some (w_tls w !! w_tid w)) then log "asynclogger"
     else modify (λ w0, set_w_tls (<[w_tid w := l]> (w_tls w0)) w0)) w3
     = Ok (tt, set_w_tls tls' w3)).
  { subst tls'. destruct (w_tls w !! w_tid w) as [p|] eqn:Et.
    - rewrite decide_True by done. rewrite (log_ok _ w3) by done. by subst w3.
    - rewrite decide_False by (by intros []). done. }
  rewrite (bind_Ok _ _ _ _ _ E3). set (w4 := set_w_tls _ _).
  assert (Hl4 : w_loops w4 !! l = Some x0) by apply lookup_insert_eq.
  assert (Hc4 : chan_of w4 (ChWakeup l) = Some (Channel.ctor l evtfd))
    by (cbn -[w4]; by rewrite Hl4).
  rewrite (bind_Ok _ _ _ _ _ (modify_channel_ok _ _ _ _ Hc4)).
  cbn [put_chan].
  set (ch1 := set_readCallback_ _ _). set (w5 := set_w_loops _ w4).
  assert (Hl5 : w_loops w5 !! l = Some (set_wakeupChannel_ ch1 x0))
    by (change (alter (set_wakeupChannel_ ch1) l (w_loops w4) !! l
          = Some (set_wakeupChannel_ ch1 x0)); by rewrite lookup_alter_eq, Hl4).
  destruct (change_events_wakeup_ok (λ e, Z.lor e Channel.readEvent) l
    (set_wakeupChannel_ ch1 x0) (EpollPoller.ctor l epfd) w5)
    as (k' & P' & i & E6 & HP' & Hw6); [done..|].
  unfold Channel.enableReading. rewrite E6. do 2 eexists. split; [done|]. split.
  { wcbn. subst w5 w4 w3. wcbn. apply map_eq. intros q.
    rewrite lookup_insert, lookup_alter, !lookup_insert.
    instantiate (1 := set_wakeupChannel_ (set_index_ i (set_events_ (Z.lor
      (events_ (wakeupChannel_ (set_wakeupChannel_ ch1 x0))) Channel.readEvent)
      (wakeupChannel_ (set_wakeupChannel_ ch1 x0))))
      (set_poller_ (Some P') (set_wakeupChannel_ ch1 x0))).
    by repeat case_decide. }
  split; [split; try done; cbn; by rewrite HP'|]. split; [by split|]. split; [exact Hw6|].
  split_and!; [done| |done]. wcbn. cbn. lia.
Qed.

(** An initialisation callback without effect on this state. *)
Definition init_harmless (cb : callback) : Prop :=
  ∀ c l w, cb = Some c → onThreadInit c l w = Ok (tt, w).

Lemma call_init_ok cb l w :
  init_harmless cb → EventLoopThread.call_init cb l w = Ok (tt, w).
Proof. intros Hcb. destruct cb as [c|]; [by apply Hcb|done]. Qed.

Lemma startLoop_ok cb w :
  "asynclogger" ∈ w_loggers w → init_harmless cb →
  let l := fresh_addr (w_loops w) in
  ∃ w' x, EventLoopThread.startLoop false cb w = Ok (l, w') ∧
    w_loops w' = <[l := x]> (w_loops w) ∧ new_loop (answer_at 0 w) (fd_at 1 w) (fd_at 2 w) l x ∧
    loop_frame w w' ∧ watch_adds [(fd_at 1 w, ChWakeup l)] w w' ∧
    w_server w' = w_server w ∧ w_clock w' = (w_clock w + 3)%nat.
Proof.
  intros Hlog Hcb l. unfold EventLoopThread.startLoop, EventLoopThread.threadFunc_init.
  rewrite (bind_Ok _ _ _ _ _ (syscall_ok w)), (bind_Ok _ _ _ _ _ (gets_ok _ _)).
  rewrite (bind_Ok _ _ _ _ _ (modify_ok _ _)). set (w1 := set_w_tid _ _).
  rewrite bind_assoc, (bind_Ok _ _ _ _ _ (gets_ok _ _)), bind_assoc.
  change (fresh_addr (w_loops w1)) with l.
  destruct (ctor_ok l w1 Hlog) as (w2 & x & E & Hl & Hx & [] & Hk & Hs & Hc & _).
  rewrite (bind_Ok _ _ _ _ _ E), bind_assoc.
  rewrite (bind_Ok _ _ _ _ _ (call_init_ok cb l w2 Hcb)), (bind_Ok _ _ _ _ _ (ret_Ok _ _)).
  rewrite (bind_Ok _ _ _ _ _ (modify_ok _ _)).
  exists (set_w_tid (w_tid w) w2), x. split_and!; try done.
  - replace (answer_at 0 w) with (w_tid w1) by (unfold answer_at; cbn; by rewrite Nat.add_0_r).
    change (new_loop (w_tid w1) (fd_at (0 + Z.of_nat 1) w) (fd_at (1 + Z.of_nat 1) w) l x).
    by rewrite <- (fd_at_shift 0 1 w w1), <- (fd_at_shift 1 1 w w1).
  - change (fd_at 1 w) with (fd_at (0 + Z.of_nat 1) w). by rewrite <- (fd_at_shift 0 1 w w1).
  - wcbn. rewrite Hc. subst w1. cbn. lia.
Qed.

Definition pool_of w : EventLoopThreadPool := threadPool_ (w_server w).
Definition with_pool (f : EventLoopThreadPool → EventLoopThreadPool) w : TcpServer :=
  set_threadPool_ (f (pool_of w)) (w_server w).

(** What [n] more threads add to the world: the loops [ls], in order. *)
Record spawned (n : nat) (ls : list ptr) w w' : Prop := {
  sp_length : length ls = n;
  sp_nodup : NoDup ls;
  sp_fresh l : l ∈ ls → w_loops w !! l = None;
  sp_old : w_loops w ⊆ w_loops w';
  sp_live i l : ls !! i = Some l →
    ∃ x, w_loops w' !! l = Some x ∧
      new_loop (answer_at (3 * Z.of_nat i) w) (fd_at (3 * Z.of_nat i + 1) w)
        (fd_at (3 * Z.of_nat i + 2) w) l x;
  sp_all l : is_Some (w_loops w' !! l) → is_Some (w_loops w !! l) ∨ l ∈ ls;
  sp_watch : watch_adds (imap (λ i l, (fd_at (3 * Z.of_nat i + 1) w, ChWakeup l)) ls) w w';
  sp_clock : w_clock w' = (w_clock w + 3 * n)%nat;
  sp_frame : loop_frame w w' }.

Definition thread_names (name : string) (i n : nat) : list string :=
  (λ k, name +:+ pretty (Z.of_nat k)) <$> seq i n.

(** One more thread before the others. *)
Lemma spawned_cons n ls l x w w3 w4 :
  w_loops w !! l = None → w_loops w3 = <[l := x]> (w_loops w) →
  new_loop (answer_at 0 w) (fd_at 1 w) (fd_at 2 w) l x → loop_frame w w3 →
  watch_adds [(fd_at 1 w, ChWakeup l)] w w3 → w_clock w3 = (3 + w_clock w)%nat →
  spawned n ls w3 w4 → spawned (S n) (l :: ls) w w4.
Proof.
  intros Hnew Hl3 Hx Hf3 Hk Hc3 [Hlen Hnd Hfr Hold Hlive Hall Hk4 Hc4 Hf4].
  assert (Ho3 : w_oracle w3 = w_oracle w) by apply Hf3. split.
  - cbn. by rewrite Hlen.
  - constructor; [|done]. intros Hin%Hfr. rewrite Hl3, lookup_insert_eq in Hin. done.
  - intros l' [->|Hin]%elem_of_cons; [apply Hnew|]. apply Hfr in Hin.
    rewrite Hl3, lookup_insert in Hin. by case_decide.
  - etrans; [|done]. rewrite Hl3. apply insert_subseteq, Hnew.
  - intros [|k] l' Hj; cbn in Hj.
    + injection Hj as <-. exists x. split; [|done].
      eapply lookup_weaken; [|done]. by rewrite Hl3, lookup_insert_eq.
    + destruct (Hlive _ _ Hj) as (y & Hy & Hny). exists y. split; [done|].
      rewrite (answer_at_shift _ 3 w w3), !(fd_at_shift _ 3 w w3) in Hny by (done || lia).
      replace (3 * Z.of_nat (S k)) with (3 * Z.of_nat k + Z.of_nat 3) by lia.
      by rewrite <- !Z.add_assoc, (Z.add_comm (Z.of_nat 3) 1), (Z.add_comm (Z.of_nat 3) 2), !Z.add_assoc.
  - intros l' Hl'. rewrite elem_of_cons. destruct (Hall _ Hl') as [Hs'|]; [|by auto].
    rewrite Hl3 in Hs'. destruct (decide (l' = l)) as [->|]; [by auto|].
    rewrite lookup_insert_ne in Hs' by done. auto.
  - intros ep fd ev q Hq. cbn [imap]. rewrite elem_of_cons.
    destruct (Hk4 _ _ _ _ Hq) as [Hq'|Hin].
    + destruct (Hk _ _ _ _ Hq') as [?| ->%list_elem_of_singleton]; auto.
    + right; right. apply elem_of_lookup_imap in Hin as (k & l' & [= -> ->] & Hl').
      apply elem_of_lookup_imap. exists k, l'. split; [|done].
      rewrite (fd_at_shift _ 3 w w3) by (done || lia). unfold compose. do 2 f_equal. lia.
  - rewrite Hc4, Hc3. lia.
  - by etrans.
Qed.

Lemma start_threads_ok cb n i w :
  "asynclogger" ∈ w_loggers w → init_harmless cb → length (threads_ (pool_of w)) = i →
  ∃ w' ls, mapM_ (EventLoopThreadPool.start_thread false cb) (seq i n) w = Ok (tt, w') ∧
    spawned n ls w w' ∧
    w_server w' = with_pool (λ q, set_loops_ (loops_ q ++ ls)
      (set_threads_ (threads_ q ++ thread_names (pool_name_ q) i n) q)) w.
Proof.
  revert i w. induction n as [|n IH]; intros i w Hlog Hcb Hi.
  - exists w, []. split; [done|]. split.
    + split; [done|apply NoDup_nil_2|by intros l ?%not_elem_of_nil|done|done|by left|by left|lia|done].
    + unfold with_pool, pool_of, thread_names.
      destruct (w_server w) as [???? [] ???????]; cbn. by rewrite !app_nil_r.
  - cbn [seq mapM_]. unfold EventLoopThreadPool.start_thread at 1.
    rewrite bind_assoc. unfold EventLoopThreadPool.get_pool.
    rewrite (bind_Ok _ _ _ _ _ (gets_ok _ _)), bind_assoc.
    change (threadPool_ (w_server w)) with (pool_of w).
    unfold EventLoopThreadPool.modify_pool at 1, modify_server at 1.
    rewrite (bind_Ok _ _ _ _ _ (modify_ok _ _)), bind_assoc. set (w1 := set_w_server _ _).
    rewrite decide_True by done. rewrite (bind_Ok _ _ _ _ _ (ret_Ok _ _)), bind_assoc.
    destruct (startLoop_ok cb w1 Hlog Hcb) as (w2 & x & E & Hl & Hx & Hf & Hk & Hs & Hc).
    change (w_loops w1) with (w_loops w) in *. set (l := fresh_addr (w_loops w)) in *.
    rewrite (bind_Ok _ _ _ _ _ E). unfold EventLoopThreadPool.modify_pool, modify_server.
    rewrite (bind_Ok _ _ _ _ _ (modify_ok _ _)). set (w3 := set_w_server _ _).
    assert (Hf3 : loop_frame w w3) by (destruct Hf; by split).
    assert (Hs3 : w_server w3 = with_pool (λ q, set_loops_ (loops_ q ++ [l])
        (set_threads_ (threads_ q ++ [pool_name_ q +:+ pretty (Z.of_nat i)]) q)) w).
    { unfold w3; wcbn. by rewrite Hs. }
    destruct (IH (S i) w3) as (w4 & ls & E4 & Hsp & Hs4); [|done|..].
    { by rewrite (lf_loggers _ _ Hf3). }
    { unfold pool_of. rewrite Hs3; cbn. rewrite length_app; cbn. lia. }
    exists w4, (l :: ls). split; [done|]. split.
    + eapply (spawned_cons n ls l x w w3); [apply fresh_addr_new|exact Hl|exact Hx|exact Hf3|exact Hk| |exact Hsp].
      change (w_clock w3) with (w_clock w2). rewrite Hc. apply Nat.add_comm.
    + rewrite Hs4. unfold with_pool, pool_of. rewrite Hs3. cbn.
      unfold thread_names. cbn [seq fmap list_fmap]. unfold set_threadPool_; cbn.
      unfold set_loops_, set_threads_; cbn. by rewrite <- !app_assoc.
Qed.

(** [start] of a fresh pool, with the server it leaves. *)
Lemma pool_start_ok cb w (n := Z.to_nat (numThreads_ (pool_of w))) :
  "asynclogger" ∈ w_loggers w → init_harmless cb →
  threads_ (pool_of w) = [] → loops_ (pool_of w) = [] →
  ∃ w' ls, EventLoopThreadPool.start false cb w = Ok (tt, w') ∧ spawned n ls w w' ∧
    w_server w' = with_pool (λ q, set_loops_ ls (set_threads_ (thread_names (pool_name_ q) 0 n)
      (set_pool_started_ true q))) w.
Proof.
  intros Hlog Hcb Ht Hls. unfold EventLoopThreadPool.start, EventLoopThreadPool.get_pool.
  unfold EventLoopThreadPool.modify_pool at 1, modify_server at 1.
  rewrite (bind_Ok _ _ _ _ _ (modify_ok _ _)), (bind_Ok _ _ _ _ _ (gets_ok _ _)).
  set (w1 := set_w_server _ _). change (threadPool_ (w_server w1)) with
    (set_pool_started_ true (pool_of w)). cbn [numThreads_ set_pool_started_]. fold n.
  destruct (start_threads_ok cb n 0 w1) as (w2 & ls & E & Hsp & Hs); [done..| |].
  { change (length (threads_ (pool_of w)) = 0%nat). by rewrite Ht. }
  rewrite (bind_Ok _ _ _ _ _ E). exists w2, ls. split_and!.
  - destruct (numThreads_ (pool_of w) =? 0); [|done]. by apply call_init_ok.
  - by destruct Hsp as [? ? ? ? ? ? ? ? []].
  - rewrite Hs. unfold with_pool, pool_of in *; cbn. unfold set_threadPool_; cbn. f_equal.
    unfold set_loops_, set_threads_, set_pool_started_; cbn. by rewrite Ht, Hls.
Qed.

(** [start] of a fresh pool of [n] threads succeeds whatever the kernel
    answers: it builds [n] distinct new loops, each with a poller, watching its
    eventfd and bound to the thread that built it, registers them in order, and
    leaves every existing loop as it was. *)
Theorem pool_start_spawns cb w :
  "asynclogger" ∈ w_loggers w → init_harmless cb →
  threads_ (pool_of w) = [] → loops_ (pool_of w) = [] →
  ∃ w' ls, EventLoopThreadPool.start false cb w = Ok (tt, w') ∧
    spawned (Z.to_nat (numThreads_ (pool_of w))) ls w w' ∧
    loops_ (pool_of w') = ls ∧ pool_started_ (pool_of w') = true ∧
    EventLoopThreadPool.getAllLoops (pool_of w') =
      (if decide (0 < numThreads_ (pool_of w)) then ls else [baseLoop_ (pool_of w)]) ∧
    threads_ (pool_of w') =
      thread_names (pool_name_ (pool_of w)) 0 (Z.to_nat (numThreads_ (pool_of w))).
Proof.
  intros Hlog Hcb Ht Hls. destruct (pool_start_ok cb w Hlog Hcb Ht Hls) as (w' & ls & E & Hsp & Hs).
  exists w', ls. split; [done|]. split; [done|].
  assert (Hp : pool_of w' = threadPool_ (w_server w')) by done. rewrite Hs in Hp. rewrite Hp.
  do 2 (split; [done|]). split; [|done]. unfold EventLoopThreadPool.getAllLoops; cbn.
  pose proof (sp_length _ _ _ _ Hsp) as Hlen. case_decide as Hn; destruct ls; cbn in Hlen; try done; lia.
Qed.

(** When the environment selects poll(2), which this library does not
    implement, no loop can be built: the constructor dereferences the null
    poller. *)
Theorem no_poll_support l w :
  "asynclogger" ∈ w_loggers w → LoopObject.ctor true l w = Fault NullDeref.
Proof.
  intros Hlog. unfold LoopObject.ctor, LoopObject.newDefaultPoller, LoopObject.createEventfd.
  rewrite (bind_Ok _ _ _ _ _ (gets_ok _ _)), (bind_Ok _ _ _ _ _ (ret_Ok _ _)).
  rewrite (bind_Ok _ _ _ _ _ (open_fd_ok w Hlog)), (bind_Ok _ _ _ _ _ (store_loop_ok _ _ _)).
  set (evtfd := fd_at 0 w).
  rewrite (bind_Ok _ _ _ _ _ (gets_ok _ _)). set (w2 := set_w_loops _ _).
  assert (Hany : ∀ w3, w_loops w3 = w_loops w2 →
    bind (modify_channel (ChWakeup l) (set_readCallback_ (Some (CbLoopHandleRead l))))
      (λ _, Channel.enableReading (ChWakeup l)) w3 = Fault NullDeref).
  { intros w3 Hw3. assert (Hl : w_loops w3 !! l = Some
        (mkEventLoop false false (w_tid w) 0 None evtfd (Channel.ctor l evtfd) [] false []))
      by (rewrite Hw3; apply lookup_insert_eq).
    assert (Hc : chan_of w3 (ChWakeup l) = Some (Channel.ctor l evtfd)) by (cbn; by rewrite Hl).
    rewrite (bind_Ok _ _ _ _ _ (modify_channel_ok _ _ _ _ Hc)).
    unfold Channel.enableReading, Channel.change_events.
    erewrite bind_Ok; [|eapply modify_channel_ok; cbn; by rewrite lookup_alter_eq, Hl].
    unfold Channel.update. erewrite bind_Ok;
      [|eapply load_channel_ok; cbn; by rewrite !lookup_alter_eq, Hl].
    unfold EventLoop.updateChannel, EventLoop.with_poller. cbn [ch_loop_].
    erewrite bind_Ok; [|apply load_loop_ok; cbn; by rewrite !lookup_alter_eq, Hl]. done. }
  case_decide as Ht.
  - rewrite (bind_Ok _ _ _ _ _ (log_ok _ w2 Hlog)). by apply Hany.
  - rewrite (bind_Ok _ _ _ _ _ (modify_ok _ _)). by apply Hany.
Qed.
End start.

Definition demo_fresh_pool : World RefKernel.t :=
  let w := demo_world (λ n, ret_only (Z.of_nat n + 20)) in
  set_w_server (set_threadPool_ (set_numThreads_ 2 (EventLoopThreadPool.ctor 1 "srv"))
    (w_server w)) w.

Section witnesses.
Local Instance demo_user : UserCode RefKernel.t := silent_user.

Lemma pool_start_spawns_witness :
  let w := demo_fresh_pool in
  ∃ w' ls, EventLoopThreadPool.start false (Some 4) w = Ok (tt, w') ∧
    spawned (Z.to_nat (numThreads_ (pool_of w))) ls w w' ∧
    loops_ (pool_of w') = ls ∧ pool_started_ (pool_of w') = true ∧
    EventLoopThreadPool.getAllLoops (pool_of w') =
      (if decide (0 < numThreads_ (pool_of w)) then ls else [baseLoop_ (pool_of w)]) ∧
    threads_ (pool_of w') =
      thread_names (pool_name_ (pool_of w)) 0 (Z.to_nat (numThreads_ (pool_of w))).
Proof.
  intros w. apply pool_start_spawns; [by vm_compute|by intros ????|done..].
Defined.
End witnesses.

Lemma no_poll_support_witness :
  LoopObject.ctor true 2 demo_fresh_pool = Fault NullDeref.
Proof. apply no_poll_support. by vm_compute. Defined.
