(* ===== verification/Server.v ===== *)
(** * The server (src/Socket.cpp, src/Acceptor.cpp, src/TcpServer.cpp)

    The acceptor and the server are the fields of [w_server].  A connection is
    kept alive by the server's map and by the queued calls that hold a
    [shared_ptr] to it; [release] destroys it when none is left.  User code is
    taken to keep no [shared_ptr] of its own. *)

From stdpp Require Import base tactics numbers list gmap strings pretty.
From Stdlib Require Import ZArith Lia.
From S2P Require Import Prelude NetBuffer Kernel World Poller Demo Loop Channels Connection.
From S2P Require Import ConnFacts Inet LoopPool.

Local Open Scope string_scope.
Local Open Scope list_scope.
Local Open Scope Z_scope.
Local Open Scope prog_scope.

(** ** Sockets *)
Module Socket.
Section ops.
Context {K : Type}.
Local Abbreviation M := (M (World K)).

(** The options as (level, name) in one number. *)
Definition SO_REUSEADDR : Z := 1 * 65536 + 2.
Definition SO_KEEPALIVE : Z := 1 * 65536 + 9.
Definition SO_REUSEPORT : Z := 1 * 65536 + 15.
Definition TCP_NODELAY : Z := 6 * 65536 + 1.

Definition dtor (fd : Z) : M unit := emit (EvClose fd).

Definition bindAddress (fd : Z) (localAddr : InetAddress) : M unit :=
  let! r := syscall in
  if negb (sr_ret r =? 0) then log "asynclogger" else emit (EvBind fd localAddr).

Definition Listen (fd : Z) : M unit :=
  let! r := syscall in
  if negb (sr_ret r =? 0) then log "asynclogger" else emit (EvListen fd).

(** [accept4]; [client] was zeroed. [client_len] was not initialised: what the
    call makes of it is among the kernel's arbitrary answers. The result is the descriptor, -1 on
    failure, and the address [peerAddr] holds afterwards. *)
Definition Accept (fd : Z) (peerAddr : InetAddress) : M (Z * InetAddress) :=
  let! r := syscall in
  if sr_ret r <? 0 then ret (-1, peerAddr) else ret (sr_ret r, sr_addr r).

(** The result of [setsockopt] is ignored. *)
Definition setsockopt (fd opt : Z) (on : bool) : M unit :=
  let optval := if on then 1 else 0 in
  let! r := syscall in
  when (0 <=? sr_ret r) (emit (EvSockopt fd opt optval)).

Definition setTcpNoDelay (fd : Z) (on : bool) : M unit := setsockopt fd TCP_NODELAY on.
Definition setReuseAddr (fd : Z) (on : bool) : M unit := setsockopt fd SO_REUSEADDR on.
Definition setReusePort (fd : Z) (on : bool) : M unit := setsockopt fd SO_REUSEPORT on.
Definition setKeepAlive (fd : Z) (on : bool) : M unit := setsockopt fd SO_KEEPALIVE on.
End ops.
End Socket.

(** ** The acceptor *)
Module Acceptor.
Section ops.
Context {K : Type} `{Kernel K} `{InetLib}.
Local Abbreviation M := (M (World K)).

Definition createNonblocking : M Z := LoopObject.open_fd.

(** [reuseport] is not used. *)
Definition ctor (loop : ptr) (listenAddr : InetAddress) (reuseport : bool) : M Acceptor :=
  let! fd := createNonblocking in
  Socket.setReuseAddr fd true ;;!
  Socket.setReusePort fd true ;;!
  Socket.bindAddress fd listenAddr ;;!
  ret (mkAcceptor loop fd
         (set_readCallback_ (Some CbAcceptorHandleRead) (Channel.ctor loop fd)) false false).

Definition setNewConnectionCallback : Acceptor → Acceptor := set_NewConnectionCallback_ true.

Definition modify_acceptor (f : Acceptor → Acceptor) : M unit :=
  modify_server (λ s, set_acceptor_ (f (acceptor_ s)) s).

Definition dtor : M unit :=
  Channel.disbaleAll ChAccept ;;!
  Channel.remove ChAccept ;;!
  let! s := gets w_server in
  Socket.dtor (acceptSocket_ (acceptor_ s)).

Definition listen : M unit :=
  modify_acceptor (set_listenning_ true) ;;!
  let! s := gets w_server in
  Socket.Listen (acceptSocket_ (acceptor_ s)) ;;!
  Channel.enableReading ChAccept.

(** [newConnection] is the call of [NewConnectionCallback_]. *)
Definition handleRead (newConnection : Z → InetAddress → M unit) : M unit :=
  let! s := gets w_server in
  let! r := Socket.Accept (acceptSocket_ (acceptor_ s)) (InetAddress.ctor 0 "127.0.0.1") in
  let connfd := r.1 in
  if 0 <=? connfd then
    if NewConnectionCallback_ (acceptor_ s) then newConnection connfd r.2
    else emit (EvClose connfd)
  else log "asynclogger".
End ops.
End Acceptor.

(** ** Lifetime of connections *)
Module Lifetime.
(** The connection a queued call keeps alive ([shared_from_this()], or a bound
    [TcpConnectionPtr]); [FSendInLoop] and [FShutdownInLoop] hold a raw [this]. *)
Definition functor_conn (f : Functor) : option ptr :=
  match f with
  | FSendFileInLoop p _ _ _ | FConnectEstablished p | FConnectDestroyed p
  | FWriteComplete _ p | FHighWaterMark _ p _ | FRemoveConnectionInLoop p => Some p
  | FSendInLoop _ _ _ | FShutdownInLoop _ | FListen | FUser _ => None
  end.

Section ops.
Context {K : Type}.
Local Abbreviation M := (M (World K)).

Definition in_map (p : ptr) (w : World K) : bool :=
  existsb (λ e, e.2 =? p) (map_to_list (connections_ (w_server w))).
Definition in_queue (p : ptr) (w : World K) : bool :=
  existsb (λ e, bool_decide (p ∈ omap functor_conn (pengdingFuntors_ e.2)))
    (map_to_list (w_loops w)).
Definition held (p : ptr) (w : World K) : bool := in_map p w || in_queue p w.

(** [TcpConnection::~TcpConnection]; the [Socket] it owns closes. *)
Definition destroy (p : ptr) : M unit :=
  let! c := load_conn p in
  log "asynclogger" ;;!
  Socket.dtor (socket_ c) ;;!
  modify (λ w, set_w_conns (delete p (w_conns w)) w).

(** A [shared_ptr] to [p] goes away. *)
Definition release (p : ptr) : M unit :=
  let! h := gets (λ w, held p w || bool_decide (w_conns w !! p = None)) in
  when (negb h) (destroy p).

Definition drop_functors (fs : list Functor) : M unit := mapM_ release (omap functor_conn fs).
End ops.
End Lifetime.

(** ** The server *)
Module TcpServer.
Inductive Option := kNoReusePort | KReusePort.

Section ops.
Context {K : Type} `{Kernel K} `{InetLib} `{UserCode K}.
Context (use_poll : bool).
Local Abbreviation M := (M (World K)).

Definition CheckLoopNotNull (loop : ptr) : M ptr :=
  when (loop =? 0) (log "asynclogger") ;;! ret loop.

Definition ctor (loop : ptr) (listenAddr : InetAddress) (nameArg : string) (option : Option)
    : M unit :=
  let! loop_ := CheckLoopNotNull loop in
  let! ipPort := lift (InetAddress.toIpPort listenAddr) in
  let! acc := Acceptor.ctor loop listenAddr
                (match option with KReusePort => true | kNoReusePort => false end) in
  let s := mkTcpServer loop_ ipPort nameArg acc (EventLoopThreadPool.ctor loop nameArg)
             None None None None 0 1 ∅ in
  modify (set_w_server (set_acceptor_ (Acceptor.setNewConnectionCallback acc) s)).

Definition setThreadInitCallback (cb : callback) : M unit :=
  modify_server (set_threadInitCallback_ cb).
Definition setConnectionCallback (cb : callback) : M unit :=
  modify_server (set_srv_connectionCallback_ cb).
Definition setMessageCallback (cb : callback) : M unit :=
  modify_server (set_srv_messageCallback_ cb).
Definition setWriteCompleteCallbakc (cb : callback) : M unit :=
  modify_server (set_srv_writeCompleteCallback_ cb).

Definition setThreadNum (numThreads : Z) : M unit :=
  EventLoopThreadPool.modify_pool (EventLoopThreadPool.setThreadNum numThreads).

(** [started_.fetch_add(1)] on an atomic [int] wraps around. *)
Definition start : M unit :=
  let! s := gets w_server in
  modify_server (set_started_ (int32 (started_ s + 1))) ;;!
  when (started_ s =? 0) (
    EventLoopThreadPool.start use_poll (threadInitCallback_ s) ;;!
    EventLoop.runInLoop (srv_loop_ s) FListen Acceptor.listen).

(** [nextConnId_++] on an [int]. *)
Definition next_id : M Z :=
  let! s := gets w_server in
  if nextConnId_ s =? INT_MAX then throw SignedOverflow
  else modify_server (set_nextConnId_ (nextConnId_ s + 1)) ;;! ret (nextConnId_ s).

Definition conn_name (s : TcpServer) (id : Z) : string :=
  srv_name_ s +:+ "-" +:+ ipPort_ s +:+ pretty id.

(** [new TcpConnection(...)]: the object and what its constructor does. *)
Definition new_TcpConnection (ioLoop : ptr) (connName : string) (sockfd : Z)
    (localAddr peerAddr : InetAddress) : M ptr :=
  let! p := gets (λ w, fresh_addr (w_conns w)) in
  let! loop_ := CheckLoopNotNull ioLoop in
  store_conn p (TcpConnection.ctor p loop_ connName sockfd localAddr peerAddr) ;;!
  log "asynclogger" ;;!
  Socket.setKeepAlive sockfd true ;;!
  ret p.

(** The part of [newConnection] after the name is chosen. The name is not in
    the map yet (theorem [newConnection_registers]), so
    [connections_[connName] = conn] replaces nothing. *)
Definition register_connection (ioLoop : ptr) (connName : string) (sockfd : Z)
    (peerAddr : InetAddress) : M unit :=
  log "asynclogger" ;;!
  let! _ := lift (InetAddress.toIpPort peerAddr) in
  let! local := syscall in
  when (sr_ret local <? 0) (log "asyclogger") ;;!
  let localAddr := if sr_ret local <? 0 then mkInetAddress 0 0 0 else sr_addr local in
  let! p := new_TcpConnection ioLoop connName sockfd localAddr peerAddr in
  modify_server (λ s, set_connections_ (<[connName := p]> (connections_ s)) s) ;;!
  let! s := gets w_server in
  modify_conn p (TcpConnection.setConnectionCallback (srv_connectionCallback_ s)) ;;!
  modify_conn p (TcpConnection.setMessageCallback (srv_messageCallback_ s)) ;;!
  modify_conn p (TcpConnection.setWriteCompleteCallback (srv_writeCompleteCallback_ s)) ;;!
  modify_conn p TcpConnection.setCloseCallback ;;!
  EventLoop.runInLoop ioLoop (FConnectEstablished p) (TcpConnection.connectEstablished p).

Definition newConnection (sockfd : Z) (peerAddr : InetAddress) : M unit :=
  let! s := gets w_server in
  let! r := lift (EventLoopThreadPool.getNextLoop (threadPool_ s)) in
  modify_server (set_threadPool_ r.2) ;;!
  let! id := next_id in
  register_connection r.1 (conn_name s id) sockfd peerAddr.

Definition removeConnectionInLoop (p : ptr) : M unit :=
  log "asynclogger" ;;!
  let! c := load_conn p in
  modify_server (λ s, set_connections_ (delete (name_ c) (connections_ s)) s) ;;!
  EventLoop.queueInLoop (conn_loop_ c) (FConnectDestroyed p).

Definition removeConnection (p : ptr) : M unit :=
  let! s := gets w_server in
  EventLoop.runInLoop (srv_loop_ s) (FRemoveConnectionInLoop p) (removeConnectionInLoop p).

(** The destructor's body; [items] lists the map in its iteration order, and
    address 0 is the null [shared_ptr] that [reset] leaves. The destructors of
    the members follow: [Shutdown.members_dtor] goes through them. *)
Definition dtor (items : list (string * ptr)) : M unit :=
  mapM_ (λ item,
    let! c := load_conn item.2 in
    modify_server (λ s, set_connections_ (<[item.1 := 0]> (connections_ s)) s) ;;!
    EventLoop.runInLoop (conn_loop_ c) (FConnectDestroyed item.2)
      (TcpConnection.connectDestroyed item.2) ;;!
    Lifetime.release item.2) items.
End ops.
End TcpServer.
