(* ===== verification/ServerFacts.v ===== *)
(** * The server's registry of connections (src/TcpServer.cpp)

    The invariant of [connections_] and of the connection counter, what
    accepting and removing a connection do to it, and [start]. *)

From stdpp Require Import base tactics numbers list gmap strings pretty.
From Stdlib Require Import ZArith Lia.
From S2P Require Import Prelude NetBuffer Kernel World Poller Demo Loop Channels Connection.
From S2P Require Import ConnFacts Inet LoopPool Server.

Local Open Scope string_scope.
Local Open Scope list_scope.
Local Open Scope Z_scope.

Section registry.
Context {K : Type} `{KernelOk K} `{InetLibOk} `{UserCode K}.
Implicit Types w : World K.

(** The map has live connections only, each under its own name, and the names
    come from the counter. *)
Record server_inv w : Prop := {
  si_live n p : connections_ (w_server w) !! n = Some p →
    ∃ c, w_conns w !! p = Some c ∧ name_ c = n;
  si_names n p : connections_ (w_server w) !! n = Some p →
    ∃ id, 1 ≤ id < nextConnId_ (w_server w) ∧ n = TcpServer.conn_name (w_server w) id;
  si_id : 1 ≤ nextConnId_ (w_server w);
  si_pool : loops_ (pool_of w) = [] ∨ pool_ok (pool_of w) }.

Lemma conn_name_inj s i j : TcpServer.conn_name s i = TcpServer.conn_name s j → i = j.
Proof. unfold TcpServer.conn_name. intros E. by simplify_eq. Qed.

Lemma next_name_free w :
  server_inv w →
  connections_ (w_server w) !! TcpServer.conn_name (w_server w) (nextConnId_ (w_server w)) = None.
Proof.
  intros Hi. destruct (connections_ _ !! _) as [p|] eqn:E; [|done].
  destruct (si_names _ Hi _ _ E) as (id & ? & ?%conn_name_inj). lia.
Qed.

(** The loop whose turn it is, and the pool when its turn is over: the loop at
    [next_], which moves on cyclically, or the base loop when there are no
    others. *)
Definition takes_turn (pool : EventLoopThreadPool) (l : ptr) (pool' : EventLoopThreadPool) : Prop :=
  match loops_ pool with
  | [] => l = baseLoop_ pool ∧ pool' = pool
  | ls => ls !! Z.to_nat (next_ pool) = Some l ∧ pool' = set_next_ ((next_ pool + 1) mod zlen ls) pool
  end.

Lemma getNextLoop_in_pool pool :
  loops_ pool = [] ∨ pool_ok pool →
  ∃ l pool', EventLoopThreadPool.getNextLoop pool = Ok (l, pool') ∧ takes_turn pool l pool' ∧
    l ∈ EventLoopThreadPool.getAllLoops pool ∧ (loops_ pool' = [] ∨ pool_ok pool') ∧
    pool' = set_next_ (next_ pool') pool.
Proof.
  intros [Hnil|Hok].
  - exists (baseLoop_ pool), pool. unfold EventLoopThreadPool.getNextLoop,
      EventLoopThreadPool.getAllLoops. rewrite Hnil.
    split_and!; [done|unfold takes_turn; by rewrite Hnil|set_solver|by left|by destruct pool].
  - destruct (getNextLoop_ok _ Hok) as (l & -> & Hl). pose proof Hok as [Hne Hn].
    exists l. eexists. split; [done|]. split_and!.
    + unfold takes_turn. by destruct (loops_ pool) as [|l0 ls] eqn:E.
    + unfold EventLoopThreadPool.getAllLoops. apply list_elem_of_lookup_2 in Hl.
      by destruct (loops_ pool).
    + right. split; [done|]. cbn. apply Z.mod_pos_bound. lia.
    + by destruct pool.
Qed.

(** The server after [next_id] and [getNextLoop]. *)
Definition next_server (s : TcpServer) (pool : EventLoopThreadPool) : TcpServer :=
  set_nextConnId_ (nextConnId_ s + 1) (set_threadPool_ pool s).

(** The new connection, as [newConnection] sets it up. *)
Definition accepted (s : TcpServer) (p ioLoop : ptr) (sockfd : Z)
    (localAddr peerAddr : InetAddress) : TcpConnection :=
  set_conn_closeCallback_ true
    (set_writeCompleteCallback_ (srv_writeCompleteCallback_ s)
      (set_messageCallback_ (srv_messageCallback_ s)
        (set_connectionCallback_ (srv_connectionCallback_ s)
          (TcpConnection.ctor p ioLoop (TcpServer.conn_name s (nextConnId_ s)) sockfd
             localAddr peerAddr)))).

Lemma setsockopt_ok fd opt on w :
  ∃ t, Socket.setsockopt fd opt on w = Ok (tt, set_w_trace t (tick w)).
Proof.
  unfold Socket.setsockopt. rewrite (bind_Ok _ _ _ _ _ (syscall_ok w)).
  destruct (0 <=? _); cbn [when]; [by eexists|].
  exists (w_trace w). by destruct w.
Qed.

Lemma new_TcpConnection_ok ioLoop name fd la pa w (p := fresh_addr (w_conns w)) :
  "asynclogger" ∈ w_loggers w →
  ∃ t, TcpServer.new_TcpConnection ioLoop name fd la pa w =
    Ok (p, set_w_trace t (tick (set_w_conns
      (<[p := TcpConnection.ctor p ioLoop name fd la pa]> (w_conns w)) w))).
Proof.
  intros Hlog. unfold TcpServer.new_TcpConnection, TcpServer.CheckLoopNotNull.
  rewrite (bind_Ok _ _ _ _ _ (gets_ok _ _)), bind_assoc.
  rewrite (bind_Ok _ _ _ _ _ (when_log_ok _ w Hlog)), (bind_Ok _ _ _ _ _ (ret_Ok _ _)).
  rewrite (bind_Ok _ _ _ _ _ (store_conn_ok _ _ _)). fold p. set (w1 := set_w_conns _ w).
  rewrite (bind_Ok _ _ _ _ _ (log_ok _ w1 Hlog)). unfold Socket.setKeepAlive.
  destruct (setsockopt_ok fd Socket.SO_KEEPALIVE true w1) as [t E].
  rewrite (bind_Ok _ _ _ _ _ E). by exists t.
Qed.

(** A member of a connection just stored. *)
Lemma modify_conn_insert p f c m w :
  w_conns w = <[p := c]> m →
  modify_conn p f w = Ok (tt, set_w_conns (<[p := f c]> m) w).
Proof.
  intros E. rewrite (modify_conn_ok _ _ c) by (rewrite E; apply lookup_insert_eq).
  by rewrite E, insert_insert_eq.
Qed.

(** The registry invariant after a registration. *)
Lemma server_inv_register w w1 p c pool' :
  let s := w_server w in server_inv w → w_conns w !! p = None → loops_ pool' = [] ∨ pool_ok pool' →
  w_server w1 = set_connections_ (<[TcpServer.conn_name s (nextConnId_ s) := p]> (connections_ s))
                  (next_server s pool') →
  w_conns w1 = <[p := c]> (w_conns w) → name_ c = TcpServer.conn_name s (nextConnId_ s) →
  server_inv w1.
Proof.
  intros s Hi Hp Hpool Es Ec Hname. subst s. pose proof (si_id _ Hi).
  split; unfold pool_of; rewrite ?Es, ?Ec; cbn; [| |lia|done].
  - intros n q. rewrite lookup_insert. case_decide as E.
    + intros [= <-]. exists c. by rewrite lookup_insert_eq, <- E.
    + intros Hq. destruct (si_live _ Hi _ _ Hq) as (cq & Hcq & Hn). exists cq.
      rewrite lookup_insert_ne by congruence. done.
  - intros n q. rewrite lookup_insert. case_decide as E.
    + intros [= <-]. exists (nextConnId_ (w_server w)). split; [lia|done].
    + intros Hq. destruct (si_names _ Hi _ _ Hq) as (id & Hb & ->). exists id.
      split; [lia|done].
Qed.

(** [newConnection] up to the choice of the name. *)
Lemma newConnection_next sockfd peerAddr w (s := w_server w) :
  server_inv w →
  ∃ ioLoop pool', takes_turn (pool_of w) ioLoop pool' ∧
    ioLoop ∈ EventLoopThreadPool.getAllLoops (pool_of w) ∧
    (loops_ pool' = [] ∨ pool_ok pool') ∧ pool' = set_next_ (next_ pool') (pool_of w) ∧
    TcpServer.newConnection sockfd peerAddr w =
      if nextConnId_ s =? INT_MAX then Fault SignedOverflow
      else TcpServer.register_connection ioLoop (TcpServer.conn_name s (nextConnId_ s))
             sockfd peerAddr (set_w_server (next_server s pool') w).
Proof.
  intros Hi.
  destruct (getNextLoop_in_pool (pool_of w) (si_pool _ Hi)) as (ioLoop & pool' & En & Htn & Hin & Hp' & Epool).
  exists ioLoop, pool'. do 4 (split; [done|]).
  unfold TcpServer.newConnection. rewrite (bind_Ok _ _ _ _ _ (gets_ok _ _)).
  change (threadPool_ (w_server w)) with (pool_of w). rewrite En. cbn [lift].
  rewrite (bind_Ok _ _ w (ioLoop, pool') w) by done. cbn [fst snd].
  unfold TcpServer.next_id, modify_server. rewrite (bind_Ok _ _ _ _ _ (modify_ok _ _)).
  rewrite bind_assoc, (bind_Ok _ _ _ _ _ (gets_ok _ _)). wcbn. fold s.
  change (nextConnId_ (set_threadPool_ pool' s)) with (nextConnId_ s).
  by destruct (nextConnId_ s =? INT_MAX).
Qed.

(** What [register_connection] does first, on a world with the logger. *)
Lemma register_getsockname ioLoop name sockfd peerAddr w :
  "asynclogger" ∈ w_loggers w → valid_addr peerAddr → sr_ret (answer w) < 0 →
  "asyclogger" ∉ w_loggers w →
  TcpServer.register_connection ioLoop name sockfd peerAddr w = Fault NullDeref.
Proof.
  intros Hlog Hpeer Hans Hno. unfold TcpServer.register_connection.
  rewrite (bind_Ok _ _ _ _ _ (log_ok _ w Hlog)).
  destruct (inet_address_text _ Hpeer) as [str Hstr]. rewrite Hstr. cbn [lift].
  rewrite (bind_Ok _ _ w str w), (bind_Ok _ _ _ _ _ (syscall_ok _)) by done.
  rewrite (proj2 (Z.ltb_lt _ _)) by done. cbn [when].
  rewrite (bind_Fault _ _ _ NullDeref); [done|]. unfold log. by rewrite decide_False.
Qed.

(** The address [newConnection] takes for the local one. *)
Definition local_addr w : InetAddress :=
  if sr_ret (answer w) <? 0 then mkInetAddress 0 0 0 else sr_addr (answer w).

(** [register_connection] up to the call that establishes the connection. *)
Lemma register_connection_ok ioLoop sockfd peerAddr w pool'
    (s := w_server w) (p := fresh_addr (w_conns w)) (name := TcpServer.conn_name s (nextConnId_ s)) :
  "asynclogger" ∈ w_loggers w → valid_addr peerAddr →
  (0 ≤ sr_ret (answer w) ∨ "asyclogger" ∈ w_loggers w) →
  ∃ w1, TcpServer.register_connection ioLoop name sockfd peerAddr
          (set_w_server (next_server s pool') w) =
        EventLoop.runInLoop ioLoop (FConnectEstablished p) (TcpConnection.connectEstablished p) w1 ∧
    w_server w1 = set_connections_ (<[name := p]> (connections_ s)) (next_server s pool') ∧
    w_conns w1 = <[p := accepted s p ioLoop sockfd (local_addr w) peerAddr]> (w_conns w) ∧
    w_loops w1 = w_loops w ∧ w_kernel w1 = w_kernel w ∧ w_tid w1 = w_tid w ∧
    w_loggers w1 = w_loggers w ∧ w_oracle w1 = w_oracle w.
Proof.
  intros Hlog Hpeer Hans. unfold TcpServer.register_connection. set (w1 := set_w_server _ _).
  rewrite (bind_Ok _ _ _ _ _ (log_ok _ w1 Hlog)).
  destruct (inet_address_text _ Hpeer) as [str Hstr]. rewrite Hstr. cbn [lift].
  rewrite (bind_Ok _ _ w1 str w1), (bind_Ok _ _ _ _ _ (syscall_ok _)) by done.
  change (answer w1) with (answer w). fold (local_addr w).
  assert (Ew : when (sr_ret (answer w) <? 0) (log "asyclogger") (tick w1) = Ok (tt, tick w1)).
  { destruct (Z.ltb_spec (sr_ret (answer w)) 0); [|done]. apply log_ok.
    destruct Hans; [lia|done]. }
  rewrite (bind_Ok _ _ _ _ _ Ew). clear Ew.
  destruct (new_TcpConnection_ok ioLoop name sockfd (local_addr w) peerAddr (tick w1) Hlog) as [t Ec].
  rewrite (bind_Ok _ _ _ _ _ Ec). change (w_conns (tick w1)) with (w_conns w) in *. fold p.
  unfold modify_server. rewrite (bind_Ok _ _ _ _ _ (modify_ok _ _)).
  rewrite (bind_Ok _ _ _ _ _ (gets_ok _ _)).
  do 4 (erewrite bind_Ok; [|eapply (modify_conn_insert p _ _ (w_conns w)); reflexivity]).
  eexists. split; [done|]. by split_and!.
Qed.

(** C12: a new connection gets a name no other connection in the map has, the
    loop of the pool whose turn it is (and [next_] moves on, cyclically) and the
    server's callbacks, and is registered under its name before its loop is told
    to establish it; nothing else of the server changes, and the registry
    invariant holds again at that point. *)
Theorem newConnection_registers sockfd peerAddr w (s := w_server w) :
  server_inv w → nextConnId_ s < INT_MAX → "asynclogger" ∈ w_loggers w →
  valid_addr peerAddr → 0 ≤ sr_ret (answer w) →
  ∃ ioLoop pool' w1 p,
    TcpServer.newConnection sockfd peerAddr w =
      EventLoop.runInLoop ioLoop (FConnectEstablished p)
        (TcpConnection.connectEstablished p) w1 ∧
    takes_turn (pool_of w) ioLoop pool' ∧
    ioLoop ∈ EventLoopThreadPool.getAllLoops (pool_of w) ∧
    server_inv w1 ∧
    connections_ s !! TcpServer.conn_name s (nextConnId_ s) = None ∧
    w_server w1 = set_connections_ (<[TcpServer.conn_name s (nextConnId_ s) := p]> (connections_ s))
      (set_nextConnId_ (nextConnId_ s + 1) (set_threadPool_ pool' s)) ∧
    w_conns w !! p = None ∧
    w_conns w1 = <[p := accepted s p ioLoop sockfd (sr_addr (answer w)) peerAddr]> (w_conns w) ∧
    w_loops w1 = w_loops w ∧ w_kernel w1 = w_kernel w ∧ w_tid w1 = w_tid w ∧
    w_loggers w1 = w_loggers w.
Proof.
  intros Hi Hid Hlog Hpeer Hans. pose proof (next_name_free _ Hi) as Hfree. fold s in Hfree.
  destruct (newConnection_next sockfd peerAddr w Hi) as (ioLoop & pool' & Htn & Hin & Hp' & _ & E).
  rewrite E. fold s. rewrite (proj2 (Z.eqb_neq _ _)) by lia.
  destruct (register_connection_ok ioLoop sockfd peerAddr w pool' Hlog Hpeer) as
    (w1 & E1 & Es & Ec & El & Ek & Et & Eg & _); [by left|]. fold s in Es, Ec.
  assert (Ea : local_addr w = sr_addr (answer w))
    by (unfold local_addr; by rewrite (proj2 (Z.ltb_ge _ _))).
  rewrite Ea in Ec. set (p := fresh_addr (w_conns w)) in *.
  exists ioLoop, pool', w1, p. split; [exact E1|]. split; [done|]. split; [done|]. split.
  { eapply (server_inv_register w w1 p _ pool' Hi); try done; apply fresh_addr_new. }
  split_and!; try done. apply fresh_addr_new.
Qed.

(** How accepting fails. At the largest [int] the connection counter
    overflows; and when [getsockname] fails, the error branch asks for a logger
    named "asyclogger", which nobody registers, and dereferences null. *)
Theorem newConnection_failures sockfd peerAddr w (s := w_server w) :
  server_inv w → "asynclogger" ∈ w_loggers w → valid_addr peerAddr →
  (nextConnId_ s = INT_MAX → TcpServer.newConnection sockfd peerAddr w = Fault SignedOverflow) ∧
  (nextConnId_ s < INT_MAX → sr_ret (answer w) < 0 → "asyclogger" ∉ w_loggers w →
     TcpServer.newConnection sockfd peerAddr w = Fault NullDeref).
Proof.
  intros Hi Hlog Hpeer.
  destruct (newConnection_next sockfd peerAddr w Hi) as (ioLoop & pool' & _ & _ & _ & _ & ->). fold s.
  split; [intros ->; by rewrite Z.eqb_refl|]. intros Hid Hans Hno.
  rewrite (proj2 (Z.eqb_neq _ _)) by lia. by apply register_getsockname.
Qed.

(** Removing a connection takes exactly its entry out of the map, keeps
    the registry invariant, and leaves the connection alive until the queued
    [connectDestroyed], which is the last task of its loop, has run. *)
Theorem removeConnectionInLoop_unregisters p c x w :
  server_inv w → "asynclogger" ∈ w_loggers w →
  w_conns w !! p = Some c → w_loops w !! conn_loop_ c = Some x →
  ∃ w', TcpServer.removeConnectionInLoop p w = Ok (tt, w') ∧ server_inv w' ∧
    connections_ (w_server w') = delete (name_ c) (connections_ (w_server w)) ∧
    Lifetime.in_map p w' = false ∧ Lifetime.held p w' = true ∧
    w_conns w' = w_conns w ∧ w_trace w' = w_trace w ∧
    w_loops w' = <[conn_loop_ c := EventLoop.push_functor (FConnectDestroyed p) x]> (w_loops w).
Proof.
  intros Hi Hlog Hc Hx. unfold TcpServer.removeConnectionInLoop.
  rewrite (bind_Ok _ _ _ _ _ (log_ok _ _ Hlog)), (bind_Ok _ _ _ _ _ (load_conn_ok _ _ _ Hc)).
  unfold modify_server. rewrite (bind_Ok _ _ _ _ _ (modify_ok _ _)). set (w1 := set_w_server _ _).
  destruct (queue_ok (conn_loop_ c) (FConnectDestroyed p) x w1 p Hx Hlog)
    as (w2 & E & Hf & Hcs & Ht & _ & Hl & _).
  exists w2. split; [done|]. pose proof (cf_server _ _ _ Hf) as Hs.
  assert (Hmap : connections_ (w_server w2) = delete (name_ c) (connections_ (w_server w)))
    by by rewrite Hs.
  assert (Hinmap : Lifetime.in_map p w2 = false).
  { apply not_true_iff_false. intros Ht2. unfold Lifetime.in_map in Ht2. rewrite Hmap in Ht2.
    apply existsb_exists in Ht2 as ([n q] & Hin & Hq). cbn in Hq. apply Z.eqb_eq in Hq as ->.
    apply list_elem_of_In, elem_of_map_to_list, lookup_delete_Some in Hin as [Hne Hn].
    destruct (si_live _ Hi _ _ Hn) as (c' & Hc' & Hn'). simplify_eq. }
  split_and!; try done.
  - split; unfold pool_of; rewrite ?Hs, ?Hcs; cbn; [| |apply Hi..].
    + intros n q Hq. apply lookup_delete_Some in Hq as [_ Hq]. by apply (si_live _ Hi).
    + intros n q Hq. apply lookup_delete_Some in Hq as [_ Hq]. by apply (si_names _ Hi) in Hq.
  - unfold Lifetime.held. rewrite Hinmap. cbn. unfold Lifetime.in_queue.
    apply existsb_exists. exists (conn_loop_ c, EventLoop.push_functor (FConnectDestroyed p) x).
    split.
    + apply list_elem_of_In, elem_of_map_to_list. by rewrite Hl, lookup_insert_eq.
    + cbn. apply bool_decide_eq_true. rewrite omap_app. cbn. set_solver.
Qed.

(** Only the first [start] starts anything: later calls count, nothing
    else, as long as the counter does not wrap around. *)
Theorem start_once use_poll n w :
  1 ≤ started_ (w_server w) → started_ (w_server w) + Z.of_nat n ≤ INT_MAX →
  mapM_ (λ _, TcpServer.start use_poll) (replicate n tt) w =
    Ok (tt, set_w_server
              (set_started_ (started_ (w_server w) + Z.of_nat n) (w_server w)) w).
Proof.
  revert w. induction n as [|n IH]; intros w Hs Hn; cbn [replicate mapM_].
  - rewrite Z.add_0_r. by destruct w as [???? []].
  - unfold TcpServer.start at 1. rewrite bind_assoc, (bind_Ok _ _ _ _ _ (gets_ok _ _)).
    rewrite bind_assoc. unfold modify_server. rewrite (bind_Ok _ _ _ _ _ (modify_ok _ _)).
    rewrite (proj2 (Z.eqb_neq (started_ _) 0)) by lia. cbn [when].
    rewrite (bind_Ok _ _ _ _ _ (ret_Ok _ _)).
    unfold INT_MAX in *. rewrite int32_small by lia.
    rewrite IH; cbn [w_server set_w_server started_ set_started_]; [|lia..].
    unfold set_w_server, set_started_; cbn. do 4 f_equal. lia.
Qed.
End registry.

Lemma demo_server_inv oracle : server_inv (demo_world oracle).
Proof.
  split; [| |done|by left]; intros n p Hn;
    apply (lookup_singleton_Some "srv-127.0.0.1:80801" n 9 p) in Hn as [<- <-].
  - by exists demo_conn.
  - exists 1. split; [done|]. by vm_compute.
Qed.

Section witnesses.
Local Instance demo_user : UserCode RefKernel.t := silent_user.

(** A server with three loops, the last of which is next. *)
Definition demo_pool_world : World RefKernel.t :=
  let w := demo_world (λ _, ret_only 0) in
  set_w_server (set_threadPool_ (mkEventLoopThreadPool 1 "srv" true 3 2 ["srv0"; "srv1"; "srv2"] [11; 12; 13])
    (w_server w)) w.

Lemma demo_pool_world_inv : server_inv demo_pool_world.
Proof.
  destruct (demo_server_inv (λ _, ret_only 0)) as [Hl Hn Hid _]. split; [exact Hl|exact Hn|exact Hid|right].
  split; [done|]. by vm_compute.
Qed.

Lemma newConnection_registers_witness :
  let w := demo_pool_world in
  let s := w_server w in
  ∃ ioLoop pool' w1 p,
    TcpServer.newConnection 8 demo_addr w =
      EventLoop.runInLoop ioLoop (FConnectEstablished p)
        (TcpConnection.connectEstablished p) w1 ∧
    ioLoop = 13 ∧ next_ pool' = 0 ∧
    w_server w1 = set_connections_ (<[TcpServer.conn_name s (nextConnId_ s) := p]> (connections_ s))
      (set_nextConnId_ (nextConnId_ s + 1) (set_threadPool_ pool' s)) ∧
    w_conns w1 = <[p := accepted s p ioLoop 8 (sr_addr (answer w)) demo_addr]> (w_conns w).
Proof.
  intros w s.
  destruct (newConnection_registers 8 demo_addr w) as (l & pool' & w1 & p & E & [[= <-] ->] & _ & _ & _ & Es & _ & Ec & _);
    [apply demo_pool_world_inv|by vm_compute|by vm_compute| |done|].
  { unfold valid_addr, InetAddress.AF_INET; cbn [sin_family sin_port sin_addr demo_addr]. lia. }
  eexists 13, _, w1, p. split; [exact E|]. split; [done|]. split; [|split; [exact Es|exact Ec]]. by vm_compute.
Defined.

Lemma newConnection_failures_witness :
  let w := demo_world (λ _, ret_only (-9)) in
  (nextConnId_ (w_server w) = INT_MAX →
     TcpServer.newConnection 8 demo_addr w = Fault SignedOverflow) ∧
  (nextConnId_ (w_server w) < INT_MAX → sr_ret (answer w) < 0 → "asyclogger" ∉ w_loggers w →
     TcpServer.newConnection 8 demo_addr w = Fault NullDeref).
Proof.
  intros w. apply newConnection_failures; [apply demo_server_inv|by vm_compute|].
  unfold valid_addr, InetAddress.AF_INET; cbn [sin_family sin_port sin_addr demo_addr]. lia.
Defined.

Lemma removeConnectionInLoop_unregisters_witness :
  let w := demo_world (λ _, ret_only 0) in
  ∃ w', TcpServer.removeConnectionInLoop 9 w = Ok (tt, w') ∧ server_inv w' ∧
    connections_ (w_server w') = delete (name_ demo_conn) (connections_ (w_server w)) ∧
    Lifetime.in_map 9 w' = false ∧ Lifetime.held 9 w' = true ∧
    w_conns w' = w_conns w ∧ w_trace w' = w_trace w ∧
    w_loops w' =
      <[conn_loop_ demo_conn := EventLoop.push_functor (FConnectDestroyed 9) demo_loop]>
        (w_loops w).
Proof.
  intros w. apply removeConnectionInLoop_unregisters; [apply demo_server_inv|by vm_compute|done..].
Defined.

Lemma start_once_witness :
  let w := demo_world (λ _, ret_only 0) in
  mapM_ (λ _, TcpServer.start false) (replicate 3 tt) w =
    Ok (tt, set_w_server
              (set_started_ (started_ (w_server w) + Z.of_nat 3) (w_server w)) w).
Proof. intros w. by apply start_once. Defined.
End witnesses.
