(* ===== verification/System.v ===== *)
(** * The running program (EventLoop::loop, src/testserver.cpp)

    Here the queued calls and the channel callbacks get their meaning, which
    closes the recursion the other files leave open, and [EventLoop::loop] runs
    them.  [EchoServer] is the application of src/testserver.cpp. *)

From stdpp Require Import base tactics numbers list gmap strings pretty.
From Stdlib Require Import ZArith Lia.
From S2P Require Import Prelude NetBuffer Kernel World Poller Demo Loop Channels Connection.
From S2P Require Import ConnFacts Inet LoopPool Server.

Local Open Scope string_scope.
Local Open Scope list_scope.
Local Open Scope Z_scope.
Local Open Scope prog_scope.

Module System.
Section ops.
Context {K : Type} `{Kernel K} `{InetLib} `{UserCode K}.
Local Abbreviation M := (M (World K)).

(** [TcpConnection::closeCallback_], bound by [TcpServer::newConnection]. *)
Definition closeCallback : ptr → M unit := TcpServer.removeConnection.

(** What a queued call does. *)
Definition run_functor (f : Functor) : M unit :=
  match f with
  | FSendInLoop p buf len => TcpConnection.run_sendInLoop p buf len
  | FSendFileInLoop p fd offset count => TcpConnection.sendFileInLoop p fd offset count
  | FShutdownInLoop p => TcpConnection.shutdownInLoop p
  | FConnectEstablished p => TcpConnection.connectEstablished p
  | FConnectDestroyed p => TcpConnection.connectDestroyed p
  | FWriteComplete (Some cb) p => emit (EvWriteComplete p) ;;! onWriteComplete cb p
  | FHighWaterMark (Some cb) p len => emit (EvHighWaterMark p len) ;;! onHighWaterMark cb p len
  | FWriteComplete None _ | FHighWaterMark None _ _ => throw BadFunctionCall
  | FRemoveConnectionInLoop p => TcpServer.removeConnectionInLoop p
  | FListen => Acceptor.listen
  | FUser cb => emit (EvUser cb) ;;! onUser cb
  end.

(** What a channel's callback does; read callbacks get the poll time. *)
Definition run_closure (receiveTime : Z) (c : closure) : M unit :=
  match c with
  | CbLoopHandleRead l => EventLoop.handleRead l
  | CbAcceptorHandleRead => Acceptor.handleRead TcpServer.newConnection
  | CbConnHandleRead p => TcpConnection.handleRead closeCallback p receiveTime
  | CbConnHandleWrite p => TcpConnection.handleWrite p
  | CbConnHandleClose p => TcpConnection.handleClose closeCallback p
  | CbConnHandleError p => TcpConnection.handleError p
  end.

Definition doPendingFunctions : ptr → M unit :=
  EventLoop.doPendingFunctions run_functor Lifetime.drop_functors.

(** The body of the [while] of [EventLoop::loop]: the handlers of the channels
    that [poll] reports, with the given meaning of their callbacks, and then the
    queued calls. *)
Definition dispatch (run_closure : Z → closure → M unit) (l : ptr) : M unit :=
  modify_loop l (set_activecChannels_ []) ;;!
  let! t := EventLoop.poll l in
  modify_loop l (set_pollReturnTime_ t) ;;!
  let! x := load_loop l in
  mapM_ (Channel.handleEvent (run_closure t)) (activecChannels_ x).

Definition iteration (l : ptr) : M unit :=
  dispatch run_closure l ;;!
  doPendingFunctions l.

(** At most [fuel] iterations; the result says whether the loop ended. *)
Fixpoint while_not_quit (fuel : nat) (l : ptr) : M bool :=
  let! x := load_loop l in
  if quit_ x then ret true
  else match fuel with
       | O => ret false
       | S fuel' => iteration l ;;! while_not_quit fuel' l
       end.

Definition loop (fuel : nat) (l : ptr) : M bool :=
  modify_loop l (set_looping_ true) ;;!
  modify_loop l (set_quit_ false) ;;!
  log "asynclogger" ;;!
  let! ended := while_not_quit fuel l in
  if (ended : bool) then
    log "asynclogger" ;;! modify_loop l (set_looping_ false) ;;! ret true
  else ret false.
End ops.
End System.

(** A string object that lives while [k] runs. *)
Definition with_string {K} (s : list byte) (k : ptr → M (World K) unit) : M (World K) unit :=
  let! buf := gets (λ w, fresh_addr (w_strs w)) in
  modify (λ w, set_w_strs (<[buf := s]> (w_strs w)) w) ;;!
  k buf ;;!
  modify (λ w, set_w_strs (delete buf (w_strs w)) w).

Module EchoServer.
Section ops.
Context {K : Type} `{Kernel K} `{InetLib}.
Local Abbreviation M := (M (World K)).

(** The tokens of the two [std::bind]s. *)
Definition onConnection_cb : Z := 1.
Definition onMessage_cb : Z := 2.

(** Both branches only log. *)
Definition onConnection (conn : ptr) : M unit :=
  let! c := load_conn conn in
  let! _ := lift (InetAddress.toIpPort (peerAddr_ c)) in
  log "asynclogger".

Definition onMessage (conn : ptr) : M unit :=
  let! c := load_conn conn in
  let! r := lift (Buffer.retrieveAllAsString (inputBuffer_ c)) in
  store_conn conn (set_inputBuffer_ r.2 c) ;;!
  with_string r.1 (TcpConnection.send conn).

Definition user : UserCode K := {|
  Connection.onConnection cb p := if cb =? onConnection_cb then onConnection p else ret tt;
  Connection.onMessage cb p _ := if cb =? onMessage_cb then onMessage p else ret tt;
  onWriteComplete _ _ := ret tt;
  onHighWaterMark _ _ _ := ret tt;
  onThreadInit _ _ := ret tt;
  onUser _ := ret tt |}.

Definition ctor (loop : ptr) (addr : InetAddress) (name : string) : M unit :=
  TcpServer.ctor loop addr name TcpServer.kNoReusePort ;;!
  TcpServer.setConnectionCallback (Some onConnection_cb) ;;!
  TcpServer.setMessageCallback (Some onMessage_cb) ;;!
  TcpServer.setThreadNum 3.

Definition start : M unit := TcpServer.start (H1 := user) false.

(** [main] up to [loop.loop()], after the logger is set up: the loop at address
    1, the server on port 8080. *)
Definition main_setup : M unit :=
  LoopObject.ctor false 1 ;;!
  ctor 1 (InetAddress.ctor 8080 "127.0.0.1") "EchoServer" ;;!
  start.
End ops.
End EchoServer.
