(* ===== verification/EchoFacts.v ===== *)
(** * The echo server echoes (src/testserver.cpp)

    The application of src/testserver.cpp on an established connection: every
    byte read from the socket is sent back, in order, through any sequence of
    read and write events. *)

From stdpp Require Import base tactics numbers list gmap strings pretty.
From Stdlib Require Import ZArith Lia.
From S2P Require Import Prelude NetBuffer Kernel World Poller Demo Loop Channels Connection.
From S2P Require Import ConnFacts ConnStream Inet LoopPool Server System.

Local Open Scope string_scope.
Local Open Scope list_scope.
Local Open Scope Z_scope.

Inductive ready := Readable | Writable.

(** The chunks read from descriptor [fd], in order. *)
Definition reads (fd : Z) (tr : list event) : list (list byte) :=
  omap (λ e, match e with
             | EvRead fd' d => if decide (fd' = fd) then Some d else None
             | _ => None
             end) tr.

Lemma reads_app fd t1 t2 : reads fd (t1 ++ t2) = reads fd t1 ++ reads fd t2.
Proof. apply omap_app. Qed.

Lemma reads_others fd tr : reads fd tr = reads fd (others tr).
Proof. unfold reads, others. induction tr as [|[] tr IH]; csimpl; by rewrite ?IH. Qed.

Section echo.
Context {K : Type} `{KernelOk K} `{InetLibOk}.
Local Instance echo_user : UserCode K := EchoServer.user.
Implicit Types w : World K.

(** The loop reports that the connection's socket is ready. *)
Definition run_ready (p : ptr) (t : Z) (q : ready) : M (World K) unit :=
  System.run_closure t
    (match q with Readable => CbConnHandleRead p | Writable => CbConnHandleWrite p end).

(** An established connection of the echo server, between two events. *)
Record echo_conn w (p : ptr) (c : TcpConnection) (x : EventLoop) : Prop := {
  ec_session : session w p c x;
  ec_state : state_ c = kConnected;
  ec_message : messageCallback_ c = Some EchoServer.onMessage_cb;
  ec_input : Buffer.wf (inputBuffer_ c) ∧ Buffer.content (inputBuffer_ c) = [] }.

(** No read reports the end of the stream. *)
Definition stays_open (o : nat → sysret) : Prop := ∀ n, sr_ret (o n) < 0 ∨ sr_data (o n) ≠ [].

(** Sending a local string from the loop's thread. *)
Lemma echo_send_ok w p c x s :
  conn_env w p c x → threadId_ x = w_tid w → out_inv c → state_ c = kConnected →
  Buffer.writerIndex_ (outputBuffer_ c) + zlen s ≤ max_size →
  ∃ w' c', with_string s (TcpConnection.send p) w = Ok (tt, w') ∧
    conn_frame p w w' ∧ w_conns w' !! p = Some c' ∧ same_conn c c' ∧ state_ c' = state_ c ∧
    out_inv c' ∧ stream w' c' = stream w c ++ (if write_fault w c then [] else s) ∧
    Buffer.size (outputBuffer_ c') ≤ Buffer.size (outputBuffer_ c) + zlen s ∧
    others (w_trace w') = others (w_trace w).
Proof.
  intros Henv Hth Ho Hst Hmax. unfold with_string.
  rewrite (bind_Ok _ _ _ _ _ (gets_ok _ _)), (bind_Ok _ _ _ _ _ (modify_ok _ _)).
  pose proof (fresh_addr_new (w_strs w)) as Hbuf. set (buf := fresh_addr (w_strs w)) in *.
  set (w1 := set_w_strs _ w).
  assert (Henv1 : conn_env w1 p c x) by (destruct Henv; by split).
  destruct (sendInLoop_ok w1 p c x s Henv1 Ho) as
    (w2 & c2 & E2 & Hf2 & Hc2 & Hs2 & Hst2 & Ho2 & Hstr2 & Hsz2 & Hot2); [by rewrite Hst|done|].
  assert (E1 : TcpConnection.send p buf w1 = Ok (tt, w2)).
  { unfold TcpConnection.send.
    rewrite (bind_Ok _ _ _ _ _ (load_conn_ok _ _ _ (ce_conn _ _ _ _ Henv1))).
    rewrite decide_True by done.
    rewrite (bind_Ok _ _ _ _ _ (load_loop_ok _ _ _ (ce_loop _ _ _ _ Henv1))).
    rewrite (bind_Ok _ _ _ _ _ (gets_ok _ _)). unfold EventLoop.isInLoopThread.
    change (w_tid w1) with (w_tid w). rewrite Hth, Z.eqb_refl.
    rewrite (bind_Ok _ _ w1 s w1); [done|]. unfold TcpConnection.load_str.
    change (w_strs w1) with (<[buf := s]> (w_strs w)). by rewrite lookup_insert_eq. }
  rewrite (bind_Ok _ _ _ _ _ E1). eexists _, c2. split; [apply modify_ok|].
  split; [|by split_and!].
  destruct Hf2. split; try done. wcbn. rewrite cf_strs. subst w1; wcbn.
  by apply delete_insert_id.
Qed.

(** The data arrives and goes back. *)
Lemma echo_message_ok w p c x t :
  conn_env w p c x → threadId_ x = w_tid w → out_inv c → state_ c = kConnected →
  messageCallback_ c = Some EchoServer.onMessage_cb → Buffer.wf (inputBuffer_ c) →
  Buffer.writerIndex_ (outputBuffer_ c) + zlen (Buffer.content (inputBuffer_ c)) ≤ max_size →
  ∃ w' c', TcpConnection.call_message p t w = Ok (tt, w') ∧
    conn_frame p w w' ∧ w_conns w' !! p = Some c' ∧
    same_conn (set_inputBuffer_ (Buffer.retrieveAll (inputBuffer_ c)) c) c' ∧
    state_ c' = state_ c ∧ out_inv c' ∧
    stream w' c' =
      stream w c ++ (if write_fault w c then [] else Buffer.content (inputBuffer_ c)) ∧
    Buffer.size (outputBuffer_ c') ≤
      Buffer.size (outputBuffer_ c) + zlen (Buffer.content (inputBuffer_ c)) ∧
    others (w_trace w') = others (w_trace w) ++ [EvMessage p].
Proof.
  intros Henv Hth Ho Hst Hmsg Hin Hmax. pose proof (ce_conn _ _ _ _ Henv) as Hc.
  unfold TcpConnection.call_message. rewrite (bind_Ok _ _ _ _ _ (load_conn_ok _ _ _ Hc)), Hmsg.
  rewrite (bind_Ok _ _ _ _ _ (emit_ok _ _)). set (w1 := set_w_trace _ w).
  cbn [onMessage echo_user EchoServer.user]. rewrite Z.eqb_refl. unfold EchoServer.onMessage.
  rewrite (bind_Ok _ _ w1 c w1) by by apply load_conn_ok.
  rewrite retrieveAllAsString_ok by done. cbn [lift].
  rewrite (bind_Ok _ _ w1 (Buffer.content (inputBuffer_ c), Buffer.retrieveAll (inputBuffer_ c)) w1)
    by done. cbn [fst snd].
  rewrite (bind_Ok _ _ _ _ _ (store_conn_ok _ _ w1)). set (c2 := set_inputBuffer_ _ c).
  set (w2 := set_w_conns _ w1).
  assert (Hf2 : conn_frame p w w2).
  { etrans; [apply (conn_frame_trace p (w_trace w ++ [EvMessage p]))|apply conn_frame_conn]. }
  assert (Henv2 : conn_env w2 p c2 x) by (destruct Henv; split; try done; apply lookup_insert_eq).
  destruct (echo_send_ok w2 p c2 x (Buffer.content (inputBuffer_ c))) as
    (w3 & c3 & E3 & Hf3 & Hc3 & Hs3 & Hst3 & Ho3 & Hstr3 & Hsz3 & Hot3); [done..|].
  exists w3, c3. split; [done|]. split_and!; try done.
  - by etrans.
  - rewrite Hstr3. unfold stream, write_fault. f_equal.
    change (fd_ (channel_ c2)) with (fd_ (channel_ c)).
    change (outputBuffer_ c2) with (outputBuffer_ c). f_equal.
    change (w_trace w2) with (w_trace w ++ [EvMessage p]). rewrite wire_app. apply app_nil_r.
  - rewrite Hot3. change (w_trace w2) with (w_trace w ++ [EvMessage p]).
    unfold others. by rewrite omap_app.
Qed.

(** What one event does: the chunks it reads and the chunks it queues for
    sending. *)
Record echo_step w w' (p : ptr) (c c' : TcpConnection) (chunks acc : list (list byte)) : Prop := {
  es_frame : conn_frame p w w';
  es_fd : fd_ (channel_ c') = fd_ (channel_ c);
  es_reads : reads (fd_ (channel_ c)) (w_trace w') = reads (fd_ (channel_ c)) (w_trace w) ++ chunks;
  es_stream : stream w' c' = stream w c ++ concat acc;
  es_acc : acc `sublist_of` chunks;
  es_reliable : reliable (w_oracle w) → acc = chunks;
  es_in : Buffer.size (inputBuffer_ c') ≤ Buffer.size (inputBuffer_ c) + Buffer.extrabuf_size;
  es_out : Buffer.size (outputBuffer_ c') ≤
    Buffer.size (outputBuffer_ c) + Buffer.size (inputBuffer_ c) + Buffer.extrabuf_size }.

Lemma reliable_write_fault w c : reliable (w_oracle w) → write_fault w c = false.
Proof.
  intros Hr. destruct (Hr (w_clock w)) as [Hp%Z.eqb_neq Hc%Z.eqb_neq].
  unfold write_fault, answer. by rewrite Hp, Hc, andb_false_r.
Qed.

Lemma readv_answer_nonempty r b :
  0 ≤ sr_ret r → sr_data r ≠ [] → Buffer.wf b →
  ∃ d, readv_answer r (Buffer.iovecs b) = ReadBytes d ∧ 0 < zlen d.
Proof.
  intros Hr Hd Hb. unfold readv_answer. rewrite (proj2 (Z.ltb_ge _ _)) by done.
  eexists. split; [done|]. rewrite zlen_ztake. unfold Buffer.iovecs.
  assert (0 < zlen (sr_data r)).
  { pose proof (zlen_nonneg (sr_data r)).
    destruct (decide (zlen (sr_data r) = 0)) as [E|]; [|lia]. by apply zlen_0_inv in E. }
  rewrite writableBytes_wf by done. destruct Hb as (_ & _ & ? & _).
  destruct (Z.ltb_spec (Buffer.size b - Buffer.writerIndex_ b) Buffer.extrabuf_size);
    cbn [foldr]; unfold Buffer.extrabuf_size in *; lia.
Qed.

(** The read fails: nothing changes. *)
Lemma echo_read_error w p c x t :
  echo_conn w p c x → sr_ret (answer w) < 0 →
  ∃ w', TcpConnection.handleRead System.closeCallback p t w = Ok (tt, w') ∧
    echo_step w w' p c c [] [] ∧ ∃ x', echo_conn w' p c x'.
Proof.
  intros [Hss Hst Hmsg [Hin Hemp]] Hneg. pose proof Hss as [Henv Hth Ho Hfin].
  pose proof (ce_conn _ _ _ _ Henv) as Hc. pose proof (proj1 Ho) as Hwfo.
  assert (Hso : 0 ≤ Buffer.size (outputBuffer_ c)) by apply zlen_nonneg.
  assert (Hsi : 0 ≤ Buffer.size (inputBuffer_ c)) by apply zlen_nonneg.
  unfold TcpConnection.handleRead. rewrite (bind_Ok _ _ _ _ _ (load_conn_ok _ _ _ Hc)).
  rewrite (bind_Ok _ _ _ _ _ (syscall_ok w)).
  rewrite (readFd_error _ (- sr_ret (answer w))).
  2: { unfold readv_answer. by rewrite (proj2 (Z.ltb_lt _ _)). }
  cbn [lift]. rewrite (bind_Ok _ _ (tick w) (ReadError (- sr_ret (answer w)), inputBuffer_ c)
    (tick w)) by done. cbn [fst snd].
  rewrite (bind_Ok _ _ _ _ _ (store_conn_ok _ _ (tick w))).
  assert (Esame : set_inputBuffer_ (inputBuffer_ c) c = c) by by destruct c.
  rewrite Esame. change (w_conns (tick w)) with (w_conns w). rewrite (insert_id _ _ _ Hc).
  assert (Ew : set_w_conns (w_conns w) (tick w) = tick w) by by destruct w.
  rewrite Ew. unfold TcpConnection.handleError.
  rewrite (bind_Ok _ _ (tick w) c (tick w)), (bind_Ok _ _ _ _ _ (syscall_ok _)) by
    by apply load_conn_ok.
  rewrite (log_ok _ (tick (tick w))) by apply Henv.
  exists (tick (tick w)). split; [done|].
  assert (Hf : conn_frame p w (tick (tick w)))
    by (etrans; [apply conn_frame_tick|apply (conn_frame_tick p (tick w))]).
  split.
  + split; cbn [concat]; rewrite ?app_nil_r; try done; unfold Buffer.extrabuf_size; lia.
  + destruct (session_next _ _ _ _ c _ Hss Hf Hc) as [x' Hss']; [done..|]. by exists x'.
Qed.

(** What [readFd] leaves in an empty buffer. *)
Lemma read_into_empty r b :
  0 ≤ sr_ret r → sr_data r ≠ [] → Buffer.wf b → Buffer.content b = [] →
  Buffer.size b + Buffer.extrabuf_size ≤ max_size →
  ∃ d b', Buffer.readFd (readv_answer r) b = Ok (ReadBytes d, b') ∧ 0 < zlen d ∧ Buffer.wf b' ∧
    Buffer.content b' = d ∧ zlen d ≤ Buffer.size b' ≤ Buffer.size b + Buffer.extrabuf_size.
Proof.
  intros Hpos Hdata Hin Hemp Hmax. destruct (readv_answer_nonempty _ b Hpos Hdata Hin) as (d & Hd & Hdpos).
  assert (Hsi : 0 ≤ Buffer.size b) by apply zlen_nonneg.
  destruct (readFd_ok (readv_answer r) d b Hin) as
    (b' & Eb & Hwfb & Hcont & Hsz); [apply readv_answer_bounded|done|lia|].
  rewrite Hemp in Hcont. cbn in Hcont. exists d, b'. split_and!; try done; [|lia].
  rewrite <- Hcont, <- readableBytes_content by done. rewrite readableBytes_wf by done.
  buffer_unfold. lia.
Qed.

(** Data arrives. *)
Lemma echo_read_data w p c x t :
  echo_conn w p c x → 0 ≤ sr_ret (answer w) → sr_data (answer w) ≠ [] →
  Buffer.size (outputBuffer_ c) + Buffer.size (inputBuffer_ c) + Buffer.extrabuf_size ≤ max_size →
  ∃ w' c' chunks acc, TcpConnection.handleRead System.closeCallback p t w = Ok (tt, w') ∧
    echo_step w w' p c c' chunks acc ∧ ∃ x', echo_conn w' p c' x'.
Proof.
  intros [Hss Hst Hmsg [Hin Hemp]] Hpos Hdata Hmax. pose proof Hss as [Henv Hth Ho Hfin].
  pose proof (ce_conn _ _ _ _ Henv) as Hc. pose proof (proj1 Ho) as Hwfo.
  assert (Hso : 0 ≤ Buffer.size (outputBuffer_ c)) by apply zlen_nonneg.
  assert (Hsi : 0 ≤ Buffer.size (inputBuffer_ c)) by apply zlen_nonneg.
  unfold TcpConnection.handleRead. rewrite (bind_Ok _ _ _ _ _ (load_conn_ok _ _ _ Hc)).
  rewrite (bind_Ok _ _ _ _ _ (syscall_ok w)).
  destruct (read_into_empty _ _ Hpos Hdata Hin Hemp ltac:(lia)) as
    (d & b' & Eb & Hdpos & Hwfb & Hcont & Hsz).
  rewrite Eb. cbn [lift]. rewrite (bind_Ok _ _ (tick w) (ReadBytes d, b') (tick w)) by done.
  cbn [fst snd]. rewrite (bind_Ok _ _ _ _ _ (store_conn_ok _ _ (tick w))).
  set (c1 := set_inputBuffer_ b' c).
  rewrite (bind_Ok _ _ _ _ _ (emit_ok _ _)). rewrite (proj2 (Z.ltb_lt 0 _)) by done.
  set (w1 := set_w_trace _ _).
  assert (Hf1 : conn_frame p w w1).
  { etrans; [apply conn_frame_tick|]. etrans; [apply (conn_frame_conn p c1)|].
    apply (conn_frame_trace p _ (set_w_conns (<[p := c1]> (w_conns w)) (tick w))). }
  assert (Henv1 : conn_env w1 p c1 x)
    by (destruct Henv; split; try done; apply lookup_insert_eq).
  destruct (echo_message_ok w1 p c1 x t Henv1 Hth Ho Hst Hmsg Hwfb) as
    (w2 & c2 & E2 & Hf2 & Hc2 & Hs2 & Hst2 & Ho2 & Hstr2 & Hsz2 & Hot2).
  { change (inputBuffer_ c1) with b'. rewrite Hcont.
    change (outputBuffer_ c1) with (outputBuffer_ c). buffer_unfold. lia. }
  change (inputBuffer_ c1) with b' in *. rewrite Hcont in *.
  exists w2, c2, [d], (if write_fault w1 c1 then [] else [d]). split; [done|].
  assert (Hfd : fd_ (channel_ c2) = fd_ (channel_ c)) by exact (sc_fd _ _ Hs2).
  assert (Hrd : others (w_trace w2) =
    others (w_trace w) ++ [EvRead (fd_ (channel_ c)) d; EvMessage p]).
  { rewrite Hot2. change (w_trace w1) with (w_trace w ++ [EvRead (fd_ (channel_ c)) d]).
    unfold others. by rewrite !omap_app, <- app_assoc. }
  split; [split; try done|].
  + by etrans.
  + rewrite reads_others, Hrd, reads_app, <- reads_others. cbn. by rewrite decide_True.
  + rewrite Hstr2. f_equal.
    * unfold stream. change (fd_ (channel_ c1)) with (fd_ (channel_ c)). f_equal.
      change (w_trace w1) with (w_trace w ++ [EvRead (fd_ (channel_ c)) d]).
      rewrite wire_app. apply app_nil_r.
    * destruct (write_fault w1 c1); cbn; by rewrite ?app_nil_r.
  + destruct (write_fault w1 c1); [apply sublist_nil_l|done].
  + intros Hr. rewrite reliable_write_fault; [done|]. by rewrite (cf_oracle _ _ _ Hf1).
  + rewrite (sc_input _ _ Hs2). change (Buffer.size b' ≤
      Buffer.size (inputBuffer_ c) + Buffer.extrabuf_size). lia.
  + change (outputBuffer_ c1) with (outputBuffer_ c) in Hsz2. lia.
  + destruct (conn_env_keep w1 w2 p c1 x c2) as (x2 & Henv2 & He2);
      [done..|exact (sc_loop _ _ Hs2)|exact (sc_chan_loop _ _ Hs2)|].
    exists x2. split; [split; try done| | |].
    * rewrite (le_thread _ _ He2), Hth, (cf_tid _ _ _ Hf2). by rewrite (cf_tid _ _ _ Hf1).
    * rewrite (sc_socket _ _ Hs2), shutdowns_others, Hrd, shutdowns_app, <- shutdowns_others.
      cbn. rewrite app_nil_r. intros Hn%Hfin. destruct Hn. congruence.
    * by rewrite Hst2.
    * by rewrite (sc_message _ _ Hs2).
    * rewrite (sc_input _ _ Hs2). split; [by apply retrieveAll_wf|apply retrieveAll_content].
Qed.

(** The socket is readable. *)
Lemma echo_read_ok w p c x t :
  echo_conn w p c x → stays_open (w_oracle w) →
  Buffer.size (outputBuffer_ c) + Buffer.size (inputBuffer_ c) + Buffer.extrabuf_size ≤ max_size →
  ∃ w' c' chunks acc, TcpConnection.handleRead System.closeCallback p t w = Ok (tt, w') ∧
    echo_step w w' p c c' chunks acc ∧ ∃ x', echo_conn w' p c' x'.
Proof.
  intros Hec Hopen Hmax. pose proof (Hopen (w_clock w)) as Hw.
  change (w_oracle w (w_clock w)) with (answer w) in Hw.
  destruct (Z.lt_ge_cases (sr_ret (answer w)) 0) as [Hneg|Hpos].
  - destruct (echo_read_error w p c x t Hec Hneg) as (w' & ? & ? & ?). by exists w', c, [], [].
  - apply (echo_read_data w p c x t Hec Hpos); [|done]. destruct Hw; [lia|done].
Qed.

(** The socket is writable. *)
Lemma echo_write_ok w p c x :
  echo_conn w p c x →
  ∃ w' c', TcpConnection.handleWrite p w = Ok (tt, w') ∧
    echo_step w w' p c c' [] [] ∧ ∃ x', echo_conn w' p c' x'.
Proof.
  intros [Hss Hst Hmsg [Hin Hemp]]. pose proof Hss as [Henv Hth Ho Hfin].
  assert (Hso : 0 ≤ Buffer.size (outputBuffer_ c)) by apply zlen_nonneg.
  assert (Hsi : 0 ≤ Buffer.size (inputBuffer_ c)) by apply zlen_nonneg.
  pose proof (ce_conn _ _ _ _ Henv) as Hc.
  destruct (Channel.isWriting (channel_ c)) eqn:Hwr.
  - destruct (handleWrite_ok w p c x) as
      (w1 & c1 & E1 & Hf1 & Hc1 & Hs1 & Hst1 & Ho1 & Hstr1 & Hsz1 & Hot1); [done..|].
    destruct Hot1 as [Hot1|(Hd & _)]; [|congruence].
    destruct (session_next _ _ _ _ _ _ Hss Hf1 Hc1 Hs1 Ho1) as (x1 & Hss1).
    { rewrite shutdowns_others, Hot1, <- shutdowns_others. intros Hn%Hfin. destruct Hn. congruence. }
    exists w1, c1. split; [done|]. split.
    + split; cbn [concat]; rewrite ?app_nil_r; try done.
      * apply Hs1.
      * by rewrite reads_others, Hot1, <- reads_others.
      * rewrite (sc_input _ _ Hs1). unfold Buffer.extrabuf_size. lia.
      * unfold Buffer.extrabuf_size. lia.
    + exists x1. split; [done|by rewrite Hst1|by rewrite (sc_message _ _ Hs1)|].
      by rewrite (sc_input _ _ Hs1).
  - exists w, c. unfold TcpConnection.handleWrite.
    rewrite (bind_Ok _ _ _ _ _ (load_conn_ok _ _ _ Hc)), Hwr.
    rewrite (log_ok _ _ (ce_log _ _ _ _ Henv)). split; [done|]. split; [|by exists x].
    split; cbn [concat]; rewrite ?app_nil_r; try done; unfold Buffer.extrabuf_size; lia.
Qed.

(** C5: the echo server. On an established connection, over any sequence of
    read and write events in which the peer does not close, whatever the kernel
    answers: nothing faults; what is on the wire or still buffered for it grows
    by chunks that were read, each whole and in order; and unless the peer is
    gone (EPIPE, ECONNRESET) those are all the chunks read, so every byte
    received is sent back exactly once, in order. *)
Theorem echo_server_echoes p t evs w c x :
  echo_conn w p c x → stays_open (w_oracle w) →
  Buffer.size (outputBuffer_ c) + Buffer.size (inputBuffer_ c) +
    zlen evs * (Buffer.size (inputBuffer_ c) + Buffer.extrabuf_size * (zlen evs + 1)) ≤ max_size →
  ∃ w' c' x' chunks acc, mapM_ (run_ready p t) evs w = Ok (tt, w') ∧ echo_conn w' p c' x' ∧
    reads (fd_ (channel_ c)) (w_trace w') = reads (fd_ (channel_ c)) (w_trace w) ++ chunks ∧
    wire (fd_ (channel_ c)) (w_trace w') ++ Buffer.content (outputBuffer_ c') =
      wire (fd_ (channel_ c)) (w_trace w) ++ Buffer.content (outputBuffer_ c) ++ concat acc ∧
    acc `sublist_of` chunks ∧ (reliable (w_oracle w) → acc = chunks).
Proof.
  revert w c x. induction evs as [|q evs IH]; intros w c x Hec Hopen Hmax.
  - exists w, c, x, [], []. cbn [concat]. rewrite !app_nil_r. by split_and!.
  - rewrite zlen_cons in Hmax. pose proof (zlen_nonneg evs) as Hn.
    assert (Hso : 0 ≤ Buffer.size (outputBuffer_ c)) by apply zlen_nonneg.
    assert (Hsi : 0 ≤ Buffer.size (inputBuffer_ c)) by apply zlen_nonneg.
    assert (Hstep : ∃ w1 c1 ch1 acc1, run_ready p t q w = Ok (tt, w1) ∧
      echo_step w w1 p c c1 ch1 acc1 ∧ ∃ x1, echo_conn w1 p c1 x1).
    { destruct q.
      - eapply echo_read_ok; [done..|]. unfold Buffer.extrabuf_size in *. nia.
      - destruct (echo_write_ok w p c x Hec) as (w1 & c1 & ? & ? & ?). by exists w1, c1, [], []. }
    destruct Hstep as (w1 & c1 & ch1 & acc1 & E1 & [Hf1 Hfd1 Hr1 Hs1 Ha1 Hre1 Hi1 Ho1] & x1 & Hec1).
    destruct (IH w1 c1 x1) as (w2 & c2 & x2 & ch2 & acc2 & E2 & Hec2 & Hr2 & Hs2 & Ha2 & Hre2);
      [done|by rewrite (cf_oracle _ _ _ Hf1)| |].
    { unfold Buffer.extrabuf_size in *. nia. }
    exists w2, c2, x2, (ch1 ++ ch2), (acc1 ++ acc2). cbn [mapM_].
    rewrite (bind_Ok _ _ _ _ _ E1). rewrite Hfd1 in *. split_and!; try done.
    + by rewrite Hr2, Hr1, app_assoc.
    + unfold stream in Hs1. rewrite Hfd1 in Hs1.
      rewrite Hs2, concat_app, (app_assoc (wire _ (w_trace w1))), Hs1. by rewrite <- !app_assoc.
    + by apply sublist_app.
    + intros Hre. rewrite Hre1, Hre2; [done| |done]. by rewrite (cf_oracle _ _ _ Hf1).
Qed.
End echo.

(** Two bytes at a time come in and go out. *)
Lemma echo_server_echoes_witness :
  let w := demo_world (λ _, mkSysret 2 [x68; x69; x0a] [] demo_addr) in
  let evs := [Readable; Readable; Writable; Readable; Writable] in
  ∃ w' c' x' chunks acc, mapM_ (run_ready 9 0) evs w = Ok (tt, w') ∧ echo_conn w' 9 c' x' ∧
    reads 7 (w_trace w') = reads 7 (w_trace w) ++ chunks ∧
    wire 7 (w_trace w') ++ Buffer.content (outputBuffer_ c') =
      wire 7 (w_trace w) ++ Buffer.content (outputBuffer_ demo_conn) ++ concat acc ∧
    acc `sublist_of` chunks ∧ (reliable (w_oracle w) → acc = chunks).
Proof.
  intros w evs. apply (echo_server_echoes 9 0 evs w demo_conn demo_loop).
  - split; [apply demo_session|done|done|]. split; [apply ctor_wf|apply ctor_content].
  - intros n. by right.
  - by vm_compute.
Defined.

(** ** A whole run of the program

    [main] of src/testserver.cpp with three pool threads: a client connects,
    sends two bytes, gets them back and closes. Each thread's turns are given
    explicitly; the kernel's answers are a script. *)
Section run.
Local Open Scope prog_scope.
Local Instance run_user : UserCode RefKernel.t := EchoServer.user.

Definition script (l : list sysret) (n : nat) : sysret := nth n l (ret_only (-11)).
Definition poll_says (r : list (Z * Z)) : list sysret :=
  [mkSysret (zlen r) [] r demo_addr; ret_only 1700000000].
Definition on_thread (t : Z) (m : M (World RefKernel.t) unit) : M (World RefKernel.t) unit :=
  modify (set_w_tid t) ;;! m.

Definition run_answers : list sysret :=
  map ret_only [3; 4; 5; 0; 0; 0; 201; 11; 12; 202; 21; 22; 203; 31; 32; 0] ++
  poll_says [(5, 1)] ++ [mkSysret 7 [] [] demo_addr; ret_only 0; ret_only 0] ++
  poll_says [(12, 1)] ++
  poll_says [(7, 1)] ++ [mkSysret 2 [x68; x69] [] demo_addr; ret_only 2] ++
  poll_says [(7, 1)] ++ [ret_only 0] ++
  poll_says [(4, 1)] ++ poll_says [(12, 1)].

Definition run_world : World RefKernel.t :=
  mkWorld 100 ∅ ∅ ∅ demo_server ∅ RefKernel.empty (script run_answers) 0 {["asynclogger"]} [].

Definition run_main : M (World RefKernel.t) unit :=
  EchoServer.main_setup ;;!
  System.iteration 1 ;;!
  on_thread 201 (System.iteration 2 ;;! System.iteration 2 ;;! System.iteration 2) ;;!
  on_thread 100 (System.iteration 1) ;;!
  on_thread 201 (System.iteration 2).

(** What the run shows of descriptor 7 and of the two objects at the end. *)
Definition run_shows : outcome (list event * list (ptr * TcpConnection) * list (string * ptr)) :=
  match run_main run_world with
  | Ok (_, w) =>
      Ok (drop 4 (w_trace w), map_to_list (w_conns w), map_to_list (connections_ (w_server w)))
  | Fault f => Fault f
  end.

Lemma echo_run :
  run_shows = Ok ([EvSockopt 7 Socket.SO_KEEPALIVE 1; EvConnection 1 true;
    EvRead 7 [x68; x69]; EvMessage 1; EvWrite 7 [x68; x69]; EvRead 7 [];
    EvConnection 1 true; EvConnection 1 false; EvClose 7], [], []).
Proof. by vm_compute. Qed.
End run.
