(* ===== verification/Lifecycle.v ===== *)
(** * The end of a connection, and calls that leave the loop's thread

    How a connection is closed, destroyed and unregistered, and what happens
    to the calls that go through the task queue: [send] from another thread,
    the high-water mark, [sendFile]. *)

From stdpp Require Import base tactics numbers list gmap strings pretty.
From Stdlib Require Import ZArith Lia.
From S2P Require Import Prelude NetBuffer Kernel World Poller Demo Loop Channels Connection.
From S2P Require Import ConnFacts ConnStream Inet LoopPool Server ServerFacts System.

Local Open Scope string_scope.
Local Open Scope list_scope.
Local Open Scope Z_scope.
Local Open Scope prog_scope.

(** ** The poller's side of closing: deleted, added again, removed *)
Section poller.
Context {K : Type} `{KernelOk K}.

(** [disbaleAll], [disbaleAll], [remove] of a registered channel, whatever
    [epoll_ctl] answers to the useless second registration, and whatever happens
    before it that leaves the interest lists alone. *)
Lemma close_sequence cp ch P (k : K) ch1 P1 k1 k1' ch2 P2 k2 ch3 P3 k3 :
  index_ ch = ADDED →
  EpollPoller.updateChannel cp (set_events_ 0 ch) P k = (ch1, P1, k1) →
  (∀ ep fd, interest k1' ep fd = interest k1 ep fd) →
  EpollPoller.updateChannel cp (set_events_ 0 ch1) P1 k1' = (ch2, P2, k2) →
  EpollPoller.removeChannel cp ch2 P2 k2 = (ch3, P3, k3) →
  index_ ch3 = NEW ∧ channels_ P3 = delete (fd_ ch) (channels_ P) ∧
  epollfd_ P3 = epollfd_ P ∧ interest k3 (epollfd_ P) (fd_ ch) = None ∧
  (∀ ep fd, ¬ (ep = epollfd_ P ∧ fd = fd_ ch) → interest k3 ep fd = interest k ep fd).
Proof.
  intros Hi E1 Hk E2 E3. unfold EpollPoller.updateChannel in E1. cbn in E1. rewrite Hi in E1.
  cbn in E1. injection E1 as <- <- <-. cbn in E2. injection E2 as <- <- <-.
  cbn in E3. injection E3 as <- <- <-. cbn. split_and!; try done.
  - apply ctl_del_gone.
  - intros ep fd Hne. unfold EpollPoller.update in *; cbn in *. by rewrite !ctl_frame, Hk, ctl_frame.
Qed.
End poller.

(** ** Closing *)
Section closing.
Context {K : Type} `{KernelOk K} `{InetLib} `{UserCode K}.
Implicit Types w : World K.

(** The connection callback of [p] does nothing to this state. *)
Definition connection_harmless (p : ptr) (c : TcpConnection) : Prop :=
  ∃ cb, connectionCallback_ c = Some cb ∧ ∀ w, onConnection cb p w = Ok (tt, w).

Lemma call_connection_ok w p c :
  w_conns w !! p = Some c → connection_harmless p c →
  TcpConnection.call_connection p w =
    Ok (tt, set_w_trace (w_trace w ++ [EvConnection p (TcpConnection.connected c)]) w).
Proof.
  intros Hc (cb & Hcb & Hh). unfold TcpConnection.call_connection.
  rewrite (bind_Ok _ _ _ _ _ (load_conn_ok _ _ _ Hc)), Hcb.
  rewrite (bind_Ok _ _ _ _ _ (emit_ok _ _)). apply Hh.
Qed.

(** The environment after a channel's registration changed. *)
Lemma conn_env_rechannel w w' p c x ch' P' :
  conn_env w p c x → ch_loop_ ch' = ch_loop_ (channel_ c) →
  w_conns w' = <[p := set_channel_ ch' c]> (w_conns w) →
  w_loops w' = <[conn_loop_ c := set_poller_ (Some P') x]> (w_loops w) →
  w_loggers w' = w_loggers w →
  conn_env w' p (set_channel_ ch' c) (set_poller_ (Some P') x).
Proof.
  intros [] Hcl Hc Hl Hg. split; cbn; rewrite ?Hc, ?Hl, ?Hg; try done.
  - apply lookup_insert_eq.
  - apply lookup_insert_eq.
  - by rewrite Hcl.
Qed.

(** Results are compared field by field. *)
Lemma world_eq_ok w t ls tls cs s ss k o n lg tr :
  w_tid w = t → w_loops w = ls → w_tls w = tls → w_conns w = cs → w_server w = s →
  w_strs w = ss → w_kernel w = k → w_oracle w = o → w_clock w = n → w_loggers w = lg →
  w_trace w = tr → Ok (tt, w) = Ok (tt, mkWorld t ls tls cs s ss k o n lg tr).
Proof. intros. subst. by destruct w. Qed.

(** Steps of a connection that keep its environment, with the new world named
    by an equation. *)
Inductive env_after (E : World K) (p : ptr) (c : TcpConnection) (x : EventLoop) : Prop :=
  | env_after_intro w' : w' = E → conn_env w' p c x → env_after E p c x.

Lemma stored_env w p c c' x :
  conn_env w p c x → conn_loop_ c' = conn_loop_ c → channel_ c' = channel_ c →
  env_after (set_w_conns (<[p := c']> (w_conns w)) w) p c' x.
Proof.
  intros [] Hl Hch. eexists; [done|]. split; rewrite ?Hl, ?Hch; try done. apply lookup_insert_eq.
Qed.

Lemma traced_env w p c x e :
  conn_env w p c x → env_after (set_w_trace (w_trace w ++ [e]) w) p c x.
Proof. intros []. eexists; [done|]. by split. Qed.

Lemma disbaleAll_env w p c x P ch1 P1 k1 :
  conn_env w p c x → poller_ x = Some P →
  EpollPoller.updateChannel (ChConn p) (set_events_ 0 (channel_ c)) P (w_kernel w) = (ch1, P1, k1) →
  ∃ w', Channel.disbaleAll (ChConn p) w = Ok (tt, w') ∧
    w' = set_w_kernel k1 (set_w_conns (<[p := set_channel_ ch1 c]> (w_conns w))
           (set_w_loops (<[conn_loop_ c := set_poller_ (Some P1) x]> (w_loops w)) w)) ∧
    conn_env w' p (set_channel_ ch1 c) (set_poller_ (Some P1) x).
Proof.
  intros Henv HP Hu. unfold Channel.disbaleAll.
  assert (Hz : Z.land (events_ (channel_ c)) Channel.noneEvent = 0) by apply Z.land_0_r.
  rewrite <- Hz in Hu.
  rewrite (change_events_ok (λ e, Z.land e Channel.noneEvent) _ _ _ _ _ _ _ _ Henv HP Hu).
  eexists. split; [done|]. split; [done|].
  eapply (conn_env_rechannel w _ p c x ch1 P1 Henv); try done.
  by rewrite (updateChannel_shape _ _ _ _ _ _ _ Hu).
Qed.

(** [handleClose] stops watching, calls the user and then [closeCallback_]. *)
Lemma handleClose_calls (closeCallback : ptr → M (World K) unit) w p c x P ch1 P1 k1 :
  conn_env w p c x → poller_ x = Some P → connection_harmless p c → conn_closeCallback_ c = true →
  EpollPoller.updateChannel (ChConn p) (set_events_ 0 (channel_ c)) P (w_kernel w) = (ch1, P1, k1) →
  ∃ w2, TcpConnection.handleClose closeCallback p w = closeCallback p w2 ∧
    w2 = set_w_trace (w_trace w ++ [EvConnection p (TcpConnection.connected c)])
           (set_w_kernel k1 (set_w_conns (<[p := set_channel_ ch1 c]> (w_conns w))
             (set_w_loops (<[conn_loop_ c := set_poller_ (Some P1) x]> (w_loops w)) w))) ∧
    conn_env w2 p (set_channel_ ch1 c) (set_poller_ (Some P1) x).
Proof.
  intros Henv HP Hh Hcb Hu. unfold TcpConnection.handleClose.
  rewrite (bind_Ok _ _ _ _ _ (log_ok _ _ (ce_log _ _ _ _ Henv))).
  destruct (disbaleAll_env w p c x P ch1 P1 k1 Henv HP Hu) as (w1 & E1 & Ew1 & Henv1).
  rewrite (bind_Ok _ _ _ _ _ E1). set (c1 := set_channel_ ch1 c) in *.
  set (x1 := set_poller_ (Some P1) x) in *.
  rewrite (bind_Ok _ _ _ _ _ (call_connection_ok w1 p c1 (ce_conn _ _ _ _ Henv1) Hh)).
  destruct (traced_env w1 p _ _ (EvConnection p (TcpConnection.connected c1)) Henv1)
    as [w2 Ew2 Henv2].
  rewrite <- Ew2. unfold TcpConnection.call_close.
  rewrite (bind_Ok _ _ _ _ _ (load_conn_ok _ _ _ (ce_conn _ _ _ _ Henv2))).
  change (conn_closeCallback_ c1) with (conn_closeCallback_ c). rewrite Hcb.
  exists w2. split; [done|]. split; [by rewrite Ew2, Ew1|done].
Qed.

(** On the thread of the server's loop, which is the connection's loop too, the
    server takes the connection off its map at once. *)
Lemma handleClose_ok w p c x P ch1 P1 k1 :
  conn_env w p c x → threadId_ x = w_tid w → poller_ x = Some P →
  callingPendingFuntors_ x = false → connection_harmless p c → conn_closeCallback_ c = true →
  srv_loop_ (w_server w) = conn_loop_ c →
  EpollPoller.updateChannel (ChConn p) (set_events_ 0 (channel_ c)) P (w_kernel w) = (ch1, P1, k1) →
  TcpConnection.handleClose System.closeCallback p w =
    Ok (tt, mkWorld (w_tid w)
      (<[conn_loop_ c :=
           EventLoop.push_functor (FConnectDestroyed p) (set_poller_ (Some P1) x)]> (w_loops w))
      (w_tls w) (<[p := set_channel_ ch1 c]> (w_conns w))
      (set_connections_ (delete (name_ c) (connections_ (w_server w))) (w_server w))
      (w_strs w) k1 (w_oracle w) (w_clock w) (w_loggers w)
      (w_trace w ++ [EvConnection p (TcpConnection.connected c)])).
Proof.
  intros Henv Hth HP Hcall Hh Hcb Hsl Hu.
  destruct (handleClose_calls System.closeCallback w p c x P ch1 P1 k1 Henv HP Hh Hcb Hu) as (w2 & -> & Ew2 & Henv2).
  set (c1 := set_channel_ ch1 c) in *. set (x1 := set_poller_ (Some P1) x) in *.
  pose proof (load_conn_ok _ _ _ (ce_conn _ _ _ _ Henv2)) as Hload. unfold System.closeCallback, TcpServer.removeConnection.
  rewrite (bind_Ok _ _ _ _ _ (gets_ok _ _)).
  assert (Hs2 : w_server w2 = w_server w) by by rewrite Ew2.
  rewrite Hs2, Hsl. unfold EventLoop.runInLoop. change (conn_loop_ c) with (conn_loop_ c1).
  rewrite (bind_Ok _ _ _ _ _ (load_loop_ok _ _ _ (ce_loop _ _ _ _ Henv2))).
  rewrite (bind_Ok _ _ _ _ _ (gets_ok _ _)).
  assert (Hin : EventLoop.isInLoopThread x1 w2 = true).
  { unfold EventLoop.isInLoopThread. rewrite Ew2. apply Z.eqb_eq. exact Hth. }
  rewrite Hin. unfold TcpServer.removeConnectionInLoop.
  rewrite (bind_Ok _ _ _ _ _ (log_ok _ w2 (ce_log _ _ _ _ Henv2))).
  rewrite (bind_Ok _ _ _ _ _ Hload).
  unfold modify_server. rewrite (bind_Ok _ _ _ _ _ (modify_ok _ _)).
  erewrite queueInLoop_ok; [|exact (ce_loop _ _ _ _ Henv2)|exact (ce_log _ _ _ _ Henv2)].
  unfold queue_kernel, EventLoop.needs_wakeup.
  change (EventLoop.isInLoopThread x1 (set_w_server _ w2)) with (EventLoop.isInLoopThread x1 w2).
  rewrite Hin. cbn [negb orb].
  change (callingPendingFuntors_ x1) with (callingPendingFuntors_ x). rewrite Hcall.
  do 2 f_equal. rewrite Ew2. unfold set_w_kernel, set_w_loops, set_w_server; cbn.
  by rewrite insert_insert_eq.
Qed.

(** On another thread it is left to the server's loop [b]. *)
Lemma handleClose_other w p c x P ch1 P1 k1 b y :
  conn_env w p c x → poller_ x = Some P → connection_harmless p c → conn_closeCallback_ c = true →
  srv_loop_ (w_server w) = b → b ≠ conn_loop_ c → w_loops w !! b = Some y → threadId_ y ≠ w_tid w →
  EpollPoller.updateChannel (ChConn p) (set_events_ 0 (channel_ c)) P (w_kernel w) = (ch1, P1, k1) →
  TcpConnection.handleClose System.closeCallback p w =
    Ok (tt, set_w_trace (w_trace w ++ [EvConnection p (TcpConnection.connected c)])
      (set_w_kernel (eventfd_write (wakeupFd_ y) k1).1
        (set_w_conns (<[p := set_channel_ ch1 c]> (w_conns w))
          (set_w_loops (<[b := EventLoop.push_functor (FRemoveConnectionInLoop p) y]>
            (<[conn_loop_ c := set_poller_ (Some P1) x]> (w_loops w))) w)))).
Proof.
  intros Henv HP Hh Hcb Hb Hne Hy Hth Hu.
  destruct (handleClose_calls System.closeCallback w p c x P ch1 P1 k1 Henv HP Hh Hcb Hu) as (w2 & -> & Ew2 & Henv2).
  unfold System.closeCallback, TcpServer.removeConnection. rewrite (bind_Ok _ _ _ _ _ (gets_ok _ _)).
  assert (Hs2 : w_server w2 = w_server w) by by rewrite Ew2. rewrite Hs2, Hb.
  assert (Hy2 : w_loops w2 !! b = Some y) by (rewrite Ew2; wcbn; by rewrite lookup_insert_ne).
  unfold EventLoop.runInLoop.
  rewrite (bind_Ok _ _ _ _ _ (load_loop_ok _ _ _ Hy2)), (bind_Ok _ _ _ _ _ (gets_ok _ _)).
  assert (Hin : EventLoop.isInLoopThread y w2 = false).
  { unfold EventLoop.isInLoopThread. rewrite Ew2. wcbn. by apply Z.eqb_neq. }
  rewrite Hin, (queueInLoop_ok _ _ _ _ Hy2 (ce_log _ _ _ _ Henv2)).
  unfold queue_kernel, EventLoop.needs_wakeup. rewrite Hin. cbn [negb orb]. by rewrite Ew2.
Qed.

(** A round of pending functions of the server's loop with that call only. *)
Lemma remove_round_ok w p c x b y :
  w_conns w !! p = Some c → w_loops w !! conn_loop_ c = Some x → "asynclogger" ∈ w_loggers w →
  threadId_ x ≠ w_tid w → b ≠ conn_loop_ c → w_loops w !! b = Some y →
  pengdingFuntors_ y = [FRemoveConnectionInLoop p] → callingPendingFuntors_ y = false →
  System.doPendingFunctions b w =
    Ok (tt, set_w_kernel (eventfd_write (wakeupFd_ x) (w_kernel w)).1
      (set_w_server (set_connections_ (delete (name_ c) (connections_ (w_server w))) (w_server w))
        (set_w_loops (<[b := set_pengdingFuntors_ [] y]>
          (<[conn_loop_ c := EventLoop.push_functor (FConnectDestroyed p) x]> (w_loops w))) w))).
Proof.
  intros Hc Hx Hlog Hth Hne Hy Hpend Hcall.
  unfold System.doPendingFunctions, EventLoop.doPendingFunctions.
  rewrite (bind_Ok _ _ _ _ _ (modify_loop_ok _ _ _ _ Hy)).
  erewrite bind_Ok; [|apply load_loop_ok, lookup_insert_eq].
  rewrite (bind_Ok _ _ _ _ _ (store_loop_ok _ _ _)). cbn [EventLoop.swap_functors fst snd].
  change (pengdingFuntors_ (set_callingPendingFuntors_ true y)) with (pengdingFuntors_ y).
  rewrite Hpend. set (y1 := set_pengdingFuntors_ [] _). wcbn. rewrite insert_insert_eq.
  set (w1 := set_w_loops (<[b := y1]> (w_loops w)) w).
  assert (Hx1 : w_loops w1 !! conn_loop_ c = Some x) by (subst w1; wcbn; by rewrite lookup_insert_ne).
  match goal with |- bind _ _ ?u = _ => change u with w1 end.
  cbn [mapM_ System.run_functor]. rewrite bind_assoc.
  assert (E : TcpServer.removeConnectionInLoop p w1 =
    Ok (tt, set_w_kernel (eventfd_write (wakeupFd_ x) (w_kernel w)).1
      (set_w_loops (<[conn_loop_ c := EventLoop.push_functor (FConnectDestroyed p) x]> (w_loops w1))
        (set_w_server (set_connections_ (delete (name_ c) (connections_ (w_server w))) (w_server w)) w1)))).
  { unfold TcpServer.removeConnectionInLoop. rewrite (bind_Ok _ _ _ _ _ (log_ok _ w1 Hlog)).
    rewrite (bind_Ok _ _ _ _ _ (load_conn_ok p c w1 Hc)).
    unfold modify_server. rewrite (bind_Ok _ _ _ _ _ (modify_ok _ _)).
    erewrite queueInLoop_ok; [|exact Hx1|exact Hlog]. unfold queue_kernel, EventLoop.needs_wakeup, EventLoop.isInLoopThread.
    change (w_tid (set_w_server _ w1)) with (w_tid w). by rewrite (proj2 (Z.eqb_neq _ _)) by congruence. }
  rewrite (bind_Ok _ _ _ _ _ E), (bind_Ok _ _ _ _ _ (ret_Ok _ _)). clear E.
  erewrite bind_Ok; [|apply modify_loop_ok; wcbn; rewrite lookup_insert_ne by done; apply lookup_insert_eq].
  assert (Ey : set_callingPendingFuntors_ false y1 = set_pengdingFuntors_ [] y).
  { subst y1. unfold set_callingPendingFuntors_, set_pengdingFuntors_; cbn. by rewrite Hcall. }
  rewrite Ey. unfold Lifetime.drop_functors. cbn [omap list_omap Lifetime.functor_conn mapM_].
  assert (Hm : <[b := set_pengdingFuntors_ [] y]>
      (<[conn_loop_ c := EventLoop.push_functor (FConnectDestroyed p) x]> (<[b := y1]> (w_loops w))) =
    <[b := set_pengdingFuntors_ [] y]>
      (<[conn_loop_ c := EventLoop.push_functor (FConnectDestroyed p) x]> (w_loops w))).
  { apply map_eq. intros i. rewrite !lookup_insert. by repeat case_decide. }
  subst w1. wcbn. rewrite Hm. unfold set_w_loops, set_w_kernel, set_w_server; wcbn.
  set (w2 := mkWorld _ _ _ _ _ _ _ _ _ _ _).
  assert (Hheld : Lifetime.held p w2 = true).
  { apply orb_true_iff. right. unfold Lifetime.in_queue. apply existsb_exists.
    exists (conn_loop_ c, EventLoop.push_functor (FConnectDestroyed p) x). split.
    - apply list_elem_of_In, elem_of_map_to_list. subst w2; wcbn.
      rewrite lookup_insert_ne by done. apply lookup_insert_eq.
    - apply bool_decide_eq_true. cbn. rewrite omap_app. set_solver. }
  unfold Lifetime.release at 1. rewrite bind_assoc, (bind_Ok _ _ _ _ _ (gets_ok _ _)), Hheld. done.
Qed.

(** The second half: [connectDestroyed], on a connection still [kConnected]. *)
Lemma connectDestroyed_ok w p c x P ch2 P2 k2 ch3 P3 k3 :
  conn_env w p c x → poller_ x = Some P → connection_harmless p c → state_ c = kConnected →
  EpollPoller.updateChannel (ChConn p) (set_events_ 0 (channel_ c)) P (w_kernel w) = (ch2, P2, k2) →
  EpollPoller.removeChannel (ChConn p) ch2 P2 k2 = (ch3, P3, k3) →
  TcpConnection.connectDestroyed p w =
    Ok (tt, mkWorld (w_tid w) (<[conn_loop_ c := set_poller_ (Some P3) x]> (w_loops w))
      (w_tls w) (<[p := set_channel_ ch3 (set_state_ kDisconnected c)]> (w_conns w))
      (w_server w) (w_strs w) k3 (w_oracle w) (w_clock w) (w_loggers w)
      (w_trace w ++ [EvConnection p false])).
Proof.
  intros Henv HP Hh Hst Hu2 Hu3. pose proof (ce_conn _ _ _ _ Henv) as Hc.
  unfold TcpConnection.connectDestroyed.
  rewrite (bind_Ok _ _ _ _ _ (load_conn_ok _ _ _ Hc)), decide_True by done.
  rewrite bind_assoc, (bind_Ok _ _ _ _ _ (store_conn_ok _ _ w)), bind_assoc.
  destruct (stored_env w p c (set_state_ kDisconnected c) x Henv eq_refl eq_refl) as [w1 Ew1 Henv1].
  rewrite <- Ew1. change (channel_ c) with (channel_ (set_state_ kDisconnected c)) in Hu2.
  replace (w_kernel w) with (w_kernel w1) in Hu2 by by rewrite Ew1.
  destruct (disbaleAll_env w1 p _ x P ch2 P2 k2 Henv1 HP Hu2) as (w2 & E2 & Ew2 & Henv2).
  rewrite (bind_Ok _ _ _ _ _ E2).
  rewrite (bind_Ok _ _ _ _ _ (call_connection_ok w2 p _ (ce_conn _ _ _ _ Henv2) Hh)).
  destruct (traced_env w2 p _ _ (EvConnection p false) Henv2) as [w3 Ew3 Henv3].
  change (TcpConnection.connected _) with false. rewrite <- Ew3.
  replace k2 with (w_kernel w3) in Hu3 by by rewrite Ew3, Ew2.
  rewrite (remove_ok w3 p _ _ P2 ch3 P3 k3 Henv3 eq_refl Hu3).
  clear -Ew1 Ew2 Ew3. apply world_eq_ok; wcbn; rewrite ?Ew3; wcbn; rewrite ?Ew2; wcbn;
    rewrite ?Ew1; wcbn; cbn [conn_loop_ set_channel_ set_state_]; by rewrite ?insert_insert_eq.
Qed.

(** Nothing in any task queue holds [p]. *)
Definition unqueued (p : ptr) w : Prop :=
  ∀ l x, w_loops w !! l = Some x → p ∉ omap Lifetime.functor_conn (pengdingFuntors_ x).
Definition unmapped (p : ptr) w : Prop :=
  ∀ n, connections_ (w_server w) !! n ≠ Some p.

Lemma unheld p w : unqueued p w → unmapped p w → Lifetime.held p w = false.
Proof.
  intros Hq Hm. apply orb_false_iff. split; apply not_true_iff_false; intros Ht;
    apply existsb_exists in Ht as ([i y] & Hin & Hy);
    apply list_elem_of_In, elem_of_map_to_list in Hin; cbn in Hy.
  - apply Z.eqb_eq in Hy as ->. by apply (Hm i).
  - apply bool_decide_eq_true in Hy. by apply (Hq _ _ Hin).
Qed.

(** The last reference goes: the connection is destroyed and its socket closed. *)
Lemma release_ok p c w :
  unqueued p w → unmapped p w → w_conns w !! p = Some c → "asynclogger" ∈ w_loggers w →
  Lifetime.release p w =
    Ok (tt, set_w_conns (delete p (w_conns w))
              (set_w_trace (w_trace w ++ [EvClose (socket_ c)]) w)).
Proof.
  intros Hq Hm Hc Hlog. unfold Lifetime.release.
  rewrite (bind_Ok _ _ _ _ _ (gets_ok _ _)), (unheld _ _ Hq Hm), Hc. cbn [orb].
  rewrite bool_decide_false by done. cbn [negb when]. unfold Lifetime.destroy.
  rewrite (bind_Ok _ _ _ _ _ (load_conn_ok _ _ _ Hc)).
  rewrite (bind_Ok _ _ _ _ _ (log_ok _ _ Hlog)). unfold Socket.dtor.
  by rewrite (bind_Ok _ _ _ _ _ (emit_ok _ _)).
Qed.

(** A round of pending functions with a single [connectDestroyed]. *)
Lemma destroy_round_ok w p c x P ch2 P2 k2 ch3 P3 k3 :
  conn_env w p c x → poller_ x = Some P → connection_harmless p c → state_ c = kConnected →
  pengdingFuntors_ x = [FConnectDestroyed p] → callingPendingFuntors_ x = false →
  unmapped p w →
  (∀ l y, l ≠ conn_loop_ c → w_loops w !! l = Some y →
     p ∉ omap Lifetime.functor_conn (pengdingFuntors_ y)) →
  EpollPoller.updateChannel (ChConn p) (set_events_ 0 (channel_ c)) P (w_kernel w) = (ch2, P2, k2) →
  EpollPoller.removeChannel (ChConn p) ch2 P2 k2 = (ch3, P3, k3) →
  System.doPendingFunctions (conn_loop_ c) w =
    Ok (tt, mkWorld (w_tid w)
      (<[conn_loop_ c := set_pengdingFuntors_ [] (set_poller_ (Some P3) x)]> (w_loops w))
      (w_tls w) (delete p (w_conns w)) (w_server w) (w_strs w) k3 (w_oracle w) (w_clock w)
      (w_loggers w) (w_trace w ++ [EvConnection p false; EvClose (socket_ c)])).
Proof.
  intros Henv HP Hh Hst Hpend Hcall Hun Hq Hu2 Hu3. pose proof Henv as [Hc Hl Hpo Hch Hlog].
  unfold System.doPendingFunctions, EventLoop.doPendingFunctions.
  rewrite (bind_Ok _ _ _ _ _ (modify_loop_ok _ _ _ _ Hl)).
  erewrite bind_Ok; [|apply load_loop_ok, lookup_insert_eq].
  rewrite (bind_Ok _ _ _ _ _ (store_loop_ok _ _ _)). cbn [EventLoop.swap_functors fst snd].
  change (pengdingFuntors_ (set_callingPendingFuntors_ true x)) with (pengdingFuntors_ x).
  rewrite Hpend. wcbn. rewrite insert_insert_eq.
  set (x1 := set_pengdingFuntors_ [] _).
  assert (Henv1 : ∃ w1, w1 = set_w_loops (<[conn_loop_ c := x1]> (w_loops w)) w ∧
    conn_env w1 p c x1).
  { eexists. split; [done|]. split; try done. apply lookup_insert_eq. }
  destruct Henv1 as (w1 & Ew1 & Henv1). unfold set_w_loops in Ew1 |- *. wcbn. rewrite <- Ew1.
  cbn [mapM_ System.run_functor]. rewrite bind_assoc.
  replace (w_kernel w) with (w_kernel w1) in Hu2 by by rewrite Ew1.
  rewrite (bind_Ok _ _ _ _ _ (connectDestroyed_ok w1 p c x1 P ch2 P2 k2 ch3 P3 k3
    Henv1 HP Hh Hst Hu2 Hu3)), (bind_Ok _ _ _ _ _ (ret_Ok _ _)).
  erewrite bind_Ok; [|apply modify_loop_ok, lookup_insert_eq].
  unfold set_w_loops; wcbn. rewrite insert_insert_eq. rewrite Ew1; wcbn.
  rewrite insert_insert_eq. unfold Lifetime.drop_functors. cbn [omap list_omap Lifetime.functor_conn].
  cbn [mapM_]. set (w2 := mkWorld _ _ _ _ _ _ _ _ _ _ _).
  assert (Er : Lifetime.release p w2 = Ok (tt, set_w_conns (delete p (w_conns w2))
    (set_w_trace (w_trace w2 ++ [EvClose (socket_ c)]) w2))).
  { apply (release_ok p (set_channel_ ch3 (set_state_ kDisconnected c))); [| |apply lookup_insert_eq|done].
    - intros l y. unfold w2; wcbn. rewrite lookup_insert. case_decide as E.
      + intros [= <-]. cbn. by apply not_elem_of_nil.
      + intros Hy. by apply (Hq l).
    - exact Hun. }
  rewrite (bind_Ok _ _ _ _ _ Er). unfold ret. subst w2. unfold set_w_conns, set_w_trace; wcbn.
  rewrite delete_insert_eq, <- app_assoc. do 4 f_equal.
  subst x1. unfold set_callingPendingFuntors_, set_pengdingFuntors_, set_poller_; cbn.
  by rewrite Hcall.
Qed.

(** The queued calls of loop [l], on its own thread. *)
Definition own_tasks (l : ptr) : M (World K) unit :=
  let! x := load_loop l in
  modify (set_w_tid (threadId_ x)) ;;!
  System.doPendingFunctions l.

(** The peer closes connection [p] of loop [l]: its handler, then the calls this
    leaves to the server's loop [b], if that is another one, and to [l]. *)
Definition close_rounds (p l b : ptr) : M (World K) unit :=
  TcpConnection.handleClose System.closeCallback p ;;!
  when (negb (b =? l)) (own_tasks b) ;;!
  own_tasks l.

(** A loop with no calls queued or running. *)
Definition no_tasks (x : EventLoop) : Prop :=
  callingPendingFuntors_ x = false ∧ pengdingFuntors_ x = [].

(** What the server's side has done when only [connectDestroyed] is left. *)
Definition unlisted w (p : ptr) (c : TcpConnection) (x : EventLoop) (ch1 : Channel) (P1 : EpollPoller)
    (t : Z) (k : K) : World K :=
  mkWorld t
    (<[conn_loop_ c := EventLoop.push_functor (FConnectDestroyed p) (set_poller_ (Some P1) x)]> (w_loops w))
    (w_tls w) (<[p := set_channel_ ch1 c]> (w_conns w))
    (set_connections_ (delete (name_ c) (connections_ (w_server w))) (w_server w))
    (w_strs w) k (w_oracle w) (w_clock w) (w_loggers w)
    (w_trace w ++ [EvConnection p (TcpConnection.connected c)]).

Lemma close_unlists w p c x P ch1 P1 k1 y (b := srv_loop_ (w_server w)) :
  conn_env w p c x → threadId_ x = w_tid w → poller_ x = Some P → no_tasks x →
  connection_harmless p c → conn_closeCallback_ c = true →
  w_loops w !! b = Some y → no_tasks y → (b ≠ conn_loop_ c → threadId_ y ≠ threadId_ x) →
  EpollPoller.updateChannel (ChConn p) (set_events_ 0 (channel_ c)) P (w_kernel w) = (ch1, P1, k1) →
  ∃ t k, (∀ ep fd, interest k ep fd = interest k1 ep fd) ∧
    bind (TcpConnection.handleClose System.closeCallback p)
      (λ _, when (negb (b =? conn_loop_ c)) (own_tasks b)) w = Ok (tt, unlisted w p c x ch1 P1 t k).
Proof.
  intros Henv Hth HP [Hcall Hpend] Hh Hcb Hy [Hcally Hpendy] Hdiff Hu.
  destruct (Z.eqb_spec b (conn_loop_ c)) as [Eb|Hne]; cbn [negb when].
  { exists (w_tid w), k1. split; [done|].
    by rewrite (bind_Ok _ _ _ _ _ (handleClose_ok w p c x P ch1 P1 k1 Henv Hth HP Hcall Hh Hcb Eb Hu)). }
  rewrite (bind_Ok _ _ _ _ _ (handleClose_other w p c x P ch1 P1 k1 b y Henv HP Hh Hcb eq_refl Hne Hy
    ltac:(rewrite <- Hth; auto) Hu)).
  set (w1 := set_w_trace _ _). unfold own_tasks.
  assert (Hy1 : w_loops w1 !! b = Some (EventLoop.push_functor (FRemoveConnectionInLoop p) y))
    by apply lookup_insert_eq.
  rewrite (bind_Ok _ _ _ _ _ (load_loop_ok _ _ _ Hy1)), (bind_Ok _ _ _ _ _ (modify_ok _ _)).
  change (threadId_ (EventLoop.push_functor _ y)) with (threadId_ y).
  rewrite (remove_round_ok (set_w_tid (threadId_ y) w1) p (set_channel_ ch1 c) (set_poller_ (Some P1) x) b
    (EventLoop.push_functor (FRemoveConnectionInLoop p) y)); cycle 1.
  { apply lookup_insert_eq. }
  { subst w1; wcbn. cbn [conn_loop_ set_channel_]. rewrite lookup_insert_ne by done. apply lookup_insert_eq. }
  { apply (ce_log _ _ _ _ Henv). }
  { intros E. by apply Hdiff. }
  { exact Hne. }
  { exact Hy1. }
  { cbn. by rewrite Hpendy. }
  { exact Hcally. }
  exists (threadId_ y), (eventfd_write (wakeupFd_ x) (eventfd_write (wakeupFd_ y) k1).1).1.
  split; [intros ep fd; by rewrite !evw_interest|]. unfold unlisted. apply world_eq_ok; try reflexivity.
  assert (Ey : set_pengdingFuntors_ [] (EventLoop.push_functor (FRemoveConnectionInLoop p) y) = y).
  { unfold set_pengdingFuntors_, EventLoop.push_functor. cbn. rewrite <- Hpendy. by destruct y. }
  change (w_loops (set_w_kernel _ _)) with
    (<[b := set_pengdingFuntors_ [] (EventLoop.push_functor (FRemoveConnectionInLoop p) y)]>
      (<[conn_loop_ c := EventLoop.push_functor (FConnectDestroyed p) (set_poller_ (Some P1) x)]>
        (<[b := EventLoop.push_functor (FRemoveConnectionInLoop p) y]>
          (<[conn_loop_ c := set_poller_ (Some P1) x]> (w_loops w))))).
  rewrite Ey. apply map_eq. intros i. rewrite !lookup_insert. repeat case_decide; subst; congruence.
Qed.

(** C7: closing a connection. Let the peer close a connection that is
    established ([kConnected]), registered with epoll (ADDED) and held by no
    queued call; its handler runs on the thread of the connection's loop, which
    may be a loop of the pool or the server's own. Let the connection callback
    have no effect on this state, and let these two loops have nothing queued.
    Then [handleClose], the round of pending functions of the server's loop (if
    that is another loop, on another thread) and that of the connection's loop
    together call the connection callback twice (the first time with
    [connected()] still true), close the socket exactly once, after both calls,
    and leave nothing behind: no connection object, no entry in the server's
    map, no channel in the poller and no registration in the kernel, even when
    [epoll_ctl] refuses the useless second registration; every other connection,
    loop and descriptor is untouched, and no call is left in the queues. *)
Theorem close_destroys_connection w p c x P y (b := srv_loop_ (w_server w)) :
  conn_env w p c x → threadId_ x = w_tid w → poller_ x = Some P → no_tasks x →
  w_loops w !! b = Some y → no_tasks y → (b ≠ conn_loop_ c → threadId_ y ≠ threadId_ x) →
  connection_harmless p c → conn_closeCallback_ c = true → state_ c = kConnected →
  server_inv w → index_ (channel_ c) = ADDED → unqueued p w →
  ∃ w' x' P', close_rounds p (conn_loop_ c) b w = Ok (tt, w') ∧
    w_trace w' = w_trace w ++
      [EvConnection p true; EvConnection p false; EvClose (socket_ c)] ∧
    w_conns w' = delete p (w_conns w) ∧
    connections_ (w_server w') = delete (name_ c) (connections_ (w_server w)) ∧ unmapped p w' ∧
    w_loops w' = <[conn_loop_ c := x']> (w_loops w) ∧ pengdingFuntors_ x' = [] ∧
    poller_ x' = Some P' ∧ epollfd_ P' = epollfd_ P ∧
    channels_ P' = delete (fd_ (channel_ c)) (channels_ P) ∧
    interest (w_kernel w') (epollfd_ P) (fd_ (channel_ c)) = None ∧
    (∀ ep fd, ¬ (ep = epollfd_ P ∧ fd = fd_ (channel_ c)) →
       interest (w_kernel w') ep fd = interest (w_kernel w) ep fd).
Proof.
  intros Henv Hth HP Hx Hy Hty Hdiff Hh Hcb Hst Hinv Hidx Hunq.
  destruct (EpollPoller.updateChannel (ChConn p) (set_events_ 0 (channel_ c)) P (w_kernel w))
    as [[ch1 P1] k1] eqn:E1.
  destruct (close_unlists w p c x P ch1 P1 k1 y Henv Hth HP Hx Hh Hcb Hy Hty Hdiff E1) as (t & k & Hk & Ec).
  destruct Hx as [Hcall Hpend].
  destruct (EpollPoller.updateChannel (ChConn p) (set_events_ 0 ch1) P1 k) as [[ch2 P2] k2] eqn:E2.
  destruct (EpollPoller.removeChannel (ChConn p) ch2 P2 k2) as [[ch3 P3] k3] eqn:E3.
  destruct (close_sequence _ _ _ _ _ _ _ _ _ _ _ _ _ _ Hidx E1 Hk E2 E3) as (_ & Hchs & Hep & Hi & Hfr).
  subst b. unfold close_rounds. rewrite <- bind_assoc, (bind_Ok _ _ _ _ _ Ec).
  unfold unlisted, TcpConnection.connected, own_tasks. rewrite bool_decide_true by done.
  set (w1 := mkWorld _ _ _ _ _ _ _ _ _ _ _).
  assert (Hun : unmapped p w1).
  { intros n Hn. cbn in Hn. apply lookup_delete_Some in Hn as [Hne Hn].
    destruct (si_live _ Hinv _ _ Hn) as (c' & Hc' & Hn').
    rewrite (ce_conn _ _ _ _ Henv) in Hc'. by simplify_eq. }
  assert (Hl1 : w_loops w1 !! conn_loop_ c = Some
    (EventLoop.push_functor (FConnectDestroyed p) (set_poller_ (Some P1) x))) by apply lookup_insert_eq.
  rewrite (bind_Ok _ _ _ _ _ (load_loop_ok _ _ _ Hl1)), (bind_Ok _ _ _ _ _ (modify_ok _ _)).
  change (threadId_ (EventLoop.push_functor _ _)) with (threadId_ x).
  change (System.doPendingFunctions (conn_loop_ c)) with
    (System.doPendingFunctions (conn_loop_ (set_channel_ ch1 c))).
  rewrite (destroy_round_ok (set_w_tid (threadId_ x) w1) p (set_channel_ ch1 c)
    (EventLoop.push_functor (FConnectDestroyed p) (set_poller_ (Some P1) x)) P1 ch2 P2 k2 ch3 P3 k3);
    try done.
  - eexists _, (set_pengdingFuntors_ [] (set_poller_ (Some P3) (EventLoop.push_functor
      (FConnectDestroyed p) (set_poller_ (Some P1) x)))), P3. split; [done|]. subst w1; wcbn. split_and!; try done.
    + by rewrite <- app_assoc.
    + by rewrite delete_insert_eq.
    + apply insert_insert_eq.
  - destruct Henv. split; try done; [apply lookup_insert_eq..|].
    by rewrite (updateChannel_shape _ _ _ _ _ _ _ E1).
  - cbn. by rewrite Hpend.
  - intros l z Hne. subst w1; wcbn. rewrite lookup_insert_ne by (intros E; by apply Hne).
    apply Hunq.
Qed.
End closing.

(** ** Calls that go through the task queue *)
Section queued.
Context {K : Type} `{KernelOk K} `{InetLib} `{UserCode K}.
Implicit Types w : World K.

(** The tasks of the loop of [c]. *)
Definition tasks w (c : TcpConnection) : list Functor :=
  match w_loops w !! conn_loop_ c with Some x => pengdingFuntors_ x | None => [] end.

(** [queueInLoop] from connection [p], with the environment afterwards. *)
Lemma queue_env w p c x f :
  conn_env w p c x →
  ∃ w', EventLoop.queueInLoop (conn_loop_ c) f w = Ok (tt, w') ∧
    conn_env w' p c (EventLoop.push_functor f x) ∧ tasks w' c = tasks w c ++ [f] ∧
    w_tid w' = w_tid w ∧ w_conns w' = w_conns w ∧ w_trace w' = w_trace w ∧
    w_strs w' = w_strs w ∧ w_clock w' = w_clock w ∧ w_oracle w' = w_oracle w.
Proof.
  intros [Hc Hl Hpo Hch Hlog].
  destruct (queue_ok (conn_loop_ c) f x w p Hl Hlog) as (w' & E & Hf & Hcs & Ht & Hck & Hls & _).
  exists w'. split; [done|]. unfold tasks. rewrite Hls, lookup_insert_eq, Hl.
  split_and!; try done; try apply Hf. split; try done.
  - by rewrite Hcs.
  - by rewrite Hls, lookup_insert_eq.
  - by rewrite (cf_loggers _ _ _ Hf).
Qed.

(** C39: [send] from a thread other than the loop's queues the address of the
    caller's bytes, not the bytes. If the caller's string is gone when the
    loop gets to the task, the loop reads freed memory, unless the connection
    was shut down in between. *)
Theorem cross_thread_send_dangles w p c x s :
  conn_env w p c x → threadId_ x ≠ w_tid w → state_ c = kConnected → s ≠ [] →
  ∃ w' buf, with_string s (TcpConnection.send p) w = Ok (tt, w') ∧
    tasks w' c = tasks w c ++ [FSendInLoop p buf (zlen s)] ∧ w_strs w' = w_strs w ∧
    w_trace w' = w_trace w ∧ w_conns w' = w_conns w ∧
    ∀ w'', w_strs w'' = w_strs w' →
      (∀ c'', w_conns w'' !! p = Some c'' → state_ c'' ≠ kDisconnected) →
      System.run_functor (FSendInLoop p buf (zlen s)) w'' = Fault Dangling.
Proof.
  intros Henv Hth Hst Hs. unfold with_string.
  rewrite (bind_Ok _ _ _ _ _ (gets_ok _ _)), (bind_Ok _ _ _ _ _ (modify_ok _ _)).
  pose proof (fresh_addr_new (w_strs w)) as Hbuf. set (buf := fresh_addr (w_strs w)) in *.
  set (w1 := set_w_strs _ w).
  assert (Henv1 : conn_env w1 p c x) by (destruct Henv; by split).
  destruct (queue_env w1 p c x (FSendInLoop p buf (zlen s)) Henv1) as
    (w2 & E2 & _ & Htk & Htid & Hcs & Ht & Hss & _ & _).
  assert (E1 : TcpConnection.send p buf w1 = Ok (tt, w2)).
  { unfold TcpConnection.send.
    rewrite (bind_Ok _ _ _ _ _ (load_conn_ok _ _ _ (ce_conn _ _ _ _ Henv1))).
    rewrite decide_True by done.
    rewrite (bind_Ok _ _ _ _ _ (load_loop_ok _ _ _ (ce_loop _ _ _ _ Henv1))).
    rewrite (bind_Ok _ _ _ _ _ (gets_ok _ _)). unfold EventLoop.isInLoopThread.
    change (w_tid w1) with (w_tid w). rewrite (proj2 (Z.eqb_neq _ _)) by done.
    rewrite (bind_Ok _ _ w1 s w1); [done|]. unfold TcpConnection.load_str.
    change (w_strs w1) with (<[buf := s]> (w_strs w)). by rewrite lookup_insert_eq. }
  rewrite (bind_Ok _ _ _ _ _ E1).
  assert (Hdel : delete buf (w_strs w2) = w_strs w).
  { rewrite Hss. change (w_strs w1) with (<[buf := s]> (w_strs w)). by apply delete_insert_id. }
  eexists _, buf. split; [apply modify_ok|]. wcbn. split_and!; try done.
  intros w'' Hw'' Hup. cbn [System.run_functor]. unfold TcpConnection.run_sendInLoop.
  destruct (w_conns w'' !! p) as [c''|] eqn:Hc''.
  - rewrite (bind_Ok _ _ _ _ _ (load_conn_ok _ _ _ Hc'')).
    rewrite decide_False by by apply Hup. rewrite (proj2 (Z.eqb_neq _ _)).
    + rewrite (bind_Fault _ _ _ Dangling); [done|]. unfold TcpConnection.load_str.
      by rewrite Hw'', Hdel, Hbuf.
    + intros ?%zlen_0_inv. done.
  - rewrite (bind_Fault _ _ _ Dangling); [done|]. unfold load_conn. by rewrite Hc''.
Qed.

(** The bytes waiting in the output buffer. *)
Definition backlog (c : TcpConnection) : Z := zlen (Buffer.content (outputBuffer_ c)).

(** Whether adding [n] bytes to the backlog reaches the high-water mark. *)
Definition crosses (c : TcpConnection) (n : Z) : bool :=
  bool_decide (backlog c < highWaterMark_ c ∧ highWaterMark_ c ≤ backlog c + n).

(** C35: on a connection with a backlog, [sendInLoop] adds the data to the
    output buffer and queues the high-water callback exactly when this makes
    the backlog reach the mark. A connection whose callback was never set, as
    every connection [TcpServer] makes, then has a task that throws
    [std::bad_function_call]. *)
Theorem high_water_mark_signalled w p c x data :
  conn_env w p c x → Buffer.wf (outputBuffer_ c) → state_ c ≠ kDisconnected →
  Channel.isWriting (channel_ c) = true → data ≠ [] → highWaterMark_ c ≠ 0 →
  Buffer.writerIndex_ (outputBuffer_ c) + zlen data ≤ max_size →
  ∃ w' c', TcpConnection.sendInLoop p data w = Ok (tt, w') ∧ w_conns w' !! p = Some c' ∧
    Buffer.content (outputBuffer_ c') = Buffer.content (outputBuffer_ c) ++ data ∧
    tasks w' c = tasks w c ++
      (if crosses c (zlen data)
       then [FHighWaterMark (highWaterMarkCallback_ c) p (backlog c + zlen data)] else []) ∧
    (∀ q n w'', System.run_functor (FHighWaterMark None q n) w'' = Fault BadFunctionCall).
Proof.
  intros Henv Hb Hst Hwr Hdata Hmark Hmax. pose proof Henv as [Hc Hl Hpo Hch Hlog].
  assert (Hdl : 0 < zlen data).
  { pose proof (zlen_nonneg data). destruct (decide (zlen data = 0)) as [E|]; [|lia].
    by apply zlen_0_inv in E. }
  assert (Hold : 0 ≤ backlog c) by apply zlen_nonneg.
  assert (Hbk : backlog c + zlen data ≤ max_size).
  { unfold backlog. rewrite <- readableBytes_content, readableBytes_wf by done. buffer_unfold.
    unfold Buffer.CHEAP_PREPEND in *. lia. }
  unfold TcpConnection.sendInLoop. rewrite (bind_Ok _ _ _ _ _ (load_conn_ok _ _ _ Hc)).
  rewrite decide_False by done. unfold TcpConnection.try_write. rewrite Hwr. cbn [negb andb].
  rewrite (bind_Ok _ _ _ _ _ (ret_Ok _ _)), (proj2 (Z.ltb_lt 0 _)) by done. cbn [negb andb when].
  unfold TcpConnection.buffer_rest. rewrite (bind_Ok _ _ _ _ _ (load_conn_ok _ _ _ Hc)).
  rewrite readableBytes_content by done. fold (backlog c).
  rewrite (wrap64_small (backlog c + zlen data)) by (unfold max_size in *; lia).
  assert (Hcr : (highWaterMark_ c <=? backlog c + zlen data) && (backlog c <? highWaterMark_ c) &&
    negb (highWaterMark_ c =? 0) = crosses c (zlen data)).
  { unfold crosses. apply eq_true_iff_eq. rewrite bool_decide_eq_true, !andb_true_iff.
    rewrite Z.leb_le, Z.ltb_lt, negb_true_iff, Z.eqb_neq. tauto. }
  rewrite Hcr.
  assert (Hq : ∃ w1 x1, when (crosses c (zlen data)) (EventLoop.queueInLoop (conn_loop_ c)
      (FHighWaterMark (highWaterMarkCallback_ c) p (backlog c + zlen data))) w = Ok (tt, w1) ∧
    conn_env w1 p c x1 ∧ tasks w1 c = tasks w c ++
      (if crosses c (zlen data)
       then [FHighWaterMark (highWaterMarkCallback_ c) p (backlog c + zlen data)] else [])).
  { destruct (crosses c (zlen data)); cbn [when].
    - destruct (queue_env w p c x (FHighWaterMark (highWaterMarkCallback_ c) p
        (backlog c + zlen data)) Henv) as (w1 & E & Henv1 & Htk & _). eauto.
    - exists w, x. by rewrite app_nil_r. }
  destruct Hq as (w1 & x1 & E1 & Henv1 & Htk). rewrite (bind_Ok _ _ _ _ _ E1).
  rewrite mem_read_Ok by lia. cbn [lift].
  rewrite (bind_Ok _ _ w1 (slice 0 (zlen data) data) w1) by done. rewrite slice_all by lia.
  destruct (append_ok data (outputBuffer_ c)) as (out & Ea & Hwf & Hcont & Hsize); [done..|].
  rewrite Ea. cbn [lift]. rewrite (bind_Ok _ _ w1 out w1), (bind_Ok _ _ _ _ _ (store_conn_ok _ _ w1)) by done.
  rewrite Hwr. cbn [negb when]. do 2 eexists. split; [done|]. split; [apply lookup_insert_eq|].
  split; [done|]. split; [exact Htk|done].
Qed.

(** One round of [sendFileInLoop] on an idle connection: what the kernel sent,
    and what is queued. *)
Lemma sendFile_round w p c x fd offset count :
  conn_env w p c x → Buffer.wf (outputBuffer_ c) → Buffer.content (outputBuffer_ c) = [] →
  state_ c ≠ kDisconnected → Channel.isWriting (channel_ c) = false →
  0 ≤ sr_ret (answer w) → 0 < count < 2 ^ 63 →
  ∃ w' x', TcpConnection.sendFileInLoop p fd offset count w = Ok (tt, w') ∧ conn_env w' p c x' ∧
    w_trace w' =
      w_trace w ++ [EvSendfile (socket_ c) fd offset (Z.min (sr_ret (answer w)) count)] ∧
    tasks w' c = tasks w c ++
      (if sr_ret (answer w) <? count
       then [FSendFileInLoop p fd (offset + sr_ret (answer w)) count]
       else if bool_decide (is_Some (writeCompleteCallback_ c))
            then [FWriteComplete (writeCompleteCallback_ c) p] else []) ∧
    w_clock w' = S (w_clock w) ∧ w_oracle w' = w_oracle w.
Proof.
  intros Henv Hb Hcont Hst Hwr Hans Hcount. unfold TcpConnection.sendFileInLoop.
  rewrite (bind_Ok _ _ _ _ _ (load_conn_ok _ _ _ (ce_conn _ _ _ _ Henv))).
  rewrite decide_False by done. rewrite Hwr, readable_0, bool_decide_true by done. cbn [negb andb].
  unfold sys_sendfile. rewrite !bind_assoc, (bind_Ok _ _ _ _ _ (syscall_ok w)).
  rewrite (proj2 (Z.ltb_ge _ 0)) by done. rewrite !bind_assoc, (bind_Ok _ _ _ _ _ (emit_ok _ _)).
  cbv beta iota. rewrite ?bind_assoc, (bind_Ok _ _ _ _ _ (ret_Ok _ _)). set (w1 := set_w_trace _ _).
  assert (Henv1 : conn_env w1 p c x) by (destruct Henv; by split).
  cbv beta iota. rewrite wrap64_small by lia. rewrite bind_assoc.
  destruct (Z.ltb_spec (sr_ret (answer w)) count) as [Hlt|Hge].
  - rewrite Z.min_l by lia. rewrite (proj2 (Z.eqb_neq _ 0)) by lia. cbn [when].
    rewrite (bind_Ok _ _ _ _ _ (ret_Ok _ _)), (bind_Ok _ _ _ _ _ (ret_Ok _ _)).
    rewrite (proj2 (Z.ltb_lt 0 _)) by lia. cbn [negb andb when].
    destruct (queue_env w1 p c x (FSendFileInLoop p fd (offset + sr_ret (answer w)) count) Henv1)
      as (w2 & E & Henv2 & Htk & _ & _ & Ht & _ & Hck & Ho).
    exists w2, (EventLoop.push_functor (FSendFileInLoop p fd (offset + sr_ret (answer w)) count) x).
    split_and!; try done. rewrite Ht. subst w1; wcbn. by rewrite Z.min_l by lia.
  - rewrite Z.min_r, Z.sub_diag by lia. cbn [Z.eqb when].
    unfold TcpConnection.queue_write_complete. case_bool_decide; cbn [when].
    + destruct (queue_env w1 p c x (FWriteComplete (writeCompleteCallback_ c) p) Henv1)
        as (w2 & E & Henv2 & Htk & _ & _ & Ht & _ & Hck & Ho).
      rewrite (bind_Ok _ _ _ _ _ E), (bind_Ok _ _ _ _ _ (ret_Ok _ _)). cbn [Z.ltb andb when].
      exists w2, (EventLoop.push_functor (FWriteComplete (writeCompleteCallback_ c) p) x).
      split_and!; try done. rewrite Ht. subst w1; wcbn. by rewrite Z.min_r by lia.
    + rewrite (bind_Ok _ _ _ _ _ (ret_Ok _ _)), (bind_Ok _ _ _ _ _ (ret_Ok _ _)).
      cbn. exists w1, x. rewrite app_nil_r. split_and!; try done. subst w1; wcbn.
      by rewrite Z.min_r by lia.
Qed.

(** C40: [sendFile] does not send what it was asked to when the kernel takes a
    part only. The rest is queued with the original count: after a first part
    of [n] bytes the next round asks for [count] bytes again and, if the file
    and the socket allow, sends them, [n] more than requested. *)
Theorem sendFile_oversends w p c x fd offset count :
  conn_env w p c x → Buffer.wf (outputBuffer_ c) → Buffer.content (outputBuffer_ c) = [] →
  state_ c ≠ kDisconnected → Channel.isWriting (channel_ c) = false →
  0 < sr_ret (answer w) < count → count < 2 ^ 63 → count ≤ sr_ret (w_oracle w (S (w_clock w))) →
  ∃ w1 w2, TcpConnection.sendFileInLoop p fd offset count w = Ok (tt, w1) ∧
    tasks w1 c = tasks w c ++ [FSendFileInLoop p fd (offset + sr_ret (answer w)) count] ∧
    System.run_functor (FSendFileInLoop p fd (offset + sr_ret (answer w)) count) w1 = Ok (tt, w2) ∧
    w_trace w2 = w_trace w ++
      [EvSendfile (socket_ c) fd offset (sr_ret (answer w));
       EvSendfile (socket_ c) fd (offset + sr_ret (answer w)) count] ∧
    count < sr_ret (answer w) + count.
Proof.
  intros Henv Hb Hcont Hst Hwr Hans Hcount Hans2.
  destruct (sendFile_round w p c x fd offset count) as
    (w1 & x1 & E1 & Henv1 & Ht1 & Htk1 & Hck1 & Ho1); [done..|lia|lia|].
  rewrite (proj2 (Z.ltb_lt _ count)) in Htk1 by lia.
  assert (Ha : answer w1 = w_oracle w (S (w_clock w))) by (unfold answer; by rewrite Hck1, Ho1).
  destruct (sendFile_round w1 p c x1 fd (offset + sr_ret (answer w)) count) as
    (w2 & x2 & E2 & _ & Ht2 & _); [done..|rewrite Ha; lia|lia|].
  exists w1, w2. split_and!; try done; [|lia].
  rewrite Ht2, Ht1, Ha, <- app_assoc, Z.min_l, Z.min_r by lia. done.
Qed.
End queued.

Section witnesses.
Local Instance demo_user : UserCode RefKernel.t := silent_user.

(** The connection is on loop 1, which is a loop of the pool; the server's own
    loop is at 5, on thread 105. *)
Definition demo_base_loop : EventLoop :=
  mkEventLoop true false 105 0 (Some (mkEpollPoller 5 ∅ 6 16)) 8
    (mkChannel 5 8 3 0 ADDED None false (Some (CbLoopHandleRead 5)) None None None) [] false [].
Definition demo_pool_close : World RefKernel.t :=
  let w := demo_world (λ _, ret_only 0) in
  set_w_loops (<[5 := demo_base_loop]> (w_loops w))
    (set_w_server (mkTcpServer 5 "127.0.0.1:8080" "srv" demo_acceptor
      (mkEventLoopThreadPool 5 "srv" true 1 0 ["srv0"] [1]) (Some 1) (Some 2) (Some 3) None 1 2
      (connections_ (w_server w))) w).

Lemma demo_pool_close_inv : server_inv demo_pool_close.
Proof.
  destruct (demo_server_inv (λ _, ret_only 0)) as [Hl Hn Hid _]. split; [exact Hl|exact Hn|exact Hid|right].
  split; [done|]. by vm_compute.
Qed.

(** The kernel's answers do not matter here. *)
Lemma close_destroys_connection_witness :
  let w := demo_pool_close in
  let c := demo_conn in let P := demo_poller in
  ∃ w' x' P', close_rounds 9 (conn_loop_ c) 5 w = Ok (tt, w') ∧
    w_trace w' = w_trace w ++
      [EvConnection 9 true; EvConnection 9 false; EvClose (socket_ c)] ∧
    w_conns w' = delete 9 (w_conns w) ∧
    connections_ (w_server w') = delete (name_ c) (connections_ (w_server w)) ∧ unmapped 9 w' ∧
    w_loops w' = <[conn_loop_ c := x']> (w_loops w) ∧ pengdingFuntors_ x' = [] ∧
    poller_ x' = Some P' ∧ epollfd_ P' = epollfd_ P ∧
    channels_ P' = delete (fd_ (channel_ c)) (channels_ P) ∧
    interest (w_kernel w') (epollfd_ P) (fd_ (channel_ c)) = None ∧
    (∀ ep fd, ¬ (ep = epollfd_ P ∧ fd = fd_ (channel_ c)) →
       interest (w_kernel w') ep fd = interest (w_kernel w) ep fd).
Proof.
  intros w c P. apply (close_destroys_connection w 9 c demo_loop P demo_base_loop); try done.
  - by exists 1.
  - apply demo_pool_close_inv.
  - intros l x Hx. apply (lookup_insert_Some {[1 := demo_loop]} 5 l demo_base_loop x) in Hx as [[_ <-]|[_ Hx]].
    + by apply not_elem_of_nil.
    + apply (lookup_singleton_Some 1 l demo_loop x) in Hx as [_ <-]. by apply not_elem_of_nil.
Defined.

Lemma cross_thread_send_dangles_witness :
  let w := set_w_tid 200 (demo_world (λ _, ret_only 0)) in
  ∃ w' buf, with_string [x68; x69] (TcpConnection.send 9) w = Ok (tt, w') ∧
    tasks w' demo_conn = tasks w demo_conn ++ [FSendInLoop 9 buf (zlen [x68; x69])] ∧
    w_strs w' = w_strs w ∧ w_trace w' = w_trace w ∧ w_conns w' = w_conns w ∧
    ∀ w'', w_strs w'' = w_strs w' →
      (∀ c'', w_conns w'' !! 9 = Some c'' → state_ c'' ≠ kDisconnected) →
      System.run_functor (FSendInLoop 9 buf (zlen [x68; x69])) w'' = Fault Dangling.
Proof.
  intros w. apply (cross_thread_send_dangles w 9 demo_conn demo_loop); [|done..].
  by split.
Defined.

(** The demo connection after the kernel took none of the byte "h", with the
    mark at 3. *)
Definition demo_backlogged : TcpConnection :=
  set_highWaterMark_ 3
    (set_channel_ (set_events_ 7 demo_conn_channel)
      (set_outputBuffer_ (match Buffer.append [x68] (Buffer.ctor 1024) with
                          | Ok b => b | Fault _ => Buffer.ctor 1024 end) demo_conn)).

Lemma high_water_mark_signalled_witness :
  let c := demo_backlogged in
  let w := demo_world_of demo_loop c (λ _, ret_only 0) in
  ∃ w' c', TcpConnection.sendInLoop 9 [x68; x69] w = Ok (tt, w') ∧ w_conns w' !! 9 = Some c' ∧
    Buffer.content (outputBuffer_ c') = Buffer.content (outputBuffer_ c) ++ [x68; x69] ∧
    tasks w' c = tasks w c ++
      (if crosses c (zlen [x68; x69])
       then [FHighWaterMark (highWaterMarkCallback_ c) 9 (backlog c + zlen [x68; x69])] else []) ∧
    (∀ q n (w'' : World RefKernel.t),
       System.run_functor (FHighWaterMark None q n) w'' = Fault BadFunctionCall).
Proof.
  intros c w. apply (high_water_mark_signalled w 9 c demo_loop); done.
Defined.

(** The kernel sends 3 bytes, then 5. *)
Lemma sendFile_oversends_witness :
  let w := demo_world (λ n, ret_only (if decide (n = 0%nat) then 3 else 5)) in
  ∃ w1 w2, TcpConnection.sendFileInLoop 9 12 0 5 w = Ok (tt, w1) ∧
    tasks w1 demo_conn = tasks w demo_conn ++ [FSendFileInLoop 9 12 (0 + 3) 5] ∧
    System.run_functor (FSendFileInLoop 9 12 (0 + 3) 5) w1 = Ok (tt, w2) ∧
    w_trace w2 = w_trace w ++ [EvSendfile 7 12 0 3; EvSendfile 7 12 (0 + 3) 5] ∧
    5 < 3 + 5.
Proof.
  intros w. apply (sendFile_oversends w 9 demo_conn demo_loop 12 0 5); done.
Defined.
End witnesses.
