(* ===== verification/LoopThread.v ===== *)
(** * A loop in a thread of its own (src/EventLoopThread.cpp, src/Thread.cpp)

    [startLoop], [threadFunc] and the destructor of [EventLoopThread] as the
    steps of two threads: the one that owns the object and the one it starts.
    The loop in between is that of [LoopSched.v], with the steps of its own
    thread and of the others.  The owner holds a pointer into the stack of the
    other thread; whether it points to anything is [alive]. *)

From stdpp Require Import base tactics numbers list relations gmap strings pretty.
From Stdlib Require Import ZArith Lia.
From S2P Require Import Prelude NetBuffer Kernel World Poller Demo Loop LoopSched.

Local Open Scope Z_scope.

(** ** The wrapper of [std::thread] *)
Module Thread.
Record t := mk {
  started_ : bool;
  joined_ : bool;
  tid_ : Z;
  name_ : string }.

(** The counter [numCreated_], an atomic [int], and the name as they are left. *)
Definition setDefaultName (numCreated : Z) (name : string) : Z * string :=
  let num := int32 (numCreated + 1) in
  (num, if decide (name = "") then "Thread" +:+ pretty num else name).

Definition ctor (numCreated : Z) (name : string) : Z * t :=
  let r := setDefaultName numCreated name in (r.1, mk false false 0 r.2).

(** The parts of [start] and [join] that change the object, and the test of the
    destructor. *)
Definition set_started (th : t) : t := mk true (joined_ th) (tid_ th) (name_ th).
Definition set_tid (tid : Z) (th : t) : t := mk (started_ th) (joined_ th) tid (name_ th).
Definition join (th : t) : t := mk (started_ th) true (tid_ th) (name_ th).
Definition detaches (th : t) : bool := started_ th && negb (joined_ th).
End Thread.

Module LoopThread.
(** The owner. *)
Inductive owner_pc :=
  | New        (* constructed *)
  | InStart    (* in [Thread::start], before [sem_wait] has returned *)
  | InWait     (* in [startLoop], before [cond_.wait] has returned *)
  | Started    (* [startLoop] has returned *)
  | InQuit     (* in the destructor: [loop_] was not null; before [quit_ = true] *)
  | InWakeup   (* in [quit], before [wakeup] *)
  | InJoin     (* before [thread_.join] has returned *)
  | Destroyed.

(** The thread. *)
Inductive thread_pc :=
  | NoThread
  | AtBegin    (* before [sem_post] *)
  | AtInit     (* in [threadFunc], before [EventLoop loop] *)
  | AtPublish  (* before [loop_ = &loop] *)
  | InLoop     (* in [loop.loop()] *)
  | AtReturn   (* [loop_] is null again; before [loop] is destroyed *)
  | Over.

#[export] Instance thread_pc_eq_dec : EqDecision thread_pc.
Proof. solve_decision. Defined.

Section steps.
Context {K : Type} `{Kernel K}.

(** [the_loop] is the thread's [EventLoop]; it lives as long as [alive] says. *)
Record t := mk {
  owner : owner_pc;
  thread : thread_pc;
  loop_ : bool;
  exiting_ : bool;
  thread_ : Thread.t;
  the_loop : option (sched K);
  alive : bool }.
Implicit Types (x : t) (s : sched K).

Definition ctor (th : Thread.t) : t := mk New NoThread false false th None false.

Definition set_owner (p : owner_pc) x : t :=
  mk p (thread x) (loop_ x) (exiting_ x) (thread_ x) (the_loop x) (alive x).
Definition set_loop s x : t :=
  mk (owner x) (thread x) (loop_ x) (exiting_ x) (thread_ x) (Some s) (alive x).

(** The two halves of [quit] by another thread. *)
Definition quit_flag s : sched K :=
  mkSched (set_quit_ true (s_loop s)) (s_kernel s) (s_pc s) (S (s_wakers s)) (s_pushed s) (s_done s)
    (if begun (s_pc s) then S (s_quits s) else s_quits s).
Definition quit_wakeup s : sched K :=
  mkSched (s_loop s) (eventfd_write (wakeupFd_ (s_loop s)) (s_kernel s)).1 (s_pc s)
    (pred (s_wakers s)) (s_pushed s) (s_done s) (s_quits s).

(** [startLoop] and the destructor. A destructor that finds [loop_] null does
    not join; the destructor of [thread_] then detaches the thread, if any.
    [quit] on a loop that is not alive is no step: it is undefined. *)
Inductive owner_step x : t → Prop :=
  | ow_start :
      owner x = New →
      owner_step x (mk InStart AtBegin (loop_ x) (exiting_ x) (Thread.set_started (thread_ x)) (the_loop x) (alive x))
  | ow_posted : owner x = InStart → thread x ≠ AtBegin → owner_step x (set_owner InWait x)
  | ow_return : owner x = InWait → loop_ x = true → owner_step x (set_owner Started x)
  | ow_destroy_null :
      owner x = New ∨ owner x = Started → loop_ x = false →
      owner_step x (mk Destroyed (thread x) false true (thread_ x) (the_loop x) (alive x))
  | ow_destroy :
      owner x = Started → loop_ x = true →
      owner_step x (mk InQuit (thread x) true true (thread_ x) (the_loop x) (alive x))
  | ow_quit s :
      owner x = InQuit → the_loop x = Some s → alive x = true →
      owner_step x (set_owner InWakeup (set_loop (quit_flag s) x))
  | ow_wakeup s :
      owner x = InWakeup → the_loop x = Some s → alive x = true →
      owner_step x (set_owner InJoin (set_loop (quit_wakeup s) x))
  | ow_joined :
      owner x = InJoin → thread x = Over →
      owner_step x (mk Destroyed (thread x) (loop_ x) (exiting_ x) (Thread.join (thread_ x)) (the_loop x) (alive x)).

(** The thread's function; [callback_], which runs between the construction of
    the loop and its publication, is [EventLoopThread.call_init] of
    [LoopPool.v] and here queues nothing. *)
Inductive thread_step x : t → Prop :=
  | th_begin tid :
      thread x = AtBegin →
      thread_step x (mk (owner x) AtInit (loop_ x) (exiting_ x) (Thread.set_tid tid (thread_ x))
        (the_loop x) (alive x))
  | th_init s :
      thread x = AtInit → LoopSched.initial s →
      thread_step x (mk (owner x) AtPublish (loop_ x) (exiting_ x) (thread_ x) (Some s) true)
  | th_publish :
      thread x = AtPublish →
      thread_step x (mk (owner x) InLoop true (exiting_ x) (thread_ x) (the_loop x) (alive x))
  | th_loop s s' :
      thread x = InLoop → the_loop x = Some s → loop_step s s' → thread_step x (set_loop s' x)
  | th_ended s :
      thread x = InLoop → the_loop x = Some s → s_pc s = AtEnd →
      thread_step x (mk (owner x) AtReturn false (exiting_ x) (thread_ x) (the_loop x) (alive x))
  | th_return :
      thread x = AtReturn →
      thread_step x (mk (owner x) Over (loop_ x) (exiting_ x) (thread_ x) (the_loop x) false).

(** Other threads call [queueInLoop] and [quit] on the published loop; the
    wakeup the owner owes stays its own. *)
Inductive outside_step x : t → Prop :=
  | out_step s s' :
      thread x = InLoop ∨ thread x = AtReturn → the_loop x = Some s → other_step s s' →
      (owner x = InWakeup → (0 < s_wakers s')%nat) →
      outside_step x (set_loop s' x).

Definition step x x' : Prop := owner_step x x' ∨ thread_step x x' ∨ outside_step x x'.

(** From an object whose [thread_] is new. *)
Definition reachable x : Prop := ∃ n name, rtc step (ctor (Thread.ctor n name).2) x.
End steps.
Arguments t : clear implicits.

(** ** Invariant *)

(** The positions of the thread at which its loop exists, and has been built;
    at which it has been published, and has ended. *)
Definition lives (p : thread_pc) : bool :=
  match p with AtPublish | InLoop | AtReturn => true | _ => false end.
Definition built (p : thread_pc) : bool := match p with Over => true | _ => lives p end.
Definition published (p : thread_pc) : bool :=
  match p with InLoop | AtReturn | Over => true | _ => false end.
Definition ended (p : thread_pc) : bool :=
  match p with AtReturn | Over => true | _ => false end.

(** What the owner's position says of the thread's. *)
Definition owner_knows (o : owner_pc) (p : thread_pc) : Prop :=
  match o with
  | New => p = NoThread
  | Started | InQuit | InWakeup | InJoin => published p = true
  | _ => True
  end.

Section invariant.
Context {K : Type} `{KernelOk K}.
Implicit Types (x : t K) (s : sched K).

Record loop_inv (o : owner_pc) (p : thread_pc) s : Prop := {
  li_reachable : LoopSched.reachable s;
  li_ended : ended p = true → s_pc s = AtEnd;
  li_wakeup : o = InWakeup → (0 < s_wakers s)%nat }.

Record thread_inv x : Prop := {
  ti_loop : loop_ x = bool_decide (thread x = InLoop);
  ti_alive : alive x = lives (thread x);
  ti_owner : owner_knows (owner x) (thread x);
  ti_built : built (thread x) = bool_decide (is_Some (the_loop x));
  ti_sched s : the_loop x = Some s → loop_inv (owner x) (thread x) s }.

Lemma thread_inv_ctor th : thread_inv (ctor th).
Proof. by split. Qed.

Lemma reachable_step s s' : LoopSched.reachable s → LoopSched.step s s' → LoopSched.reachable s'.
Proof. intros (s0 & Hi & Hr) Hs. exists s0. split; [done|]. by eapply rtc_r. Qed.

Lemma quit_flag_step s : LoopSched.step s (quit_flag s).
Proof. destruct s. right. apply o_quit. Qed.

Lemma quit_wakeup_step s : (0 < s_wakers s)%nat → LoopSched.step s (quit_wakeup s).
Proof. destruct s as [x k p [|n] ps ds q]; cbn; [lia|]. intros _. right. apply o_wakeup. Qed.

Lemma other_step_pc s s' : other_step s s' → s_pc s' = s_pc s.
Proof. by intros []. Qed.

(** The owner's position matters to the loop only in [InWakeup]. *)
Lemma loop_inv_owner o o' p s : o' ≠ InWakeup → loop_inv o p s → loop_inv o' p s.
Proof. intros Ho [Hr He _]. by split. Qed.

Lemma thread_inv_owner x x' : owner_step x x' → thread_inv x → thread_inv x'.
Proof.
  intros Hs [Hl Ha Ho Hb Hi].
  destruct Hs as [Eo|Eo Et|Eo El|Eo El|Eo El|s Eo Es Hal|s Eo Es Hal|Eo Et];
    try rewrite Eo in Ho; split; cbn in *; rewrite ?Es in *; try done;
    try (intros s' E; by eapply loop_inv_owner, Hi); try (by rewrite Ho in *).
  - intros s' E. cbn in Ho. rewrite Ho, E in Hb. by cbn in Hb.
  - rewrite El in Hl. symmetry in Hl. apply bool_decide_eq_true in Hl. by rewrite Hl.
  - by rewrite <- Hl, El.
  - by rewrite <- Hl, El.
  - intros s' [= <-]. destruct (Hi s eq_refl) as [Hr He _]. split; [|done|cbn; lia].
    by eapply reachable_step, quit_flag_step.
  - intros s' [= <-]. destruct (Hi s eq_refl) as [Hr He Hw]. split; [|done|done].
    eapply reachable_step; [done|]. by apply quit_wakeup_step, Hw.
Qed.

Lemma thread_inv_thread x x' : thread_step x x' → thread_inv x → thread_inv x'.
Proof.
  intros Hs [Hl Ha Ho Hb Hi].
  assert (Hown : ∀ p, published (thread x) = true → published p = true →
    owner_knows (owner x) p) by (intros p E1 E2; destruct (owner x); try done; cbn in Ho; by rewrite Ho in E1).
  assert (Hown' : ∀ p, published (thread x) = false → thread x ≠ NoThread → owner_knows (owner x) p)
    by (intros p E1 E2; destruct (owner x); cbn in *; congruence).
  destruct Hs as [tid Et|s Et Hs|Et|s s' Et Es Hs|s Et Es Hp|Et];
    rewrite Et in *; split; cbn in *; rewrite ?Es in *; eauto; try done.
  - intros s' E. rewrite E in Hb. by cbn in Hb.
  - intros s' [= <-]. split; [by exists s|done|]. intros Eo. by rewrite Eo in Ho.
  - intros s' E. destruct (Hi s' E) as [Hr _ Hw]. by split.
  - by rewrite Et.
  - by rewrite Et.
  - by rewrite Et.
  - by rewrite Et.
  - intros s2 [= <-]. destruct (Hi s eq_refl) as [Hr He Hw]. split; [|by rewrite Et|].
    + eapply reachable_step; [done|]. by left.
    + intros Eo. specialize (Hw Eo). by destruct Hs.
  - intros s' [= <-]. destruct (Hi s eq_refl) as [Hr _ Hw]. by split.
  - intros s' E. by destruct (Hi s' E).
Qed.

Lemma thread_inv_outside x x' : outside_step x x' → thread_inv x → thread_inv x'.
Proof.
  intros [s s' Ht Es Hs Hw] [Hl Ha Ho Hb Hi]. split; cbn in *; try done; [by rewrite Es in Hb|].
  intros s2 [= <-]. destruct (Hi s Es) as [Hr He _]. split; [|by rewrite (other_step_pc _ _ Hs)|done].
  eapply reachable_step; [done|]. by right.
Qed.

Lemma thread_inv_reachable x : reachable x → thread_inv x.
Proof.
  intros (n & name & Hr). pose proof (thread_inv_ctor (Thread.ctor n name).2) as Hi.
  induction Hr as [|x1 x2 x3 [Hs|[Hs|Hs]] _ IH]; [done|..]; apply IH;
    eauto using thread_inv_owner, thread_inv_thread, thread_inv_outside.
Qed.

(** C23: the pointer [startLoop] returns. Under every interleaving, from the
    return of [startLoop] to the end of the destructor's [quit], the loop is
    one whose constructor has run, and [loop_] is null or points to it while it
    lives; and it lives, with the destructor's next step defined, as long as
    nobody's [quit] has reached it after it began to loop. *)
Theorem startLoop_loop_lives x :
  reachable x → owner x = Started ∨ owner x = InQuit ∨ owner x = InWakeup →
  ∃ s, the_loop x = Some s ∧ LoopSched.reachable s ∧ (loop_ x = true → alive x = true) ∧
    (s_quits s = 0%nat → alive x = true ∧ loop_ x = true ∧
       (owner x ≠ Started → ∃ x', owner_step x x')).
Proof.
  intros Hr Hst. destruct (thread_inv_reachable _ Hr) as [Hl Ha Ho Hb Hi].
  assert (Hp : published (thread x) = true) by (destruct Hst as [E|[E|E]]; by rewrite E in Ho).
  destruct (the_loop x) as [s|] eqn:Es; [|by destruct (thread x)].
  destruct (Hi s eq_refl) as [Hrs He _]. exists s. split_and!; [done..| |].
  - rewrite Hl, bool_decide_eq_true, Ha. by intros ->.
  - intros Hq. destruct (quit_counted_reachable s Hrs) as [_ Hend].
    assert (Et : thread x = InLoop) by (destruct (thread x); cbn in *; try done; specialize (Hend (He eq_refl)); lia).
    rewrite Hl, Ha, Et. split_and!; [done..|]. intros Hne.
    assert (Hal : alive x = true) by by rewrite Ha, Et.
    destruct Hst as [?|[E|E]]; [done|..]; eexists; [by eapply ow_quit|by eapply ow_wakeup].
Qed.

(** ** The destructor *)

(** A step in which the loop, if it takes part, does not rely on a timeout. *)
Definition prompt x x' : Prop :=
  step x x' ∧ ∀ s s', the_loop x = Some s → the_loop x' = Some s' → s' = s ∨ prompt_step s s'.

Lemma prompt_lift x s s' :
  owner x = InJoin → thread x = InLoop → the_loop x = Some s → rtc prompt_step s s' →
  rtc prompt x (set_loop s' x).
Proof.
  intros Ho Ht Hs Hr. revert x Ho Ht Hs. induction Hr as [s|s1 s2 s3 H12 _ IH]; intros x Ho Ht Hs.
  - replace (set_loop s x) with x; [done|]. destruct x; cbn in *. by subst.
  - eapply rtc_l; [|by apply (IH (set_loop s2 x))]. split.
    + right. destruct H12 as [s1 s2 H12 _|y k p n ps ds q].
      * left. by eapply th_loop.
      * right. eapply out_step; [by left|done|apply o_wakeup|]. by rewrite Ho.
    + intros s s' E1 [= <-]. rewrite Hs in E1. injection E1 as <-. by right.
Qed.

(** The destructor can come to its end. *)
Definition comes_back x : Prop :=
  ∃ x', rtc prompt x x' ∧ owner x' = Destroyed ∧ Thread.detaches (thread_ x') = false ∧ alive x' = false ∧ loop_ x' = false.

(** A step that leaves the loop alone is prompt. *)
Lemma comes_back_step x x' :
  step x x' → the_loop x' = the_loop x → comes_back x' → comes_back x.
Proof.
  intros Hs E (y & Hr & Hy). exists y. split; [|done]. eapply rtc_l; [|exact Hr].
  split; [done|]. intros s s' E1 E2. left. congruence.
Qed.

Lemma over_comes_back x :
  owner x = InJoin → thread x = Over → alive x = false → loop_ x = false → comes_back x.
Proof.
  intros Ho Ht Ha Hl. eapply comes_back_step; [left; by apply ow_joined|done|].
  eexists. split; [apply rtc_refl|]. split_and!; try done. apply andb_false_r.
Qed.

Lemma return_comes_back x : owner x = InJoin → thread x = AtReturn → loop_ x = false → comes_back x.
Proof.
  intros Ho Ht Hl. eapply comes_back_step; [right; left; by apply th_return|done|].
  by apply over_comes_back.
Qed.

(** C24: the destructor comes back. If its [quit] reached the loop after it
    had begun, then at every later moment the thread can end, without waiting
    for a timeout or an event, and the destructor returns: the thread is
    joined and its loop destroyed. *)
Theorem destructor_can_join x s :
  reachable x → owner x = InJoin → the_loop x = Some s → (0 < s_quits s)%nat →
  ∃ x', rtc prompt x x' ∧ owner x' = Destroyed ∧ Thread.detaches (thread_ x') = false ∧ alive x' = false ∧ loop_ x' = false.
Proof.
  intros Hr Ho Es Hq. fold (comes_back x).
  pose proof (thread_inv_reachable _ Hr) as [Hl Ha Hown Hb Hi].
  rewrite Ho in Hown. cbn in Hown. destruct (Hi s Es) as [Hrs He _].
  destruct (thread x) eqn:Et; try done; cbn in *.
  - destruct (quit_can_end s Hrs Hq) as (s' & Hs' & Hend).
    assert (Hc : comes_back (set_loop s' x)).
    { eapply comes_back_step; [right; left; by eapply (th_ended _ s')|done|]. by apply return_comes_back. }
    destruct Hc as (x' & Hx & ?). exists x'. split; [|done]. etrans; [by apply (prompt_lift x s s')|done].
  - by apply return_comes_back; rewrite ?Hl.
  - by apply over_comes_back; rewrite ?Hl, ?Ha.
Qed.

(** The object after [startLoop] of a thread whose loop is at [s]. *)
Definition a_thread : Thread.t := Thread.set_tid 1 (Thread.set_started (Thread.ctor 0 "").2).
Definition running s : t K := mk Started InLoop true false a_thread (Some s) true.

Lemma running_reachable s : LoopSched.initial s → reachable (running s).
Proof.
  intros Hs. exists 0, ""%string.
  eapply rtc_l; [left; by apply ow_start|]. eapply rtc_l; [right; left; by apply (th_begin _ 1)|].
  eapply rtc_l; [left; by apply ow_posted|]. eapply rtc_l; [right; left; by eapply (th_init _ s)|].
  eapply rtc_l; [right; left; by apply th_publish|]. apply rtc_once. left. by apply ow_return.
Qed.

Lemma reachable_rtc x x' : reachable x → rtc step x x' → reachable x'.
Proof. intros (n & name & Hr) Hs. exists n, name. by etrans. Qed.

Lemma destroy_quits s :
  rtc step (running s) (mk InJoin InLoop true true a_thread (Some (quit_wakeup (quit_flag s))) true).
Proof.
  set (x1 := mk InQuit InLoop true true a_thread (Some s) true).
  eapply (rtc_l _ _ x1); [left; by apply ow_destroy|].
  eapply (rtc_l _ _ (set_owner InWakeup (set_loop (quit_flag s) x1))); [left; by apply ow_quit|].
  apply rtc_once. left. by apply (ow_wakeup (set_owner InWakeup (set_loop (quit_flag s) x1)) (quit_flag s)).
Qed.

Lemma loop_lift x s s' :
  thread x = InLoop → the_loop x = Some s → rtc loop_step s s' → rtc step x (set_loop s' x).
Proof.
  intros Ht Hs Hr. revert x Ht Hs. induction Hr as [s|s1 s2 s3 H12 _ IH]; intros x Ht Hs.
  - replace (set_loop s x) with x; [done|]. destruct x; cbn in *. by subst.
  - eapply rtc_l; [right; left; by eapply th_loop|]. by apply (IH (set_loop s2 x)).
Qed.

(** C26: [quit] can touch a destroyed loop. Although the destructor is the only
    caller of [quit] and the loop is running, between the two halves of [quit]
    the thread can see the flag, leave the loop and return: [wakeup] then uses
    an [EventLoop] that no longer exists. *)
Theorem quit_touches_dead_loop s0 :
  LoopSched.initial s0 →
  ∃ x s, reachable x ∧ owner x = InWakeup ∧ the_loop x = Some s ∧ s_quits s = 1%nat ∧
    alive x = false ∧ ∀ x', ¬ owner_step x x'.
Proof.
  intros Hi. pose proof (running_reachable _ Hi) as Hr. destruct s0 as [y k p n ps ds q].
  destruct Hi as (Hp & Hn & Hps & Hds & Hq & _). cbn in *. subst.
  set (y2 := set_quit_ false (set_looping_ true y)).
  set (s3 := quit_flag (mkSched y2 k AtCheck 0 [] [] 0)).
  set (s4 := mkSched (set_looping_ false (s_loop s3)) k AtEnd 1 [] [] 1).
  exists (mk InWakeup Over false true a_thread (Some s4) false), s4.
  split_and!; try done; [|intros x' Hx; by inversion Hx; destruct_or?].
  eapply reachable_rtc; [exact Hr|].
  eapply rtc_l; [right; left; eapply th_loop; [done..|apply l_start]|].
  eapply rtc_l; [right; left; eapply th_loop; [done..|apply l_reset]|].
  eapply rtc_l; [left; by apply ow_destroy|]. eapply rtc_l; [left; by eapply ow_quit|].
  eapply rtc_l; [right; left; eapply (th_loop _ _ s4); [done..|by apply l_check_end]|].
  eapply rtc_l; [right; left; by eapply (th_ended _ s4)|]. apply rtc_once. right; left. by apply th_return.
Qed.

(** A step in which nobody calls [quit] on the loop. *)
Definition without_quit x x' : Prop :=
  step x x' ∧ ∀ s s', the_loop x = Some s → the_loop x' = Some s' → s_quits s' = s_quits s.

(** The loop turns and nobody has stopped it. *)
Definition turning x : Prop :=
  owner x = InJoin ∧ thread x = InLoop ∧
  ∃ s, the_loop x = Some s ∧ LoopSched.reachable s ∧ begun (s_pc s) = true ∧ s_quits s = 0%nat.

Lemma turning_step x x' : without_quit x x' → turning x → turning x'.
Proof.
  intros [Hs Hq] (Ho & Ht & s & Es & Hr & Hb & Hz).
  assert (Hloop : ∀ s', LoopSched.step s s' → x' = set_loop s' x → turning x').
  { intros s' H12 ->. split_and!; [done..|]. exists s'. split_and!; [done| | |].
    - by eapply reachable_step.
    - by eapply step_begun.
    - rewrite <- Hz. by apply Hq. }
  destruct Hs as [Hs|[Hs|Hs]].
  - destruct Hs; destruct_or?; congruence.
  - destruct Hs as [tid Et|s1 Et Hs|Et|s1 s' Et E Hs|s1 Et E Hp|Et]; try congruence.
    + rewrite Es in E. injection E as <-. apply (Hloop s'); [by left|done].
    + rewrite Es in E. injection E as <-. destruct (quit_counted_reachable _ Hr) as [_ He].
      specialize (He Hp). lia.
  - destruct Hs as [s1 s' _ E Hs _]. rewrite Es in E. injection E as <-. apply (Hloop s'); [by right|done].
Qed.

(** C27: the destructor can wait for ever. If it is called before the thread
    has entered [loop], its [quit] is lost: the loop comes to sleep with an
    empty queue and nothing to wake it, and unless somebody else calls [quit],
    [join] does not return, whatever the threads do. *)
Theorem early_destructor_hangs s0 :
  LoopSched.initial s0 →
  ∃ x s, reachable x ∧ owner x = InJoin ∧ the_loop x = Some s ∧
    s_pc s = AtPoll ∧ quit_ (s_loop s) = false ∧ s_wakers s = 0%nat ∧ count s = 0 ∧
    pengdingFuntors_ (s_loop s) = [] ∧
    ∀ x', rtc without_quit x x' → owner x' = InJoin.
Proof.
  intros Hi. pose proof (running_reachable _ Hi) as Hr. destruct s0 as [y k p n ps ds q].
  destruct Hi as (Hp & Hn & Hps & Hds & Hq & Hpend & _). cbn in *. subst.
  destruct (early_quit_lost y k Hpend) as (s & Hs & Hpc & Hqt & Hw & Hc & Hpd & Hqs).
  set (x1 := mk InJoin InLoop true true a_thread
    (Some (quit_wakeup (quit_flag (mkSched y k AtStart 0 [] [] 0)))) true).
  assert (Hr1 : reachable x1).
  { eapply reachable_rtc; [exact Hr|]. apply destroy_quits. }
  assert (Hr2 : reachable (set_loop s x1)).
  { eapply reachable_rtc; [exact Hr1|]. by eapply loop_lift. }
  exists (set_loop s x1), s. split_and!; try done. intros x' Hx.
  assert (Ht : turning (set_loop s x1)).
  { split_and!; [done..|]. exists s. split_and!; try done; [|by rewrite Hpc].
    by apply (ti_sched _ (thread_inv_reachable _ Hr2)). }
  clear -Hx Ht. induction Hx as [|y1 y2 y3 Hs _ IH]; [apply Ht|]. by eapply IH, turning_step.
Qed.
End invariant.
End LoopThread.

(** ** Concrete threads *)
Definition demo_started : LoopThread.t RefKernel.t :=
  LoopThread.running demo_sched0.

Lemma demo_sched0_initial : initial demo_sched0.
Proof. by split_and!. Qed.

Lemma demo_started_reachable : LoopThread.reachable demo_started.
Proof. apply LoopThread.running_reachable, demo_sched0_initial. Qed.

Lemma startLoop_loop_lives_witness :
  ∃ s, LoopThread.the_loop demo_started = Some s ∧ reachable s ∧
    (LoopThread.loop_ demo_started = true → LoopThread.alive demo_started = true) ∧
    (s_quits s = 0%nat → LoopThread.alive demo_started = true ∧ LoopThread.loop_ demo_started = true ∧
       (LoopThread.owner demo_started ≠ LoopThread.Started →
        ∃ x', LoopThread.owner_step demo_started x')).
Proof. apply LoopThread.startLoop_loop_lives; [apply demo_started_reachable|by left]. Defined.

(** The destructor has called [quit] on a loop that was about to check it. *)
Definition demo_quitted : sched RefKernel.t :=
  LoopThread.quit_wakeup (LoopThread.quit_flag (mkSched demo_polling demo_kernel AtCheck 0 [] [] 0)).
Definition demo_joining : LoopThread.t RefKernel.t :=
  LoopThread.mk LoopThread.InJoin LoopThread.InLoop true true LoopThread.a_thread (Some demo_quitted) true.

Lemma demo_joining_reachable : LoopThread.reachable demo_joining.
Proof.
  eapply LoopThread.reachable_rtc; [apply demo_started_reachable|].
  eapply rtc_l; [right; left; eapply LoopThread.th_loop; [done..|apply l_start]|].
  eapply rtc_l; [right; left; eapply LoopThread.th_loop; [done..|apply l_reset]|].
  apply LoopThread.destroy_quits.
Qed.

Lemma destructor_can_join_witness :
  ∃ x', rtc LoopThread.prompt demo_joining x' ∧ LoopThread.owner x' = LoopThread.Destroyed ∧
    Thread.detaches (LoopThread.thread_ x') = false ∧ LoopThread.alive x' = false ∧ LoopThread.loop_ x' = false.
Proof.
  apply (LoopThread.destructor_can_join demo_joining demo_quitted);
    [apply demo_joining_reachable|done|done|cbn; lia].
Defined.

Lemma quit_touches_dead_loop_witness :
  ∃ (x : LoopThread.t RefKernel.t) s, LoopThread.reachable x ∧ LoopThread.owner x = LoopThread.InWakeup ∧
    LoopThread.the_loop x = Some s ∧ s_quits s = 1%nat ∧ LoopThread.alive x = false ∧
    ∀ x', ¬ LoopThread.owner_step x x'.
Proof. apply (LoopThread.quit_touches_dead_loop demo_sched0), demo_sched0_initial. Defined.

Lemma early_destructor_hangs_witness :
  ∃ (x : LoopThread.t RefKernel.t) s, LoopThread.reachable x ∧ LoopThread.owner x = LoopThread.InJoin ∧
    LoopThread.the_loop x = Some s ∧ s_pc s = AtPoll ∧ quit_ (s_loop s) = false ∧
    s_wakers s = 0%nat ∧ count s = 0 ∧ pengdingFuntors_ (s_loop s) = [] ∧
    ∀ x', rtc LoopThread.without_quit x x' → LoopThread.owner x' = LoopThread.InJoin.
Proof. apply (LoopThread.early_destructor_hangs demo_sched0), demo_sched0_initial. Defined.
