(* ===== verification/LogBuffer.v ===== *)
(** * The logger's buffer (log_system/logs_code/AsyncBuffer.hpp)

    A vector with a read and a write position.  Its sizes come from the
    configuration ([Util::JsonData]), which is an argument. *)

From stdpp Require Import base tactics numbers list strings.
From Stdlib Require Import ZArith Lia.
From S2P Require Import Prelude.

Local Open Scope string_scope.
Local Open Scope list_scope.
Local Open Scope Z_scope.
Local Open Scope prog_scope.

(** [Util::JsonData]; the first four and the last are [size_t]. *)
Record JsonData := mkJsonData {
  cfg_buffer_size : Z;
  threadhold : Z;
  linear_growth : Z;
  flush_log : Z;
  backup_addr : string;
  backup_port : Z;
  thread_count : Z }.

(** A parsed configuration file, as far as jsoncpp is asked about it: what
    [root[name].asInt64()], [root[name].asInt()] and [root[name].asString()]
    give, [None] when the conversion throws [Json::LogicError]: the value is of
    a type that does not convert, or is out of the range of the result. *)
Record JsonValue := mkJsonValue {
  asInt64 : string → option Z;
  asInt : string → option Z;
  asString : string → option string }.

(** Nothing catches the exception: [std::terminate]. *)
Definition converted {A} (v : option A) : outcome A :=
  match v with Some a => Ok a | None => Fault Terminated end.

(** The constructor of [JsonData]. When there is no file it returns at once, and
    the members keep the zeros of a static object. *)
Definition JsonData_ctor (root : option JsonValue) : outcome JsonData :=
  match root with
  | None => Ok (mkJsonData 0 0 0 0 "" 0 0)
  | Some root =>
      let? buffer_size := converted (asInt64 root "buffer_size") in
      let? threadhold := converted (asInt64 root "threadhold") in
      let? linear_growth := converted (asInt64 root "linear_growth") in
      let? flush_log := converted (asInt64 root "flush_log") in
      let? backup_addr := converted (asString root "backup_addr") in
      let? backup_port := converted (asInt root "backup_port") in
      let? thread_count := converted (asInt root "thread_count") in
      Ok (mkJsonData (wrap64 buffer_size) (wrap64 threadhold) (wrap64 linear_growth)
        (wrap64 flush_log) backup_addr (backup_port mod 2 ^ 16) (wrap64 thread_count))
  end.

(** config.conf; a member that is not there converts to 0 or to the empty
    string, a number to its text, and a text to no number. *)
Definition shipped_numbers (name : string) : option Z :=
  match name with
  | "buffer_size" | "linear_growth" => Some 1048576
  | "threshold" => Some 4194304
  | "flush_log" => Some 1
  | "backup_addr" => None
  | "backup_port" => Some 6635
  | "thread_count" => Some 3
  | _ => Some 0
  end.
Definition shipped_root : JsonValue := mkJsonValue shipped_numbers shipped_numbers
  (λ name, Some match name with
           | "buffer_size" | "linear_growth" => "1048576"
           | "threshold" => "4194304"
           | "flush_log" => "1"
           | "backup_addr" => "127.0.0.1"
           | "backup_port" => "6635"
           | "thread_count" => "3"
           | _ => ""
           end).

(** What the constructor makes of it. *)
Definition shipped_config : JsonData :=
  mkJsonData 1048576 0 1048576 1 "127.0.0.1" 6635 3.

(** The file spells the key "threshold": the member stays 0. *)
Example shipped_values : JsonData_ctor (Some shipped_root) = Ok shipped_config.
Proof. reflexivity. Qed.

(** A configuration with a number of threads that no [int] holds ends the
    program. *)
Example too_many_threads :
  JsonData_ctor (Some (mkJsonValue shipped_numbers (λ _, None) (asString shipped_root))) = Fault Terminated.
Proof. reflexivity. Qed.

Module Buffer.
Record t := mk {
  buffer_ : list byte;
  write_pos_ : Z;
  read_pos_ : Z }.

Definition size (b : t) : Z := zlen (buffer_ b).

Section ops.
Context (cfg : JsonData).

Definition ctor : outcome t :=
  let? v := vec_resize (cfg_buffer_size cfg) [] in Ok (mk v 0 0).

Definition WriteableSize (b : t) : Z := wrap64 (size b - write_pos_ b).
Definition ReadableSize (b : t) : Z := wrap64 (write_pos_ b - read_pos_ b).
Definition IsEmpty (b : t) : bool := write_pos_ b =? read_pos_ b.

(** [buffer_size] is an [int]; the sums are of [size_t]. *)
Definition ToBeEnough (len : Z) (b : t) : outcome t :=
  let buffer_size := int32 (size b) in
  if WriteableSize b <=? len then
    let? v :=
      (if size b <? threadhold cfg
       then vec_resize (wrap64 (2 * size b + buffer_size)) (buffer_ b)
       else vec_resize (wrap64 (linear_growth cfg + buffer_size)) (buffer_ b)) in
    Ok (mk v (write_pos_ b) (read_pos_ b))
  else Ok b.

Definition Push (data : list byte) (b : t) : outcome t :=
  let? b := ToBeEnough (zlen data) b in
  let? v := mem_write (write_pos_ b) data (buffer_ b) in
  Ok (mk v (wrap64 (write_pos_ b + zlen data)) (read_pos_ b)).

(** Both buffers after [this->Swap(buf)]. *)
Definition Swap (this buf : t) : t * t := (buf, this).

(** The bytes from [Begin()] on, [ReadableSize()] of them. *)
Definition Readable (b : t) : outcome (list byte) :=
  mem_read (read_pos_ b) (ReadableSize b) (buffer_ b).

(** An [int] compared with a [size_t]. *)
Definition MoveWirtePos (len : Z) (b : t) : outcome t :=
  if wrap64 len <=? WriteableSize b
  then Ok (mk (buffer_ b) (wrap64 (write_pos_ b + len)) (read_pos_ b)) else Fault AssertFailure.
Definition MoveReadPos (len : Z) (b : t) : outcome t :=
  if wrap64 len <=? ReadableSize b
  then Ok (mk (buffer_ b) (write_pos_ b) (wrap64 (read_pos_ b + len))) else Fault AssertFailure.

Definition Reset (b : t) : t := mk (buffer_ b) 0 0.
End ops.

(** The bytes pushed and not yet read. *)
Definition content (b : t) : list byte :=
  slice (read_pos_ b) (write_pos_ b - read_pos_ b) (buffer_ b).

Definition wf (b : t) : Prop :=
  0 ≤ read_pos_ b ∧ read_pos_ b ≤ write_pos_ b ∧ write_pos_ b ≤ size b ∧ size b ≤ max_size.

(** The vector's size once [ToBeEnough(len)] has run. *)
Definition enough_size (cfg : JsonData) (len : Z) (b : t) : Z :=
  if WriteableSize b <=? len then
    if size b <? threadhold cfg then 3 * size b else linear_growth cfg + size b
  else size b.
End Buffer.

Import Buffer.

Section log_buffer.
Context (cfg : JsonData).

Lemma wf_writeable b : wf b → WriteableSize b = size b - write_pos_ b.
Proof. intros (? & ? & ? & ?). apply wrap64_small. unfold max_size in *. lia. Qed.

Lemma wf_readable b : wf b → ReadableSize b = write_pos_ b - read_pos_ b.
Proof. intros (? & ? & ? & ?). apply wrap64_small. unfold max_size in *. lia. Qed.

Lemma zlen_log_content b : wf b → zlen (content b) = write_pos_ b - read_pos_ b.
Proof. intros (? & ? & ? & ?). unfold content. apply zlen_slice; unfold size in *; lia. Qed.

Lemma Readable_ok b : wf b → Readable b = Ok (content b).
Proof.
  intros Hb. unfold Readable. rewrite wf_readable by done. destruct Hb as (? & ? & ? & ?).
  apply mem_read_Ok; unfold size in *; lia.
Qed.

Lemma IsEmpty_spec b : wf b → IsEmpty b = bool_decide (content b = []).
Proof.
  intros Hb. unfold IsEmpty. apply eq_true_iff_eq. rewrite Z.eqb_eq, bool_decide_eq_true.
  split.
  - intros E. apply zlen_0_inv. rewrite zlen_log_content by done. lia.
  - intros E. pose proof (zlen_log_content b Hb) as Hl. rewrite E, zlen_nil in Hl. lia.
Qed.

(** [ToBeEnough] keeps the content and makes the vector [enough_size] long, as
    long as the [int] does not truncate and the new size is allowed. *)
Lemma ToBeEnough_ok len b :
  wf b → size b < 2 ^ 31 → 0 ≤ linear_growth cfg → enough_size cfg len b ≤ max_size →
  ∃ b', ToBeEnough cfg len b = Ok b' ∧ wf b' ∧ size b' = enough_size cfg len b ∧
    write_pos_ b' = write_pos_ b ∧ read_pos_ b' = read_pos_ b ∧
    content b' = content b ∧ size b ≤ size b'.
Proof.
  intros Hb Hint Hlin Hmax. assert (0 ≤ size b) by apply zlen_nonneg.
  unfold ToBeEnough, enough_size in *. rewrite int32_small by lia.
  destruct (WriteableSize b <=? len); [|by exists b].
  assert (Hgrow : ∀ n, size b ≤ n ≤ max_size → ∃ b',
    obind (vec_resize (wrap64 n) (buffer_ b)) (λ v, Ok (mk v (write_pos_ b) (read_pos_ b)))
      = Ok b' ∧ wf b' ∧ size b' = n ∧ write_pos_ b' = write_pos_ b ∧ read_pos_ b' = read_pos_ b ∧
    content b' = content b ∧ size b ≤ size b').
  { intros n Hn. rewrite wrap64_small by (unfold max_size in *; lia).
    rewrite vec_resize_grow by done. cbn [obind]. eexists. split; [done|].
    destruct Hb as (? & ? & ? & ?). unfold wf, content, size in *; cbn [buffer_ write_pos_ read_pos_].
    rewrite zlen_app, zlen_replicate by lia. split_and!; try done; try lia.
    apply slice_app_l; lia. }
  destruct (size b <? threadhold cfg).
  - replace (2 * size b + size b) with (3 * size b) by lia. apply Hgrow. lia.
  - apply Hgrow. lia.
Qed.

Lemma slice_ztake i k n (l : list byte) :
  0 ≤ i → 0 ≤ k → i + k ≤ n → slice i k (ztake n l) = slice i k l.
Proof.
  intros. unfold slice. rewrite zdrop_ztake, ztake_ztake by lia. f_equal. lia.
Qed.

(** Whatever [ToBeEnough] did to the vector, a [Push] that returns has appended
    the data: if the vector had shrunk below it, the copy would have failed. *)
Lemma Push_appends data b b' :
  wf b → Push cfg data b = Ok b' → wf b' ∧ content b' = content b ++ data.
Proof.
  intros Hb E. pose proof (zlen_nonneg data). unfold Push in E.
  destruct (ToBeEnough cfg (zlen data) b) as [b1|] eqn:E1; [|done]. cbn [obind] in E.
  destruct (mem_write _ _ _) as [v|] eqn:E2 in E; [|done]. cbn [obind] in E. injection E as <-.
  assert (H1 : write_pos_ b1 = write_pos_ b ∧ read_pos_ b1 = read_pos_ b ∧
    zlen (buffer_ b1) ≤ max_size ∧
    (write_pos_ b ≤ zlen (buffer_ b1) → slice (read_pos_ b) (write_pos_ b - read_pos_ b) (buffer_ b1)
       = content b)).
  { assert (Hres : ∀ n v', 0 ≤ n → vec_resize n (buffer_ b) = Ok v' → zlen v' ≤ max_size ∧
      (write_pos_ b ≤ zlen v' →
         slice (read_pos_ b) (write_pos_ b - read_pos_ b) v' = content b)).
    { intros n v' Hn Ev. pose proof (zlen_vec_resize _ _ _ Hn Ev) as Hl.
      unfold vec_resize in Ev. destruct (Z.ltb_spec max_size n); [done|]. injection Ev as <-.
      split; [lia|]. intros Hw. rewrite Hl in Hw. destruct Hb as (? & ? & ? & ?). unfold size in *.
      rewrite slice_app_l by zlen_lia. apply slice_ztake; lia. }
    unfold ToBeEnough in E1. destruct (WriteableSize b <=? zlen data).
    - destruct (if size b <? threadhold cfg then _ else _) as [v'|] eqn:Ev in E1; [|done].
      injection E1 as <-. cbn [buffer_ write_pos_ read_pos_]. split_and!; try done.
      + destruct (size b <? threadhold cfg); eapply Hres in Ev; try apply Ev; apply wrap64_range.
      + destruct (size b <? threadhold cfg); eapply Hres in Ev; try apply Ev; apply wrap64_range.
    - injection E1 as <-. destruct Hb as (? & ? & ? & ?). by split_and!. }
  destruct H1 as (Hw1 & Hr1 & Hm1 & Hc1). rewrite Hw1 in *.
  unfold mem_write in E2.
  destruct (Z.leb_spec 0 (write_pos_ b)); [|done]. cbn [andb] in E2.
  destruct (Z.leb_spec (write_pos_ b + zlen data) (zlen (buffer_ b1))); [|done].
  injection E2 as <-. destruct Hb as (? & ? & ? & ?). specialize (Hc1 ltac:(lia)).
  unfold wf, size; unfold content at 1; cbn [buffer_ write_pos_ read_pos_].
  rewrite Hr1, wrap64_small by (unfold max_size in *; lia). rewrite zlen_splice by lia.
  split; [lia|].
  replace (write_pos_ b + zlen data - read_pos_ b)
    with ((write_pos_ b - read_pos_ b) + zlen data) by lia.
  rewrite slice_split, slice_splice_below, Hc1 by lia. f_equal.
  replace (read_pos_ b + (write_pos_ b - read_pos_ b)) with (write_pos_ b) by lia.
  apply slice_splice_same; lia.
Qed.

Lemma Push_fits data b :
  wf b → size b < 2 ^ 31 → 0 ≤ linear_growth cfg →
  enough_size cfg (zlen data) b ≤ max_size →
  write_pos_ b + zlen data ≤ enough_size cfg (zlen data) b →
  ∃ b', Push cfg data b = Ok b' ∧ wf b' ∧ content b' = content b ++ data ∧
    size b' = enough_size cfg (zlen data) b.
Proof.
  intros Hb Hint Hlin Hmax Hfit. pose proof (zlen_nonneg data).
  assert (0 ≤ write_pos_ b) by (destruct Hb; lia).
  destruct (ToBeEnough_ok (zlen data) b) as (b1 & E1 & Hb1 & Hs1 & Hw1 & Hr1 & Hc1 & Hle);
    [done..|]. unfold size in Hs1.
  assert (EP : Push cfg data b = Ok (mk (splice (write_pos_ b) data (buffer_ b1))
      (wrap64 (write_pos_ b + zlen data)) (read_pos_ b1))).
  { unfold Push. rewrite E1. cbn [obind]. by rewrite Hw1, mem_write_Ok by lia. }
  rewrite EP. eexists. split; [done|].
  destruct (Push_appends _ _ _ Hb EP) as [Hwf Hc]. split_and!; [done..|].
  rewrite <- Hs1. apply zlen_splice; lia.
Qed.

(** With more room than it needs a push leaves the vector's size alone. *)
Lemma Push_small data b :
  wf b → zlen data < WriteableSize b →
  ∃ b', Push cfg data b = Ok b' ∧ wf b' ∧ content b' = content b ++ data ∧ size b' = size b.
Proof.
  intros Hb Hroom. pose proof (zlen_nonneg data). pose proof (wf_writeable _ Hb) as Hw.
  assert (0 ≤ write_pos_ b) by (destruct Hb; lia).
  assert (EP : Push cfg data b = Ok (mk (splice (write_pos_ b) data (buffer_ b))
      (wrap64 (write_pos_ b + zlen data)) (read_pos_ b))).
  { unfold Push, ToBeEnough. rewrite (proj2 (Z.leb_gt _ _)) by lia. cbn [obind].
    by rewrite mem_write_Ok by (unfold size in *; lia). }
  rewrite EP. eexists. split; [done|]. destruct (Push_appends _ _ _ Hb EP) as [Hwf Hc].
  split_and!; [done..|]. unfold size in *. cbn. apply zlen_splice; lia.
Qed.

(** C36: [Push] either appends the data to the content, keeping the buffer
    well formed, or writes outside the vector: the latter exactly when the data
    does not fit even after the single growth step, which does not depend on
    the data's length. *)
Theorem log_push_cases data b :
  wf b → size b < 2 ^ 31 → 0 ≤ linear_growth cfg →
  enough_size cfg (zlen data) b ≤ max_size →
  (write_pos_ b + zlen data ≤ enough_size cfg (zlen data) b →
     ∃ b', Push cfg data b = Ok b' ∧ wf b' ∧ content b' = content b ++ data ∧
       size b' = enough_size cfg (zlen data) b) ∧
  (enough_size cfg (zlen data) b < write_pos_ b + zlen data →
     Push cfg data b = Fault OutOfBounds).
Proof.
  intros Hb Hint Hlin Hmax. split; [by apply Push_fits|]. intros Hfit.
  destruct (ToBeEnough_ok (zlen data) b) as (b1 & E1 & Hb1 & Hs1 & Hw1 & Hr1 & Hc1 & Hle);
    [done..|]. unfold Push. rewrite E1. cbn [obind]. rewrite Hw1.
  rewrite mem_write_OutOfBounds; [done|]. unfold size in Hs1. lia.
Qed.

(** A push that the predicate of the safe mode lets through never
    overruns, and it leaves the vector's size alone unless it fills the buffer
    exactly, in which case the vector grows. *)
Theorem safe_push_fits data b :
  wf b → size b < 2 ^ 31 → 0 ≤ linear_growth cfg →
  enough_size cfg (zlen data) b ≤ max_size → zlen data ≤ WriteableSize b →
  ∃ b', Push cfg data b = Ok b' ∧ wf b' ∧ content b' = content b ++ data ∧
    size b' = (if decide (zlen data = WriteableSize b)
               then if size b <? threadhold cfg then 3 * size b else linear_growth cfg + size b
               else size b).
Proof.
  intros Hb Hint Hlin Hmax Hroom. pose proof (wf_writeable _ Hb) as Hw.
  assert (0 ≤ size b) by apply zlen_nonneg.
  assert (Hfit : write_pos_ b + zlen data ≤ enough_size cfg (zlen data) b).
  { unfold enough_size. destruct (WriteableSize b <=? zlen data); [|lia].
    destruct (size b <? threadhold cfg); lia. }
  destruct (Push_fits data b) as (b' & E & Hb' & Hc' & Hs'); [done..|].
  exists b'. split_and!; try done. rewrite Hs'. unfold enough_size.
  destruct (Z.leb_spec (WriteableSize b) (zlen data)); case_decide; try done; lia.
Qed.
End log_buffer.

(** Three bytes of eight are taken; growing by four is not enough for ten. *)
Lemma log_push_cases_witness :
  let b := mk (replicate 8 x00) 3 0 in
  let cfg := mkJsonData 8 0 4 1 "" 0 0 in
  let data := replicate 10 x41 in
  (write_pos_ b + zlen data ≤ enough_size cfg (zlen data) b →
     ∃ b', Push cfg data b = Ok b' ∧ wf b' ∧ content b' = content b ++ data ∧
       size b' = enough_size cfg (zlen data) b) ∧
  (enough_size cfg (zlen data) b < write_pos_ b + zlen data →
     Push cfg data b = Fault OutOfBounds).
Proof. intros b cfg data. apply log_push_cases; [|by vm_compute..]. by split_and!. Defined.

Lemma safe_push_fits_witness :
  let b := mk (replicate 8 x00) 3 0 in
  let cfg := mkJsonData 8 16 4 1 "" 0 0 in
  let data := replicate 5 x41 in
  ∃ b', Push cfg data b = Ok b' ∧ wf b' ∧ content b' = content b ++ data ∧
    size b' = (if decide (zlen data = WriteableSize b)
               then if size b <? threadhold cfg then 3 * size b else linear_growth cfg + size b
               else size b).
Proof. intros b cfg data. apply safe_push_fits; [|by vm_compute..]. by split_and!. Defined.
