(* ===== verification/AsyncWorker.v ===== *)
(** * The asynchronous log worker (log_system/logs_code/AsyncWorker.hpp)

    Producers push log lines into one buffer; the worker's thread swaps it for
    the other and hands the content to the callback ([AsyncLogger::RealFlush]).
    The steps below are the critical sections of [mtx_], the accesses to the
    atomic [stop_] and the notifications, so every interleaving the mutex
    allows is a run.  A thread in [condition_variable::wait] is notified, or
    wakes spuriously. *)

From stdpp Require Import base tactics numbers list relations strings.
From Stdlib Require Import ZArith Lia.
From S2P Require Import Prelude LogBuffer.

Local Open Scope Z_scope.

Inductive AsyncType := ASYNC_SAFE | ASYNC_UNSAFE.

#[export] Instance AsyncType_eq_dec : EqDecision AsyncType.
Proof. solve_decision. Defined.

(** Where [ThreadEntry] is. *)
Inductive worker_pc :=
  | WEnter       (* about to lock [mtx_] and evaluate the wait's predicate *)
  | WMustWait    (* the predicate was false; [mtx_] held, not yet waiting *)
  | WWaiting     (* in [cond_consumer_.wait] *)
  | WHandle      (* unlocked, about to call [callback_] *)
  | WDone.       (* returned *)

#[export] Instance worker_pc_eq_dec : EqDecision worker_pc.
Proof. solve_decision. Defined.

(** [stoppers]: threads in [Stop] between [stop_ = true] and [notify_all].
    [blocked]: the data of the producers in [cond_productor_.wait]; [woken]: of
    those notified that have not evaluated the predicate again.  [accepted] and
    [delivered] are histories. *)
Record AsyncWorker := mkAsyncWorker {
  async_type_ : AsyncType;
  stop_ : bool;
  buffer_productor_ : Buffer.t;
  buffer_consumer_ : Buffer.t;
  worker : worker_pc;
  stoppers : nat;
  blocked : list (list byte);
  woken : list (list byte);
  accepted : list byte;
  delivered : list byte }.

Section worker.
Context (cfg : JsonData).
Implicit Types a : AsyncWorker.

(** [mtx_] is free. *)
Definition unlocked a : bool := match worker a with WMustWait => false | _ => true end.

(** The predicate of the producers' wait; an [ASYNC_UNSAFE] worker has none. *)
Definition has_room a (data : list byte) : bool :=
  match async_type_ a with
  | ASYNC_SAFE => zlen data <=? Buffer.WriteableSize (buffer_productor_ a)
  | ASYNC_UNSAFE => true
  end.

(** [cond_consumer_.notify]. *)
Definition notify_worker (w : worker_pc) : worker_pc :=
  match w with WWaiting => WEnter | _ => w end.

(** [buffer_productor_.Push(data, len); cond_consumer_.notify_one();] *)
Definition pushed (prod : Buffer.t) (data : list byte) (bl wk : list (list byte)) a : AsyncWorker :=
  mkAsyncWorker (async_type_ a) (stop_ a) prod (buffer_consumer_ a) (notify_worker (worker a))
    (stoppers a) bl wk (accepted a ++ data) (delivered a).

(** The predicate of the worker's wait. *)
Definition wake_up a : bool := stop_ a || negb (Buffer.IsEmpty (buffer_productor_ a)).

(** The critical section of [ThreadEntry] after the wait: the buffers after the
    swap, and whether there was one. *)
Definition swap_buffers a : Buffer.t * Buffer.t * bool :=
  if negb (Buffer.IsEmpty (buffer_productor_ a))
  then (Buffer.Swap (buffer_productor_ a) (buffer_consumer_ a), true)
  else (buffer_productor_ a, buffer_consumer_ a, false).

Definition set_worker (w : worker_pc) a : AsyncWorker :=
  mkAsyncWorker (async_type_ a) (stop_ a) (buffer_productor_ a) (buffer_consumer_ a) w
    (stoppers a) (blocked a) (woken a) (accepted a) (delivered a).

(** [callback_(buffer_consumer_); buffer_consumer_.Reset();] with the bytes the
    callback is given. *)
Definition handled (bytes : list byte) (w : worker_pc) a : AsyncWorker :=
  mkAsyncWorker (async_type_ a) (stop_ a) (buffer_productor_ a) (Buffer.Reset (buffer_consumer_ a)) w
    (stoppers a) (blocked a) (woken a) (accepted a) (delivered a ++ bytes).

(** [Push(data, len)] by a producer. *)
Inductive push_step (data : list byte) : AsyncWorker → AsyncWorker → Prop :=
  | push_refused a : unlocked a = true → stop_ a = true → push_step data a a
  | push_now a prod :
      unlocked a = true → stop_ a = false → has_room a data = true →
      Buffer.Push cfg data (buffer_productor_ a) = Ok prod →
      push_step data a (pushed prod data (blocked a) (woken a) a)
  | push_block a :
      unlocked a = true → stop_ a = false → has_room a data = false →
      push_step data a
        (mkAsyncWorker (async_type_ a) (stop_ a) (buffer_productor_ a) (buffer_consumer_ a)
           (worker a) (stoppers a) (blocked a ++ [data]) (woken a) (accepted a) (delivered a))
  (** back from the wait: [stop_] is not looked at again *)
  | push_later a prod w1 w2 :
      unlocked a = true → woken a = w1 ++ data :: w2 → has_room a data = true →
      Buffer.Push cfg data (buffer_productor_ a) = Ok prod →
      push_step data a (pushed prod data (blocked a) (w1 ++ w2) a)
  | push_block_again a w1 w2 :
      unlocked a = true → woken a = w1 ++ data :: w2 → has_room a data = false →
      push_step data a
        (mkAsyncWorker (async_type_ a) (stop_ a) (buffer_productor_ a) (buffer_consumer_ a)
           (worker a) (stoppers a) (blocked a ++ [data]) (w1 ++ w2) (accepted a) (delivered a))
  | push_spurious a b1 b2 :
      blocked a = b1 ++ data :: b2 →
      push_step data a
        (mkAsyncWorker (async_type_ a) (stop_ a) (buffer_productor_ a) (buffer_consumer_ a)
           (worker a) (stoppers a) (b1 ++ b2) (woken a ++ [data]) (accepted a) (delivered a)).

(** [cond_productor_.notify_one()] on a list of waiting producers. *)
Inductive notify_one : list (list byte) → list (list byte) → list (list byte) → list (list byte) → Prop :=
  | notify_none wk : notify_one [] wk [] wk
  | notify_some b1 d b2 wk : notify_one (b1 ++ d :: b2) wk (b1 ++ b2) (wk ++ [d]).

(** [ThreadEntry]. *)
Inductive thread_step : AsyncWorker → AsyncWorker → Prop :=
  | t_must_wait a : worker a = WEnter → wake_up a = false → thread_step a (set_worker WMustWait a)
  | t_wait a : worker a = WMustWait → thread_step a (set_worker WWaiting a)
  | t_spurious a : worker a = WWaiting → thread_step a (set_worker WEnter a)
  | t_section a prod cons swapped bl wk bytes :
      worker a = WEnter → wake_up a = true → swap_buffers a = (prod, cons, swapped) →
      (if (swapped : bool) && bool_decide (async_type_ a = ASYNC_SAFE)
       then notify_one (blocked a) (woken a) bl wk else bl = blocked a ∧ wk = woken a) →
      let a' := mkAsyncWorker (async_type_ a) (stop_ a) prod cons WEnter (stoppers a) bl wk
                  (accepted a) (delivered a) in
      Buffer.Readable cons = Ok bytes →
      thread_step a
        (if stop_ a && Buffer.IsEmpty prod then
           if negb (Buffer.IsEmpty cons) then handled bytes WDone a' else set_worker WDone a'
         else set_worker WHandle a')
  | t_handle a bytes :
      worker a = WHandle → Buffer.Readable (buffer_consumer_ a) = Ok bytes →
      thread_step a (handled bytes WEnter a).

(** [Stop()] up to the join. *)
Inductive stop_step : AsyncWorker → AsyncWorker → Prop :=
  | s_set a :
      stop_step a (mkAsyncWorker (async_type_ a) true (buffer_productor_ a) (buffer_consumer_ a)
        (worker a) (S (stoppers a)) (blocked a) (woken a) (accepted a) (delivered a))
  | s_notify a n :
      stoppers a = S n →
      stop_step a (mkAsyncWorker (async_type_ a) (stop_ a) (buffer_productor_ a) (buffer_consumer_ a)
        (notify_worker (worker a)) n (blocked a) (woken a) (accepted a) (delivered a)).

Definition step a a' : Prop :=
  (∃ data, push_step data a a') ∨ thread_step a a' ∨ stop_step a a'.

(** A producer whose [Push] on the buffer faults: the copy leaves the vector, or
    [resize] throws. It had got to its critical section as for [push_now] and
    [push_later]. *)
Definition may_push data a : Prop :=
  unlocked a = true ∧ (stop_ a = false ∨ data ∈ woken a) ∧ has_room a data = true.
Definition push_fault data a (f : fault) : Prop :=
  may_push data a ∧ Buffer.Push cfg data (buffer_productor_ a) = Fault f.

(** A worker that reads outside the buffer it hands over. *)
Definition thread_fault a (f : fault) : Prop :=
  (worker a = WEnter ∧ wake_up a = true ∧ Buffer.Readable (swap_buffers a).1.2 = Fault f) ∨
  (worker a = WHandle ∧ Buffer.Readable (buffer_consumer_ a) = Fault f).

(** What a run from [a0] can come to: another state, or a fault, which ends the
    program. *)
Definition comes_to a0 (o : outcome AsyncWorker) : Prop :=
  match o with
  | Ok a => rtc step a0 a
  | Fault f => ∃ a, rtc step a0 a ∧ ((∃ data, push_fault data a f) ∨ thread_fault a f)
  end.

(** A worker whose constructor has run: two empty buffers. *)
Definition initial a : Prop :=
  stop_ a = false ∧ worker a = WEnter ∧ stoppers a = 0%nat ∧ blocked a = [] ∧ woken a = [] ∧
  accepted a = [] ∧ delivered a = [] ∧
  Buffer.wf (buffer_productor_ a) ∧ Buffer.content (buffer_productor_ a) = [] ∧
  Buffer.wf (buffer_consumer_ a) ∧ Buffer.content (buffer_consumer_ a) = [].

Definition reachable a : Prop := ∃ a0, initial a0 ∧ rtc step a0 a.

(** ** Invariant *)

Record worker_inv a : Prop := {
  wi_prod : Buffer.wf (buffer_productor_ a);
  wi_cons : Buffer.wf (buffer_consumer_ a);
  wi_order : accepted a =
    delivered a ++ Buffer.content (buffer_consumer_ a) ++ Buffer.content (buffer_productor_ a);
  wi_idle : worker a ≠ WHandle → Buffer.content (buffer_consumer_ a) = [];
  wi_asleep : worker a = WMustWait ∨ worker a = WWaiting →
    Buffer.content (buffer_productor_ a) = [];
  wi_done : worker a = WDone → stop_ a = true }.

Lemma Reset_wf b : Buffer.wf b → Buffer.wf (Buffer.Reset b).
Proof.
  intros (? & ? & ? & ?). unfold Buffer.wf, Buffer.Reset, Buffer.size in *; cbn. lia.
Qed.
Lemma Reset_content b : Buffer.content (Buffer.Reset b) = [].
Proof. by apply slice_0. Qed.

Lemma IsEmpty_true b : Buffer.wf b → Buffer.IsEmpty b = true → Buffer.content b = [].
Proof. intros Hb. rewrite IsEmpty_spec by done. apply bool_decide_eq_true. Qed.

Lemma worker_inv_initial a : initial a → worker_inv a.
Proof.
  intros (? & Hw & ? & ? & ? & Ha & Hd & ? & Hp & ? & Hc).
  split; rewrite ?Ha, ?Hd, ?Hp, ?Hc, ?Hw; try done; by intros [].
Qed.

Lemma worker_inv_pushed a prod data bl wk :
  worker_inv a → unlocked a = true → Buffer.Push cfg data (buffer_productor_ a) = Ok prod →
  worker_inv (pushed prod data bl wk a).
Proof.
  intros [Hp Hc Ho Hi Hs Hd] Hu E. destruct (Push_appends cfg _ _ _ Hp E) as [Hp' Hc'].
  unfold unlocked in Hu. split; cbn; try done.
  - by rewrite Hc', Ho, <- !app_assoc.
  - intros Hw. apply Hi. by destruct (worker a).
  - destruct (worker a); cbn; intros [?|?]; done.
  - intros Hw. apply Hd. by destruct (worker a).
Qed.

Lemma worker_inv_push data a a' : push_step data a a' → worker_inv a → worker_inv a'.
Proof.
  intros Hs Hi. destruct Hs; try done; try (by eapply worker_inv_pushed);
    destruct Hi; by split.
Qed.

Lemma worker_inv_stop a a' : stop_step a a' → worker_inv a → worker_inv a'.
Proof.
  intros Hs [Hp Hc Ho Hi Has Hd]. destruct Hs as [a|a n Hn]; split; cbn; try done.
  - intros Hw. apply Hi. by destruct (worker a).
  - destruct (worker a); cbn; intros [?|?]; auto; done.
  - intros Hw. apply Hd. by destruct (worker a).
Qed.

(** The worker's critical section. *)
Lemma swap_buffers_ok a prod cons swapped :
  worker_inv a → worker a = WEnter → swap_buffers a = (prod, cons, swapped) →
  Buffer.wf prod ∧ Buffer.wf cons ∧ Buffer.content prod = [] ∧
  accepted a = delivered a ++ Buffer.content cons.
Proof.
  intros [Hp Hc Ho Hi _ _] Hw E. unfold swap_buffers in E. specialize (Hi ltac:(by rewrite Hw)).
  rewrite Hi in Ho. cbn in Ho. destruct (Buffer.IsEmpty (buffer_productor_ a)) eqn:Em; cbn in E;
    injection E as <- <- <-.
  - apply IsEmpty_true in Em; [|done]. rewrite Hi, Ho, Em. by rewrite !app_nil_r.
  - done.
Qed.

Lemma worker_inv_thread a a' : thread_step a a' → worker_inv a → worker_inv a'.
Proof.
  intros Hs Hinv. pose proof Hinv as [Hp Hc Ho Hi Has Hd].
  destruct Hs as [a Hw Hwk|a Hw|a Hw|a prod cons swapped bl wk bytes Hw Hwk Esw Hn a' Er|a bytes Hw Er].
  - unfold wake_up in Hwk. apply orb_false_iff in Hwk as [_ He%negb_false_iff].
    split; cbn; try done; [intros _; apply Hi; by rewrite Hw|].
    intros _. by apply IsEmpty_true.
  - split; cbn; try done; [intros _; apply Hi; by rewrite Hw|]. intros _. apply Has. by left.
  - split; cbn; try done; [intros _; apply Hi; by rewrite Hw|]. by intros [].
  - destruct (swap_buffers_ok _ _ _ _ Hinv Hw Esw) as (Hp' & Hc' & Hcp & Hor).
    rewrite Readable_ok in Er by done. injection Er as <-.
    destruct (stop_ a) eqn:Est; cbn [andb]; [|by split; cbn; rewrite ?Hcp, ?app_nil_r; try done; intros []].
    rewrite IsEmpty_spec, bool_decide_true by done.
    destruct (Buffer.IsEmpty cons) eqn:Ec; cbn [negb].
    + apply IsEmpty_true in Ec; [|done]. rewrite Ec in Hor.
      split; cbn; rewrite ?Hcp, ?Ec; try done; try (by intros []).
    + split; cbn; rewrite ?Hcp, ?Reset_content, ?app_nil_r; try done; try (by intros []).
      by apply Reset_wf.
  - rewrite Readable_ok in Er by done. injection Er as <-.
    split; cbn; rewrite ?Reset_content; try done; try (by intros []).
    + by apply Reset_wf.
    + by rewrite Ho, <- app_assoc.
Qed.

Lemma worker_inv_reachable a : reachable a → worker_inv a.
Proof.
  intros (a0 & Hinit & Hr). pose proof (worker_inv_initial _ Hinit) as Hi. clear Hinit.
  induction Hr as [|a1 a2 a3 [[d Hs]|[Hs|Hs]] _ IH]; [done|..]; apply IH;
    eauto using worker_inv_push, worker_inv_thread, worker_inv_stop.
Qed.

(** Under every interleaving of producers, worker and [Stop], what was
    accepted is what was delivered, then what the worker has in hand, then what
    waits in the producers' buffer: nothing is lost, repeated or reordered; and
    a worker asleep has delivered everything. *)
Lemma log_delivered_in_order a :
  reachable a →
  accepted a =
    delivered a ++ Buffer.content (buffer_consumer_ a) ++ Buffer.content (buffer_productor_ a) ∧
  (worker a = WWaiting → delivered a = accepted a).
Proof.
  intros Hr. destruct (worker_inv_reachable _ Hr) as [_ _ Ho Hi Hs _]. split; [done|].
  intros Hw. rewrite Ho, Hi, Hs by (rewrite ?Hw; auto; done). by rewrite app_nil_r.
Qed.

(** The worker sleeps, or has returned with nothing left behind. *)
Definition drained a : Prop :=
  worker a = WWaiting ∨ (worker a = WDone ∧ Buffer.content (buffer_productor_ a) = []).

Lemma drained_accepted a : worker_inv a → drained a → delivered a = accepted a.
Proof.
  intros [_ _ Ho Hid Has _] Hd. rewrite Ho, Hid by (destruct Hd as [->|[-> _]]; done).
  destruct Hd as [Hw|[_ ->]]; [rewrite Has by auto|]; by rewrite app_nil_r.
Qed.

(** When the worker returns it leaves nothing behind. *)
Lemma return_drains a a' :
  worker_inv a → step a a' → worker a ≠ WDone → worker a' = WDone → delivered a' = accepted a'.
Proof.
  intros Hi Hs Hne Hd.
  assert (Ht : thread_step a a').
  { destruct Hs as [[d Hs]|[Hs|Hs]]; [|done|]; exfalso; destruct Hs; cbn in *; try done;
      by destruct (worker a). }
  pose proof (worker_inv_thread _ _ Ht Hi) as [_ _ Ho' Hid' _ _]. rewrite Ho', Hid' by by rewrite Hd.
  destruct Ht as [a Hw Hwk|a Hw|a Hw|a prod cons swapped bl wk bytes Hw Hwk Esw Hn a' Er|a bytes Hw Er];
    try done.
  destruct (swap_buffers_ok _ _ _ _ Hi Hw Esw) as (_ & _ & Hcp & _).
  destruct (stop_ a && _); [|done]. destruct (negb _); cbn; by rewrite Hcp, app_nil_r.
Qed.

(** The worker's reads never fault. *)
Lemma worker_reads_in_bounds a f : worker_inv a → ¬ thread_fault a f.
Proof.
  intros Hi [(Hw & _ & E)|(_ & E)].
  - destruct (swap_buffers a) as [[prod cons] b] eqn:Es.
    destruct (swap_buffers_ok _ _ _ _ Hi Hw Es) as (_ & Hc & _). by rewrite Readable_ok in E.
  - by rewrite Readable_ok in E by apply (wi_cons _ Hi).
Qed.

(** The buffer is one [Push] can grow: it is no longer than an [int] counts, and
    the size it grows to is allowed. *)
Definition growable (data : list byte) a : Prop :=
  Buffer.size (buffer_productor_ a) < 2 ^ 31 ∧ 0 ≤ linear_growth cfg ∧
  Buffer.enough_size cfg (zlen data) (buffer_productor_ a) ≤ max_size.

(** A push that may go ahead either takes its step, or overruns the vector: the
    latter exactly when the data does not fit after the one growth. *)
Lemma push_goes_or_faults data a :
  worker_inv a → may_push data a → growable data a →
  let b := buffer_productor_ a in
  let fits := Buffer.write_pos_ b + zlen data ≤ Buffer.enough_size cfg (zlen data) b in
  (fits → ∃ a', push_step data a a' ∧ accepted a' = accepted a ++ data) ∧
  (¬ fits → push_fault data a OutOfBounds).
Proof.
  intros Hi Hm (Hs & Hl & Hx). destruct (log_push_cases cfg data _ (wi_prod _ Hi) Hs Hl Hx) as [Hfit Hnot].
  split; [|intros Hn; split; [done|apply Hnot; lia]].
  intros Hf. destruct (Hfit Hf) as (prod & E & _). destruct Hm as (Hu & Hor & Hr).
  destruct Hor as [Hst|(w1 & w2 & Hw)%list_elem_of_split].
  - eexists. split; [by eapply push_now|done].
  - eexists. split; [by eapply push_later|done].
Qed.

(** In the safe mode, which waits for room, it never overruns. *)
Lemma safe_push_goes data a f :
  worker_inv a → async_type_ a = ASYNC_SAFE → growable data a → ¬ push_fault data a f.
Proof.
  intros Hi Hsafe (Hs & Hl & Hx) [(_ & _ & Hr) E]. unfold has_room in Hr. rewrite Hsafe in Hr.
  apply Z.leb_le in Hr.
  destruct (safe_push_fits cfg data _ (wi_prod _ Hi) Hs Hl Hx Hr) as (b & E' & _). congruence.
Qed.

(** So a run in the safe mode comes to a fault only by a push on a buffer that
    can no longer grow. *)
Lemma safe_runs_end_well a0 f :
  initial a0 → async_type_ a0 = ASYNC_SAFE → comes_to a0 (Fault f) →
  ∃ a data, rtc step a0 a ∧ push_fault data a f ∧ ¬ growable data a.
Proof.
  intros Hi Hsafe (a & Hr & Hor).
  assert (Hinv : worker_inv a) by (apply worker_inv_reachable; by exists a0).
  assert (Ht : async_type_ a = ASYNC_SAFE).
  { clear Hor Hinv Hi. induction Hr as [|a1 a2 a3 Hs _ IH]; [done|]. apply IH. rewrite <- Hsafe.
    destruct Hs as [[d []]|[[]|[]]]; try done. cbn. by repeat case_match. }
  destruct Hor as [[data Hp]|Ht']; [|by destruct (worker_reads_in_bounds a f)].
  exists a, data. split; [done|]. split; [done|]. intros Hg. by apply (safe_push_goes data a f).
Qed.

(** After the worker's thread has returned, nothing is delivered. *)
Lemma done_step a a' :
  step a a' → worker a = WDone → worker a' = WDone ∧ delivered a' = delivered a.
Proof.
  intros [[d Hs]|[Hs|Hs]] Hw; destruct Hs; cbn in *; try done; try congruence;
    rewrite Hw; done.
Qed.

(** C37: [Stop] can wait for ever. It sets [stop_] and notifies without the
    mutex: between the worker's test of the predicate and its wait, both are
    missed. Then the worker sleeps, [join] waits for it, and no push wakes it,
    because pushes are refused once [stop_] is set; only a spurious wake-up or
    a second [Stop] could. *)
Theorem stop_can_hang a0 :
  initial a0 →
  ∃ a, rtc step a0 a ∧ stop_ a = true ∧ stoppers a = 0%nat ∧ worker a = WWaiting ∧
    ∀ data a', push_step data a a' → a' = a.
Proof.
  intros (Hs & Hw & Hst & Hb & Hwk & Hac & Hde & Hp & Hpc & Hc & Hcc).
  set (a1 := set_worker WMustWait a0).
  eexists. split_and!.
  - eapply rtc_l; [right; left; apply t_must_wait; [done|]|].
    { unfold wake_up. rewrite Hs, IsEmpty_spec, bool_decide_true by done. done. }
    eapply rtc_l; [right; right; apply s_set|].
    eapply rtc_l; [right; right; by eapply s_notify|].
    apply rtc_once. right; left. apply t_wait. done.
  - done.
  - done.
  - done.
  - intros data a' Hp'. inversion Hp'; subst; cbn in *; try done.
    + rewrite Hwk in *. by destruct w1.
    + rewrite Hwk in *. by destruct w1.
    + rewrite Hb in *. by destruct b1.
Qed.
End worker.

(** ** Concrete runs *)
Definition demo_config : JsonData := mkJsonData 8 0 8 1 "127.0.0.1"%string 6635 3.
Definition demo_empty : Buffer.t := Buffer.mk (replicate 8 x00) 0 0.
Definition demo_worker0 : AsyncWorker :=
  mkAsyncWorker ASYNC_SAFE false demo_empty demo_empty WEnter 0 [] [] [] [].

Lemma demo_worker0_initial : initial demo_worker0.
Proof. by split_and!. Qed.

Definition demo_pushed : AsyncWorker :=
  mkAsyncWorker ASYNC_SAFE false
    (Buffer.mk (replicate 6 x41 ++ [x00; x00]) 6 0) demo_empty WEnter 0 [] [] (replicate 6 x41) [].

Lemma demo_pushed_reachable : rtc (step demo_config) demo_worker0 demo_pushed.
Proof.
  apply rtc_once. left. exists (replicate 6 x41).
  by apply (push_now demo_config (replicate 6 x41) demo_worker0).
Qed.

Lemma log_delivered_in_order_witness :
  accepted demo_pushed = delivered demo_pushed ++
    Buffer.content (buffer_consumer_ demo_pushed) ++
    Buffer.content (buffer_productor_ demo_pushed) ∧
  (worker demo_pushed = WWaiting → delivered demo_pushed = accepted demo_pushed).
Proof.
  apply (log_delivered_in_order demo_config).
  exists demo_worker0. split; [apply demo_worker0_initial|apply demo_pushed_reachable].
Defined.

Lemma stop_can_hang_witness :
  ∃ a, rtc (step demo_config) demo_worker0 a ∧ stop_ a = true ∧ stoppers a = 0%nat ∧
    worker a = WWaiting ∧ ∀ data a', push_step demo_config data a a' → a' = a.
Proof. apply stop_can_hang, demo_worker0_initial. Defined.

(** Without the wait for room a line can be too long for the one growth: the run
    comes to undefined behaviour. *)
Lemma unsafe_push_overruns :
  comes_to demo_config (mkAsyncWorker ASYNC_UNSAFE false demo_empty demo_empty WEnter 0 [] [] [] [])
    (Fault OutOfBounds).
Proof.
  set (a := mkAsyncWorker _ _ _ _ _ _ _ _ _ _). exists a. split; [constructor|]. left.
  exists (replicate 17 x41). split; [|by vm_compute]. split_and!; try done. by left.
Qed.

(** The worker has delivered the first line and returned; the producer of the
    second was notified and is about to look at the buffer again. *)
Definition demo_returned : AsyncWorker :=
  mkAsyncWorker ASYNC_SAFE true demo_empty (Buffer.mk (replicate 6 x41 ++ [x00; x00]) 0 0)
    WDone 0 [] [replicate 5 x42] (replicate 6 x41) (replicate 6 x41).

(** C38: a producer that waits for room when [Stop] comes may push after the
    worker has returned: the line is accepted and never delivered. *)
Theorem late_push_is_lost :
  ∃ a, reachable demo_config a ∧ worker a = WDone ∧ blocked a = [] ∧ woken a = [] ∧
    accepted a = delivered a ++ replicate 5 x42 ∧
    ∀ a', rtc (step demo_config) a a' → delivered a' = delivered a.
Proof.
  set (data := replicate 5 x42).
  exists (mkAsyncWorker ASYNC_SAFE true (Buffer.mk (data ++ [x00; x00; x00]) 5 0)
    (Buffer.mk (replicate 6 x41 ++ [x00; x00]) 0 0) WDone 0 [] []
    (replicate 6 x41 ++ data) (replicate 6 x41)).
  split_and!; try done.
  - exists demo_worker0. split; [apply demo_worker0_initial|].
    etrans; [apply demo_pushed_reachable|].
    eapply rtc_l; [left; exists data; by apply push_block|].
    eapply rtc_l; [right; right; apply s_set|]. eapply rtc_l; [right; right; by eapply s_notify|].
    eapply rtc_l; [right; left; eapply t_section; try done; by apply (notify_some [] data [])|].
    apply rtc_once. left. exists data.
    exact (push_later demo_config data demo_returned (Buffer.mk (data ++ [x00; x00; x00]) 5 0)
      [] [] eq_refl eq_refl eq_refl eq_refl).
  - intros a' Hr. remember (mkAsyncWorker _ _ _ _ _ _ _ _ _ _) as a eqn:Ea.
    assert (Hw : worker a = WDone) by by subst. clear Ea.
    induction Hr as [|a1 a2 a3 Hs _ IH]; [done|].
    destruct (done_step _ _ _ Hs Hw) as [Hw2 <-]. by apply IH.
Qed.
