(* ===== verification/Safety.v ===== *)
(** * Memory safety of the running server: the invariant

    The state invariant that keeps every pointer of the running program valid:
    whatever epoll watches, whatever waits in a queue and whatever the server's
    map names is a live object.  [h] is, per loop, the part of the queue that
    [doPendingFunctions] has swapped out and not yet run, and [rel] the
    connections its local vector keeps alive.  [Handlers.v] shows that every
    handler keeps the invariant, [SafeRun.v] that every run does. *)

From stdpp Require Import base tactics numbers list gmap strings.
From Stdlib Require Import ZArith Lia.
From S2P Require Import Prelude NetBuffer Kernel World Poller Demo Loop Channels Connection.
From S2P Require Import ConnFacts Inet LoopPool Server ServerFacts System.

Local Open Scope Z_scope.

(** ** Programs that may fault in a known way only *)
Section wp.
Context {S : Type} (benign : fault → Prop).

Definition wp {A} (m : M S A) (s : S) (Q : A → S → Prop) : Prop :=
  match m s with Ok (a, s') => Q a s' | Fault f => benign f end.

Lemma wp_bind {A B} (m : M S A) (k : A → M S B) s Q :
  wp m s (λ a s', wp (k a) s' Q) → wp (bind m k) s Q.
Proof. unfold wp, bind. by destruct (m s) as [[a s']|]. Qed.

Lemma wp_mono {A} (m : M S A) s (Q R : A → S → Prop) :
  wp m s Q → (∀ a s', Q a s' → R a s') → wp m s R.
Proof. unfold wp. destruct (m s) as [[a s']|]; [|done]. intros HQ HR. by apply HR. Qed.

Lemma wp_Ok {A} (m : M S A) s a s' (Q : A → S → Prop) : m s = Ok (a, s') → Q a s' → wp m s Q.
Proof. unfold wp. by intros ->. Qed.

Lemma wp_step {A B} (m : M S A) (k : A → M S B) s a s' Q :
  m s = Ok (a, s') → wp (k a) s' Q → wp (bind m k) s Q.
Proof. intros E. unfold wp. by rewrite (bind_Ok _ _ _ _ _ E). Qed.

Lemma wp_fault {A} (m : M S A) s f Q : m s = Fault f → benign f → wp m s Q.
Proof. unfold wp. by intros ->. Qed.
End wp.

(** ** Registration, as far as pointers are concerned *)

Definition index_value (i : Z) : Prop := i = NEW ∨ i = ADDED ∨ i = DELETED.

Section watch.
Context {K : Type} `{KernelOk K}.

(** Epoll points to channel [cp] for its own descriptor only, and only while
    the channel is marked as added. *)
Definition watch_only (cp : chptr) ch P (k : K) : Prop :=
  ∀ ep fd ev, interest k ep fd = Some (ev, cp) →
    ep = epollfd_ P ∧ fd = fd_ ch ∧ index_ ch = ADDED.

(** What a registration call on [cp] leaves: the other channels' entries are
    old ones, and those of [cp] are as [watch_only] says. *)
Definition rewatched (cp : chptr) ch P (k : K) ch' P' (k' : K) : Prop :=
  ch' = set_index_ (index_ ch') ch ∧ index_value (index_ ch') ∧ epollfd_ P' = epollfd_ P ∧
  ∀ ep fd ev q, interest k' ep fd = Some (ev, q) →
    (q ≠ cp ∧ interest k ep fd = Some (ev, q)) ∨
    (q = cp ∧ ep = epollfd_ P ∧ fd = fd_ ch ∧ index_ ch' = ADDED).

(** An addition or a modification. *)
Lemma watch_set cp ch P (k : K) o P' :
  watch_only cp ch P k → o ≠ EPOLL_CTL_DEL → epollfd_ P' = epollfd_ P →
  ∀ ep fd ev q, interest (EpollPoller.update o cp (set_index_ ADDED ch) P' k) ep fd = Some (ev, q) →
    (q ≠ cp ∧ interest k ep fd = Some (ev, q)) ∨ (q = cp ∧ ep = epollfd_ P ∧ fd = fd_ ch).
Proof.
  intros Hw Ho HP ep fd ev q Hi. unfold EpollPoller.update in Hi. rewrite HP in Hi.
  apply ctl_entries in Hi as [Hi|(-> & -> & -> & _)]; [|by right].
  destruct (decide (q = cp)) as [->|]; [right|by left].
  by destruct (Hw _ _ _ Hi) as (-> & -> & _).
Qed.

(** A deletion leaves no entry of [cp]. *)
Lemma watch_del cp ch ch1 P (k : K) P' :
  watch_only cp ch P k → epollfd_ P' = epollfd_ P → fd_ ch1 = fd_ ch →
  ∀ ep fd ev q, interest (EpollPoller.update EPOLL_CTL_DEL cp ch1 P' k) ep fd = Some (ev, q) →
    q ≠ cp ∧ interest k ep fd = Some (ev, q).
Proof.
  intros Hw HP Hfd ep fd ev q Hi. unfold EpollPoller.update in Hi. rewrite HP, Hfd in Hi.
  pose proof Hi as Hi'. apply ctl_entries in Hi as [Hi|(_ & _ & _ & [])]; [|done].
  split; [|done]. intros ->. destruct (Hw _ _ _ Hi) as (-> & -> & _).
  by rewrite ctl_del_gone in Hi'.
Qed.

Lemma updateChannel_rewatched cp ch P (k : K) ch' P' k' :
  watch_only cp ch P k → index_value (index_ ch) →
  EpollPoller.updateChannel cp ch P k = (ch', P', k') → rewatched cp ch P k ch' P' k'.
Proof.
  intros Hw Hv E. unfold EpollPoller.updateChannel in E.
  assert (Hsame : index_ ch = ADDED → set_index_ ADDED ch = ch) by (intros <-; by destruct ch).
  destruct ((index_ ch =? NEW) || (index_ ch =? DELETED)) eqn:Hi.
  - injection E as <- <- <-. split_and!; [by destruct ch|by right; left|by destruct (_ =? _)|].
    intros ep fd ev q Hq.
    apply (watch_set cp ch P k) in Hq as [?|(-> & -> & ->)]; [by left|by right|done..|].
    by destruct (_ =? _).
  - apply orb_false_iff in Hi as [Hi1%Z.eqb_neq Hi2%Z.eqb_neq].
    destruct Hv as [?|[Hv|?]]; [done| |done]. destruct (events_ ch =? 0).
    + injection E as <- <- <-. split_and!; [by destruct ch|by right; right|done|].
      intros ep fd ev q Hq. left. by apply (watch_del cp ch ch P) in Hq.
    + injection E as <- <- <-. split_and!; [by destruct ch|by right; left|done|].
      intros ep fd ev q Hq. rewrite <- (Hsame Hv) in Hq at 1.
      apply (watch_set cp ch P k) in Hq as [?|(-> & -> & ->)]; [by left|by right|done..].
Qed.

Lemma removeChannel_rewatched cp ch P (k : K) ch' P' k' :
  watch_only cp ch P k → EpollPoller.removeChannel cp ch P k = (ch', P', k') →
  rewatched cp ch P k ch' P' k' ∧ index_ ch' = NEW.
Proof.
  intros Hw E. unfold EpollPoller.removeChannel in E. injection E as <- <- <-.
  split; [|done]. split_and!; [by destruct ch|by left|done|]. intros ep fd ev q Hq. left.
  destruct (Z.eqb_spec (index_ ch) ADDED) as [Hi|Hi].
  - by apply (watch_del cp ch ch P) in Hq.
  - split; [|done]. intros ->. by destruct (Hw _ _ _ Hq) as (_ & _ & ?).
Qed.
End watch.

(** ** The invariant *)

(** The callbacks a channel holds. *)
Definition callbacks (ch : Channel) : list closure :=
  omap id [readCallback_ ch; writeCallback_ ch; closeCallback_ ch; errorCallback_ ch].

Definition conn_closures (p : ptr) : list closure :=
  [CbConnHandleRead p; CbConnHandleWrite p; CbConnHandleClose p; CbConnHandleError p].

(** The things that do not change while the loops run: each loop's epoll
    descriptor and thread, the loggers, and the kernel's answers. *)
Record fixed := mkFixed {
  f_loops : gmap ptr (Z * Z);
  f_loggers : gset string;
  f_oracle : nat → sysret }.

(** Loops have epoll descriptors of their own, and the kernel reports IPv4
    addresses. *)
Record fixed_ok (F : fixed) : Prop := {
  fo_own l1 l2 ep t1 t2 :
    f_loops F !! l1 = Some (ep, t1) → f_loops F !! l2 = Some (ep, t2) → l1 = l2;
  fo_log : "asynclogger" ∈ f_loggers F;
  fo_addr n : valid_addr (sr_addr (f_oracle F n)) }.

(** The faults a run may end in; the last needs the logger nobody adds. *)
Definition benign (F : fixed) (f : fault) : Prop :=
  f = BadFunctionCall ∨ f = SignedOverflow ∨ f = LengthError ∨
  (f = NullDeref ∧ "asyclogger" ∉ f_loggers F).

Section invariant.
Context {K : Type} `{KernelOk K} `{InetLibOk} (F : fixed).
Implicit Types w : World K.

Definition is_loop (l : ptr) : Prop := is_Some (f_loops F !! l).

Definition loop_ok (l : ptr) (x : EventLoop) : Prop :=
  (∃ P, poller_ x = Some P ∧ f_loops F !! l = Some (epollfd_ P, threadId_ x)) ∧
  ∀ c, c ∈ callbacks (wakeupChannel_ x) → c = CbLoopHandleRead l.

Definition conn_ok (p : ptr) (c : TcpConnection) : Prop :=
  ch_loop_ (channel_ c) = conn_loop_ c ∧ is_loop (conn_loop_ c) ∧
  Buffer.wf (inputBuffer_ c) ∧ Buffer.wf (outputBuffer_ c) ∧ valid_addr (peerAddr_ c) ∧
  index_value (index_ (channel_ c)) ∧
  ∀ cb, cb ∈ callbacks (channel_ c) → cb ∈ conn_closures p.

Definition server_ok (s : TcpServer) : Prop :=
  is_loop (srv_loop_ s) ∧ is_loop (ch_loop_ (acceptChannel_ (acceptor_ s))) ∧
  1 ≤ nextConnId_ s ∧ (loops_ (threadPool_ s) = [] ∨ pool_ok (threadPool_ s)) ∧
  (∀ l, l ∈ EventLoopThreadPool.getAllLoops (threadPool_ s) → is_loop l) ∧
  ∀ cb, cb ∈ callbacks (acceptChannel_ (acceptor_ s)) → cb = CbAcceptorHandleRead.

(** The queue of a loop, and what is still to run of it. *)
Definition queue w (l : ptr) : list Functor :=
  match w_loops w !! l with Some x => pengdingFuntors_ x | None => [] end.
Definition pend (h : ptr → list Functor) w (l : ptr) : list Functor := h l ++ queue w l.

Definition mapped w (p : ptr) : Prop := ∃ n, connections_ (w_server w) !! n = Some p.

(** The server's map names [p], or its destruction is under way. *)
Definition anchored h w (p : ptr) : Prop :=
  mapped w p ∨ ∃ l, FConnectDestroyed p ∈ pend h w l.

Definition functor_ok w (l : ptr) (f : Functor) : Prop :=
  match f with
  | FConnectEstablished p | FConnectDestroyed p | FWriteComplete _ p | FHighWaterMark _ p _
  | FSendFileInLoop p _ _ _ => ∃ c, w_conns w !! p = Some c ∧ conn_loop_ c = l
  | FRemoveConnectionInLoop p => is_Some (w_conns w !! p)
  | FSendInLoop _ _ _ | FShutdownInLoop _ => False
  | FListen | FUser _ => True
  end.

Definition watch_ok w (ep fd : Z) (cp : chptr) : Prop :=
  match cp with
  | ChWakeup l => ∃ t, f_loops F !! l = Some (ep, t)
  | ChAccept => True
  | ChConn p => ∃ c t, w_conns w !! p = Some c ∧ f_loops F !! conn_loop_ c = Some (ep, t) ∧
      fd_ (channel_ c) = fd ∧ index_ (channel_ c) = ADDED
  end.

Record inv (h : ptr → list Functor) (rel : list ptr) w : Prop := {
  i_log : w_loggers w = f_loggers F;
  i_oracle : w_oracle w = f_oracle F;
  i_loop l x : w_loops w !! l = Some x → loop_ok l x;
  i_dom l : is_loop l → is_Some (w_loops w !! l);
  i_conn p c : w_conns w !! p = Some c → conn_ok p c;
  i_name p c : w_conns w !! p = Some c →
    ∃ id, 1 ≤ id < nextConnId_ (w_server w) ∧ name_ c = TcpServer.conn_name (w_server w) id;
  i_unique p q c d : w_conns w !! p = Some c → w_conns w !! q = Some d →
    name_ c = name_ d → p = q;
  i_map n p : connections_ (w_server w) !! n = Some p →
    ∃ c, w_conns w !! p = Some c ∧ name_ c = n;
  i_server : server_ok (w_server w);
  i_watch ep fd ev cp : interest (w_kernel w) ep fd = Some (ev, cp) → watch_ok w ep fd cp;
  i_functor l f : f ∈ pend h w l → functor_ok w l f;
  i_establish l p : FConnectEstablished p ∈ pend h w l → anchored h w p;
  i_order l A p B : pend h w l = A ++ FConnectDestroyed p :: B → FConnectEstablished p ∉ B;
  i_anchor p c : w_conns w !! p = Some c → anchored h w p ∨ index_ (channel_ c) ≠ ADDED;
  i_held p c : w_conns w !! p = Some c →
    mapped w p ∨ (∃ l, p ∈ omap Lifetime.functor_conn (queue w l)) ∨ p ∈ rel }.

(** ** Steps that change nothing the invariant speaks of *)

Definition loop_sim (x x' : EventLoop) : Prop :=
  (∀ l, loop_ok l x → loop_ok l x') ∧ pengdingFuntors_ x' = pengdingFuntors_ x.

Definition conn_sim (c c' : TcpConnection) : Prop :=
  (∀ p, conn_ok p c → conn_ok p c') ∧ conn_loop_ c' = conn_loop_ c ∧ name_ c' = name_ c ∧
  fd_ (channel_ c') = fd_ (channel_ c) ∧ index_ (channel_ c') = index_ (channel_ c).

Definition server_sim (s s' : TcpServer) : Prop :=
  (server_ok s → server_ok s') ∧ connections_ s' = connections_ s ∧
  nextConnId_ s' = nextConnId_ s ∧ TcpServer.conn_name s' = TcpServer.conn_name s.

Record same_view w w' : Prop := {
  v_tid : w_tid w' = w_tid w;
  v_log : w_loggers w' = w_loggers w;
  v_oracle : w_oracle w' = w_oracle w;
  v_loop l : option_Forall2 loop_sim (w_loops w !! l) (w_loops w' !! l);
  v_conn p : option_Forall2 conn_sim (w_conns w !! p) (w_conns w' !! p);
  v_server : server_sim (w_server w) (w_server w');
  v_kernel ep fd : interest (w_kernel w') ep fd = interest (w_kernel w) ep fd }.

#[export] Instance loop_sim_refl : Reflexive loop_sim.
Proof. done. Qed.
#[export] Instance conn_sim_refl : Reflexive conn_sim.
Proof. by intros c. Qed.
#[export] Instance server_sim_refl : Reflexive server_sim.
Proof. by intros s. Qed.
#[export] Instance same_view_refl : Reflexive same_view.
Proof. by split. Qed.

(** What a handler may do to the world besides keeping the invariant:
    connections stay, on their loop, and so do the reasons that keep them
    registered. *)
Record grow h w w' : Prop := {
  g_tid : w_tid w' = w_tid w;
  g_conn p c : w_conns w !! p = Some c →
    ∃ c', w_conns w' !! p = Some c' ∧ conn_loop_ c' = conn_loop_ c;
  g_anchor p : anchored h w p → anchored h w' p }.

#[export] Instance grow_preorder h : PreOrder (grow h).
Proof.
  split.
  - intros w. split; [done| |done]. eauto.
  - intros w1 w2 w3 [T1 C1 A1] [T2 C2 A2]. split; [congruence| |auto].
    intros p c Hc. destruct (C1 _ _ Hc) as (c' & Hc' & E1).
    destruct (C2 _ _ Hc') as (c'' & Hc'' & E2). exists c''. split; [done|congruence].
Qed.

Lemma queue_view w w' l : same_view w w' → queue w' l = queue w l.
Proof.
  intros Hv. unfold queue. destruct (v_loop _ _ Hv l) as [x x' [_ E]|]; done.
Qed.
Lemma pend_view h w w' l : same_view w w' → pend h w' l = pend h w l.
Proof. intros Hv. unfold pend. by rewrite (queue_view _ _ _ Hv). Qed.
Lemma mapped_view w w' p : same_view w w' → mapped w' p ↔ mapped w p.
Proof. intros Hv. unfold mapped. by destruct (v_server _ _ Hv) as (_ & -> & _). Qed.
Lemma anchored_view h w w' p : same_view w w' → anchored h w' p ↔ anchored h w p.
Proof.
  intros Hv. unfold anchored. rewrite (mapped_view _ _ _ Hv).
  by setoid_rewrite (pend_view _ _ _ _ Hv).
Qed.

Lemma conn_view w w' p c' :
  same_view w w' → w_conns w' !! p = Some c' → ∃ c, w_conns w !! p = Some c ∧ conn_sim c c'.
Proof. intros Hv Hc. pose proof (v_conn _ _ Hv p) as Hp. rewrite Hc in Hp. inversion Hp. eauto. Qed.
Lemma conn_view_fwd w w' p c :
  same_view w w' → w_conns w !! p = Some c → ∃ c', w_conns w' !! p = Some c' ∧ conn_sim c c'.
Proof. intros Hv Hc. pose proof (v_conn _ _ Hv p) as Hp. rewrite Hc in Hp. inversion Hp. eauto. Qed.

Lemma functor_view w w' l f : same_view w w' → functor_ok w l f → functor_ok w' l f.
Proof.
  intros Hv. destruct f; cbn; try done.
  all: try (intros (c & Hc & <-); destruct (conn_view_fwd _ _ _ _ Hv Hc) as (c' & Hc' & Hs);
    exists c'; split; [done|by destruct Hs as (_ & -> & _)]).
  intros [c Hc]. by destruct (conn_view_fwd _ _ _ _ Hv Hc) as (c' & -> & _).
Qed.

Lemma watch_view w w' ep fd cp : same_view w w' → watch_ok w ep fd cp → watch_ok w' ep fd cp.
Proof.
  intros Hv. destruct cp as [| |p]; cbn; try done. intros (c & t & Hc & Hl & Hfd & Hi).
  destruct (conn_view_fwd _ _ _ _ Hv Hc) as (c' & Hc' & _ & El & _ & Ef & Ei).
  exists c', t. by rewrite El, Ef, Ei.
Qed.

Lemma inv_view h rel w w' : same_view w w' → inv h rel w → inv h rel w'.
Proof.
  intros Hv Hi. pose proof (v_server _ _ Hv) as (Hs & Em & En & Ecn).
  split.
  - by rewrite (v_log _ _ Hv), (i_log _ _ _ Hi).
  - by rewrite (v_oracle _ _ Hv), (i_oracle _ _ _ Hi).
  - intros l x' Hx. pose proof (v_loop _ _ Hv l) as Hl. rewrite Hx in Hl.
    inversion Hl as [x ? [Hok _] Hx0|]; subst. by apply Hok, (i_loop _ _ _ Hi).
  - intros l Hl. destruct (i_dom _ _ _ Hi _ Hl) as [x Hx].
    pose proof (v_loop _ _ Hv l) as Hv'. rewrite Hx in Hv'. inversion Hv'. by eexists.
  - intros p c' (c & Hc & Hok & _)%(conn_view _ _ _ _ Hv). by apply Hok, (i_conn _ _ _ Hi).
  - intros p c' (c & Hc & _ & _ & -> & _)%(conn_view _ _ _ _ Hv). rewrite Ecn, En.
    by apply (i_name _ _ _ Hi p).
  - intros p q c' d' (c & Hc & _ & _ & -> & _)%(conn_view _ _ _ _ Hv)
      (d & Hd & _ & _ & -> & _)%(conn_view _ _ _ _ Hv). by apply (i_unique _ _ _ Hi).
  - intros n p. rewrite Em. intros Hp. destruct (i_map _ _ _ Hi _ _ Hp) as (c & Hc & <-).
    destruct (conn_view_fwd _ _ _ _ Hv Hc) as (c' & Hc' & _ & _ & E & _). eauto.
  - by apply Hs, (i_server _ _ _ Hi).
  - intros ep fd ev cp. rewrite (v_kernel _ _ Hv). intros Hk.
    by eapply watch_view, (i_watch _ _ _ Hi).
  - intros l f. rewrite (pend_view _ _ _ _ Hv). intros Hf.
    by eapply functor_view, (i_functor _ _ _ Hi).
  - intros l p. rewrite (pend_view _ _ _ _ Hv), (anchored_view _ _ _ _ Hv).
    apply (i_establish _ _ _ Hi).
  - intros l A p B. rewrite (pend_view _ _ _ _ Hv). apply (i_order _ _ _ Hi).
  - intros p c' (c & Hc & _ & _ & _ & _ & ->)%(conn_view _ _ _ _ Hv).
    rewrite (anchored_view _ _ _ _ Hv). by apply (i_anchor _ _ _ Hi).
  - intros p c' (c & Hc & _)%(conn_view _ _ _ _ Hv). rewrite (mapped_view _ _ _ Hv).
    setoid_rewrite (queue_view _ _ _ Hv). by eapply (i_held _ _ _ Hi).
Qed.

Lemma grow_view h w w' : same_view w w' → grow h w w'.
Proof.
  intros Hv. split.
  - apply Hv.
  - intros p c Hc. destruct (conn_view_fwd _ _ _ _ Hv Hc) as (c' & ? & _ & ? & _). eauto.
  - intros p. by rewrite (anchored_view _ _ _ _ Hv).
Qed.

(** The result of a safe step. *)
Definition good h rel w w' : Prop := inv h rel w' ∧ grow h w w'.

Lemma good_view h rel w w' : inv h rel w → same_view w w' → good h rel w w'.
Proof. intros Hi Hv. split; [by eapply inv_view|by apply grow_view]. Qed.
Lemma good_refl h rel w : inv h rel w → good h rel w w.
Proof. by split. Qed.
Lemma good_trans h rel w1 w2 w3 : grow h w1 w2 → good h rel w2 w3 → good h rel w1 w3.
Proof. intros Hg [Hi Hg']. split; [done|by etrans]. Qed.

(** ** Steps that preserve the view *)

Lemma view_irrelevant w w' :
  w_tid w' = w_tid w → w_loggers w' = w_loggers w → w_oracle w' = w_oracle w →
  w_loops w' = w_loops w → w_conns w' = w_conns w → w_server w' = w_server w →
  (∀ ep fd, interest (w_kernel w') ep fd = interest (w_kernel w) ep fd) → same_view w w'.
Proof.
  intros ??? El Ec Es ?. split; try done; rewrite ?El, ?Ec, ?Es; done.
Qed.

Lemma view_loop l x x' w :
  w_loops w !! l = Some x → loop_sim x x' → same_view w (set_w_loops (<[l := x']> (w_loops w)) w).
Proof.
  intros Hx Hs. split; try done; wcbn.
  intros l'. rewrite lookup_insert. case_decide; subst; [rewrite Hx; by constructor|done].
Qed.

Lemma view_conn p c c' w :
  w_conns w !! p = Some c → conn_sim c c' → same_view w (set_w_conns (<[p := c']> (w_conns w)) w).
Proof.
  intros Hc Hs. split; try done; wcbn.
  intros q. rewrite lookup_insert. case_decide; subst; [rewrite Hc; by constructor|done].
Qed.

Lemma view_server s' w : server_sim (w_server w) s' → same_view w (set_w_server s' w).
Proof. intros Hs. by split. Qed.

(** ** Queueing a call *)

(** A call that may be queued on loop [l]. *)
Definition fit h w (l : ptr) (f : Functor) : Prop :=
  functor_ok w l f ∧
  ∀ p, f = FConnectEstablished p → anchored h w p ∧ FConnectDestroyed p ∉ pend h w l.

Lemma pend_push h w l x f l' :
  w_loops w !! l = Some x →
  pend h (set_w_loops (<[l := EventLoop.push_functor f x]> (w_loops w)) w) l' =
    pend h w l' ++ (if decide (l' = l) then [f] else []).
Proof.
  intros Hx. unfold pend, queue. wcbn. rewrite <- app_assoc. f_equal. rewrite lookup_insert.
  case_decide as E; [rewrite decide_True by done|rewrite decide_False by congruence].
  - subst. by rewrite Hx.
  - by rewrite app_nil_r.
Qed.

Lemma push_anchored h w l x f p :
  w_loops w !! l = Some x → anchored h w p →
  anchored h (set_w_loops (<[l := EventLoop.push_functor f x]> (w_loops w)) w) p.
Proof.
  intros Hx [Hm|[l' Hl']]; [by left|right]. exists l'. rewrite (pend_push _ _ _ _ _ _ Hx).
  apply elem_of_app. by left.
Qed.

Lemma push_order (q A B : list Functor) f p :
  (∀ A p B, q = A ++ FConnectDestroyed p :: B → FConnectEstablished p ∉ B) →
  (∀ p, f = FConnectEstablished p → FConnectDestroyed p ∉ q) →
  q ++ [f] = A ++ FConnectDestroyed p :: B → FConnectEstablished p ∉ B.
Proof.
  intros Hq Hf E. destruct B as [|b B _] using rev_ind; [apply not_elem_of_nil|].
  rewrite app_comm_cons, app_assoc in E. apply app_inj_tail in E as [-> ->].
  intros [Hin|Hin%list_elem_of_singleton]%elem_of_app; [by eapply Hq|].
  apply (Hf p); [done|]. set_solver.
Qed.

Lemma push_good h rel w l x f :
  inv h rel w → w_loops w !! l = Some x → fit h w l f →
  good h rel w (set_w_loops (<[l := EventLoop.push_functor f x]> (w_loops w)) w).
Proof.
  intros Hi Hx [Hf He]. set (w' := set_w_loops _ w).
  assert (Hpend : ∀ l', pend h w' l' = pend h w l' ++ (if decide (l' = l) then [f] else []))
    by (intros l'; by apply pend_push).
  assert (Hanch : ∀ p, anchored h w p → anchored h w' p) by (intros p; by apply push_anchored).
  split.
  2: { split; [done|eauto|done]. }
  split; try apply Hi.
  - intros l' x'. subst w'. wcbn. rewrite lookup_insert. case_decide as E.
    + intros [= <-]. subst l'. exact (i_loop _ _ _ Hi _ _ Hx).
    + apply (i_loop _ _ _ Hi).
  - intros l' Hl'. subst w'. wcbn. rewrite lookup_insert. case_decide; [by eexists|].
    by apply (i_dom _ _ _ Hi).
  - intros l' g. rewrite Hpend. intros [Hg|Hg]%elem_of_app; [by apply (i_functor _ _ _ Hi)|].
    case_decide; [|by apply not_elem_of_nil in Hg]. subst l'.
    by apply list_elem_of_singleton in Hg as ->.
  - intros l' p. rewrite Hpend. intros [Hg|Hg]%elem_of_app.
    + by eapply Hanch, (i_establish _ _ _ Hi).
    + case_decide; [|by apply not_elem_of_nil in Hg].
      apply list_elem_of_singleton in Hg. by eapply Hanch, He.
  - intros l' A p B. rewrite Hpend. case_decide as E; [subst l'|].
    + apply push_order; [apply (i_order _ _ _ Hi)|]. intros q Hq. by apply He.
    + rewrite app_nil_r. apply (i_order _ _ _ Hi).
  - intros p c Hc. destruct (i_anchor _ _ _ Hi p c Hc) as [?|?]; [left; by apply Hanch|by right].
  - intros p c Hc. destruct (i_held _ _ _ Hi p c Hc) as [?|[[l' Hl']|?]]; [by left| |by right; right].
    right; left. exists l'. unfold queue in *. subst w'. wcbn. rewrite lookup_insert.
    case_decide; [|done]. subst l'. rewrite Hx in Hl'. cbn.
    rewrite omap_app. apply elem_of_app. by left.
Qed.

(** ** Registration calls *)

(** A change of the registration of an anchored connection, or one that takes
    the connection out of epoll. *)
Lemma register_good h rel w p c x P ch' P' k' :
  inv h rel w → w_conns w !! p = Some c → w_loops w !! conn_loop_ c = Some x →
  poller_ x = Some P → rewatched (ChConn p) (channel_ c) P (w_kernel w) ch' P' k' →
  anchored h w p ∨ index_ ch' ≠ ADDED →
  good h rel w (set_w_kernel k' (set_w_conns (<[p := set_channel_ ch' c]> (w_conns w))
    (set_w_loops (<[conn_loop_ c := set_poller_ (Some P') x]> (w_loops w)) w))).
Proof.
  intros Hi Hc Hx HP (Hch & Hv & HP' & Hk) Ha.
  remember (index_ ch') as i eqn:Ei. subst ch'. clear Ei. set (w' := set_w_kernel _ _).
  destruct (i_conn _ _ _ Hi _ _ Hc) as (Hl & Hlo & Hb1 & Hb2 & Hpa & _ & Hcb).
  destruct (i_loop _ _ _ Hi _ _ Hx) as [(P0 & HP0 & Hfl) Hwc].
  assert (P0 = P) as -> by congruence.
  assert (Hq : ∀ l, queue w' l = queue w l).
  { intros l. unfold queue. subst w'. wcbn. rewrite lookup_insert.
    case_decide; [subst; by rewrite Hx|done]. }
  assert (Hpend : ∀ l, pend h w' l = pend h w l) by (intros l; unfold pend; by rewrite Hq).
  assert (Hanch : ∀ q, anchored h w' q ↔ anchored h w q).
  { intros q. unfold anchored. by setoid_rewrite Hpend. }
  set (c' := set_channel_ (set_index_ i (channel_ c)) c).
  assert (Hconn : ∀ q d', w_conns w' !! q = Some d' →
    (q = p ∧ d' = c') ∨ (q ≠ p ∧ w_conns w !! q = Some d')).
  { intros q d'. subst w'. wcbn. rewrite lookup_insert. case_decide as E.
    - intros [= <-]. by left.
    - intros Hd. right. by split; [congruence|]. }
  assert (Hback : ∀ q d', w_conns w' !! q = Some d' →
    ∃ d, w_conns w !! q = Some d ∧ conn_loop_ d' = conn_loop_ d ∧ name_ d' = name_ d).
  { intros q d' [[-> ->]|[_ ?]]%Hconn; [by exists c|by exists d']. }
  assert (Hfwd : ∀ q d, w_conns w !! q = Some d →
    ∃ d', w_conns w' !! q = Some d' ∧ conn_loop_ d' = conn_loop_ d ∧ name_ d' = name_ d).
  { intros q d Hd. subst w'. wcbn. rewrite lookup_insert. case_decide as E.
    - subst q. exists c'. by simplify_eq.
    - by exists d. }
  split.
  2: { split; [done| |intros q; by apply Hanch].
       intros q d Hd. destruct (Hfwd _ _ Hd) as (d' & ? & ? & _). eauto. }
  split; try apply Hi.
  - intros l y. subst w'. wcbn. rewrite lookup_insert. case_decide as E.
    + intros [= <-]. subst l. split; [|done]. exists P'. by rewrite HP'.
    + apply (i_loop _ _ _ Hi).
  - intros l Hl'. subst w'. wcbn. rewrite lookup_insert. case_decide; [by eexists|].
    by apply (i_dom _ _ _ Hi).
  - intros q d' [[-> ->]|[_ ?]]%Hconn; [|by apply (i_conn _ _ _ Hi)].
    by split_and!.
  - intros q d' (d & Hd & _ & ->)%Hback. by apply (i_name _ _ _ Hi q).
  - intros q1 q2 d1 d2 (e1 & Hd1 & _ & ->)%Hback (e2 & Hd2 & _ & ->)%Hback.
    by apply (i_unique _ _ _ Hi).
  - intros n q Hn. destruct (i_map _ _ _ Hi _ _ Hn) as (d & Hd & <-).
    destruct (Hfwd _ _ Hd) as (d' & ? & _ & ?). eauto.
  - intros ep fd ev q. change (w_kernel w') with k'. intros [[Hne Hold]|(-> & -> & -> & Hi')]%Hk.
    + apply (i_watch _ _ _ Hi) in Hold. destruct q as [| |q]; [done..|].
      destruct Hold as (d & t & Hd & ?). exists d, t. split; [|done].
      subst w'. wcbn. by rewrite lookup_insert_ne by congruence.
    + exists c', (threadId_ x). subst w'. wcbn. rewrite lookup_insert_eq.
      by split_and!.
  - intros l f. rewrite Hpend. intros Hf. apply (i_functor _ _ _ Hi) in Hf.
    destruct f; cbn in Hf |- *; try done.
    all: try (destruct Hf as (d & Hd & <-); destruct (Hfwd _ _ Hd) as (d' & Hd' & ? & _); eauto).
    destruct Hf as [d Hd]. destruct (Hfwd _ _ Hd) as (d' & Hd' & _). by eexists.
  - intros l q. rewrite Hpend, Hanch. apply (i_establish _ _ _ Hi).
  - intros l A q B. rewrite Hpend. apply (i_order _ _ _ Hi).
  - intros q d'. rewrite Hanch. intros [[-> ->]|[_ ?]]%Hconn; [done|by apply (i_anchor _ _ _ Hi)].
  - intros q d' (d & Hd & _)%Hback. setoid_rewrite Hq. by eapply (i_held _ _ _ Hi).
Qed.

(** More entries for the acceptor, or fewer. *)
Lemma accept_watch_good h rel w k' :
  inv h rel w →
  (∀ ep fd ev q, interest k' ep fd = Some (ev, q) →
     interest (w_kernel w) ep fd = Some (ev, q) ∨ q = ChAccept) →
  good h rel w (set_w_kernel k' w).
Proof.
  intros Hi Hk. split; [|by split; [|eauto|]]. split; try apply Hi.
  intros ep fd ev q [Hold| ->]%Hk; [by eapply (i_watch _ _ _ Hi)|done].
Qed.

(** ** The server's map *)

(** Forgetting a connection whose destruction is queued. *)
Lemma forget_good h rel w p c l (s := w_server w) :
  inv h rel w → w_conns w !! p = Some c → FConnectDestroyed p ∈ queue w l →
  good h rel w (set_w_server (set_connections_ (delete (name_ c) (connections_ s)) s) w).
Proof.
  intros Hi Hc Hq. set (w' := set_w_server _ w).
  assert (Hm : ∀ q, mapped w q → mapped w' q ∨ q = p).
  { intros q [n Hn]. destruct (decide (n = name_ c)) as [->|Hne].
    - right. destruct (i_map _ _ _ Hi _ _ Hn) as (d & Hd & Ed). by eapply (i_unique _ _ _ Hi).
    - left. exists n. subst w'. wcbn. cbn. by rewrite lookup_delete_ne. }
  assert (Hanch : ∀ q, anchored h w q → anchored h w' q).
  { intros q [[?| ->]%Hm|?]; [by left| |by right]. right. exists l. apply elem_of_app. by right. }
  split; [|by split; [|eauto|]]. split; try apply Hi.
  - intros n q Hn. change (connections_ (w_server w')) with (delete (name_ c) (connections_ s)) in Hn.
    apply lookup_delete_Some in Hn as [_ Hn]. by apply (i_map _ _ _ Hi).
  - intros l' q Hl'. by eapply Hanch, (i_establish _ _ _ Hi).
  - intros q d Hd. destruct (i_anchor _ _ _ Hi _ _ Hd); [left; by apply Hanch|by right].
  - intros q d Hd. destruct (i_held _ _ _ Hi _ _ Hd) as [[?| ->]%Hm|?]; [by left| |by right].
    right; left. exists l. apply list_elem_of_omap. by eexists.
Qed.

(** A new connection under its name. *)
Lemma accept_good h rel w w' p c (s := w_server w) (s' := w_server w') :
  inv h rel w → w_tid w' = w_tid w → w_loggers w' = w_loggers w → w_oracle w' = w_oracle w →
  w_loops w' = w_loops w → w_kernel w' = w_kernel w →
  w_conns w !! p = None → w_conns w' = <[p := c]> (w_conns w) →
  conn_ok p c → name_ c = TcpServer.conn_name s (nextConnId_ s) → index_ (channel_ c) ≠ ADDED →
  connections_ s' = <[name_ c := p]> (connections_ s) → nextConnId_ s' = nextConnId_ s + 1 →
  TcpServer.conn_name s' = TcpServer.conn_name s → server_ok s' →
  good h rel w w'.
Proof.
  intros Hi Et Elg Eor El Ek Hp Ec Hok Hname Hidx Em En Ecn Hs.
  assert (Hnew : ∀ q d, w_conns w !! q = Some d → q ≠ p) by (intros q d Hd ->; congruence).
  assert (Hold : ∀ q d, w_conns w !! q = Some d → w_conns w' !! q = Some d).
  { intros q d Hd. rewrite Ec, lookup_insert_ne; [done|]. by apply not_eq_sym, (Hnew _ d). }
  assert (Hcase : ∀ q d, w_conns w' !! q = Some d → (q = p ∧ d = c) ∨ w_conns w !! q = Some d).
  { intros q d. rewrite Ec, lookup_insert. case_decide; [|by right]. intros [= <-]. by left. }
  assert (Hfresh : ∀ q d, w_conns w !! q = Some d → name_ d ≠ name_ c).
  { intros q d Hd E. destruct (i_name _ _ _ Hi _ _ Hd) as (id & Hid & Enm). fold s in Hid, Enm.
    rewrite Hname, Enm in E. apply conn_name_inj in E. lia. }
  assert (Hq : ∀ l, queue w' l = queue w l) by (intros l; unfold queue; by rewrite El).
  assert (Hpend : ∀ l, pend h w' l = pend h w l) by (intros l; unfold pend; by rewrite Hq).
  assert (Hm : ∀ q, mapped w q → mapped w' q).
  { intros q [n Hn]. exists n. fold s'. rewrite Em, lookup_insert_ne; [done|]. intros <-.
    destruct (i_map _ _ _ Hi _ _ Hn) as (d & Hd & Ed). by eapply Hfresh. }
  assert (Hmp : mapped w' p) by (exists (name_ c); fold s'; rewrite Em; apply lookup_insert_eq).
  assert (Hanch : ∀ q, anchored h w q → anchored h w' q).
  { intros q [?|[l Hl]]; [left; by apply Hm|right; exists l; by rewrite Hpend]. }
  split.
  2: { split; [done| |done]. intros q d Hd. exists d. by split; [apply Hold|]. }
  split.
  - by rewrite Elg, (i_log _ _ _ Hi).
  - by rewrite Eor, (i_oracle _ _ _ Hi).
  - rewrite El. apply Hi.
  - rewrite El. apply Hi.
  - intros q d [[-> ->]|?]%Hcase; [done|by apply (i_conn _ _ _ Hi)].
  - fold s'. rewrite En, Ecn. intros q d [[-> ->]|Hd]%Hcase.
    + exists (nextConnId_ s). split; [|done].
      destruct (i_server _ _ _ Hi) as (_ & _ & Hpos & _). fold s in Hpos. lia.
    + destruct (i_name _ _ _ Hi _ _ Hd) as (id & Hid & Enm). fold s in Hid, Enm.
      exists id. split; [lia|done].
  - intros q1 q2 d1 d2 [[-> ->]|Hd1]%Hcase [[-> ->]|Hd2]%Hcase E; [done| | |].
    + by destruct (Hfresh _ _ Hd2).
    + by destruct (Hfresh _ _ Hd1).
    + by eapply (i_unique _ _ _ Hi).
  - fold s'. rewrite Em. intros n q. rewrite lookup_insert. case_decide as E.
    + intros [= <-]. exists c. by rewrite Ec, lookup_insert_eq.
    + intros Hn. destruct (i_map _ _ _ Hi _ _ Hn) as (d & Hd & ?). exists d. auto.
  - done.
  - rewrite Ek. intros ep fd ev q Hk. apply (i_watch _ _ _ Hi) in Hk. destruct q; [done..|].
    destruct Hk as (d & t & Hd & ?). exists d, t. auto.
  - intros l f. rewrite Hpend. intros Hf. apply (i_functor _ _ _ Hi) in Hf.
    destruct f; cbn in Hf |- *; try done.
    all: try (destruct Hf as (d & Hd & ?); exists d; auto; fail).
    destruct Hf as [d Hd]. exists d. auto.
  - intros l q. rewrite Hpend. intros Hl. by eapply Hanch, (i_establish _ _ _ Hi).
  - intros l A q B. rewrite Hpend. apply (i_order _ _ _ Hi).
  - intros q d [[-> ->]|Hd]%Hcase; [by right|].
    destruct (i_anchor _ _ _ Hi _ _ Hd); [left; by apply Hanch|by right].
  - intros q d [[-> ->]|Hd]%Hcase; [by left|]. setoid_rewrite Hq.
    destruct (i_held _ _ _ Hi _ _ Hd); [left; by apply Hm|by right].
Qed.
End invariant.
