(* ===== verification/SafeTasks.v ===== *)
(** * Memory safety: taking, running and dropping queued calls

    How the invariant of [Safety.v] goes through [doPendingFunctions]: the
    queue is swapped out, the calls leave the local vector one by one, and the
    connections only the vector kept alive are destroyed at its end. *)

From stdpp Require Import base tactics numbers list gmap strings.
From Stdlib Require Import ZArith Lia.
From S2P Require Import Prelude NetBuffer Kernel World Poller Demo Loop Channels Connection.
From S2P Require Import ConnFacts Inet LoopPool Server ServerFacts System Safety.

Local Open Scope Z_scope.

(** Loop [l] has [fs] left to run. *)
Definition hand (l : ptr) (fs : list Functor) : ptr → list Functor :=
  λ l', if decide (l' = l) then fs else [].

(** No loop is in [doPendingFunctions]. *)
Definition idle : ptr → list Functor := λ _, [].

Section tasks.
Context {K : Type} `{KernelOk K} `{InetLibOk} (F : fixed).
Implicit Types w : World K.
Local Abbreviation inv := (inv F).

Lemma inv_ext h h' rel w : (∀ l, h l = h' l) → inv h rel w → inv h' rel w.
Proof.
  intros E Hi. assert (Hp : ∀ l, pend h' w l = pend h w l) by (intros l; unfold pend; by rewrite E).
  assert (Ha : ∀ p, anchored h' w p ↔ anchored h w p).
  { intros p. unfold anchored. by setoid_rewrite Hp. }
  split; try apply Hi.
  - intros l f. rewrite Hp. apply Hi.
  - intros l p. rewrite Hp, Ha. apply Hi.
  - intros l A p B. rewrite Hp. apply (i_order _ _ _ _ Hi).
  - intros p c. rewrite Ha. apply Hi.
Qed.

(** The swap: what was queued is now in the hand. *)
Lemma take_inv w l x x' :
  inv idle [] w → w_loops w !! l = Some x → (∀ l, loop_ok F l x → loop_ok F l x') →
  pengdingFuntors_ x' = [] →
  inv (hand l (pengdingFuntors_ x)) (omap Lifetime.functor_conn (pengdingFuntors_ x))
    (set_w_loops (<[l := x']> (w_loops w)) w).
Proof.
  intros Hi Hx Hok Hnil. set (w' := set_w_loops _ w).
  assert (Hp : ∀ l', pend (hand l (pengdingFuntors_ x)) w' l' = pend idle w l').
  { intros l'. unfold pend, hand, queue, idle. subst w'. wcbn. rewrite lookup_insert.
    case_decide as E; [rewrite decide_True by done|rewrite decide_False by congruence; done].
    subst. by rewrite Hx, Hnil, app_nil_r. }
  assert (Ha : ∀ p, anchored (hand l (pengdingFuntors_ x)) w' p ↔ anchored idle w p).
  { intros p. unfold anchored. by setoid_rewrite Hp. }
  split; try apply Hi.
  - intros l' y. subst w'. wcbn. rewrite lookup_insert. case_decide as E.
    + intros [= <-]. subst. by apply Hok, (i_loop _ _ _ _ Hi).
    + apply (i_loop _ _ _ _ Hi).
  - intros l' Hl'. subst w'. wcbn. rewrite lookup_insert. case_decide; [by eexists|].
    by apply (i_dom _ _ _ _ Hi).
  - intros l' f. rewrite Hp. apply (i_functor _ _ _ _ Hi).
  - intros l' p. rewrite Hp, Ha. apply (i_establish _ _ _ _ Hi).
  - intros l' A p B. rewrite Hp. apply (i_order _ _ _ _ Hi).
  - intros p c. rewrite Ha. apply (i_anchor _ _ _ _ Hi).
  - intros p c Hc. destruct (i_held _ _ _ _ Hi _ _ Hc) as [?|[[l' Hl']|Hno]];
      [by left| |by apply not_elem_of_nil in Hno].
    right. destruct (decide (l' = l)) as [->|Hne].
    + right. unfold queue in Hl'. by rewrite Hx in Hl'.
    + left. exists l'. unfold queue in *. subst w'. wcbn. by rewrite lookup_insert_ne.
Qed.

Lemma pend_hand l f fs w l' :
  pend (hand l (f :: fs)) w l' = (if decide (l' = l) then [f] else []) ++ pend (hand l fs) w l'.
Proof. unfold pend, hand. by case_decide. Qed.

(** A call that has run leaves the hand. After [connectDestroyed] the
    connection is no longer registered. *)
Lemma pop_inv l f fs rel w :
  inv (hand l (f :: fs)) rel w →
  (∀ p c, f = FConnectDestroyed p → w_conns w !! p = Some c → index_ (channel_ c) ≠ ADDED) →
  inv (hand l fs) rel w.
Proof.
  intros Hi Hf.
  assert (Hp : ∀ l' g, g ∈ pend (hand l fs) w l' → g ∈ pend (hand l (f :: fs)) w l').
  { intros l' g Hg. rewrite pend_hand. apply elem_of_app. by right. }
  assert (Ha : ∀ p, anchored (hand l (f :: fs)) w p →
    anchored (hand l fs) w p ∨ f = FConnectDestroyed p).
  { intros p [?|[l' Hl']]; [by left; left|]. rewrite pend_hand in Hl'.
    apply elem_of_app in Hl' as [Hl'|?]; [right|by left; right; exists l'].
    case_decide; [|by apply not_elem_of_nil in Hl'].
    by apply list_elem_of_singleton in Hl'. }
  split; try apply Hi.
  - intros l' g Hg. by apply (i_functor _ _ _ _ Hi), Hp.
  - intros l' p Hl'. pose proof (i_establish _ _ _ _ Hi _ _ (Hp _ _ Hl')) as [?| ->]%Ha; [done|].
    destruct (i_functor _ _ _ _ Hi _ _ (Hp _ _ Hl')) as (c & Hc & El').
    assert (Hin : FConnectDestroyed p ∈ pend (hand l (FConnectDestroyed p :: fs)) w l)
      by (rewrite pend_hand, decide_True by done; by left).
    destruct (i_functor _ _ _ _ Hi _ _ Hin) as (c2 & Hc2 & El).
    assert (l' = l) as -> by congruence.
    pose proof (pend_hand l (FConnectDestroyed p) fs w l) as E.
    rewrite decide_True in E by done. by destruct (i_order _ _ _ _ Hi _ [] _ _ E).
  - intros l' A p B E. apply (i_order _ _ _ _ Hi l' ((if decide (l' = l) then [f] else []) ++ A) p).
    by rewrite pend_hand, E, app_assoc.
  - intros p c Hc. destruct (i_anchor _ _ _ _ Hi _ _ Hc) as [[?| ->]%Ha|?];
      [by left|right; by eapply Hf|by right].
Qed.

(** ** Dropping *)

Lemma held_spec p w :
  Lifetime.held p w = true ↔
    mapped w p ∨ ∃ l, p ∈ omap Lifetime.functor_conn (queue w l).
Proof.
  unfold Lifetime.held. rewrite orb_true_iff. f_equiv.
  - unfold Lifetime.in_map. rewrite existsb_exists. split.
    + intros ([n q] & Hin%list_elem_of_In%elem_of_map_to_list & E%Z.eqb_eq). cbn in E. subst.
      by exists n.
    + intros [n Hn]. exists (n, p). cbn. rewrite Z.eqb_refl. split; [|done].
      by apply list_elem_of_In, elem_of_map_to_list.
  - unfold Lifetime.in_queue. rewrite existsb_exists. split.
    + intros ([l x] & Hin%list_elem_of_In%elem_of_map_to_list & E%bool_decide_eq_true). cbn in E.
      exists l. unfold queue. by rewrite Hin.
    + intros [l Hl]. unfold queue in Hl. destruct (w_loops w !! l) as [x|] eqn:Hx;
        [|by apply not_elem_of_nil in Hl].
      exists (l, x). cbn. rewrite bool_decide_eq_true. split; [|done].
      by apply list_elem_of_In, elem_of_map_to_list.
Qed.

Lemma functor_ok_delete w p l f :
  functor_ok w l f → Lifetime.functor_conn f ≠ Some p →
  functor_ok (set_w_conns (delete p (w_conns w)) w) l f.
Proof.
  destruct f; cbn; try done; intros Hf Hne; rewrite lookup_delete_ne by congruence; done.
Qed.

(** A connection that nothing names any more goes. *)
Lemma destroy_inv p rel w :
  inv idle (p :: rel) w → ¬ mapped w p →
  (∀ l, p ∉ omap Lifetime.functor_conn (queue w l)) →
  inv idle rel (set_w_conns (delete p (w_conns w)) w).
Proof.
  intros Hi Hm Hq. set (w' := set_w_conns _ w).
  assert (Hna : ¬ anchored idle w p).
  { intros [?|[l Hl]]; [done|]. apply (Hq l), list_elem_of_omap. by exists (FConnectDestroyed p). }
  assert (Hc : ∀ q c, w_conns w' !! q = Some c → q ≠ p ∧ w_conns w !! q = Some c).
  { intros q c Hq'. change (w_conns w') with (delete p (w_conns w)) in Hq'.
    apply lookup_delete_Some in Hq' as [? ?]. by split; [congruence|]. }
  split; try apply Hi.
  - intros q c [_ ?]%Hc. by apply (i_conn _ _ _ _ Hi).
  - intros q c [_ ?]%Hc. by apply (i_name _ _ _ _ Hi q).
  - intros q1 q2 c1 c2 [_ ?]%Hc [_ ?]%Hc. by apply (i_unique _ _ _ _ Hi).
  - intros n q Hn. destruct (i_map _ _ _ _ Hi _ _ Hn) as (c & Hcq & En). exists c.
    split; [|done]. subst w'. wcbn. rewrite lookup_delete_ne; [done|]. intros ->.
    apply Hm. by exists n.
  - intros ep fd ev cp Hk. apply (i_watch _ _ _ _ Hi) in Hk. destruct cp as [| |q]; [done..|].
    destruct Hk as (c & t & Hcq & Hl & Hfd & Hidx). exists c, t. split; [|done].
    subst w'. wcbn. rewrite lookup_delete_ne; [done|]. intros ->.
    by destruct (i_anchor _ _ _ _ Hi _ _ Hcq).
  - intros l f Hf. pose proof (i_functor _ _ _ _ Hi _ _ Hf) as Hok.
    apply functor_ok_delete; [done|]. intros E. apply (Hq l), list_elem_of_omap. by exists f.
  - intros q c [_ ?]%Hc. by apply (i_anchor _ _ _ _ Hi).
  - intros q c [Hne Hcq]%Hc. destruct (i_held _ _ _ _ Hi _ _ Hcq) as [?|[?|Hr]];
      [by left|by right; left|].
    right; right. by apply elem_of_cons in Hr as [?|?].
Qed.

Lemma keep_inv p rel w :
  inv idle (p :: rel) w →
  (∀ c, w_conns w !! p = Some c → mapped w p ∨ ∃ l, p ∈ omap Lifetime.functor_conn (queue w l)) →
  inv idle rel w.
Proof.
  intros Hi Hp. split; try apply Hi.
  intros q c Hc. destruct (i_held _ _ _ _ Hi _ _ Hc) as [?|[?|[->|?]%elem_of_cons]];
    [by left|by right; left| |by right; right].
  destruct (Hp _ Hc); [by left|by right; left].
Qed.

Lemma release_safe p rel w :
  fixed_ok F → inv idle (p :: rel) w →
  wp (benign F) (Lifetime.release p) w (λ _ w', inv idle rel w' ∧ w_tid w' = w_tid w).
Proof.
  intros HF Hi. unfold Lifetime.release. eapply wp_step; [apply gets_ok|].
  pose proof (held_spec p w) as Hs. destruct (Lifetime.held p w); cbn [orb negb when].
  - eapply wp_Ok; [done|]. split; [|done]. apply (keep_inv p); [done|]. intros _ _. by apply Hs.
  - destruct (w_conns w !! p) as [c|] eqn:Hc.
    + rewrite bool_decide_eq_false_2 by done. cbn [negb when].
      assert (Hno : ¬ (mapped w p ∨ ∃ l, p ∈ omap Lifetime.functor_conn (queue w l)))
        by (by rewrite <- Hs).
      unfold Lifetime.destroy. eapply wp_step; [by apply load_conn_ok|].
      eapply wp_step; [apply log_ok; rewrite (i_log _ _ _ _ Hi); apply HF|].
      eapply wp_step; [apply emit_ok|]. eapply wp_Ok; [apply modify_ok|]. split; [|done].
      assert (Hd : inv idle rel (set_w_conns (delete p (w_conns w)) w)).
      { apply destroy_inv; [done| |]; [intros ?; apply Hno; by left|].
        intros l ?; apply Hno; right; by exists l. }
      eapply inv_view; [|exact Hd]. by apply view_irrelevant.
    + rewrite bool_decide_eq_true_2 by done. eapply wp_Ok; [done|]. split; [|done].
      apply (keep_inv p); [done|]. intros c' Hc'. congruence.
Qed.
End tasks.
