(* ===== verification/Handlers.v ===== *)
(** * Memory safety: the operations and handlers

    Each operation of the library, run in a state that satisfies the invariant
    of [Safety.v] on behalf of a connection that is [ready], ends in such a
    state or in a benign fault.  The application is any instance of [SafeApp]. *)

From stdpp Require Import base tactics numbers list gmap strings.
From Stdlib Require Import ZArith Lia.
From S2P Require Import Prelude NetBuffer Kernel World Poller Demo Loop Channels Connection.
From S2P Require Import ConnFacts Inet LoopPool Server ServerFacts System Safety SafeTasks.

Local Open Scope Z_scope.
Local Open Scope prog_scope.

Section safe.
Context {K : Type} `{KernelOk K} `{InetLibOk} (F : fixed) (HF : fixed_ok F).
Context (h : ptr → list Functor) (rel : list ptr).
Implicit Types w : World K.
Local Abbreviation inv := (inv F h rel).
Local Abbreviation grow := (grow h).
Local Abbreviation good := (good F h rel).

(** [m] keeps the invariant from [w], or ends in a benign fault. *)
Definition safe (m : M (World K) unit) w : Prop := wp (benign F) m w (λ _ w', good w w').

Lemma safe_wp_bind {A} (m : M (World K) A) (k : A → M (World K) unit) (R : A → World K → Prop) w :
  wp (benign F) m w (λ a w', good w w' ∧ R a w') →
  (∀ a w', inv w' → grow w w' → R a w' → safe (k a) w') → safe (bind m k) w.
Proof.
  intros Hm Hk. apply wp_bind. eapply wp_mono; [exact Hm|]. intros a w' [[Hi Hg] HR].
  eapply wp_mono; [by apply Hk|]. intros [] w'' Hgo. by eapply good_trans.
Qed.

Lemma safe_bind m (k : unit → M (World K) unit) w :
  safe m w → (∀ w', inv w' → grow w w' → safe (k tt) w') → safe (bind m k) w.
Proof.
  intros Hm Hk. eapply (safe_wp_bind m k (λ _ _, True)).
  - eapply wp_mono; [exact Hm|done].
  - intros [] w' Hi Hg _. by apply Hk.
Qed.

(** A statement with a known result that changes nothing the invariant sees. *)
Lemma safe_step {A} (m : M (World K) A) (k : A → M (World K) unit) w a w' :
  m w = Ok (a, w') → same_view F w w' → inv w →
  (inv w' → grow w w' → safe (k a) w') → safe (bind m k) w.
Proof.
  intros E Hv Hi Hk. destruct (good_view F h rel w w' Hi Hv) as [Hi' Hg].
  eapply wp_step; [exact E|]. eapply wp_mono; [by apply Hk|].
  intros [] w'' Hgo. by eapply good_trans.
Qed.

(** A statement that does not change the world. *)
Lemma safe_read {A} (m : M (World K) A) (k : A → M (World K) unit) w a :
  m w = Ok (a, w) → safe (k a) w → safe (bind m k) w.
Proof. intros E Hk. eapply wp_step; [exact E|exact Hk]. Qed.

Lemma safe_done m w w' : inv w → m w = Ok (tt, w') → same_view F w w' → safe m w.
Proof. intros Hi E Hv. eapply wp_Ok; [exact E|]. by apply good_view. Qed.

Lemma safe_ret w : inv w → safe (ret tt) w.
Proof. intros Hi. by apply (safe_done _ _ w). Qed.

Lemma inv_log w : inv w → "asynclogger" ∈ w_loggers w.
Proof. intros Hi. rewrite (i_log _ _ _ _ Hi). apply HF. Qed.

Lemma safe_log w : inv w → safe (log "asynclogger") w.
Proof. intros Hi. apply (safe_done _ _ w); [done| |done]. by apply log_ok, inv_log. Qed.

Lemma safe_when b m w : (b = true → safe m w) → inv w → safe (when b m) w.
Proof. destruct b; [auto|]. intros _. apply safe_ret. Qed.

Lemma safe_fault f w m : m w = Fault f → benign F f → safe m w.
Proof. intros E Hf. by eapply wp_fault. Qed.

Lemma view_trace t w : same_view F w (set_w_trace t w).
Proof. by apply view_irrelevant. Qed.
Lemma view_tick w : same_view F w (tick w).
Proof. by apply view_irrelevant. Qed.
Lemma view_strs t w : same_view F w (set_w_strs t w).
Proof. by apply view_irrelevant. Qed.

Lemma safe_emit e w : inv w → safe (emit e) w.
Proof. intros Hi. eapply safe_done; [done|apply emit_ok|apply view_trace]. Qed.

Lemma inv_loop w l : inv w → is_loop F l → ∃ x, w_loops w !! l = Some x ∧ loop_ok F l x.
Proof.
  intros Hi Hl. destruct (i_dom _ _ _ _ Hi _ Hl) as [x Hx]. exists x.
  by split; [|apply (i_loop _ _ _ _ Hi)].
Qed.

(** ** Queueing *)

Lemma wp_queue l f w :
  inv w → is_loop F l → fit h w l f →
  wp (benign F) (EventLoop.queueInLoop l f) w (λ _ w', good w w' ∧ w_conns w' = w_conns w).
Proof.
  intros Hi Hl Hf. destruct (inv_loop _ _ Hi Hl) as (x & Hx & _).
  eapply wp_Ok; [by apply queueInLoop_ok, inv_log|]. split; [|done].
  destruct (push_good F h rel w l x f Hi Hx Hf) as [Hi1 Hg1].
  eapply good_trans; [exact Hg1|]. apply good_view; [done|]. apply view_irrelevant; try done.
  intros ep fd. wcbn. unfold queue_kernel. destruct (EventLoop.needs_wakeup _ _); [|done].
  apply evw_interest.
Qed.

Lemma safe_queue l f w : inv w → is_loop F l → fit h w l f → safe (EventLoop.queueInLoop l f) w.
Proof.
  intros Hi Hl Hf. eapply wp_mono; [by apply wp_queue|]. by intros [] w' [Hgo _].
Qed.

Lemma fit_other w l f :
  functor_ok w l f → (∀ p, f ≠ FConnectEstablished p) → fit h w l f.
Proof. intros Hf Hne. split; [done|]. intros p ->. by destruct (Hne p). Qed.

Lemma safe_run l f run w :
  inv w → is_loop F l → fit h w l f →
  (∀ ep, f_loops F !! l = Some (ep, w_tid w) → safe run w) →
  safe (EventLoop.runInLoop l f run) w.
Proof.
  intros Hi Hl Hf Hrun. destruct (inv_loop _ _ Hi Hl) as (x & Hx & (P & _ & Hfl) & _).
  unfold EventLoop.runInLoop. eapply safe_read; [by apply load_loop_ok|].
  eapply safe_read; [apply gets_ok|]. unfold EventLoop.isInLoopThread.
  destruct (Z.eqb_spec (threadId_ x) (w_tid w)) as [E|_]; [|by apply safe_queue].
  apply (Hrun (epollfd_ P)). by rewrite Hfl, E.
Qed.

Lemma fit_conn w p c l f :
  w_conns w !! p = Some c → l = conn_loop_ c →
  match f with
  | FConnectDestroyed q | FWriteComplete _ q | FHighWaterMark _ q _ | FSendFileInLoop q _ _ _
  | FRemoveConnectionInLoop q => q = p
  | _ => False
  end → fit h w l f.
Proof.
  intros Hc -> Hf. apply fit_other; [|by destruct f].
  destruct f; cbn in *; try done; subst; eauto.
Qed.

(** ** Registration of connections *)

Lemma inv_env w p c :
  inv w → w_conns w !! p = Some c → ∃ x P, conn_env w p c x ∧ poller_ x = Some P ∧
    watch_only (ChConn p) (channel_ c) P (w_kernel w) ∧ index_value (index_ (channel_ c)).
Proof.
  intros Hi Hc. destruct (i_conn _ _ _ _ Hi _ _ Hc) as (Hl & Hlo & _ & _ & _ & Hv & _).
  destruct (inv_loop _ _ Hi Hlo) as (x & Hx & (P & HP & Hfl) & _).
  exists x, P. split; [split; [done|done|by eexists|done|by apply inv_log]|].
  split; [done|]. split; [|done]. intros ep fd ev Hk.
  apply (i_watch _ _ _ _ Hi) in Hk as (d & t & Hd & Hld & <- & Hidx). by simplify_eq.
Qed.

Lemma safe_events g p c w :
  inv w → w_conns w !! p = Some c → anchored h w p → safe (Channel.change_events g (ChConn p)) w.
Proof.
  intros Hi Hc Ha. destruct (inv_env _ _ _ Hi Hc) as (x & P & Henv & HP & Hw & Hv).
  set (ch1 := set_events_ (g (events_ (channel_ c))) (channel_ c)).
  destruct (EpollPoller.updateChannel (ChConn p) ch1 P (w_kernel w)) as [[ch' P'] k'] eqn:E.
  eapply wp_Ok; [by eapply change_events_ok|].
  assert (Hre : rewatched (ChConn p) ch1 P (w_kernel w) ch' P' k')
    by (by eapply updateChannel_rewatched).
  set (c1 := set_channel_ ch1 c).
  assert (Hc1 : same_view F w (set_w_conns (<[p := c1]> (w_conns w)) w)).
  { by apply (view_conn F p c). }
  destruct (good_view F h rel _ _ Hi Hc1) as [Hi1 Hg1]. set (w1 := set_w_conns _ w) in *.
  eapply good_trans; [exact Hg1|].
  assert (Hgo : good w1 (set_w_kernel k' (set_w_conns (<[p := set_channel_ ch' c1]> (w_conns w1))
    (set_w_loops (<[conn_loop_ c1 := set_poller_ (Some P') x]> (w_loops w1)) w1)))).
  { eapply (register_good F h rel w1 p c1 x P ch' P' k'); try done.
    - apply lookup_insert_eq.
    - apply Henv.
    - left. by eapply g_anchor. }
  subst w1. wcbn. by rewrite insert_insert_eq in Hgo.
Qed.

Lemma safe_remove p c w :
  inv w → w_conns w !! p = Some c →
  wp (benign F) (Channel.remove (ChConn p)) w (λ _ w', good w w' ∧
    ∀ c', w_conns w' !! p = Some c' → index_ (channel_ c') ≠ ADDED).
Proof.
  intros Hi Hc. destruct (inv_env _ _ _ Hi Hc) as (x & P & Henv & HP & Hw & Hv).
  destruct (EpollPoller.removeChannel (ChConn p) (channel_ c) P (w_kernel w)) as [[ch' P'] k'] eqn:E.
  eapply wp_Ok; [by eapply remove_ok|].
  destruct (removeChannel_rewatched _ _ _ _ _ _ _ Hw E) as [Hre Hnew]. split.
  - eapply register_good; try done; [apply Henv|]. right. by rewrite Hnew.
  - wcbn. intros c' Hc'. rewrite lookup_insert_eq in Hc'. injection Hc' as <-.
    cbn. by rewrite Hnew.
Qed.

(** ** Operations of a connection *)

(** The running thread is that of [p]'s loop. *)
Definition here w (p : ptr) : Prop :=
  ∃ c ep, w_conns w !! p = Some c ∧ f_loops F !! conn_loop_ c = Some (ep, w_tid w).
Definition ready w (p : ptr) : Prop := here w p ∧ anchored h w p.

Lemma here_grow w w' p : grow w w' → here w p → here w' p.
Proof.
  intros Hg (c & ep & Hc & Hl). destruct (g_conn _ _ _ Hg _ _ Hc) as (c' & Hc' & El).
  exists c', ep. by rewrite El, (g_tid _ _ _ Hg).
Qed.
Lemma ready_grow w w' p : grow w w' → ready w p → ready w' p.
Proof. intros Hg [? ?]. split; [by eapply here_grow|by eapply g_anchor]. Qed.

Lemma conn_is_loop w p c : inv w → w_conns w !! p = Some c → is_loop F (conn_loop_ c).
Proof. intros Hi Hc. by destruct (i_conn _ _ _ _ Hi _ _ Hc) as (_ & ? & _). Qed.

Lemma conn_buffers w p c :
  inv w → w_conns w !! p = Some c → Buffer.wf (inputBuffer_ c) ∧ Buffer.wf (outputBuffer_ c).
Proof. intros Hi Hc. by destruct (i_conn _ _ _ _ Hi _ _ Hc) as (_ & _ & ? & ? & _). Qed.

(** Storing members of the connection that the invariant does not fix. *)
Lemma sim_input c b : Buffer.wf b → conn_sim F c (set_inputBuffer_ b c).
Proof. intros Hb. split; [|done]. intros p (? & ? & _ & ? & ? & ? & ?). by split_and!. Qed.
Lemma sim_output c b : Buffer.wf b → conn_sim F c (set_outputBuffer_ b c).
Proof. intros Hb. split; [|done]. intros p (? & ? & ? & _ & ? & ? & ?). by split_and!. Qed.
Lemma sim_state c s : conn_sim F c (set_state_ s c).
Proof. by split. Qed.

Lemma safe_store p c c' k w :
  inv w → w_conns w !! p = Some c → conn_sim F c c' →
  (let w' := set_w_conns (<[p := c']> (w_conns w)) w in
   inv w' → grow w w' → w_conns w' !! p = Some c' → safe (k tt) w') →
  safe (bind (store_conn p c') k) w.
Proof.
  intros Hi Hc Hs Hk. eapply safe_step; [apply store_conn_ok|by eapply view_conn|done|].
  intros Hi' Hg. apply Hk; [done..|]. apply lookup_insert_eq.
Qed.

Lemma safe_write_complete p c c0 w :
  inv w → w_conns w !! p = Some c0 → conn_loop_ c = conn_loop_ c0 →
  wp (benign F) (TcpConnection.queue_write_complete p c) w
    (λ _ w', good w w' ∧ w_conns w' = w_conns w).
Proof.
  intros Hi Hc El. unfold TcpConnection.queue_write_complete.
  destruct (bool_decide _); cbn [when]; [|by eapply wp_Ok; [done|split; [by apply good_refl|]]].
  apply wp_queue; [done| |by eapply fit_conn]. rewrite El. by eapply conn_is_loop.
Qed.

Lemma view_write fd data w : same_view F w (after_write fd data w).
Proof.
  unfold after_write. destruct (write_answer w data); by apply view_irrelevant.
Qed.

Lemma wp_try_write p c data w :
  inv w → w_conns w !! p = Some c → zlen data ≤ max_size →
  wp (benign F) (TcpConnection.try_write p c data) w
    (λ r w', good w w' ∧ w_conns w' = w_conns w ∧ 0 ≤ r.1.1 ∧ r.1.1 + r.1.2 = zlen data).
Proof.
  intros Hi Hc Hmax. pose proof (zlen_nonneg data). unfold TcpConnection.try_write.
  destruct (_ && _); [|eapply wp_Ok; [done|]; split; [by apply good_refl|]; by split_and!].
  eapply wp_step; [apply sys_write_ok|].
  destruct (good_view F h rel _ _ Hi (view_write (fd_ (channel_ c)) data w)) as [Hi1 Hg1].
  pose proof (after_write_conns (fd_ (channel_ c)) data w) as Ec.
  set (w1 := after_write _ data w) in *. unfold write_answer. destruct (sr_ret (answer w) <? 0) eqn:Es.
  - destruct (negb _).
    + eapply wp_step; [by apply log_ok, inv_log|]. eapply wp_Ok; [done|].
      split; [by split|]. by split_and!.
    + eapply wp_Ok; [done|]. split; [by split|]. by split_and!.
  - apply Z.ltb_ge in Es. set (n := Z.min _ _).
    assert (Hn : 0 ≤ n ≤ zlen data) by (subst n; lia).
    rewrite (wrap64_small (zlen data - n)) by (unfold max_size in *; lia).
    apply wp_bind. destruct (_ =? 0); cbn [when].
    + eapply wp_mono; [eapply (safe_write_complete p c c); by rewrite ?Ec|].
      intros [] w2 [Hgo Ec2]. eapply wp_Ok; [done|].
      split; [by eapply good_trans|]. cbn. split_and!; [congruence|lia..].
    + eapply wp_Ok; [done|]. eapply wp_Ok; [done|]. split; [by split|]. cbn. split_and!; [done|lia..].
Qed.

Lemma safe_buffer_rest p data nwrote remaining w :
  inv w → ready w p → 0 ≤ nwrote → 0 < remaining → nwrote + remaining = zlen data →
  zlen data ≤ max_size → safe (TcpConnection.buffer_rest p data nwrote remaining) w.
Proof.
  intros Hi [(c & ep & Hc & Hl) Ha] Hn Hr Hsum Hmax. unfold TcpConnection.buffer_rest.
  eapply safe_read; [by apply load_conn_ok|].
  eapply (safe_wp_bind _ _ (λ _ w', w_conns w' = w_conns w)).
  { destruct (_ && _ && _); cbn [when].
    - apply wp_queue; [done|by eapply conn_is_loop|by eapply fit_conn].
    - eapply wp_Ok; [done|]. split; [by apply good_refl|done]. }
  intros [] w1 Hi1 Hg1 Ec. rewrite <- Ec in Hc.
  rewrite mem_read_Ok by lia. eapply safe_read; [done|].
  destruct (conn_buffers _ _ _ Hi1 Hc) as [_ Hb].
  set (d := slice nwrote remaining data).
  assert (Hd : zlen d ≤ max_size) by (subst d; rewrite zlen_slice by lia; lia).
  destruct (append_total d _ Hb Hd) as [(b' & -> & Hb')| ->].
  - eapply safe_read; [done|]. eapply safe_store; [done..|by apply sim_output|].
    intros w2 Hi2 Hg2 Hc2. apply safe_when; [|done]. intros _.
    eapply safe_events; [done..|]. by eapply g_anchor, g_anchor.
  - eapply safe_fault; [done|]. right; right; by left.
Qed.

Lemma safe_sendInLoop p data w :
  inv w → ready w p → zlen data ≤ max_size → safe (TcpConnection.sendInLoop p data) w.
Proof.
  intros Hi Hr Hmax. pose proof Hr as [(c & ep & Hc & Hl) Ha]. unfold TcpConnection.sendInLoop.
  eapply safe_read; [by apply load_conn_ok|]. case_decide; [by apply safe_log|].
  eapply safe_wp_bind; [by eapply wp_try_write|].
  intros [[nwrote remaining] fault] w1 Hi1 Hg1 (Ec & Hn & Hsum). cbn in Hn, Hsum.
  apply safe_when; [|done]. intros [_ Hpos%Z.ltb_lt]%andb_true_iff.
  apply safe_buffer_rest; try done. by eapply ready_grow.
Qed.

(** On the loop's thread [send] never takes the queue. *)
Lemma safe_send p buf s w :
  inv w → ready w p → w_strs w !! buf = Some s → zlen s ≤ max_size →
  safe (TcpConnection.send p buf) w.
Proof.
  intros Hi Hr Hs Hmax. pose proof Hr as [(c & ep & Hc & Hl) Ha]. unfold TcpConnection.send.
  eapply safe_read; [by apply load_conn_ok|]. case_decide; [|by apply safe_ret].
  destruct (inv_loop w (conn_loop_ c) Hi) as (x & Hx & (P & _ & Hfl) & _); [by eexists|].
  eapply safe_read; [by apply load_loop_ok|]. eapply safe_read; [apply gets_ok|].
  eapply (safe_read _ _ _ s); [unfold TcpConnection.load_str; by rewrite Hs|].
  unfold EventLoop.isInLoopThread. assert (threadId_ x = w_tid w) as -> by congruence.
  rewrite Z.eqb_refl. by apply safe_sendInLoop.
Qed.

Lemma safe_send_string p s w :
  inv w → ready w p → zlen s ≤ max_size → safe (with_string s (TcpConnection.send p)) w.
Proof.
  intros Hi Hr Hmax. unfold with_string. eapply safe_read; [apply gets_ok|].
  eapply safe_step; [apply modify_ok|apply view_strs|done|]. intros Hi1 Hg1.
  apply safe_bind.
  - eapply safe_send; [done|by eapply ready_grow| |done]. apply lookup_insert_eq.
  - intros w2 Hi2 Hg2. eapply safe_done; [done|apply modify_ok|apply view_strs].
Qed.

Lemma safe_shutdownInLoop p c w :
  inv w → w_conns w !! p = Some c → safe (TcpConnection.shutdownInLoop p) w.
Proof.
  intros Hi Hc. unfold TcpConnection.shutdownInLoop, TcpConnection.shutdownWrite.
  eapply safe_read; [by apply load_conn_ok|]. apply safe_when; [intros _|done].
  eapply safe_step; [apply syscall_ok|apply view_tick|done|]. intros Hi1 _.
  destruct (_ <? 0); [by apply safe_log|by apply safe_emit].
Qed.

Lemma wp_sendfile out_fd in_fd offset count w :
  wp (benign F) (sys_sendfile out_fd in_fd offset count) w
    (λ _ w', same_view F w w' ∧ w_conns w' = w_conns w).
Proof.
  unfold sys_sendfile. eapply wp_step; [apply syscall_ok|].
  destruct (_ <? 0); [eapply wp_Ok; [done|]|eapply wp_step; [apply emit_ok|]; eapply wp_Ok; [done|]];
    (split; [by apply view_irrelevant|done]).
Qed.

Lemma safe_sendFileInLoop p c fd offset count w :
  inv w → w_conns w !! p = Some c → safe (TcpConnection.sendFileInLoop p fd offset count) w.
Proof.
  intros Hi Hc. unfold TcpConnection.sendFileInLoop.
  eapply safe_read; [by apply load_conn_ok|]. case_decide; [by apply safe_log|].
  eapply (safe_wp_bind _ _ (λ _ w', w_conns w' = w_conns w)).
  - destruct (_ && _); [|by eapply wp_Ok; [done|split; [by apply good_refl|]]].
    apply wp_bind. eapply wp_mono; [apply wp_sendfile|]. intros r w1 [Hv Ec].
    destruct (good_view F h rel _ _ Hi Hv) as [Hi1 Hg1]. destruct r as [n|e]; apply wp_bind.
    + destruct (_ =? 0); cbn [when]; [|by do 2 (eapply wp_Ok; [done|])].
      eapply wp_mono; [eapply (safe_write_complete p c c); by rewrite ?Ec|].
      intros [] w2 [Hgo Ec2]. eapply wp_Ok; [done|]. split; [by eapply good_trans|congruence].
    + eapply wp_Ok; [by apply when_log_ok, inv_log|]. by eapply wp_Ok.
  - intros [[remaining off] fault] w1 Hi1 Hg1 Ec. apply safe_when; [intros _|done].
    rewrite <- Ec in Hc. apply safe_queue; [done|by eapply conn_is_loop|by eapply fit_conn].
Qed.
End safe.

(** ** Handlers *)

(** What the library needs of the application: its callbacks keep the invariant
    when they run on the connection's own thread. *)
Class SafeApp {K} `{Kernel K} `{UserCode K} (F : fixed) : Prop := {
  app_connection h rel cb p w :
    inv F h rel w → ready F h w p → safe F h rel (onConnection cb p) w;
  app_message h rel cb p t w :
    inv F h rel w → ready F h w p → safe F h rel (onMessage cb p t) w;
  app_write_complete h rel cb p w :
    inv F h rel w → here F w p → safe F h rel (onWriteComplete cb p) w;
  app_high_water h rel cb p n w :
    inv F h rel w → here F w p → safe F h rel (onHighWaterMark cb p n) w;
  app_user h rel cb w : inv F h rel w → safe F h rel (onUser cb) w }.

Section handlers.
Context {K : Type} `{KernelOk K} `{InetLibOk} `{UserCode K} (F : fixed) (HF : fixed_ok F).
Context {App : SafeApp F}.
Context (h : ptr → list Functor) (rel : list ptr).
Implicit Types w : World K.
Local Abbreviation inv := (inv F h rel).
Local Abbreviation grow := (grow h).
Local Abbreviation good := (good F h rel).
Local Abbreviation safe := (safe F h rel).
Local Abbreviation ready := (ready F h).

Lemma safe_call_connection p w : inv w → ready w p → safe (TcpConnection.call_connection p) w.
Proof.
  intros Hi Hr. pose proof Hr as [(c & ep & Hc & Hl) Ha]. unfold TcpConnection.call_connection.
  eapply safe_read; [by apply load_conn_ok|]. destruct (connectionCallback_ c) as [cb|].
  - apply safe_bind; [by apply safe_emit|]. intros w1 Hi1 Hg1.
    apply app_connection; [done|by eapply ready_grow].
  - eapply safe_fault; [done|by left].
Qed.

Lemma safe_call_message p t w : inv w → ready w p → safe (TcpConnection.call_message p t) w.
Proof.
  intros Hi Hr. pose proof Hr as [(c & ep & Hc & Hl) Ha]. unfold TcpConnection.call_message.
  eapply safe_read; [by apply load_conn_ok|]. destruct (messageCallback_ c) as [cb|].
  - apply safe_bind; [by apply safe_emit|]. intros w1 Hi1 Hg1.
    apply app_message; [done|by eapply ready_grow].
  - eapply safe_fault; [done|by left].
Qed.

Lemma safe_removeConnectionInLoop p c w :
  inv w → w_conns w !! p = Some c → safe (TcpServer.removeConnectionInLoop p) w.
Proof.
  intros Hi Hc. unfold TcpServer.removeConnectionInLoop.
  eapply safe_read; [by apply log_ok; eapply inv_log|]. eapply safe_read; [by apply load_conn_ok|].
  eapply wp_step; [apply modify_ok|].
  pose proof (conn_is_loop F h rel _ _ _ Hi Hc) as Hl.
  destruct (inv_loop F h rel _ _ Hi Hl) as (x & Hx & _).
  set (w1 := set_w_server _ w). eapply wp_Ok; [apply (queueInLoop_ok _ _ x w1 Hx)|].
  { exact (inv_log F HF h rel w Hi). }
  assert (Hf : fit h w (conn_loop_ c) (FConnectDestroyed p)) by by eapply fit_conn.
  destruct (push_good F h rel w _ x _ Hi Hx Hf) as [Hi2 Hg2]. set (w2 := set_w_loops _ w) in *.
  eapply good_trans; [exact Hg2|].
  assert (Hq : FConnectDestroyed p ∈ queue w2 (conn_loop_ c)).
  { unfold queue. subst w2. wcbn. rewrite lookup_insert_eq. cbn. set_solver. }
  destruct (forget_good F h rel w2 p c _ Hi2 Hc Hq) as [Hi3 Hg3]. set (w3 := set_w_server _ w2) in *.
  eapply good_trans; [exact Hg3|]. apply good_view; [done|]. apply view_irrelevant; try done.
  intros ep fd. wcbn. unfold queue_kernel. destruct (EventLoop.needs_wakeup _ _); [|done].
  apply evw_interest.
Qed.

Lemma safe_removeConnection p c w :
  inv w → w_conns w !! p = Some c → safe (System.closeCallback p) w.
Proof.
  intros Hi Hc. unfold System.closeCallback, TcpServer.removeConnection.
  eapply safe_read; [apply gets_ok|]. destruct (i_server _ _ _ _ Hi) as [Hsl _].
  apply safe_run; [done..| |].
  - apply fit_other; [by eexists|done].
  - intros ep _. by eapply safe_removeConnectionInLoop.
Qed.

Lemma safe_handleClose p w :
  inv w → ready w p → safe (TcpConnection.handleClose System.closeCallback p) w.
Proof.
  intros Hi Hr. unfold TcpConnection.handleClose.
  apply safe_bind; [by apply safe_log|]. intros w1 Hi1 Hg1.
  pose proof (ready_grow F h _ _ _ Hg1 Hr) as Hr1. apply safe_bind.
  { destruct Hr1 as [(c & ep & Hc & _) Ha]. by eapply safe_events. }
  intros w2 Hi2 Hg2. pose proof (ready_grow F h _ _ _ Hg2 Hr1) as Hr2. apply safe_bind.
  { by apply safe_call_connection. }
  intros w3 Hi3 Hg3. destruct (ready_grow F h _ _ _ Hg3 Hr2) as [(c & ep & Hc & _) _].
  unfold TcpConnection.call_close. eapply safe_read; [by apply load_conn_ok|].
  destruct (conn_closeCallback_ c); [by eapply safe_removeConnection|].
  eapply safe_fault; [done|by left].
Qed.

Lemma safe_handleError p c w :
  inv w → w_conns w !! p = Some c → safe (TcpConnection.handleError p) w.
Proof.
  intros Hi Hc. unfold TcpConnection.handleError. eapply safe_read; [by apply load_conn_ok|].
  eapply safe_step; [apply syscall_ok|apply view_tick|done|]. intros Hi1 _. by apply safe_log.
Qed.

Lemma safe_handleRead p t w :
  inv w → ready w p → safe (TcpConnection.handleRead System.closeCallback p t) w.
Proof.
  intros Hi Hr. pose proof Hr as [(c & ep & Hc & Hl) Ha]. unfold TcpConnection.handleRead.
  eapply safe_read; [by apply load_conn_ok|].
  eapply safe_step; [apply syscall_ok|apply view_tick|done|]. intros Hi1 Hg1.
  pose proof (ready_grow F h _ _ _ Hg1 Hr) as Hr1.
  destruct (conn_buffers F h rel _ _ _ Hi Hc) as [Hb _].
  destruct (readFd_total _ _ Hb (readv_answer_bounded (answer w))) as [(r & b' & -> & Hb')| ->].
  2: { eapply safe_fault; [done|]. right; right; by left. }
  eapply safe_read; [done|]. eapply safe_store; [done|exact Hc|by apply sim_input|].
  intros w2 Hi2 Hg2 Hc2. cbn in Hc2. pose proof (ready_grow F h _ _ _ Hg2 Hr1) as Hr2.
  cbn [fst snd]. destruct r as [d|e]; [|by eapply safe_handleError].
  apply safe_bind; [by apply safe_emit|]. intros w3 Hi3 Hg3.
  pose proof (ready_grow F h _ _ _ Hg3 Hr2) as Hr3.
  destruct (0 <? zlen d); [by apply safe_call_message|by apply safe_handleClose].
Qed.

Lemma safe_handleWrite p w : inv w → ready w p → safe (TcpConnection.handleWrite p) w.
Proof.
  intros Hi Hr. pose proof Hr as [(c & ep & Hc & Hl) Ha]. unfold TcpConnection.handleWrite.
  eapply safe_read; [by apply load_conn_ok|].
  destruct (Channel.isWriting _); [|by apply safe_log].
  destruct (conn_buffers F h rel _ _ _ Hi Hc) as [_ Hb]. rewrite writeFd_ok by done.
  eapply safe_read; [done|].
  set (fd := fd_ (channel_ c)). set (data := Buffer.content (outputBuffer_ c)).
  eapply safe_step; [apply sys_write_ok|apply view_write|done|]. intros Hi1 Hg1.
  pose proof (ready_grow F h _ _ _ Hg1 Hr) as Hr1.
  assert (Hc1 : w_conns (after_write fd data w) !! p = Some c) by by rewrite after_write_conns.
  set (w1 := after_write fd data w) in *.
  destruct (write_answer w data) as [n|e]; [|by apply safe_log].
  destruct (Z.ltb_spec 0 n) as [Hn|_]; [|by apply safe_log].
  eapply safe_store; [done|exact Hc1|apply sim_output, retrieve_wf; [done|lia]|].
  intros w2 Hi2 Hg2 Hc2. pose proof (ready_grow F h _ _ _ Hg2 Hr1) as Hr2.
  apply safe_when; [intros _|done]. apply safe_bind.
  { destruct Hr2 as [_ Ha2]. by eapply safe_events. }
  intros w3 Hi3 Hg3. pose proof (g_conn _ _ _ Hg3 _ _ Hc2) as (c3 & Hc3 & El3). apply safe_bind.
  { eapply wp_mono; [by eapply safe_write_complete|]. by intros [] w' [Hgo _]. }
  intros w4 Hi4 Hg4. pose proof (g_conn _ _ _ Hg4 _ _ Hc3) as (c4 & Hc4 & _).
  eapply safe_read; [by apply load_conn_ok|].
  case_decide; [by eapply safe_shutdownInLoop|by apply safe_ret].
Qed.
End handlers.
