(* ===== verification/SafeRun.v ===== *)
(** * Memory safety of the running server: connections come and go, loops turn

    The remaining operations of [Handlers.v]'s kind, then one iteration of a
    loop, and any sequence of iterations of any loops, each on its own thread:
    whatever the kernel answers, no step touches freed memory, leaves the
    bounds of a buffer or dereferences null. *)

From stdpp Require Import base tactics numbers list gmap strings.
From Stdlib Require Import ZArith Lia.
From S2P Require Import Prelude NetBuffer Kernel World Poller Demo Loop Channels Connection.
From S2P Require Import ConnFacts Inet LoopPool Server ServerFacts System Safety SafeTasks Handlers.

Local Open Scope Z_scope.
Local Open Scope prog_scope.

Section connections.
Context {K : Type} `{KernelOk K} `{InetLibOk} `{UserCode K} (F : fixed) (HF : fixed_ok F).
Context {App : SafeApp F}.
Context (h : ptr → list Functor) (rel : list ptr).
Implicit Types w : World K.
Local Abbreviation inv := (inv F h rel).
Local Abbreviation grow := (grow h).
Local Abbreviation good := (good F h rel).
Local Abbreviation safe := (safe F h rel).
Local Abbreviation ready := (ready F h).

Lemma view_tie p c obj w :
  w_conns w !! p = Some c →
  ∃ w', Channel.tie (ChConn p) obj w = Ok (tt, w') ∧ same_view F w w'.
Proof.
  intros Hc. assert (Hcc : chan_of w (ChConn p) = Some (channel_ c)) by (cbn; by rewrite Hc).
  eexists. split; [by apply (modify_channel_ok _ _ _ _ Hcc)|]. cbn [put_chan].
  erewrite <- insert_alter_eq; [|exact Hc|reflexivity]. by apply (view_conn F p c).
Qed.

Lemma safe_connectEstablished p w : inv w → ready w p → safe (TcpConnection.connectEstablished p) w.
Proof.
  intros Hi Hr. pose proof Hr as [(c & ep & Hc & Hl) Ha]. unfold TcpConnection.connectEstablished.
  eapply safe_step; [by apply modify_conn_ok|by apply (view_conn F p c), sim_state|done|].
  intros Hi1 Hg1. set (w1 := set_w_conns _ w) in *.
  assert (Hc1 : w_conns w1 !! p = Some (set_state_ kConnected c)) by apply lookup_insert_eq.
  destruct (view_tie _ _ p _ Hc1) as (w2 & E2 & Hv2).
  eapply safe_step; [exact E2|done|done|]. intros Hi2 Hg2.
  pose proof (ready_grow F h _ _ _ Hg2 (ready_grow F h _ _ _ Hg1 Hr)) as Hr2.
  apply safe_bind.
  { destruct Hr2 as [(c2 & ep2 & Hc2 & _) Ha2]. by eapply safe_events. }
  intros w3 Hi3 Hg3. apply safe_call_connection; [done..|]. by eapply ready_grow.
Qed.

Lemma wp_connectDestroyed p w :
  inv w → ready w p →
  wp (benign F) (TcpConnection.connectDestroyed p) w (λ _ w', good w w' ∧
    ∀ c', w_conns w' !! p = Some c' → index_ (channel_ c') ≠ ADDED).
Proof.
  intros Hi Hr. pose proof Hr as [(c & ep & Hc & Hl) Ha]. unfold TcpConnection.connectDestroyed.
  eapply wp_step; [by apply load_conn_ok|]. apply wp_bind.
  eapply (wp_mono _ _ _ (λ _ w', good w w')).
  - destruct (decide _); [|by apply safe_ret].
    eapply safe_store; [done..|by apply sim_state|]. intros w1 Hi1 Hg1 Hc1.
    pose proof (ready_grow F h _ _ _ Hg1 Hr) as Hr1. apply safe_bind.
    { destruct Hr1 as [_ Ha1]. by eapply safe_events. }
    intros w2 Hi2 Hg2. apply safe_call_connection; [done..|]. by eapply ready_grow.
  - intros [] w1 [Hi1 Hg1]. destruct (g_conn _ _ _ Hg1 _ _ Hc) as (c1 & Hc1 & _).
    eapply wp_mono; [by eapply safe_remove|]. intros [] w2 [Hgo Hidx].
    split; [by eapply good_trans|done].
Qed.

(** ** Accepting *)

Lemma inv_registry w : inv w → server_inv w.
Proof.
  intros Hi. destruct (i_server _ _ _ _ Hi) as (_ & _ & Hid & Hpool & _). split; try done.
  - intros n p Hn. by apply (i_map _ _ _ _ Hi).
  - intros n p Hn. destruct (i_map _ _ _ _ Hi _ _ Hn) as (c & Hc & <-).
    by apply (i_name _ _ _ _ Hi p).
Qed.

Lemma accepted_ok s p ioLoop fd la pa :
  is_loop F ioLoop → valid_addr pa → conn_ok F p (accepted s p ioLoop fd la pa).
Proof.
  intros Hl Ha. split_and!; cbn; try done; try apply ctor_wf.
  by left.
Qed.

Lemma registered_good w w1 p ioLoop fd la pa pool' (s := w_server w)
    (name := TcpServer.conn_name s (nextConnId_ s)) :
  inv w → is_loop F ioLoop → valid_addr pa → w_conns w !! p = None →
  loops_ pool' = [] ∨ pool_ok pool' → pool' = set_next_ (next_ pool') (pool_of w) →
  w_server w1 = set_connections_ (<[name := p]> (connections_ s)) (next_server s pool') →
  w_conns w1 = <[p := accepted s p ioLoop fd la pa]> (w_conns w) →
  w_loops w1 = w_loops w → w_kernel w1 = w_kernel w → w_tid w1 = w_tid w →
  w_loggers w1 = w_loggers w → w_oracle w1 = w_oracle w → good w w1.
Proof.
  intros Hi Hl Hpa Hp Hp1 Hp2 Es Ec El Ek Et Eg Eo.
  eapply (accept_good F h rel w w1 p); rewrite ?Es; try done.
  - by apply accepted_ok.
  - destruct (i_server _ _ _ _ Hi) as (Hs1 & Hs2 & Hs3 & _ & Hs5 & Hs6).
    split_and!; cbn; try done; [fold s in Hs3; lia|]. rewrite Hp2. exact Hs5.
Qed.

Lemma safe_newConnection fd pa w :
  inv w → valid_addr pa → safe (TcpServer.newConnection fd pa) w.
Proof.
  intros Hi Hpa.
  destruct (newConnection_next fd pa w (inv_registry _ Hi)) as (l & pool' & _ & Hin & Hp1 & Hp2 & E).
  unfold Handlers.safe, wp. rewrite E. destruct (_ =? _); [by right; left|].
  assert (Hl : is_loop F l) by by apply (i_server _ _ _ _ Hi).
  pose proof (inv_log F HF h rel w Hi) as Hlog.
  destruct (decide (0 ≤ sr_ret (answer w) ∨ "asyclogger" ∈ w_loggers w)) as [Hans|Hno].
  - destruct (register_connection_ok l fd pa w pool' Hlog Hpa Hans) as
      (w1 & E1 & Es & Ec & El & Ek & Et & Eg & Eo). rewrite E1.
    pose proof (fresh_addr_new (w_conns w)) as Hnew. set (p := fresh_addr (w_conns w)) in *.
    destruct (registered_good w w1 p l fd _ pa pool' Hi Hl Hpa Hnew Hp1 Hp2 Es Ec El Ek Et Eg Eo)
      as [Hi1 Hg1].
    assert (Hm : mapped w1 p) by (eexists; rewrite Es; apply lookup_insert_eq).
    eapply (wp_mono _ _ _ (λ _ w', good w1 w')).
    + apply safe_run; [done..| |].
      * split; [|intros q [= <-]; split; [by left|]].
        { eexists. split; [rewrite Ec; apply lookup_insert_eq|done]. }
        intros Hd. assert (Hpend : FConnectDestroyed p ∈ pend h w l)
          by (unfold pend, queue in *; by rewrite El in Hd).
        apply (i_functor _ _ _ _ Hi) in Hpend as (c & Hc & _). congruence.
      * intros ep Hep. apply safe_connectEstablished; [done..|]. split; [|by left].
        eexists _, ep. split; [rewrite Ec; apply lookup_insert_eq|done].
    + intros [] w2 Hgo. by eapply good_trans.
  - assert (Hneg : ¬ 0 ≤ sr_ret (answer w)) by tauto.
    assert (Hno2 : "asyclogger" ∉ w_loggers w) by tauto.
    rewrite register_getsockname; [|done|done| |exact Hno2].
    + right; right; right. split; [done|]. by rewrite <- (i_log _ _ _ _ Hi).
    + change (sr_ret (answer w) < 0). lia.
Qed.

Lemma safe_accept w : inv w → safe (Acceptor.handleRead TcpServer.newConnection) w.
Proof.
  intros Hi. unfold Acceptor.handleRead, Socket.Accept.
  eapply safe_read; [apply gets_ok|]. eapply (safe_wp_bind _ _ _ _ _ (λ r w', 0 ≤ r.1 → valid_addr r.2)).
  - destruct (good_view F h rel _ _ Hi (view_tick F w)) as [Hi1 Hg1].
    eapply wp_step; [apply syscall_ok|]. destruct (Z.ltb_spec (sr_ret (answer w)) 0).
    + eapply wp_Ok; [done|]. split; [by split|]. cbn. lia.
    + eapply wp_Ok; [done|]. split; [by split|]. intros _. cbn. unfold answer.
      rewrite (i_oracle _ _ _ _ Hi). apply HF.
  - intros [fd pa] w1 Hi1 Hg1 Hpa. cbn [fst snd] in *.
    destruct (Z.leb_spec 0 fd); [|by apply safe_log].
    destruct (NewConnectionCallback_ _); [|by apply safe_emit]. by apply safe_newConnection, Hpa.
Qed.

(** [Acceptor::listen]: the listening socket joins epoll. *)
Lemma safe_listen_events g w : inv w → safe (Channel.change_events g ChAccept) w.
Proof.
  intros Hi. unfold Channel.change_events.
  eapply safe_step; [by apply (modify_channel_ok ChAccept)| |done|].
  { apply view_server. by split_and!. }
  cbn [put_chan]. set (ch1 := set_events_ _ _). set (w1 := set_w_server _ w). intros Hi1 Hg1.
  unfold Channel.update. eapply safe_read; [by apply (load_channel_ok ChAccept ch1)|].
  destruct (i_server _ _ _ _ Hi1) as (_ & Hl & _). change (is_loop F (ch_loop_ ch1)) in Hl.
  destruct (inv_loop F h rel _ _ Hi1 Hl) as (x & Hx & Hok). pose proof Hok as [(P & HP & Hfl) Hcb].
  unfold EventLoop.updateChannel, EventLoop.with_poller.
  eapply safe_read; [by apply load_loop_ok|]. rewrite HP.
  eapply safe_read; [by apply log_ok, (inv_log F HF h rel)|].
  eapply safe_read; [by apply (load_channel_ok ChAccept ch1)|]. eapply safe_read; [apply gets_ok|].
  destruct (EpollPoller.updateChannel ChAccept ch1 P (w_kernel w1)) as [[ch' P'] k'] eqn:E.
  pose proof (updateChannel_watch _ _ _ _ _ _ _ E) as [HP' Hk]. apply updateChannel_shape in E as Hch.
  eapply safe_step; [by apply modify_loop_ok|apply (view_loop F _ x); [done|]|done|].
  { split; [|done]. intros l0 [(P0 & HP0 & Hfl0) ?]. split; [|done]. exists P'. cbn.
    assert (P0 = P) as -> by congruence. by rewrite HP'. }
  intros Hi2 Hg2. set (w2 := set_w_loops _ w1) in *.
  eapply safe_step; [by apply (modify_channel_ok ChAccept _ ch1)| |done|].
  { cbn [put_chan]. apply view_server. rewrite Hch. by split_and!. }
  intros Hi3 Hg3. eapply wp_Ok; [apply modify_ok|]. apply accept_watch_good; [done|].
  intros ep fd ev q [?|[-> _]]%Hk; auto.
Qed.

Lemma safe_listen w : inv w → safe Acceptor.listen w.
Proof.
  intros Hi. unfold Acceptor.listen, Acceptor.modify_acceptor, modify_server.
  eapply safe_step; [apply modify_ok|by apply view_server|done|]. intros Hi1 Hg1.
  eapply safe_read; [apply gets_ok|]. apply safe_bind.
  - unfold Socket.Listen.
    eapply safe_step; [apply syscall_ok|apply view_tick|done|]. intros Hi2 Hg2.
    destruct (negb _); [by apply safe_log|by apply safe_emit].
  - intros w2 Hi2 Hg2. by apply safe_listen_events.
Qed.

(** The wakeup channel's handler. *)
Lemma safe_wakeup_read l w : inv w → is_loop F l → safe (EventLoop.handleRead l) w.
Proof.
  intros Hi Hl. destruct (inv_loop F h rel _ _ Hi Hl) as (x & Hx & _).
  unfold EventLoop.handleRead. eapply safe_read; [by apply load_loop_ok|].
  eapply safe_read; [apply gets_ok|].
  eapply safe_step; [apply modify_ok|apply view_irrelevant; try done|done|].
  - intros ep fd. wcbn. apply evr_interest.
  - intros Hi1 Hg1. apply safe_when; [intros _|done]. by apply safe_log.
Qed.

(** ** Dispatching events *)

(** A callback that may be called. *)
Definition closure_ok w (c : closure) : Prop :=
  match c with
  | CbLoopHandleRead l => is_loop F l
  | CbAcceptorHandleRead => True
  | CbConnHandleRead p | CbConnHandleWrite p | CbConnHandleClose p | CbConnHandleError p => ready w p
  end.

Lemma safe_run_closure t c w : inv w → closure_ok w c → safe (System.run_closure t c) w.
Proof.
  intros Hi Hc. destruct c as [l| |p|p|p|p]; cbn in *.
  - by apply safe_wakeup_read.
  - by apply safe_accept.
  - by apply safe_handleRead.
  - by apply safe_handleWrite.
  - by apply safe_handleClose.
  - destruct Hc as [(c & ep & Hc & _) _]. by eapply safe_handleError.
Qed.

(** A channel epoll may report. *)
Definition active w (cp : chptr) : Prop :=
  match cp with ChWakeup l => is_loop F l | ChAccept => True | ChConn p => ready w p end.

Lemma active_grow w w' cp : grow w w' → active w cp → active w' cp.
Proof. intros Hg. destruct cp; cbn; try done. by apply ready_grow. Qed.

Lemma active_chan w cp :
  inv w → active w cp →
  ∃ ch, chan_of w cp = Some ch ∧ ∀ c, c ∈ callbacks ch → closure_ok w c.
Proof.
  intros Hi Ha. destruct cp as [l| |p]; cbn in *.
  - destruct (inv_loop F h rel _ _ Hi Ha) as (x & Hx & _ & Hcb). exists (wakeupChannel_ x).
    rewrite Hx. split; [done|]. by intros c ->%Hcb.
  - eexists. split; [done|]. destruct (i_server _ _ _ _ Hi) as (_ & _ & _ & _ & _ & Hcb).
    by intros c ->%Hcb.
  - pose proof Ha as [(c & ep & Hc & _) _]. exists (channel_ c). rewrite Hc. split; [done|].
    destruct (i_conn _ _ _ _ Hi _ _ Hc) as (_ & _ & _ & _ & _ & _ & Hcb).
    intros cb Hin%Hcb. unfold conn_closures in Hin. by set_unfold; destruct_or! Hin; subst.
Qed.

(** One [if (revents_ & mask) callback();]. *)
Lemma safe_dispatch t cp (b : Channel → bool) (o : Channel → option closure) w :
  inv w → active w cp → (∀ ch c, o ch = Some c → c ∈ callbacks ch) →
  safe (bind (load_channel cp) (λ ch, when (b ch) (Channel.call (System.run_closure t) (o ch)))) w.
Proof.
  intros Hi Ha Ho. destruct (active_chan _ _ Hi Ha) as (ch & Hch & Hcb).
  eapply safe_read; [by apply load_channel_ok|]. apply safe_when; [intros _|done].
  destruct (o ch) as [c|] eqn:E; cbn; [|by apply safe_ret]. by eapply safe_run_closure, Hcb, Ho.
Qed.

Lemma safe_dispatch_bind t cp b o (k : unit → M (World K) unit) w :
  inv w → active w cp → (∀ ch c, o ch = Some c → c ∈ callbacks ch) →
  (∀ w', inv w' → active w' cp → safe (k tt) w') →
  safe (bind (load_channel cp)
    (λ ch, bind (when (b ch) (Channel.call (System.run_closure t) (o ch))) k)) w.
Proof.
  intros Hi Ha Ho Hk.
  assert (Hs : safe (bind (bind (load_channel cp)
    (λ ch, when (b ch) (Channel.call (System.run_closure t) (o ch)))) k) w).
  { apply safe_bind; [by apply safe_dispatch|]. intros w' Hi' Hg'.
    apply Hk; [done|by eapply active_grow]. }
  unfold Handlers.safe, wp in *. by rewrite bind_assoc in Hs.
Qed.

Lemma safe_handleEvent t cp w :
  inv w → active w cp → safe (Channel.handleEvent (System.run_closure t) cp) w.
Proof.
  intros Hi Ha.
  assert (Hguard : safe (Channel.handleEventWithGuard (System.run_closure t) cp) w).
  { unfold Channel.handleEventWithGuard.
    eapply safe_read; [by apply log_ok, (inv_log F HF h rel)|].
    assert (Hin : ∀ (o : Channel → option closure),
      o = closeCallback_ ∨ o = errorCallback_ ∨ o = readCallback_ ∨ o = writeCallback_ →
      ∀ ch c, o ch = Some c → c ∈ callbacks ch).
    { intros o Ho ch c E. unfold callbacks. apply list_elem_of_omap. exists (Some c).
      rewrite <- E. split; [|done]. destruct_or! Ho; subst o; set_solver. }
    apply (safe_dispatch_bind t cp _ closeCallback_); [done|done|apply Hin; auto|].
    intros w1 Hi1 Ha1.
    apply (safe_dispatch_bind t cp _ errorCallback_); [done|done|apply Hin; auto|].
    intros w2 Hi2 Ha2.
    apply (safe_dispatch_bind t cp _ readCallback_); [done|done|apply Hin; auto|].
    intros w3 Hi3 Ha3. apply safe_dispatch; [done|done|apply Hin; auto]. }
  unfold Channel.handleEvent. destruct (active_chan _ _ Hi Ha) as (ch & Hch & _).
  eapply safe_read; [by apply load_channel_ok|]. destruct (tied_ ch); [|done].
  eapply safe_read; [apply gets_ok|]. by apply safe_when.
Qed.
End connections.

(** ** Polling *)
Section polling.
Context {K : Type} `{KernelOk K} `{InetLibOk} `{UserCode K} (F : fixed) (HF : fixed_ok F).
Context {App : SafeApp F} (rel : list ptr).
Implicit Types w : World K.
Local Abbreviation inv := (inv F idle rel).
Local Abbreviation grow := (grow idle).
Local Abbreviation good := (good F idle rel).
Local Abbreviation active := (active F idle).

Lemma ready_events_interest (k : K) ep seen l e :
  e ∈ EventLoop.ready_events k ep seen l → ∃ fd ev, interest k ep fd = Some (ev, e.2).
Proof.
  revert seen. induction l as [|[fd bits] l IH]; intros seen; cbn; [by intros ?%not_elem_of_nil|].
  destruct (interest k ep fd) as [[ev cp]|] eqn:E; [|by apply IH].
  destruct (_ || _); [by apply IH|]. intros [->|Hin]%elem_of_cons; [eauto|by eapply IH].
Qed.

(** What epoll watches on the running loop's descriptor may be dispatched. *)
Lemma watched_active w l x P fd ev cp :
  inv w → w_loops w !! l = Some x → threadId_ x = w_tid w → poller_ x = Some P →
  interest (w_kernel w) (epollfd_ P) fd = Some (ev, cp) → active w cp.
Proof.
  intros Hi Hx Ht HP Hk. apply (i_watch _ _ _ _ Hi) in Hk.
  destruct cp as [| |p]; [by destruct Hk as [t ?]; eexists|done|].
  destruct Hk as (c & t & Hc & Hl & _ & Hidx).
  destruct (i_loop _ _ _ _ Hi _ _ Hx) as [(P' & HP' & Hfl) _].
  assert (P' = P) as -> by congruence.
  assert (conn_loop_ c = l) as El by by eapply (fo_own _ HF).
  split.
  - exists c, (epollfd_ P). by rewrite El, Hfl, Ht.
  - by destruct (i_anchor _ _ _ _ Hi _ _ Hc).
Qed.

(** The channels on the loop's list may be dispatched. *)
Definition all_active w (l : ptr) : Prop :=
  ∀ x cp, w_loops w !! l = Some x → cp ∈ activecChannels_ x → active w cp.

Lemma view_revents cp ch r w :
  chan_of w cp = Some ch →
  ∃ w', modify_channel cp (set_revents_ r) w = Ok (tt, w') ∧ same_view F w w' ∧
    ∀ l x', w_loops w' !! l = Some x' →
      ∃ x, w_loops w !! l = Some x ∧ activecChannels_ x' = activecChannels_ x.
Proof.
  intros Hch. eexists. split; [by apply modify_channel_ok|].
  destruct cp as [l| |p]; cbn in Hch |- *.
  - apply fmap_Some in Hch as (x & Hx & ->).
    rewrite <- (insert_alter_eq _ (set_wakeupChannel_ (set_revents_ r (wakeupChannel_ x))) l x _ Hx
      eq_refl).
    split; [by apply (view_loop F l x)|]. wcbn. intros l' x'. rewrite lookup_insert.
    case_decide; [|eauto]. intros [= <-]. subst. eauto.
  - split; [|eauto]. injection Hch as <-. apply view_server. by split_and!.
  - apply fmap_Some in Hch as (c & Hc & ->).
    rewrite <- (insert_alter_eq _ (set_channel_ (set_revents_ r (channel_ c))) p c _ Hc eq_refl).
    split; [by apply (view_conn F p c)|eauto].
Qed.

Lemma wp_fill l evs w :
  inv w → is_loop F l → (∀ e, e ∈ evs → active w e.2) → all_active w l →
  wp (benign F) (EventLoop.fillActiveChannels l evs) w (λ _ w', good w w' ∧ all_active w' l).
Proof.
  unfold EventLoop.fillActiveChannels. revert w.
  induction evs as [|[r cp] evs IH]; intros w Hi Hl Hev Hall; cbn [mapM_].
  { eapply wp_Ok; [done|]. split; [by apply good_refl|done]. }
  assert (Hcp : active w cp) by (apply (Hev (r, cp)); by left).
  destruct (active_chan F HF idle rel w cp Hi Hcp) as (ch & Hch & _).
  destruct (view_revents cp ch r w Hch) as (w1 & E1 & Hv1 & Hact1).
  destruct (good_view F idle rel _ _ Hi Hv1) as [Hi1 Hg1].
  destruct (inv_loop F idle rel _ _ Hi1 Hl) as (x & Hx & _).
  set (x' := set_activecChannels_ (activecChannels_ x ++ [cp]) x).
  assert (Hv2 : same_view F w1 (set_w_loops (<[l := x']> (w_loops w1)) w1))
    by by apply (view_loop F l x).
  destruct (good_view F idle rel _ _ Hi1 Hv2) as [Hi2 Hg2]. set (w2 := set_w_loops _ w1) in *.
  assert (Hg : grow w w2) by by etrans.
  apply wp_bind. cbn [fst snd]. eapply wp_step; [exact E1|].
  eapply wp_Ok; [by apply modify_loop_ok|]. fold x' w2. eapply wp_mono.
  - apply IH; [done|done| |].
    + intros e He. eapply active_grow; [exact Hg|]. apply Hev. by right.
    + intros y q. subst w2. wcbn. rewrite lookup_insert_eq. intros [= <-]. cbn.
      intros [Hq|Hq%list_elem_of_singleton]%elem_of_app.
      * destruct (Hact1 _ _ Hx) as (x0 & Hx0 & E). rewrite E in Hq.
        eapply active_grow; [exact Hg|]. by eapply Hall.
      * subst q. by eapply active_grow.
  - intros [] w3 [Hgo Ha]. split; [by eapply good_trans|done].
Qed.

Lemma wp_poll l x w :
  inv w → w_loops w !! l = Some x → is_loop F l → threadId_ x = w_tid w → activecChannels_ x = [] →
  wp (benign F) (EventLoop.poll l) w (λ _ w', good w w' ∧ all_active w' l).
Proof.
  intros Hi Hx Hl Ht Hnil. destruct (i_loop _ _ _ _ Hi _ _ Hx) as [(P & HP & _) _].
  unfold EventLoop.poll. eapply wp_step; [by apply load_loop_ok|]. rewrite HP.
  assert (Hnone : ∀ w', w_loops w' = w_loops w → all_active w' l).
  { intros w' E y cp Hy. rewrite E, Hx in Hy. injection Hy as <-. rewrite Hnil.
    by intros ?%not_elem_of_nil. }
  set (w1 := tick w). set (w2 := tick w1).
  assert (Hv : same_view F w w2) by by apply view_irrelevant.
  destruct (good_view F idle rel _ _ Hi Hv) as [Hi2 Hg2].
  pose proof (inv_log F HF idle rel w2 Hi2) as Hlog.
  unfold EventLoop.epoll_wait, EventLoop.now. apply wp_bind.
  eapply wp_step; [apply syscall_ok|]. eapply wp_step; [apply gets_ok|]. fold w1.
  destruct (sr_ret (answer w) <? 0).
  - eapply wp_Ok; [done|]. apply wp_bind. eapply wp_step; [apply syscall_ok|]. fold w2.
    eapply wp_Ok; [done|]. eapply wp_step; [by apply when_log_ok|]. eapply wp_Ok; [done|].
    split; [by split|by apply Hnone].
  - eapply wp_Ok; [done|]. apply wp_bind. eapply wp_step; [apply syscall_ok|]. fold w2.
    eapply wp_Ok; [done|]. set (evs := ztake _ _). apply wp_bind. eapply wp_mono.
    + apply (wp_fill l evs w2); [done|done| |by apply Hnone].
      intros e He. assert (Hin : e ∈ EventLoop.ready_events (w_kernel w1) (epollfd_ P) []
        (sr_ready (answer w))) by (subst evs; unfold ztake in He; by eapply subseteq_take).
      apply ready_events_interest in Hin as (fd & ev & Hk).
      by apply (watched_active w2 l x P fd ev).
    + intros [] w3 [[Hi3 Hg3] Ha3]. apply wp_bind. destruct (_ && _); cbn [when].
      * destruct (inv_loop F idle rel _ _ Hi3 Hl) as (y & Hy & (P3 & HP3 & Hf3) & Hcb3).
        set (y' := set_poller_ (set_ep_events_size (ep_events_size P * 2) <$> poller_ y) y).
        assert (Hv4 : same_view F w3 (set_w_loops (<[l := y']> (w_loops w3)) w3)).
        { apply (view_loop F l y); [done|]. split; [|done].
          intros l0 [(P0 & HP0 & Hf0) ?]. split; [|done].
          exists (set_ep_events_size (ep_events_size P * 2) P0). subst y'. cbn. by rewrite HP0. }
        destruct (good_view F idle rel _ _ Hi3 Hv4) as [Hi4 Hg4].
        eapply wp_Ok; [by apply modify_loop_ok|]. eapply wp_Ok; [done|].
        split; [split; [done|]; by etrans; [|etrans]|].
        intros z cp. wcbn. rewrite lookup_insert_eq. intros [= <-] Hcp.
        eapply active_grow; [exact Hg4|]. by eapply Ha3.
      * eapply wp_Ok; [done|]. eapply wp_Ok; [done|]. split; [split; [done|]; by etrans|done].
Qed.
End polling.

(** ** The iteration of a loop *)
Section turns.
Context {K : Type} `{KernelOk K} `{InetLibOk} `{UserCode K} (F : fixed) (HF : fixed_ok F).
Context {App : SafeApp F}.
Implicit Types w : World K.

Lemma wp_run_functor l ep f fs rel w (h := hand l (f :: fs)) :
  inv F h rel w → f_loops F !! l = Some (ep, w_tid w) →
  wp (benign F) (System.run_functor f) w (λ _ w', good F h rel w w' ∧
    ∀ p c, f = FConnectDestroyed p → w_conns w' !! p = Some c → index_ (channel_ c) ≠ ADDED).
Proof.
  intros Hi Hl.
  assert (Hin : f ∈ pend h w l) by (subst h; rewrite pend_hand, decide_True by done; by left).
  pose proof (i_functor _ _ _ _ Hi _ _ Hin) as Hf.
  assert (Hfin : (∀ p, f ≠ FConnectDestroyed p) → safe F h rel (System.run_functor f) w →
    wp (benign F) (System.run_functor f) w (λ _ w', good F h rel w w' ∧
      ∀ p c, f = FConnectDestroyed p → w_conns w' !! p = Some c → index_ (channel_ c) ≠ ADDED)).
  { intros Hne Hs. eapply wp_mono; [exact Hs|]. intros [] w' Hgo. split; [done|].
    intros p c E. by destruct (Hne p). }
  assert (Hhere : ∀ p, (∃ c, w_conns w !! p = Some c ∧ conn_loop_ c = l) → here F w p).
  { intros p (c & Hc & El). exists c, ep. by rewrite El. }
  destruct f as [p buf len|p fd off cnt|p|p|p|[cb|] p|[cb|] p n|p| |cb]; cbn in Hf; try done;
    try (apply Hfin; [done|]); cbn [System.run_functor].
  - destruct Hf as (c & Hc & _). by eapply safe_sendFileInLoop.
  - apply safe_connectEstablished; [done..|]. split; [by apply Hhere|].
    by eapply (i_establish _ _ _ _ Hi).
  - eapply wp_mono; [apply wp_connectDestroyed; [done..|]|].
    + split; [by apply Hhere|]. right. by exists l.
    + intros [] w' [Hgo Hidx]. split; [done|]. intros q c [= <-]. apply Hidx.
  - apply safe_bind; [by apply safe_emit|]. intros w1 Hi1 Hg1.
    apply app_write_complete; [done|]. eapply here_grow; [exact Hg1|by apply Hhere].
  - eapply safe_fault; [done|by left].
  - apply safe_bind; [by apply safe_emit|]. intros w1 Hi1 Hg1.
    apply app_high_water; [done|]. eapply here_grow; [exact Hg1|by apply Hhere].
  - eapply safe_fault; [done|by left].
  - destruct Hf as [c Hc]. by eapply safe_removeConnectionInLoop.
  - by apply safe_listen.
  - apply safe_bind; [by apply safe_emit|]. intros w1 Hi1 Hg1. by apply app_user.
Qed.

Lemma wp_run_hand l ep fs rel w :
  inv F (hand l fs) rel w → f_loops F !! l = Some (ep, w_tid w) →
  wp (benign F) (mapM_ System.run_functor fs) w
    (λ _ w', inv F (hand l []) rel w' ∧ w_tid w' = w_tid w).
Proof.
  revert w. induction fs as [|f fs IH]; intros w Hi Hl; cbn [mapM_]; [by eapply wp_Ok|].
  apply wp_bind. eapply wp_mono; [by eapply wp_run_functor|]. intros [] w1 [[Hi1 Hg1] Hd].
  pose proof (g_tid _ _ _ Hg1) as Et. eapply wp_mono.
  - apply IH; [by eapply pop_inv|by rewrite Et].
  - intros [] w2 [Hi2 Et2]. split; [done|congruence].
Qed.

Lemma wp_drop rel w :
  inv F idle rel w →
  wp (benign F) (mapM_ Lifetime.release rel) w (λ _ w', inv F idle [] w' ∧ w_tid w' = w_tid w).
Proof.
  revert w. induction rel as [|p rel IH]; intros w Hi; cbn [mapM_]; [by eapply wp_Ok|].
  apply wp_bind. eapply wp_mono; [by apply release_safe|]. intros [] w1 [Hi1 Et].
  eapply wp_mono; [by apply IH|]. intros [] w2 [Hi2 Et2]. split; [done|congruence].
Qed.

Lemma wp_doPending l ep w :
  inv F idle [] w → f_loops F !! l = Some (ep, w_tid w) →
  wp (benign F) (System.doPendingFunctions l) w (λ _ w', inv F idle [] w' ∧ w_tid w' = w_tid w).
Proof.
  intros Hi Hl. assert (Hil : is_loop F l) by by eexists.
  destruct (inv_loop F idle [] _ _ Hi Hil) as (x & Hx & _).
  unfold System.doPendingFunctions, EventLoop.doPendingFunctions.
  eapply wp_step; [by apply modify_loop_ok|]. set (x1 := set_callingPendingFuntors_ true x).
  set (w1 := set_w_loops _ w).
  assert (Hi1 : inv F idle [] w1)
    by (eapply inv_view; [|exact Hi]; by apply (view_loop F l x)).
  assert (Hx1 : w_loops w1 !! l = Some x1) by apply lookup_insert_eq.
  eapply wp_step; [by apply load_loop_ok|]. eapply wp_step; [apply store_loop_ok|].
  unfold EventLoop.swap_functors. cbn [fst snd].
  pose proof (take_inv F w1 l x1 (set_pengdingFuntors_ [] x1) Hi1 Hx1 (λ _ Hok, Hok) eq_refl) as Hi2.
  set (w2 := set_w_loops _ w1) in *. set (fs := pengdingFuntors_ x1) in *.
  apply wp_bind. eapply wp_mono; [eapply (wp_run_hand l ep fs _ w2 Hi2); exact Hl|].
  intros [] w3 [Hi3 Et3].
  assert (Hi3' : inv F idle (omap Lifetime.functor_conn fs) w3).
  { eapply inv_ext; [|exact Hi3]. intros l'. unfold hand, idle. by case_decide. }
  destruct (inv_loop F idle _ _ _ Hi3' Hil) as (x3 & Hx3 & _).
  eapply wp_step; [by apply modify_loop_ok|]. set (w4 := set_w_loops _ w3).
  assert (Hi4 : inv F idle (omap Lifetime.functor_conn fs) w4)
    by (eapply inv_view; [|exact Hi3']; by apply (view_loop F l x3)).
  unfold Lifetime.drop_functors. eapply wp_mono; [by apply wp_drop|].
  intros [] w5 [Hi5 Et5]. split; [done|]. rewrite Et5. exact Et3.
Qed.

Lemma safe_dispatch_all t cps w :
  inv F idle [] w → (∀ cp, cp ∈ cps → active F idle w cp) →
  safe F idle [] (mapM_ (Channel.handleEvent (System.run_closure t)) cps) w.
Proof.
  revert w. induction cps as [|cp cps IH]; intros w Hi Ha; cbn [mapM_]; [by apply safe_ret|].
  apply safe_bind.
  - apply safe_handleEvent; [done..|]. apply Ha. by left.
  - intros w1 Hi1 Hg1. apply IH; [done|]. intros q Hq. eapply active_grow; [exact Hg1|].
    apply Ha. by right.
Qed.

Lemma wp_dispatch l ep w :
  inv F idle [] w → f_loops F !! l = Some (ep, w_tid w) →
  wp (benign F) (System.dispatch System.run_closure l) w (λ _ w', inv F idle [] w' ∧ w_tid w' = w_tid w).
Proof.
  intros Hi Hl. assert (Hil : is_loop F l) by by eexists.
  destruct (inv_loop F idle [] _ _ Hi Hil) as (x & Hx & (P & _ & Hfl) & _).
  unfold System.dispatch. eapply wp_step; [by apply modify_loop_ok|].
  set (x1 := set_activecChannels_ [] x). set (w1 := set_w_loops _ w).
  assert (Hi1 : inv F idle [] w1)
    by (eapply inv_view; [|exact Hi]; by apply (view_loop F l x)).
  assert (Hx1 : w_loops w1 !! l = Some x1) by apply lookup_insert_eq.
  assert (Ht : threadId_ x = w_tid w) by congruence.
  apply wp_bind. eapply wp_mono; [by apply (wp_poll F HF [] l x1 w1)|].
  intros t w2 [[Hi2 Hg2] Ha2]. pose proof (g_tid _ _ _ Hg2) as Et2.
  destruct (inv_loop F idle [] _ _ Hi2 Hil) as (x2 & Hx2 & _).
  eapply wp_step; [by apply modify_loop_ok|]. set (x3 := set_pollReturnTime_ t x2).
  set (w3 := set_w_loops _ w2).
  assert (Hv3 : same_view F w2 w3) by by apply (view_loop F l x2).
  destruct (good_view F idle [] _ _ Hi2 Hv3) as [Hi3 Hg3].
  assert (Hx3 : w_loops w3 !! l = Some x3) by apply lookup_insert_eq.
  eapply wp_step; [by apply load_loop_ok|]. eapply wp_mono.
  - apply (safe_dispatch_all t _ w3 Hi3). intros cp Hcp. eapply active_grow; [exact Hg3|].
    by apply (Ha2 x2).
  - intros [] w4 [Hi4 Hg4]. split; [done|].
    rewrite (g_tid _ _ _ Hg4). change (w_tid w3) with (w_tid w2). by rewrite Et2.
Qed.

Lemma wp_iteration l ep w :
  inv F idle [] w → f_loops F !! l = Some (ep, w_tid w) →
  wp (benign F) (System.iteration l) w (λ _ w', inv F idle [] w').
Proof.
  intros Hi Hl. apply wp_bind. eapply wp_mono; [by eapply wp_dispatch|].
  intros [] w1 [Hi1 Et1]. eapply wp_mono; [eapply (wp_doPending l ep w1 Hi1); by rewrite Et1|].
  by intros [] w2 [? _].
Qed.

(** One iteration of loop [l], on its own thread. *)
Definition turn (l : ptr) : M (World K) unit :=
  let! x := load_loop l in
  modify (set_w_tid (threadId_ x)) ;;!
  System.iteration l.

Lemma wp_turns ls w :
  inv F idle [] w → Forall (is_loop F) ls →
  wp (benign F) (mapM_ turn ls) w (λ _ w', inv F idle [] w').
Proof.
  revert w. induction ls as [|l ls IH]; intros w Hi Hls; cbn [mapM_]; [by eapply wp_Ok|].
  inversion Hls as [|? ? Hil Hls']; subst. apply wp_bind. unfold turn at 1.
  destruct (inv_loop F idle [] _ _ Hi Hil) as (x & Hx & (P & _ & Hfl) & _).
  eapply wp_step; [by apply load_loop_ok|]. eapply wp_step; [apply modify_ok|].
  set (w1 := set_w_tid (threadId_ x) w). assert (Hi1 : inv F idle [] w1) by (destruct Hi; by split).
  eapply wp_mono; [by apply (wp_iteration l (epollfd_ P) w1)|]. intros [] w2 Hi2. by apply IH.
Qed.
End turns.

(** ** The theorem *)

(** The echo server is an application the library is safe with. *)
#[export] Instance echo_safe {K} `{KernelOk K} `{InetLibOk} (F : fixed) :
  fixed_ok F → SafeApp (H0 := EchoServer.user (K := K)) F.
Proof.
  intros HF. split; intros h rel cb.
  - intros p w Hi Hr. cbn. destruct (_ =? _); [|by apply safe_ret].
    destruct Hr as [(c & ep & Hc & _) _]. unfold EchoServer.onConnection.
    eapply safe_read; [by apply load_conn_ok|].
    destruct (i_conn _ _ _ _ Hi _ _ Hc) as (_ & _ & _ & _ & Hpa & _).
    destruct (inet_address_text _ Hpa) as [s Hs]. rewrite Hs. eapply safe_read; [done|].
    by apply safe_log.
  - intros p t w Hi Hr. cbn. destruct (_ =? _); [|by apply safe_ret].
    pose proof Hr as [(c & ep & Hc & _) _]. unfold EchoServer.onMessage.
    eapply safe_read; [by apply load_conn_ok|].
    destruct (conn_buffers F h rel _ _ _ Hi Hc) as [Hb _].
    rewrite retrieveAllAsString_ok by done. eapply safe_read; [done|]. cbn [fst snd].
    eapply safe_store; [done..|by apply sim_input, retrieveAll_wf|]. intros w1 Hi1 Hg1 _.
    apply safe_send_string; [done..|by eapply ready_grow|].
    rewrite zlen_content by done. destruct Hb as (? & ? & ? & ?). unfold Buffer.size in *.
    unfold Buffer.CHEAP_PREPEND in *. lia.
  - intros p w Hi _. by apply safe_ret.
  - intros p n w Hi _. by apply safe_ret.
  - intros w Hi. by apply safe_ret.
Qed.

(** Everything epoll watches, every queued call and every entry of the server's
    map refers to a live connection, and every live connection is in the map or
    held by a queued call. *)
Record all_live {K} `{Kernel K} (w : World K) : Prop := {
  al_watch ep fd ev p : interest (w_kernel w) ep fd = Some (ev, ChConn p) → is_Some (w_conns w !! p);
  al_queue l f p : f ∈ queue w l → Lifetime.functor_conn f = Some p → is_Some (w_conns w !! p);
  al_map p : mapped w p → is_Some (w_conns w !! p);
  al_held p : is_Some (w_conns w !! p) →
    mapped w p ∨ ∃ l, p ∈ omap Lifetime.functor_conn (queue w l) }.

Section theorem.
Context {K : Type} `{KernelOk K} `{InetLibOk} `{UserCode K} (F : fixed).
Implicit Types w : World K.

Lemma inv_all_live w : inv F idle [] w → all_live w.
Proof.
  intros Hi. split.
  - intros ep fd ev p Hk. apply (i_watch _ _ _ _ Hi) in Hk as (c & t & Hc & _). by eexists.
  - intros l f p Hf Hp. pose proof (i_functor _ _ _ _ Hi l f Hf) as Hok.
    destruct f; cbn in Hp; simplify_eq; cbn in Hok; try done; by destruct Hok as (c & Hc & _).
  - intros p [n Hn]. destruct (i_map _ _ _ _ Hi _ _ Hn) as (c & Hc & _). by eexists.
  - intros p [c Hc]. destruct (i_held _ _ _ _ Hi _ _ Hc) as [?|[?|Hno]];
      [by left|by right|by apply not_elem_of_nil in Hno].
Qed.

(** C1: memory safety. From a state in which the invariant holds, any sequence of
    iterations of any of the loops, each on its own thread, whatever the
    kernel answers and for any application that is itself safe, never touches
    a destroyed connection, a dangling string or memory outside a buffer: it
    ends well, or in [bad_function_call], [length_error], the overflow of the
    connection counter, or (if nobody registers the logger "asyclogger") the
    null dereference behind a failed [getsockname]. Afterwards everything epoll
    watches, every queued call and every entry of the server's map refers to a
    live connection, and every live connection is in the map or held by a
    queued call, so none leaks ([all_live]). *)
Theorem server_memory_safe ls w :
  fixed_ok F → SafeApp F → inv F idle [] w → Forall (is_loop F) ls →
  match mapM_ turn ls w with
  | Ok (_, w') => inv F idle [] w' ∧ all_live w'
  | Fault f => benign F f
  end.
Proof.
  intros HF App Hi Hls. pose proof (wp_turns F HF ls w Hi Hls) as Hw. unfold wp in Hw.
  destruct (mapM_ turn ls w) as [[[] w']|f]; [|done]. split; [done|by apply inv_all_live].
Qed.
End theorem.

(** The demo world is such a state, and the echo server such an application. *)
Definition demo_fixed : fixed :=
  mkFixed {[1 := (3, 100)]} {["asynclogger"]}
    (λ _, mkSysret 2 [x68; x69; x0a] [(7, 1); (4, 1)] demo_addr).
Definition demo_run_world : World RefKernel.t := demo_world (f_oracle demo_fixed).

Lemma demo_fixed_ok : fixed_ok demo_fixed.
Proof.
  split; cbn.
  - intros l1 l2 ep t1 t2 [<- _]%lookup_singleton_Some [<- _]%lookup_singleton_Some. done.
  - set_solver.
  - intros n. by vm_compute.
Qed.

Lemma demo_conn_only p c : w_conns demo_run_world !! p = Some c → p = 9 ∧ c = demo_conn.
Proof.
  change (w_conns demo_run_world) with ({[9 := demo_conn]} : gmap ptr TcpConnection).
  by intros [<- <-]%lookup_singleton_Some.
Qed.

Lemma demo_loop_only l x : w_loops demo_run_world !! l = Some x → l = 1 ∧ x = demo_loop.
Proof.
  change (w_loops demo_run_world) with ({[1 := demo_loop]} : gmap ptr EventLoop).
  by intros [<- <-]%lookup_singleton_Some.
Qed.

Lemma demo_name_only n p :
  connections_ (w_server demo_run_world) !! n = Some p →
  n = "srv-127.0.0.1:80801"%string ∧ p = 9.
Proof.
  change (connections_ (w_server demo_run_world))
    with ({["srv-127.0.0.1:80801"%string := 9]} : gmap string ptr).
  by intros [<- <-]%lookup_singleton_Some.
Qed.

Lemma demo_no_pend l : pend idle demo_run_world l = [].
Proof.
  unfold pend, idle, queue. destruct (w_loops demo_run_world !! l) as [x|] eqn:E; [|done].
  by apply demo_loop_only in E as [_ ->].
Qed.

Lemma demo_loop_live l : is_loop demo_fixed l → l = 1.
Proof.
  intros [v Hv]. change (f_loops demo_fixed) with ({[1 := (3, 100)]} : gmap ptr (Z * Z)) in Hv.
  by apply lookup_singleton_Some in Hv as [<- _].
Qed.

Lemma demo_is_loop : is_loop demo_fixed 1.
Proof. by exists (3, 100). Qed.

Lemma demo_inv : inv demo_fixed idle [] demo_run_world.
Proof.
  assert (Hm : mapped demo_run_world 9) by (by exists "srv-127.0.0.1:80801"%string).
  split.
  - done.
  - done.
  - intros l x [-> ->]%demo_loop_only. split; [by exists demo_poller|].
    intros c Hin. cbn in Hin. set_solver.
  - intros l ->%demo_loop_live. by exists demo_loop.
  - intros p c [-> ->]%demo_conn_only. split; [done|]. split; [exact demo_is_loop|].
    do 2 (split; [by apply ctor_wf|]). split; [done|]. split; [by right; left|].
    intros cb. cbn. set_solver.
  - intros p c [-> ->]%demo_conn_only. exists 1. by vm_compute.
  - intros p q c d [-> _]%demo_conn_only [-> _]%demo_conn_only. done.
  - intros n p [-> ->]%demo_name_only. by exists demo_conn.
  - do 2 (split; [exact demo_is_loop|]). split; [done|]. split; [by left|].
    split; intros l; cbn; rewrite list_elem_of_singleton; [|done].
    intros ->. exact demo_is_loop.
  - intros ep fd ev cp.
    change (interest (w_kernel demo_run_world) ep fd)
      with ((<[(3, 4) := (3, ChWakeup 1)]> {[(3, 7) := (3, ChConn 9)]} : gmap (Z * Z) (Z * chptr))
              !! (ep, fd)).
    intros [[E1 E2]|[_ [E1 E2]%lookup_singleton_Some]]%lookup_insert_Some; simplify_eq.
    + by exists 100.
    + by exists demo_conn, 100.
  - intros l f. rewrite demo_no_pend. by intros ?%not_elem_of_nil.
  - intros l p. rewrite demo_no_pend. by intros ?%not_elem_of_nil.
  - intros l A p B. rewrite demo_no_pend. by destruct A.
  - intros p c [-> _]%demo_conn_only. by left; left.
  - intros p c [-> _]%demo_conn_only. by left.
Qed.

Lemma server_memory_safe_witness :
  let w := demo_run_world in
  match mapM_ (turn (H1 := HexInet.lib) (H3 := EchoServer.user)) [1; 1; 1] w with
  | Ok (_, w') => inv demo_fixed idle [] w' ∧ all_live w'
  | Fault f => benign demo_fixed f
  end.
Proof.
  intros w. apply server_memory_safe; [apply demo_fixed_ok|apply echo_safe, demo_fixed_ok|
    apply demo_inv|].
  repeat constructor; by eexists.
Defined.
