(* ===== verification/Startup.v ===== *)
(** * From [main] to the running server

    src/testserver.cpp from the construction of the base loop to the loops'
    iterations: the set-up succeeds whatever the kernel answers and leaves a
    state in which the invariant of [Safety.v] holds, so that the whole program
    is memory safe without any assumption on its state. *)

From stdpp Require Import base tactics numbers list gmap strings.
From Stdlib Require Import ZArith Lia.
From S2P Require Import Prelude NetBuffer Kernel World Poller Demo Loop Channels Connection.
From S2P Require Import ConnFacts Inet LoopPool Server ServerFacts System Safety SafeTasks Handlers.
From S2P Require Import SafeRun.

Local Open Scope Z_scope.
Local Open Scope prog_scope.

Section startup.
Context {K : Type} `{KernelOk K} `{InetLibOk}.
Implicit Types w : World K.

(** ** The server object *)

Lemma bindAddress_ok fd a w :
  "asynclogger" ∈ w_loggers w →
  ∃ t, Socket.bindAddress fd a w = Ok (tt, set_w_trace t (tick w)).
Proof.
  intros Hlog. unfold Socket.bindAddress. rewrite (bind_Ok _ _ _ _ _ (syscall_ok w)).
  destruct (negb _); [|by eexists]. exists (w_trace w).
  rewrite (log_ok _ (tick w)) by done. by destruct w.
Qed.

Lemma Acceptor_ctor_ok l a b w :
  "asynclogger" ∈ w_loggers w →
  ∃ t, Acceptor.ctor l a b w =
    Ok (mkAcceptor l (fd_at 0 w)
          (set_readCallback_ (Some CbAcceptorHandleRead) (Channel.ctor l (fd_at 0 w))) false false,
        set_w_trace t (set_w_clock (4 + w_clock w)%nat w)).
Proof.
  intros Hlog. unfold Acceptor.ctor, Acceptor.createNonblocking.
  rewrite (bind_Ok _ _ _ _ _ (open_fd_ok w Hlog)).
  unfold Socket.setReuseAddr, Socket.setReusePort. set (w1 := set_w_clock _ w).
  destruct (setsockopt_ok (fd_at 0 w) Socket.SO_REUSEADDR true w1) as [t1 E1].
  rewrite (bind_Ok _ _ _ _ _ E1). set (w2 := set_w_trace t1 _).
  destruct (setsockopt_ok (fd_at 0 w) Socket.SO_REUSEPORT true w2) as [t2 E2].
  rewrite (bind_Ok _ _ _ _ _ E2). set (w3 := set_w_trace t2 _).
  destruct (bindAddress_ok (fd_at 0 w) a w3) as [t3 E3]; [done|].
  rewrite (bind_Ok _ _ _ _ _ E3). by exists t3.
Qed.

(** The constructor of [EchoServer]. *)
Definition echo_server (l : ptr) (a : InetAddress) (name ipPort : string) (fd : Z) : TcpServer :=
  mkTcpServer l ipPort name
    (mkAcceptor l fd (set_readCallback_ (Some CbAcceptorHandleRead) (Channel.ctor l fd)) true false)
    (EventLoopThreadPool.setThreadNum 3 (EventLoopThreadPool.ctor l name))
    (Some EchoServer.onConnection_cb) (Some EchoServer.onMessage_cb) None None 0 1 ∅.

Lemma EchoServer_ctor_ok l a name w :
  "asynclogger" ∈ w_loggers w → valid_addr a →
  ∃ t ipPort, EchoServer.ctor l a name w =
    Ok (tt, set_w_server (echo_server l a name ipPort (fd_at 0 w))
              (set_w_trace t (set_w_clock (4 + w_clock w)%nat w))).
Proof.
  intros Hlog Ha. unfold EchoServer.ctor, TcpServer.ctor, TcpServer.CheckLoopNotNull.
  destruct (inet_address_text a Ha) as [ipPort Hip].
  destruct (Acceptor_ctor_ok l a false w Hlog) as [t Et]. exists t, ipPort.
  rewrite !bind_assoc.
  assert (E0 : when (l =? 0) (log "asynclogger") w = Ok (tt, w)).
  { destruct (l =? 0); cbn [when]; [by rewrite log_ok|done]. }
  rewrite (bind_Ok _ _ _ _ _ E0), (bind_Ok _ _ _ _ _ (ret_Ok _ _)), bind_assoc. rewrite Hip.
  unfold lift at 1. unfold bind at 1. rewrite bind_assoc, (bind_Ok _ _ _ _ _ Et). done.
Qed.

(** ** The state in which [start] tells the acceptor to listen *)

(** What does not change from there on, read off the state. *)
Definition fixed_of w : fixed :=
  mkFixed ((λ x, (default 0 (epollfd_ <$> poller_ x), threadId_ x)) <$> w_loops w)
    (w_loggers w) (w_oracle w).

(** Where a loop comes from: the thread that built it, its epoll descriptor and
    its eventfd. *)
Record origin := mkOrigin { o_tid : Z; o_epoll : Z; o_event : Z }.

Definition made (o : origin) : ptr → EventLoop → Prop := new_loop (o_tid o) (o_epoll o) (o_event o).

(** The loops are [ls], each as its constructor left it, with the origins [os];
    nothing else exists but the server of [l]. *)
Record ready_to_listen (ls : list ptr) (os : list origin) w : Prop := {
  rl_conns : w_conns w = ∅;
  rl_loop l x : w_loops w !! l = Some x →
    ∃ i o, ls !! i = Some l ∧ os !! i = Some o ∧ made o l x;
  rl_live l : l ∈ ls → is_Some (w_loops w !! l);
  rl_nodup : NoDup ls;
  rl_distinct : NoDup (o_epoll <$> os);
  rl_watch ep fd ev cp : interest (w_kernel w) ep fd = Some (ev, cp) →
    ∃ i l o, ls !! i = Some l ∧ os !! i = Some o ∧ cp = ChWakeup l ∧ ep = o_epoll o;
  rl_base : srv_loop_ (w_server w) ∈ ls ∧ ch_loop_ (acceptChannel_ (acceptor_ (w_server w))) ∈ ls;
  rl_pool l : l ∈ EventLoopThreadPool.getAllLoops (threadPool_ (w_server w)) → l ∈ ls;
  rl_next : next_ (threadPool_ (w_server w)) = 0;
  rl_server : nextConnId_ (w_server w) = 1 ∧ connections_ (w_server w) = ∅;
  rl_accept cb : cb ∈ callbacks (acceptChannel_ (acceptor_ (w_server w))) →
    cb = CbAcceptorHandleRead;
  rl_log : "asynclogger" ∈ w_loggers w;
  rl_addr n : valid_addr (sr_addr (w_oracle w n)) }.

Section ready.
Context (ls : list ptr) (os : list origin) (w : World K) (Hr : ready_to_listen ls os w).

Lemma ready_fixed_ok : fixed_ok (fixed_of w).
Proof.
  split; [|apply Hr|apply Hr]. intros l1 l2 ep t1 t2. cbn.
  rewrite !lookup_fmap. intros (x1 & Hx1 & [= -> _])%fmap_Some (x2 & Hx2 & [= E _])%fmap_Some.
  destruct (rl_loop _ _ _ Hr _ _ Hx1) as (i & e1 & Hi & Hei & Hn1).
  destruct (rl_loop _ _ _ Hr _ _ Hx2) as (j & e2 & Hj & Hej & Hn2).
  rewrite (nl_poller _ _ _ _ _ Hn1), (nl_poller _ _ _ _ _ Hn2) in E. cbn in E.
  assert (i = j) as ->; [|congruence].
  apply (NoDup_lookup _ _ _ (o_epoll e1) (rl_distinct _ _ _ Hr)); rewrite list_lookup_fmap;
    [by rewrite Hei|by rewrite Hej; cbn; f_equal].
Qed.

Lemma ready_is_loop l : l ∈ ls → is_loop (fixed_of w) l.
Proof.
  intros [x Hx]%(rl_live _ _ _ Hr). unfold is_loop, fixed_of; cbn. rewrite lookup_fmap, Hx.
  by eexists.
Qed.

Lemma ready_no_queue l : pend idle w l = [].
Proof.
  unfold pend, idle, queue. destruct (w_loops w !! l) as [x|] eqn:Hx; [|done].
  destruct (rl_loop _ _ _ Hr _ _ Hx) as (i & ep & _ & _ & Hn). by rewrite (nl_pending _ _ _ _ _ Hn).
Qed.

Lemma ready_inv : inv (fixed_of w) idle [] w.
Proof.
  assert (Hnc : ∀ p c, w_conns w !! p ≠ Some c) by (intros p c; by rewrite (rl_conns _ _ _ Hr)).
  assert (Hnp : ∀ l f, f ∉ pend idle w l) by (intros l f; rewrite ready_no_queue; apply not_elem_of_nil).
  split; try done; try (by intros ?? ?%Hnc).
  - intros l x Hx. destruct (rl_loop _ _ _ Hr _ _ Hx) as (i & ep & Hi & Hep & Hn). split.
    + destruct (poller_ x) as [P|] eqn:HP; [|by destruct Hn as [? ? E]; rewrite HP in E].
      exists P. split; [done|]. cbn. by rewrite lookup_fmap, Hx; cbn; rewrite HP.
    + unfold callbacks. destruct Hn as [_ _ _ _ _ _ _ -> (-> & -> & ->)]. cbn.
      by intros c ->%list_elem_of_singleton.
  - intros l [v Hv]. cbn in Hv. rewrite lookup_fmap in Hv. by destruct (w_loops w !! l).
  - by intros p q c d ?%Hnc.
  - intros n p. rewrite (proj2 (rl_server _ _ _ Hr)). by rewrite lookup_empty.
  - destruct (rl_base _ _ _ Hr) as [Hb Ha]. destruct (rl_server _ _ _ Hr) as [Hid _].
    split_and!; [by apply ready_is_loop..|lia| | |apply (rl_accept _ _ _ Hr)].
    + destruct (loops_ (threadPool_ (w_server w))) as [|l0 ls0] eqn:E; [by left|right].
      split; [by rewrite E|]. rewrite (rl_next _ _ _ Hr), E, zlen_cons. pose proof (zlen_nonneg ls0). lia.
    + intros l Hl%(rl_pool _ _ _ Hr). by apply ready_is_loop.
  - intros ep fd ev cp (i & l & o & Hl & Ho & -> & ->)%(rl_watch _ _ _ Hr).
    destruct (rl_live _ _ _ Hr l) as [x Hx]; [by eapply list_elem_of_lookup_2|].
    destruct (rl_loop _ _ _ Hr _ _ Hx) as (j & o' & Hj & Ho' & Hn).
    assert (j = i) as -> by by eapply NoDup_lookup; [apply Hr|..]. assert (o' = o) as -> by congruence.
    exists (threadId_ x). cbn. rewrite lookup_fmap, Hx. cbn. by rewrite (nl_poller _ _ _ _ _ Hn).
  - by intros l f ?%Hnp.
  - by intros l f ?%Hnp.
  - intros l A p B E. exfalso. apply (Hnp l (FConnectDestroyed p)). rewrite E. set_solver.
Qed.
End ready.

(** ** [acceptor_.listen()] *)

(** It is the server of the same loops. *)
Definition same_service w w' : Prop :=
  pool_of w' = pool_of w ∧ srv_loop_ (w_server w') = srv_loop_ (w_server w).

Lemma accept_events_ok g w x P :
  "asynclogger" ∈ w_loggers w →
  w_loops w !! ch_loop_ (acceptChannel_ (acceptor_ (w_server w))) = Some x → poller_ x = Some P →
  ∃ w', Channel.change_events g ChAccept w = Ok (tt, w') ∧ same_service w w'.
Proof.
  intros Hlog Hx HP. unfold Channel.change_events.
  rewrite (bind_Ok _ _ _ _ _ (modify_channel_ok ChAccept _ _ w eq_refl)). cbn [put_chan].
  set (ch1 := set_events_ _ _). set (w1 := set_w_server _ w).
  unfold Channel.update. rewrite (bind_Ok _ _ _ _ _ (load_channel_ok ChAccept ch1 w1 eq_refl)).
  unfold EventLoop.updateChannel, EventLoop.with_poller. change (w_loops w) with (w_loops w1) in Hx.
  rewrite (bind_Ok _ _ _ _ _ (load_loop_ok _ _ _ Hx)), HP.
  rewrite (bind_Ok _ _ _ _ _ (log_ok _ w1 Hlog)).
  rewrite (bind_Ok _ _ _ _ _ (load_channel_ok ChAccept ch1 w1 eq_refl)).
  rewrite (bind_Ok _ _ _ _ _ (gets_ok _ _)).
  destruct (EpollPoller.updateChannel _ _ _ _) as [[ch' P'] k'].
  rewrite (bind_Ok _ _ _ _ _ (modify_loop_ok _ _ _ _ Hx)).
  erewrite bind_Ok; [|by apply (modify_channel_ok ChAccept _ ch1)]. by eexists.
Qed.

Lemma listen_ok ls os w :
  ready_to_listen ls os w → ∃ w', Acceptor.listen w = Ok (tt, w') ∧
    inv (fixed_of w) idle [] w' ∧ same_service w w'.
Proof.
  intros Hr. pose proof (ready_fixed_ok _ _ _ Hr) as HF. pose proof (ready_inv _ _ _ Hr) as Hi.
  assert (Hok : ∃ w', Acceptor.listen w = Ok (tt, w') ∧ same_service w w').
  { pose proof (rl_log _ _ _ Hr) as Hlog. unfold Acceptor.listen, Acceptor.modify_acceptor, modify_server.
    rewrite (bind_Ok _ _ _ _ _ (modify_ok _ _)), (bind_Ok _ _ _ _ _ (gets_ok _ _)).
    set (w1 := set_w_server _ w).
    assert (Hl : ∃ t, Socket.Listen (acceptSocket_ (acceptor_ (w_server w1))) w1
        = Ok (tt, set_w_trace t (tick w1))).
    { unfold Socket.Listen. rewrite (bind_Ok _ _ _ _ _ (syscall_ok w1)).
      destruct (negb _); [|by eexists]. exists (w_trace w1).
      rewrite (log_ok _ (tick w1)) by done. by destruct w1. }
    destruct Hl as [t El]. rewrite (bind_Ok _ _ _ _ _ El).
    destruct (rl_live _ _ _ Hr _ (proj2 (rl_base _ _ _ Hr))) as [x Hx].
    destruct (rl_loop _ _ _ Hr _ _ Hx) as (i & ep & _ & _ & Hn).
    destruct (poller_ x) as [P|] eqn:HP; [|by destruct Hn as [? ? E]; rewrite HP in E].
    destruct (accept_events_ok (λ e, Z.lor e Channel.readEvent) (set_w_trace t (tick w1)) x P)
      as (w' & E' & Hs'); [done..|]. by exists w'. }
  destruct Hok as (w' & E & Hsv). exists w'. split; [done|]. split; [|done].
  pose proof (safe_listen (fixed_of w) HF idle [] w Hi) as Hs. unfold safe, wp in Hs.
  rewrite E in Hs. apply Hs.
Qed.

(** ** [main] *)

(** The state in which [main] builds its loop: no object exists, and the kernel
    answers with IPv4 addresses and gives the four epoll instances (the first
    call and every third from the eighth on) descriptors of their own. *)
Record boot w : Prop := {
  b_loops : w_loops w = ∅;
  b_conns : w_conns w = ∅;
  b_watch ep fd : interest (w_kernel w) ep fd = None;
  b_addr n : valid_addr (sr_addr (w_oracle w n));
  b_epoll : NoDup ((λ n, fd_at n w) <$> [0; 7; 10; 13]) }.

(** The base loop and the three of the pool: each thread's identifier is
    followed by the two descriptors of its loop. *)
Definition origins w : list origin :=
  mkOrigin (w_tid w) (fd_at 0 w) (fd_at 1 w) ::
  ((λ n, mkOrigin (answer_at n w) (fd_at (n + 1) w) (fd_at (n + 2) w)) <$> [6; 9; 12]).

(** The loops of the pool, next to the base loop. *)
Lemma spawned_loops w w3 w4 x ls :
  spawned 3 ls w3 w4 → w_loops w3 = {[1 := x]} → new_loop (w_tid w) (fd_at 0 w) (fd_at 1 w) 1 x →
  w_oracle w3 = w_oracle w → w_clock w3 = (6 + w_clock w)%nat →
  w_loops w4 !! (1 : ptr) = Some x ∧ (1 ∉ ls) ∧ (∀ l, l ∈ 1 :: ls → is_Some (w_loops w4 !! l)) ∧
  ∀ l y, w_loops w4 !! l = Some y →
    ∃ i o, (1 :: ls) !! i = Some l ∧ origins w !! i = Some o ∧ made o l y.
Proof.
  intros [Hlen Hnd Hfr Hold Hlive Hall _ _ _] Hl3 Hx Ho3 Hc3.
  assert (Hx4 : w_loops w4 !! (1 : ptr) = Some x)
    by (eapply lookup_weaken; [|exact Hold]; by rewrite Hl3, lookup_singleton_eq).
  split_and!; [done| | |].
  - intros Hin%Hfr. by rewrite Hl3, lookup_singleton_eq in Hin.
  - intros l [->|Hl]%elem_of_cons; [by eexists|]. apply list_elem_of_lookup in Hl as [i Hi].
    destruct (Hlive _ _ Hi) as (y & Hy & _). by eexists.
  - intros l y Hy. destruct (Hall l) as [Hs|[i Hi]%list_elem_of_lookup]; [by eexists| |].
    + rewrite Hl3 in Hs. destruct Hs as [y' [<- <-]%lookup_singleton_Some].
      assert (y = x) as -> by congruence. by exists 0%nat, (mkOrigin (w_tid w) (fd_at 0 w) (fd_at 1 w)).
    + destruct (Hlive _ _ Hi) as (y' & Hy' & Hn). assert (y' = y) as -> by congruence.
      rewrite (answer_at_shift _ 6 w w3), !(fd_at_shift _ 6 w w3) in Hn by (done || lia).
      eexists (S i), (mkOrigin _ _ _). split; [done|]. split; [|exact Hn].
      apply lookup_lt_Some in Hi. rewrite Hlen in Hi. by destruct i as [|[|[|]]]; [..|lia].
Qed.

(** Everything before [acceptor_.listen()]. *)
Lemma main_setup_listens w :
  boot w → "asynclogger" ∈ w_loggers w → ∃ w' ls, EchoServer.main_setup w = Acceptor.listen w' ∧
    ready_to_listen (1 :: ls) (origins w) w' ∧
    length ls = 3%nat ∧ NoDup (1 :: ls) ∧
    EventLoopThreadPool.getAllLoops (pool_of w') = ls ∧ srv_loop_ (w_server w') = 1 ∧
    w_loggers w' = w_loggers w.
Proof.
  intros Hb Hlog. unfold EchoServer.main_setup.
  destruct (ctor_ok 1 w Hlog) as (w1 & x & E1 & Hl1 & Hx & Hf1 & Hw1 & _ & Hc1 & _).
  rewrite (bind_Ok _ _ _ _ _ E1).
  destruct (EchoServer_ctor_ok 1 (InetAddress.ctor 8080 "127.0.0.1") "EchoServer" w1)
    as (t & ipPort & E2); [by rewrite (lf_loggers _ _ Hf1)|by apply ctor_valid|].
  rewrite (bind_Ok _ _ _ _ _ E2). set (s := echo_server _ _ _ _ _). set (w2 := set_w_server s _).
  unfold EchoServer.start, TcpServer.start, modify_server.
  rewrite (bind_Ok _ _ _ _ _ (gets_ok _ _)), (bind_Ok _ _ _ _ _ (modify_ok _ _)).
  set (w3 := set_w_server _ w2). change (started_ (w_server w2) =? 0) with true. cbn [when].
  destruct (pool_start_ok (H1 := EchoServer.user) None w3) as (w4 & ls & E4 & Hsp & Hs4);
    [by change (w_loggers w3) with (w_loggers w1); rewrite (lf_loggers _ _ Hf1)|done..|].
  change (threadInitCallback_ (w_server w2)) with (@None Z).
  change (Z.to_nat (numThreads_ (pool_of w3))) with 3%nat in *.
  rewrite (bind_Ok _ _ _ _ _ E4).
  destruct (spawned_loops w w3 w4 x ls Hsp) as (Hx4 & Hn1 & Hlive & Hloop);
    [change (w_loops w3) with (w_loops w1); by rewrite Hl1, (b_loops _ Hb)|done|exact (lf_oracle _ _ Hf1)
    |change (w_clock w3) with (4 + w_clock w1)%nat; lia|].
  destruct Hsp as [Hlen Hnd _ _ _ _ Hw4 _ Hf4].
  exists w4, ls. split.
  { unfold EventLoop.runInLoop. change (srv_loop_ (w_server w2)) with 1.
    rewrite (bind_Ok _ _ _ _ _ (load_loop_ok _ _ _ Hx4)), (bind_Ok _ _ _ _ _ (gets_ok _ _)).
    unfold EventLoop.isInLoopThread. rewrite (nl_thread _ _ _ _ _ Hx), (lf_tid _ _ Hf4).
    change (w_tid w3) with (w_tid w1). by rewrite (lf_tid _ _ Hf1), Z.eqb_refl. }
  split; [split|].
  - rewrite (lf_conns _ _ Hf4). change (w_conns w3) with (w_conns w1).
    by rewrite (lf_conns _ _ Hf1), (b_conns _ Hb).
  - exact Hloop.
  - exact Hlive.
  - by constructor.
  - apply (b_epoll _ Hb).
  - intros ep fd ev cp Hk. destruct (Hw4 _ _ _ _ Hk) as [Hk'|Hcp].
    + destruct (Hw1 ep fd ev cp Hk') as [Hk''|[= -> ->]%list_elem_of_singleton].
      * by rewrite (b_watch _ Hb) in Hk''.
      * by exists 0%nat, 1, (mkOrigin (w_tid w) (fd_at 0 w) (fd_at 1 w)).
    + apply elem_of_lookup_imap in Hcp as (i & l & [= -> ->] & Hi).
      rewrite (fd_at_shift _ 6 w w3) by (lia || exact (lf_oracle _ _ Hf1)
        || (change (w_clock w3) with (4 + w_clock w1)%nat; lia)).
      exists (S i), l, (mkOrigin (answer_at (3 * Z.of_nat i + 6) w)
        (fd_at (3 * Z.of_nat i + 1 + 6) w) (fd_at (3 * Z.of_nat i + 2 + 6) w)). split_and!; [done| |done..].
      apply lookup_lt_Some in Hi. rewrite Hlen in Hi. by destruct i as [|[|[|]]]; [..|lia].
  - rewrite Hs4. cbn. set_solver.
  - rewrite Hs4. cbn. destruct ls; [done|]. set_solver.
  - by rewrite Hs4.
  - by rewrite Hs4.
  - rewrite Hs4. by intros cb ->%list_elem_of_singleton.
  - rewrite (lf_loggers _ _ Hf4). change (w_loggers w3) with (w_loggers w1).
    by rewrite (lf_loggers _ _ Hf1).
  - intros n. rewrite (lf_oracle _ _ Hf4). change (w_oracle w3) with (w_oracle w1).
    rewrite (lf_oracle _ _ Hf1). apply (b_addr _ Hb).
  - split_and!; [done|by constructor| |by rewrite Hs4|].
    + unfold pool_of. rewrite Hs4. by destruct ls.
    + rewrite (lf_loggers _ _ Hf4). apply (lf_loggers _ _ Hf1).
Qed.

(** The whole echo server, from the construction of its loop. *)
Lemma echo_runs_safely w :
  boot w → "asynclogger" ∈ w_loggers w →
  ∃ w1 ls, EchoServer.main_setup w = Ok (tt, w1) ∧ length ls = 3%nat ∧ NoDup (1 :: ls) ∧
    (∀ l, is_Some (w_loops w1 !! l) ↔ l ∈ 1 :: ls) ∧ srv_loop_ (w_server w1) = 1 ∧
    EventLoopThreadPool.getAllLoops (pool_of w1) = ls ∧
    ∀ run, Forall (λ l, l ∈ 1 :: ls) run →
      match mapM_ (turn (H3 := EchoServer.user)) run w1 with
      | Ok (_, w') => all_live w'
      | Fault f => f = BadFunctionCall ∨ f = SignedOverflow ∨ f = LengthError ∨
          (f = NullDeref ∧ "asyclogger" ∉ w_loggers w)
      end.
Proof.
  intros Hb Hin.
  destruct (main_setup_listens w Hb Hin) as (w1 & ls & E & Hr & Hlen & Hnd & Hls & Hbase & Hlog).
  destruct (listen_ok _ _ _ Hr) as (w2 & E2 & Hi & Hp & Hsv).
  assert (Hlive : ∀ l, is_Some (w_loops w2 !! l) ↔ l ∈ 1 :: ls).
  { intros l. split; [|by intros Hl; apply (i_dom _ _ _ _ Hi), (ready_is_loop _ _ _ Hr)].
    intros [x Hx]. destruct (i_loop _ _ _ _ Hi _ _ Hx) as [(P & _ & Hf) _]. cbn in Hf.
    rewrite lookup_fmap in Hf. destruct (w_loops w1 !! l) as [y|] eqn:Hy; [|done].
    destruct (rl_loop _ _ _ Hr _ _ Hy) as (i & ep & Hl & _). by eapply list_elem_of_lookup_2. }
  exists w2, ls. rewrite E, Hp, Hsv. split_and!; [done..| ]. intros run Hrun.
  pose proof (ready_fixed_ok _ _ _ Hr) as HF.
  pose proof (wp_turns (fixed_of w1) HF (App := echo_safe _ HF) run w2 Hi) as Hw. unfold wp in Hw.
  destruct (mapM_ turn run w2) as [[[] w']|f].
  - apply (inv_all_live (fixed_of w1)), Hw. eapply Forall_impl; [exact Hrun|].
    intros l. apply (ready_is_loop _ _ _ Hr).
  - rewrite <- Hlog. apply Hw. eapply Forall_impl; [exact Hrun|].
    intros l. apply (ready_is_loop _ _ _ Hr).
Qed.
End startup.

(** A state in which [main] begins. *)
Definition demo_boot : World RefKernel.t :=
  mkWorld 100 ∅ ∅ ∅ demo_server ∅ (RefKernel.mk ∅ ∅)
    (λ n, mkSysret (Z.of_nat n + 20) [] [] demo_addr) 0 {["default"; "asynclogger"]} [].

Lemma demo_boot_ok : boot demo_boot.
Proof.
  split; try done.
  - by apply (bool_decide_unpack _).
Qed.
