(* ===== verification/LoopActs.v ===== *)
(** * What the program does to a loop

    Everything a thread can do to an event loop that others see goes through
    [queueInLoop], [quit] and the handler of the wakeup channel.  [acts] says so
    of two worlds, [respects] of a program; here it is proved for every handler
    of a channel and every deferred call. *)

From stdpp Require Import base tactics numbers list gmap strings.
From Stdlib Require Import ZArith Lia.
From S2P Require Import Prelude NetBuffer Kernel World Poller Demo Loop Channels Connection.
From S2P Require Import ConnFacts Inet LoopPool Server System.

Local Open Scope Z_scope.
Local Open Scope prog_scope.

(** ** What others see of a loop *)
Record loop_state := mkLoopState {
  ls_thread : Z;
  ls_fd : Z;
  ls_queue : list Functor;
  ls_calling : bool;
  ls_quit : bool;
  ls_count : Z }.

(** What can be done to it: [queueInLoop], [quit], and the wakeup handler. *)
Inductive call := CQueue (f : Functor) | CQuit | CRead.

#[export] Instance call_eq_dec : EqDecision call.
Proof. solve_decision. Defined.

Definition bump (v : loop_state) : loop_state :=
  mkLoopState (ls_thread v) (ls_fd v) (ls_queue v) (ls_calling v) (ls_quit v)
    (if decide (ls_count v < EVENTFD_MAX) then ls_count v + 1 else ls_count v).

(** Which of them a part of the program may do: none; the first two on any loop;
    or these and the wakeup handler of loop [l0]. *)
Inductive scope := Silent | Calls | Reads (l0 : ptr).
Definition allowed (o : scope) (l : ptr) (c : call) : Prop :=
  match o with Silent => False | Calls => c ≠ CRead | Reads l0 => c = CRead → l = l0 end.

(** The effect of a call made by thread [tid]. *)
Definition effect (tid : Z) (v : loop_state) (c : call) : loop_state :=
  let here := ls_thread v =? tid in
  match c with
  | CQueue f =>
      let v' := mkLoopState (ls_thread v) (ls_fd v) (ls_queue v ++ [f]) (ls_calling v) (ls_quit v)
                  (ls_count v) in
      if negb here || ls_calling v then bump v' else v'
  | CQuit =>
      let v' := mkLoopState (ls_thread v) (ls_fd v) (ls_queue v) (ls_calling v) true (ls_count v) in
      if negb here then bump v' else v'
  | CRead => mkLoopState (ls_thread v) (ls_fd v) (ls_queue v) (ls_calling v) (ls_quit v) 0
  end.

Definition effects (tid : Z) : list call → loop_state → loop_state := flip (foldl (effect tid)).

Lemma effect_ids tid v c : ls_thread (effect tid v c) = ls_thread v ∧ ls_fd (effect tid v c) = ls_fd v.
Proof. destruct c; cbn; repeat case_match; done. Qed.
Lemma effects_ids tid cs v :
  ls_thread (effects tid cs v) = ls_thread v ∧ ls_fd (effects tid cs v) = ls_fd v.
Proof.
  revert v. induction cs as [|c cs IH]; intros v; [done|].
  destruct (IH (effect tid v c)) as [E1 E2]. destruct (effect_ids tid v c) as [E3 E4].
  split; [by rewrite <- E3|by rewrite <- E4].
Qed.
Lemma effects_app tid cs ds v : effects tid (cs ++ ds) v = effects tid ds (effects tid cs v).
Proof. apply foldl_app. Qed.

Section acting.
Context {K : Type} `{KernelOk K}.
Implicit Types w : World K.

Definition state_of (x : EventLoop) (k : K) : loop_state :=
  mkLoopState (threadId_ x) (wakeupFd_ x) (pengdingFuntors_ x) (callingPendingFuntors_ x) (quit_ x)
    (eventfd_count k (wakeupFd_ x)).
Definition state_at w (l : ptr) : option loop_state :=
  (λ x, state_of x (w_kernel w)) <$> w_loops w !! l.

(** Each loop has a thread and an eventfd of its own. *)
Definition apart w : Prop :=
  ∀ l1 l2 v1 v2, state_at w l1 = Some v1 → state_at w l2 = Some v2 →
    ls_thread v1 = ls_thread v2 ∨ ls_fd v1 = ls_fd v2 → l1 = l2.

(** All that happens to loop [l], or to all loops, between the two worlds is calls
    by the running thread, as [o] allows. *)
Definition acts_on (o : scope) (l : ptr) w w' : Prop :=
  ∃ cs, Forall (allowed o l) cs ∧ state_at w' l = effects (w_tid w) cs <$> state_at w l.
Definition acts (o : scope) w w' : Prop := w_tid w' = w_tid w ∧ ∀ l, acts_on o l w w'.

Lemma acts_on_refl o l w : acts_on o l w w.
Proof.
  exists []. split; [done|]. by destruct (state_at w l).
Qed.
Lemma acts_on_trans o l w1 w2 w3 :
  w_tid w2 = w_tid w1 → acts_on o l w1 w2 → acts_on o l w2 w3 → acts_on o l w1 w3.
Proof.
  intros Et (cs & Hcs & E1) (ds & Hds & E2). exists (cs ++ ds). split.
  - by apply Forall_app.
  - rewrite E2, E1, Et. destruct (state_at w1 l); [|done]. cbn. by rewrite effects_app.
Qed.

#[export] Instance acts_preorder o : PreOrder (acts o).
Proof.
  split.
  - intros w. split; [done|]. intros l. apply acts_on_refl.
  - intros w1 w2 w3 [T1 A1] [T2 A2]. split; [congruence|]. intros l. by eapply acts_on_trans.
Qed.

Lemma acts_same o w w' :
  w_tid w' = w_tid w → (∀ l, state_at w' l = state_at w l) → acts o w w'.
Proof.
  intros Et Hs. split; [done|]. intros l. exists []. split; [done|]. rewrite Hs. by destruct (state_at w l).
Qed.

Lemma acts_weaken l0 w w' : acts Calls w w' → acts (Reads l0) w w'.
Proof.
  intros [Et Ha]. split; [done|]. intros l. destruct (Ha l) as (cs & Hcs & E).
  exists cs. split; [|done]. eapply Forall_impl; [exact Hcs|]. by intros c Hc ->.
Qed.

Lemma acts_silent w w' l : acts Silent w w' → state_at w' l = state_at w l.
Proof.
  intros [_ Ha]. destruct (Ha l) as ([|c cs] & Hcs & ->); [by destruct (state_at w l)|].
  by inversion Hcs.
Qed.

Lemma calls_not_read l cs : Forall (allowed Calls l) cs → CRead ∉ cs.
Proof. intros Hcs Hin. by apply (proj1 (Forall_forall _ _) Hcs _ Hin). Qed.

(** What never changes of a loop. *)
Definition ids w (l : ptr) : option (Z * Z) := (λ v, (ls_thread v, ls_fd v)) <$> state_at w l.

Lemma ids_apart w w' : (∀ l, ids w' l = ids w l) → apart w → apart w'.
Proof.
  intros Hids Hap l1 l2 v1 v2 H1 H2 Hor.
  pose proof (Hids l1) as E1. pose proof (Hids l2) as E2. unfold ids in *. rewrite H1 in E1. rewrite H2 in E2.
  symmetry in E1, E2. apply fmap_Some in E1 as (u1 & Hu1 & [= T1 D1]).
  apply fmap_Some in E2 as (u2 & Hu2 & [= T2 D2]).
  eapply Hap; [done..|]. by rewrite <- T1, <- T2, <- D1, <- D2.
Qed.

Lemma acts_ids o w w' l : acts o w w' → ids w' l = ids w l.
Proof.
  intros [_ Ha]. destruct (Ha l) as (cs & _ & E). unfold ids. rewrite E.
  destruct (state_at w l) as [v|]; [|done]. cbn. by destruct (effects_ids (w_tid w) cs v) as [-> ->].
Qed.

Lemma acts_apart o w w' : acts o w w' → apart w → apart w'.
Proof. intros Ha. apply ids_apart. intros l. by eapply acts_ids. Qed.

(** Programs that only do this, whatever they are run on. *)
Definition respects {A} (o : scope) (m : M (World K) A) : Prop :=
  ∀ w a w', apart w → m w = Ok (a, w') → acts o w w'.

Lemma respects_bind {A B} o (m : M (World K) A) (k : A → M (World K) B) :
  respects o m → (∀ a, respects o (k a)) → respects o (bind m k).
Proof.
  intros Hm Hk w b w' Hap (a & w1 & E1 & E2)%bind_inv. pose proof (Hm _ _ _ Hap E1) as H1.
  etrans; [exact H1|]. eapply Hk; [|done]. by eapply acts_apart.
Qed.

(** Programs that change nothing. *)
Definition reads {A} (m : M (World K) A) : Prop := ∀ w a w', m w = Ok (a, w') → w' = w.
Lemma respects_reads {A} o (m : M (World K) A) : reads m → respects o m.
Proof. intros Hm w a w' _ E%Hm. by subst. Qed.

Lemma respects_ret {A} o (a : A) : respects o (ret a).
Proof. apply respects_reads. by intros w b w' [= <- <-]. Qed.
Lemma respects_throw {A} o f : respects o (throw (A := A) f).
Proof. by intros w a w' _. Qed.
Lemma respects_gets {A} o (f : World K → A) : respects o (gets f).
Proof. apply respects_reads. by intros w b w' [= <- <-]. Qed.
Lemma respects_lift {A} o (r : outcome A) : respects o (lift r).
Proof. apply respects_reads. intros w b w'. unfold lift. destruct r; [|done]. by intros [= <- <-]. Qed.
Lemma respects_log o name : respects o (log (K := K) name).
Proof. apply respects_reads. intros w b w'. unfold log. case_decide; [|done]. by intros [= <- <-]. Qed.
Lemma respects_load_loop o l : respects o (load_loop (K := K) l).
Proof. apply respects_reads. intros w b w'. unfold load_loop. case_match; [|done]. by intros [= <- <-]. Qed.
Lemma respects_load_conn o p : respects o (load_conn (K := K) p).
Proof. apply respects_reads. intros w b w'. unfold load_conn. case_match; [|done]. by intros [= <- <-]. Qed.
Lemma respects_load_str o p : respects o (TcpConnection.load_str (K := K) p).
Proof.
  apply respects_reads. intros w b w'. unfold TcpConnection.load_str. case_match; [|done].
  by intros [= <- <-].
Qed.
Lemma respects_when o b m : respects o m → respects o (when b m).
Proof. destruct b; [done|]. intros _. apply respects_ret. Qed.
Lemma respects_mapM {A} o (f : A → M (World K) unit) l :
  (∀ x, respects o (f x)) → respects o (mapM_ f l).
Proof.
  intros Hf. induction l as [|x l IH]; cbn; [apply respects_ret|by apply respects_bind].
Qed.
Lemma respects_lift_bind {A B} o (r : outcome A) (k : A → M (World K) B) :
  (∀ a, r = Ok a → respects o (k a)) → respects o (bind (lift r) k).
Proof. intros Hk w b w' Hap. unfold bind, lift. destruct r; [|done]. by apply Hk. Qed.

Lemma respects_modify o (f : World K → World K) :
  (∀ w, w_tid (f w) = w_tid w ∧ w_loops (f w) = w_loops w ∧ w_kernel (f w) = w_kernel w) →
  respects o (modify f).
Proof.
  intros Hf w a w' _ [= _ <-]. destruct (Hf w) as (Et & El & Ek). apply acts_same; [done|].
  intros l. unfold state_at. by rewrite El, Ek.
Qed.
Lemma respects_syscall o : respects o (syscall (K := K)).
Proof. intros w a w' _ [= _ <-]. by apply acts_same. Qed.

(** A change to a loop that does not show. *)
Lemma insert_state_at w l x x' :
  w_loops w !! l = Some x → (∀ k, state_of x' k = state_of x k) →
  ∀ l', state_at (set_w_loops (<[l := x']> (w_loops w)) w) l' = state_at w l'.
Proof.
  intros Hx Hs l'. unfold state_at. wcbn. rewrite lookup_insert. case_decide; [|done].
  subst. rewrite Hx. cbn. by rewrite Hs.
Qed.
Lemma respects_modify_loop o l f :
  (∀ x (k : K), state_of (f x) k = state_of x k) → respects o (modify_loop l f).
Proof.
  intros Hf w a w' _ (x & w1 & E1 & E2)%bind_inv. unfold load_loop in E1. case_match; [|done].
  simplify_eq. injection E2 as _ <-. apply acts_same; [done|]. by eapply insert_state_at.
Qed.
Lemma respects_modify_conn o p f : respects o (modify_conn (K := K) p f).
Proof. apply respects_bind; [apply respects_load_conn|]. intros x. by apply respects_modify. Qed.
Lemma respects_modify_channel o cp f : respects o (modify_channel (K := K) cp f).
Proof.
  destruct cp; cbn; [by apply respects_modify_loop|by apply respects_modify|].
  apply respects_modify_conn.
Qed.
Lemma respects_load_channel o cp : respects o (load_channel (K := K) cp).
Proof.
  destruct cp; cbn; [|apply respects_gets|]; (apply respects_bind; [|intros x; apply respects_ret]).
  - apply respects_load_loop.
  - apply respects_load_conn.
Qed.

(** ** The operations of a loop *)

(** Only loop [l] changes, as the calls [cs] say. *)
Lemma acts_one o l w w' cs :
  w_tid w' = w_tid w → Forall (allowed o l) cs →
  state_at w' l = effects (w_tid w) cs <$> state_at w l →
  (∀ l', l' ≠ l → state_at w' l' = state_at w l') → acts o w w'.
Proof.
  intros Et Hcs El Hne. split; [done|]. intros l'. destruct (decide (l' = l)) as [->|Hl].
  - by exists cs.
  - exists []. split; [done|]. rewrite (Hne _ Hl). by destruct (state_at w l').
Qed.

Lemma state_at_other w l l' x x' k' :
  apart w → w_loops w !! l = Some x → l' ≠ l →
  (∀ fd, fd ≠ wakeupFd_ x → eventfd_count k' fd = eventfd_count (w_kernel w) fd) →
  state_at (set_w_kernel k' (set_w_loops (<[l := x']> (w_loops w)) w)) l' = state_at w l'.
Proof.
  intros Hap Hx Hne Hk. unfold state_at. wcbn. rewrite lookup_insert_ne by done.
  destruct (w_loops w !! l') as [y|] eqn:Hy; [|done]. cbn. f_equal. unfold state_of. f_equal.
  apply Hk. intros E. apply Hne, (Hap _ _ (state_of y (w_kernel w)) (state_of x (w_kernel w))).
  - unfold state_at. by rewrite Hy.
  - unfold state_at. by rewrite Hx.
  - by right.
Qed.

Lemma evw_other fd (k : K) fd' : fd' ≠ fd → eventfd_count (eventfd_write fd k).1 fd' = eventfd_count k fd'.
Proof. intros Hne. rewrite evw_count. by rewrite decide_False by (by intros [? _]). Qed.
Lemma evr_other fd (k : K) fd' : fd' ≠ fd → eventfd_count (eventfd_read fd k).1 fd' = eventfd_count k fd'.
Proof. intros Hne. rewrite evr_count. by rewrite decide_False. Qed.
Lemma evw_self fd (k : K) :
  eventfd_count (eventfd_write fd k).1 fd =
    if decide (eventfd_count k fd < EVENTFD_MAX) then eventfd_count k fd + 1 else eventfd_count k fd.
Proof. rewrite evw_count. repeat case_decide; tauto. Qed.

Lemma wakeup_inv l x w a w' :
  w_loops w !! l = Some x → EventLoop.wakeup l w = Ok (a, w') →
  w' = set_w_kernel (eventfd_write (wakeupFd_ x) (w_kernel w)).1 w.
Proof.
  intros Hx. unfold EventLoop.wakeup. rewrite (bind_Ok _ _ _ _ _ (load_loop_ok _ _ _ Hx)).
  rewrite (bind_Ok _ _ _ _ _ (gets_ok _ _)), (bind_Ok _ _ _ _ _ (modify_ok _ _)).
  unfold when, log. repeat case_match; try done; by intros [= _ <-].
Qed.

Lemma queueInLoop_inv l f w a w' :
  EventLoop.queueInLoop l f w = Ok (a, w') →
  ∃ x, w_loops w !! l = Some x ∧
    w' = set_w_kernel (queue_kernel x w)
           (set_w_loops (<[l := EventLoop.push_functor f x]> (w_loops w)) w).
Proof.
  unfold EventLoop.queueInLoop. destruct (w_loops w !! l) as [x|] eqn:Hx.
  2:{ unfold modify_loop, bind, load_loop. by rewrite Hx. }
  rewrite (bind_Ok _ _ _ _ _ (modify_loop_ok _ _ _ _ Hx)). set (w1 := set_w_loops _ w).
  assert (Hx1 : w_loops w1 !! l = Some (EventLoop.push_functor f x)) by apply lookup_insert_eq.
  rewrite (bind_Ok _ _ _ _ _ (load_loop_ok _ _ _ Hx1)), (bind_Ok _ _ _ _ _ (gets_ok _ _)).
  change (EventLoop.isInLoopThread (EventLoop.push_functor f x) w1) with (EventLoop.isInLoopThread x w).
  change (EventLoop.needs_wakeup (EventLoop.isInLoopThread x w) (EventLoop.push_functor f x))
    with (EventLoop.needs_wakeup (EventLoop.isInLoopThread x w) x).
  unfold queue_kernel. intros E. exists x. split; [done|].
  destruct (EventLoop.needs_wakeup _ _); cbn [when] in E.
  - by apply (wakeup_inv _ _ _ _ _ Hx1) in E.
  - injection E as _ <-. by destruct w.
Qed.

Lemma respects_queue l f : respects Calls (EventLoop.queueInLoop (K := K) l f).
Proof.
  intros w a w' Hap (x & Hx & ->)%queueInLoop_inv.
  apply (acts_one _ l w _ [CQueue f]); [done|by apply Forall_singleton| |].
  - unfold state_at. wcbn. rewrite lookup_insert_eq, Hx. cbn. f_equal.
    unfold queue_kernel, EventLoop.needs_wakeup, EventLoop.isInLoopThread, state_of, bump; cbn.
    destruct (negb _ || _); cbn; [by rewrite evw_self|done].
  - intros l' Hne. apply (state_at_other w l l' x); [done..|]. intros fd Hfd.
    unfold queue_kernel. destruct (EventLoop.needs_wakeup _ _); [by apply evw_other|done].
Qed.

Lemma respects_quit l : respects Calls (EventLoop.quit (K := K) l).
Proof.
  intros w a w' Hap. unfold EventLoop.quit. destruct (w_loops w !! l) as [x|] eqn:Hx.
  2:{ unfold modify_loop, bind, load_loop. by rewrite Hx. }
  rewrite (bind_Ok _ _ _ _ _ (modify_loop_ok _ _ _ _ Hx)). set (w1 := set_w_loops _ w).
  assert (Hx1 : w_loops w1 !! l = Some (set_quit_ true x)) by apply lookup_insert_eq.
  rewrite (bind_Ok _ _ _ _ _ (load_loop_ok _ _ _ Hx1)), (bind_Ok _ _ _ _ _ (gets_ok _ _)).
  change (EventLoop.isInLoopThread (set_quit_ true x) w1) with (EventLoop.isInLoopThread x w).
  intros E. assert (Ew : w' = set_w_kernel (if EventLoop.isInLoopThread x w then w_kernel w
    else (eventfd_write (wakeupFd_ x) (w_kernel w)).1) w1).
  { destruct (EventLoop.isInLoopThread x w); cbn [negb when] in E.
    - injection E as _ <-. by destruct w.
    - by apply (wakeup_inv _ _ _ _ _ Hx1) in E. }
  subst w'. apply (acts_one _ l w _ [CQuit]); [done|by apply Forall_singleton| |].
  - unfold state_at. wcbn. subst w1. wcbn. rewrite lookup_insert_eq, Hx. cbn. f_equal.
    unfold EventLoop.isInLoopThread, state_of, bump; cbn.
    destruct (_ =? _); cbn; [done|by rewrite evw_self].
  - intros l' Hne. apply (state_at_other w l l' x); [done..|]. intros fd Hfd.
    destruct (EventLoop.isInLoopThread x w); [done|by apply evw_other].
Qed.

(** The wakeup channel's handler reads the eventfd of its loop. *)
Lemma respects_handleRead l : respects (Reads l) (EventLoop.handleRead (K := K) l).
Proof.
  intros w a w' Hap. unfold EventLoop.handleRead. destruct (w_loops w !! l) as [x|] eqn:Hx.
  2:{ unfold bind, load_loop. by rewrite Hx. }
  rewrite (bind_Ok _ _ _ _ _ (load_loop_ok _ _ _ Hx)), (bind_Ok _ _ _ _ _ (gets_ok _ _)).
  rewrite (bind_Ok _ _ _ _ _ (modify_ok _ _)). set (k' := (eventfd_read _ _).1). intros E.
  assert (Ew : w' = set_w_kernel k' (set_w_loops (<[l := x]> (w_loops w)) w)).
  { rewrite insert_id by done. destruct w. revert E. unfold when, log.
    repeat case_match; try done; by intros [= _ <-]. }
  subst w'. apply (acts_one _ l w _ [CRead]); [done|by apply Forall_singleton| |].
  - unfold state_at. wcbn. rewrite lookup_insert_eq, Hx. cbn. f_equal. unfold state_of; cbn.
    unfold k'. rewrite evr_count. by rewrite decide_True.
  - intros l' Hne. apply (state_at_other w l l' x); [done..|]. intros fd Hfd. by apply evr_other.
Qed.

Lemma modify_loop_kernel l f w a w' : modify_loop l f w = Ok (a, w') → w_kernel w' = w_kernel w.
Proof.
  intros (x & w1 & E1 & E2)%bind_inv. unfold load_loop in E1. case_match; [|done].
  injection E1 as _ <-. by injection E2 as _ <-.
Qed.
Lemma modify_conn_kernel p f w a w' : modify_conn p f w = Ok (a, w') → w_kernel w' = w_kernel w.
Proof.
  intros (x & w1 & E1 & E2)%bind_inv. unfold load_conn in E1. case_match; [|done].
  injection E1 as _ <-. by injection E2 as _ <-.
Qed.
Lemma modify_channel_kernel cp f w a w' : modify_channel cp f w = Ok (a, w') → w_kernel w' = w_kernel w.
Proof.
  destruct cp; cbn; [apply modify_loop_kernel| |apply modify_conn_kernel]. by intros [= _ <-].
Qed.

Lemma update_counts o cp ch P (k : K) fd :
  eventfd_count (EpollPoller.update o cp ch P k) fd = eventfd_count k fd.
Proof. apply ctl_count. Qed.

Lemma respects_with_poller o l cp f :
  (∀ ch P (k : K) fd, eventfd_count (f ch P k).2 fd = eventfd_count k fd) →
  respects o (EventLoop.with_poller l cp f).
Proof.
  intros Hf w a w' Hap. unfold EventLoop.with_poller.
  intros (x & w1 & E1 & E)%bind_inv. destruct (poller_ x) as [P|]; [|done].
  apply (respects_load_loop o) in E1 as A1; [|done]. pose proof (acts_apart _ _ _ A1 Hap) as Hap1.
  etrans; [exact A1|]. clear E1 A1 Hap w. revert E.
  intros (u & w2 & E2 & E)%bind_inv. apply (respects_log o) in E2 as A2; [|done].
  pose proof (acts_apart _ _ _ A2 Hap1) as Hap2. etrans; [exact A2|]. clear E2 A2 Hap1 w1. revert E.
  intros (ch & w3 & E3 & E)%bind_inv. apply (respects_load_channel o) in E3 as A3; [|done].
  pose proof (acts_apart _ _ _ A3 Hap2) as Hap3. etrans; [exact A3|]. clear E3 A3 Hap2 w2. revert E.
  rewrite (bind_Ok _ _ _ _ _ (gets_ok _ _)). pose proof (Hf ch P (w_kernel w3)) as Hk.
  destruct (f ch P (w_kernel w3)) as [[ch' P'] k']. cbn [snd] in Hk.
  intros (u1 & w4 & E4 & (u2 & w5 & E5 & [= _ <-])%bind_inv)%bind_inv.
  assert (Ek : w_kernel w5 = w_kernel w3).
  { rewrite (modify_channel_kernel _ _ _ _ _ E5). by eapply modify_loop_kernel. }
  apply (respects_modify_loop o) in E4 as A4; [|done..].
  apply (respects_modify_channel o) in E5 as A5; [|by eapply acts_apart].
  etrans; [exact A4|]. etrans; [exact A5|]. apply acts_same; [done|]. intros l'. unfold state_at. wcbn.
  destruct (w_loops w5 !! l'); [|done]. cbn. unfold state_of. by rewrite Hk, Ek.
Qed.

Lemma respects_updateChannel o l cp : respects o (EventLoop.updateChannel (K := K) l cp).
Proof.
  apply respects_with_poller. intros ch P k fd. unfold EpollPoller.updateChannel.
  repeat case_match; cbn; by rewrite ?update_counts.
Qed.
Lemma respects_removeChannel o l cp : respects o (EventLoop.removeChannel (K := K) l cp).
Proof.
  apply respects_with_poller. intros ch P k fd. unfold EpollPoller.removeChannel.
  repeat case_match; cbn; by rewrite ?update_counts.
Qed.
End acting.

Create HintDb respects discriminated.
#[export] Hint Constants Opaque : respects.
#[export] Hint Resolve respects_ret respects_throw respects_gets respects_lift respects_log
  respects_load_loop respects_load_conn respects_load_str respects_load_channel respects_syscall
  respects_modify_conn respects_modify_channel respects_queue respects_quit
  respects_updateChannel respects_removeChannel : respects.
#[export] Hint Extern 1 (respects _ (modify _)) => by apply respects_modify : respects.
#[export] Hint Extern 1 (respects _ (store_conn _ _)) => by apply respects_modify : respects.
#[export] Hint Extern 1 (respects _ (emit _)) => by apply respects_modify : respects.

(** Goes through a program statement by statement. *)
Ltac respects :=
  repeat match goal with
    | |- respects _ (bind (lift _) _) => apply respects_lift_bind; intros ? ?
    | |- respects _ (bind _ _) => apply respects_bind; [|intros ?]
    | |- respects _ (when _ _) => apply respects_when
    | |- respects _ (mapM_ _ _) => apply respects_mapM; intros ?
    | |- respects _ (if ?b then _ else _) => destruct b
    | |- respects _ (match ?x with _ => _ end) => destruct x
    | |- respects _ _ => solve [eauto with respects]
    end.

(** ** Everything the loops can run *)
Section handlers.
Context {K : Type} `{KernelOk K} `{InetLib} `{UserCode K}.
Implicit Types w : World K.

(** Application code that reaches the loops through the library only. *)
Class PoliteApp : Prop := {
  po_connection cb p : respects Calls (onConnection cb p);
  po_message cb p t : respects Calls (onMessage cb p t);
  po_write_complete cb p : respects Calls (onWriteComplete cb p);
  po_high_water cb p n : respects Calls (onHighWaterMark cb p n);
  po_user cb : respects Calls (onUser cb) }.

Context {App : PoliteApp}.
Local Hint Resolve po_connection po_message po_write_complete po_high_water po_user : respects.

Lemma respects_change_events o f cp : respects o (Channel.change_events (K := K) f cp).
Proof. unfold Channel.change_events, Channel.update. respects. Qed.
Lemma respects_remove o cp : respects o (Channel.remove (K := K) cp).
Proof. unfold Channel.remove. respects. Qed.
Lemma respects_run l f run : respects Calls run → respects Calls (EventLoop.runInLoop (K := K) l f run).
Proof. intros Hr. unfold EventLoop.runInLoop. respects. Qed.
Local Hint Resolve respects_change_events respects_remove : respects.

Lemma respects_call_connection p : respects Calls (TcpConnection.call_connection p).
Proof. unfold TcpConnection.call_connection. respects. Qed.
Lemma respects_call_message p t : respects Calls (TcpConnection.call_message p t).
Proof. unfold TcpConnection.call_message. respects. Qed.
Lemma respects_queue_write_complete p c : respects Calls (TcpConnection.queue_write_complete (K := K) p c).
Proof. unfold TcpConnection.queue_write_complete. respects. Qed.
Lemma respects_sys_write fd d : respects Calls (sys_write (K := K) fd d).
Proof. unfold sys_write. respects. Qed.
Local Hint Resolve respects_call_connection respects_call_message respects_queue_write_complete
  respects_sys_write : respects.

Lemma respects_sendInLoop p d : respects Calls (TcpConnection.sendInLoop (K := K) p d).
Proof.
  unfold TcpConnection.sendInLoop, TcpConnection.try_write, TcpConnection.buffer_rest,
    Channel.enableWriting. respects.
Qed.
Local Hint Resolve respects_sendInLoop : respects.
Lemma respects_send p buf : respects Calls (TcpConnection.send (K := K) p buf).
Proof. unfold TcpConnection.send. respects. Qed.
Lemma respects_run_sendInLoop p buf n : respects Calls (TcpConnection.run_sendInLoop (K := K) p buf n).
Proof. unfold TcpConnection.run_sendInLoop. respects. Qed.
Lemma respects_shutdownInLoop p : respects Calls (TcpConnection.shutdownInLoop (K := K) p).
Proof. unfold TcpConnection.shutdownInLoop, TcpConnection.shutdownWrite. respects. Qed.
Lemma respects_sendFileInLoop p fd off n : respects Calls (TcpConnection.sendFileInLoop (K := K) p fd off n).
Proof. unfold TcpConnection.sendFileInLoop, sys_sendfile. respects. Qed.
Lemma respects_connectEstablished p : respects Calls (TcpConnection.connectEstablished p).
Proof. unfold TcpConnection.connectEstablished, Channel.tie, Channel.enableReading. respects. Qed.
Lemma respects_connectDestroyed p : respects Calls (TcpConnection.connectDestroyed p).
Proof. unfold TcpConnection.connectDestroyed, Channel.disbaleAll. respects. Qed.
Local Hint Resolve respects_run_sendInLoop respects_shutdownInLoop respects_sendFileInLoop
  respects_connectEstablished respects_connectDestroyed : respects.

Lemma respects_removeConnectionInLoop p : respects Calls (TcpServer.removeConnectionInLoop (K := K) p).
Proof. unfold TcpServer.removeConnectionInLoop, modify_server. respects. Qed.
Local Hint Resolve respects_removeConnectionInLoop : respects.
Lemma respects_close p : respects Calls (System.closeCallback (K := K) p).
Proof.
  unfold System.closeCallback, TcpServer.removeConnection. respects. apply respects_run. respects.
Qed.
Lemma respects_handleClose p : respects Calls (TcpConnection.handleClose System.closeCallback p).
Proof.
  unfold TcpConnection.handleClose, TcpConnection.call_close, Channel.disbaleAll. respects.
  apply respects_close.
Qed.
Lemma respects_handleError p : respects Calls (TcpConnection.handleError (K := K) p).
Proof. unfold TcpConnection.handleError. respects. Qed.
Local Hint Resolve respects_handleClose respects_handleError : respects.
Lemma respects_connRead p t : respects Calls (TcpConnection.handleRead System.closeCallback p t).
Proof. unfold TcpConnection.handleRead. respects. Qed.
Lemma respects_handleWrite p : respects Calls (TcpConnection.handleWrite (K := K) p).
Proof.
  unfold TcpConnection.handleWrite, Channel.disableWriting. respects.
  match goal with Hm : Buffer.writeFd _ _ = Ok _ |- _ => unfold Buffer.writeFd in Hm;
    destruct (Buffer.peek _ _) as [d|]; [injection Hm as <-; apply respects_sys_write|done] end.
Qed.
Local Hint Resolve respects_connRead respects_handleWrite : respects.

(** ** Accepting, and the deferred calls *)
Lemma respects_setsockopt fd opt on : respects Calls (Socket.setsockopt (K := K) fd opt on).
Proof. unfold Socket.setsockopt. respects. Qed.
Local Hint Resolve respects_setsockopt : respects.
Lemma respects_register_connection l name fd a : respects Calls (TcpServer.register_connection l name fd a).
Proof.
  unfold TcpServer.register_connection, TcpServer.new_TcpConnection, TcpServer.CheckLoopNotNull,
    Socket.setKeepAlive, modify_server. respects. apply respects_run. respects.
Qed.
Local Hint Resolve respects_register_connection : respects.
Lemma respects_newConnection fd a : respects Calls (TcpServer.newConnection fd a).
Proof. unfold TcpServer.newConnection, TcpServer.next_id, modify_server. respects. Qed.
Local Hint Resolve respects_newConnection : respects.
Lemma respects_accept : respects Calls (Acceptor.handleRead TcpServer.newConnection).
Proof. unfold Acceptor.handleRead, Socket.Accept. respects. Qed.
Lemma respects_listen o : respects o (Acceptor.listen (K := K)).
Proof.
  unfold Acceptor.listen, Acceptor.modify_acceptor, modify_server, Socket.Listen, Channel.enableReading.
  respects.
Qed.
Local Hint Resolve respects_accept respects_listen : respects.

Lemma respects_release p : respects Calls (Lifetime.release (K := K) p).
Proof. unfold Lifetime.release, Lifetime.destroy, Socket.dtor. respects. Qed.
Lemma respects_run_functor f : respects Calls (System.run_functor f).
Proof. destruct f; cbn [System.run_functor]; respects. Qed.
Lemma respects_run_closure t c : (∀ l, c ≠ CbLoopHandleRead l) → respects Calls (System.run_closure t c).
Proof. intros Hc. destruct c as [l| | | | |]; cbn [System.run_closure]; respects. by destruct (Hc l). Qed.
End handlers.

