(* ===== verification/LoopRefine.v ===== *)
(** * The running server refines the schedule of a loop

    [LoopSched.v] is the specification of one loop among other threads: its
    queue, its flags, its eventfd, and who may do what to them and when.  Here
    the program itself, with all its handlers, callbacks and deferred calls, is
    shown to implement it: what any number of rounds of any loops do to one of
    them is a sequence of that model's steps, so that its theorems (order of
    the tasks, no lost wakeup, the end of the loop) hold of the program. *)

From stdpp Require Import base tactics numbers list gmap strings relations.
From Stdlib Require Import ZArith Lia.
From S2P Require Import Prelude NetBuffer Kernel World Poller Demo Loop Channels Connection.
From S2P Require Import ConnFacts Inet LoopPool Server ServerFacts System Safety SafeTasks Handlers.
From S2P Require Import LoopSched SafeRun Startup LoopActs.

Local Open Scope Z_scope.
Local Open Scope prog_scope.

(** ** One iteration *)
Section iteration.
Context {K : Type} `{KernelOk K} `{InetLibOk} `{UserCode K} (F : fixed) (HF : fixed_ok F).
Context {App : SafeApp F} {Pol : PoliteApp}.
Implicit Types w : World K.
Local Abbreviation inv := (inv F idle []).
Local Abbreviation active := (active F idle).

(** The result of a program that is safe and respects the loops. *)
Definition does o (m : M (World K) unit) w : Prop :=
  ∀ w', m w = Ok (tt, w') → inv w' ∧ grow idle w w' ∧ acts o w w'.

Lemma does_bind o (m : M (World K) unit) k w :
  apart w → does o m w → (∀ w', inv w' → grow idle w w' → apart w' → does o (k tt) w') →
  does o (bind m k) w.
Proof.
  intros Hap Hm Hk w' ([] & w1 & E1 & E2)%bind_inv. destruct (Hm _ E1) as (Hi1 & Hg1 & Ha1).
  destruct (Hk w1 Hi1 Hg1 ltac:(by eapply acts_apart) _ E2) as (Hi2 & Hg2 & Ha2).
  split; [done|]. split; by etrans.
Qed.

(** A channel that loop [l] may be told of: not another loop's wakeup channel. *)
Definition own (l : ptr) (cp : chptr) : Prop := ∀ l', cp = ChWakeup l' → l' = l.

(** A callback of such a channel. *)
Definition own_closure (l : ptr) (c : closure) : Prop := ∀ l', c = CbLoopHandleRead l' → l' = l.

Lemma does_closure l t c w :
  inv w → apart w → closure_ok F idle w c → own_closure l c → does (Reads l) (System.run_closure t c) w.
Proof.
  intros Hi Hap Hc Ho w' E.
  pose proof (safe_run_closure F HF idle [] t c w Hi Hc) as Hs. unfold safe, wp in Hs. rewrite E in Hs.
  destruct Hs as [Hi' Hg']. split; [done|]. split; [done|].
  destruct c as [l'| | | | |]; [|by apply acts_weaken; eapply respects_run_closure; [|done..]..].
  assert (l' = l) as -> by by apply Ho. cbn in E. by eapply respects_handleRead.
Qed.

Lemma own_callbacks l cp ch w :
  inv w → own l cp → active w cp → chan_of w cp = Some ch →
  ∀ c, c ∈ callbacks ch → closure_ok F idle w c ∧ own_closure l c.
Proof.
  intros Hi Ho Ha Hch c Hc. destruct (active_chan F HF idle [] w cp Hi Ha) as (ch' & Hch' & Hcb).
  assert (ch' = ch) as -> by congruence. split; [by apply Hcb|].
  destruct cp as [l0| |p]; cbn in Hch.
  - apply fmap_Some in Hch as (x & Hx & ->). destruct (i_loop _ _ _ _ Hi _ _ Hx) as [_ Hall].
    apply Hall in Hc as ->. intros l' [= <-]. by apply Ho.
  - injection Hch as <-. destruct (i_server _ _ _ _ Hi) as (_ & _ & _ & _ & _ & Hall).
    by apply Hall in Hc as ->.
  - apply fmap_Some in Hch as (c0 & Hc0 & ->).
    destruct (i_conn _ _ _ _ Hi _ _ Hc0) as (_ & _ & _ & _ & _ & _ & Hall).
    apply Hall in Hc. unfold conn_closures in Hc. set_unfold. by destruct_or! Hc; subst.
Qed.

(** One [if (revents_ & mask) callback();]. *)
Lemma does_test l t cp (b : Channel → bool) (o : Channel → option closure) w :
  inv w → apart w → own l cp → active w cp → (∀ ch c, o ch = Some c → c ∈ callbacks ch) →
  does (Reads l) (bind (load_channel cp)
    (λ ch, when (b ch) (Channel.call (System.run_closure t) (o ch)))) w.
Proof.
  intros Hi Hap Ho Ha Hin w' E. destruct (active_chan F HF idle [] w cp Hi Ha) as (ch & Hch & _).
  rewrite (bind_Ok _ _ _ _ _ (load_channel_ok _ _ _ Hch)) in E.
  assert (Hnone : Ok (tt, w) = Ok (tt, w') → inv w' ∧ grow idle w w' ∧ acts (Reads l) w w')
    by (intros [= <-]; by split_and!).
  destruct (b ch); cbn [when] in E; [|by apply Hnone].
  destruct (o ch) as [c|] eqn:Hoc; cbn in E; [|by apply Hnone].
  destruct (own_callbacks l cp ch w Hi Ho Ha Hch c (Hin _ _ Hoc)) as [Hok Hown].
  by eapply (does_closure l t c w).
Qed.

Lemma does_test_bind l t cp b o (k : unit → M (World K) unit) w :
  inv w → apart w → own l cp → active w cp → (∀ ch c, o ch = Some c → c ∈ callbacks ch) →
  (∀ w', inv w' → apart w' → active w' cp → does (Reads l) (k tt) w') →
  does (Reads l) (bind (load_channel cp)
    (λ ch, bind (when (b ch) (Channel.call (System.run_closure t) (o ch))) k)) w.
Proof.
  intros Hi Hap Ho Ha Hin Hk w' E. rewrite <- bind_assoc in E.
  eapply does_bind; [done|by apply does_test| |exact E].
  intros w1 Hi1 Hg1 Hap1. apply Hk; [done..|by eapply active_grow].
Qed.

Lemma does_handleEvent l t cp w :
  inv w → apart w → own l cp → active w cp →
  does (Reads l) (Channel.handleEvent (System.run_closure t) cp) w.
Proof.
  intros Hi Hap Ho Ha.
  assert (Hguard : does (Reads l) (Channel.handleEventWithGuard (System.run_closure t) cp) w).
  { assert (Hin : ∀ (o : Channel → option closure),
      o = closeCallback_ ∨ o = errorCallback_ ∨ o = readCallback_ ∨ o = writeCallback_ →
      ∀ ch c, o ch = Some c → c ∈ callbacks ch).
    { intros o Hor ch c E. unfold callbacks. apply list_elem_of_omap. exists (Some c).
      rewrite <- E. split; [|done]. destruct_or! Hor; subst o; set_solver. }
    intros w' E. unfold Channel.handleEventWithGuard in E.
    rewrite (bind_Ok _ _ _ _ _ (log_ok _ _ (inv_log F HF idle [] _ Hi))) in E. revert w' E.
    apply (does_test_bind l t cp _ closeCallback_); [done..|apply Hin; auto|]. intros w1 Hi1 Hap1 Ha1.
    apply (does_test_bind l t cp _ errorCallback_); [done..|apply Hin; auto|]. intros w2 Hi2 Hap2 Ha2.
    apply (does_test_bind l t cp _ readCallback_); [done..|apply Hin; auto|]. intros w3 Hi3 Hap3 Ha3.
    apply does_test; [done..|apply Hin; auto]. }
  intros w' E. unfold Channel.handleEvent in E.
  destruct (active_chan F HF idle [] w cp Hi Ha) as (ch & Hch & _).
  rewrite (bind_Ok _ _ _ _ _ (load_channel_ok _ _ _ Hch)) in E.
  destruct (tied_ ch); [|by apply Hguard]. rewrite (bind_Ok _ _ _ _ _ (gets_ok _ _)) in E.
  destruct (Channel.lock ch w); [by apply Hguard|]. injection E as <-. by split_and!.
Qed.

Lemma does_dispatch l t cps w :
  inv w → apart w → (∀ cp, cp ∈ cps → active w cp ∧ own l cp) →
  does (Reads l) (mapM_ (Channel.handleEvent (System.run_closure t)) cps) w.
Proof.
  revert w. induction cps as [|cp cps IH]; intros w Hi Hap Hcps; cbn [mapM_].
  { intros w' [= <-]. by split_and!. }
  destruct (Hcps cp) as [Ha Ho]; [by left|]. apply does_bind; [done|by apply does_handleEvent|].
  intros w1 Hi1 Hg1 Hap1. apply IH; [done..|]. intros q Hq. destruct (Hcps q) as [Hqa Hqo]; [by right|].
  split; [by eapply active_grow|done].
Qed.

(** ** Polling *)

Lemma respects_poll l : respects Calls (EventLoop.poll (K := K) l).
Proof.
  unfold EventLoop.poll, EventLoop.epoll_wait, EventLoop.now, EventLoop.fillActiveChannels.
  respects; by apply respects_modify_loop.
Qed.

Lemma modify_channel_active l cp f w a w' x :
  w_loops w !! l = Some x → modify_channel cp f w = Ok (a, w') →
  ∃ x', w_loops w' !! l = Some x' ∧ activecChannels_ x' = activecChannels_ x.
Proof.
  intros Hx. destruct cp as [l'| |p]; cbn.
  - intros (y & w1 & E1 & E2)%bind_inv. unfold load_loop in E1. case_match eqn:Hy; [|done].
    injection E1 as <- <-. injection E2 as _ <-. wcbn. rewrite lookup_insert. case_decide; [|eauto].
    subst. eexists. split; [done|]. cbn. congruence.
  - intros [= _ <-]. eauto.
  - intros (c & w1 & E1 & E2)%bind_inv. unfold load_conn in E1. case_match; [|done].
    injection E1 as <- <-. injection E2 as _ <-. eauto.
Qed.

Lemma fill_active l evs w a w' x :
  w_loops w !! l = Some x → EventLoop.fillActiveChannels l evs w = Ok (a, w') →
  ∃ x', w_loops w' !! l = Some x' ∧ activecChannels_ x' = activecChannels_ x ++ evs.*2.
Proof.
  unfold EventLoop.fillActiveChannels. revert w x.
  induction evs as [|e evs IH]; intros w x Hx; cbn [mapM_ fmap list_fmap].
  { intros [= _ <-]. exists x. by rewrite app_nil_r. }
  intros (u & w2 & (u1 & w1 & E1 & E2)%bind_inv & E3)%bind_inv.
  destruct (modify_channel_active _ _ _ _ _ _ _ Hx E1) as (x1 & Hx1 & Hact1).
  rewrite (modify_loop_ok _ _ _ _ Hx1) in E2. injection E2 as _ <-.
  destruct (IH _ _ (lookup_insert_eq (w_loops w1) l _) E3) as (x' & Hx' & Hact). exists x'. split; [done|].
  rewrite Hact. cbn. by rewrite Hact1, <- app_assoc.
Qed.

(** What the loop is told of, its epoll instance watches. *)
Lemma poll_reports l w t w' x :
  w_loops w !! l = Some x → activecChannels_ x = [] → EventLoop.poll l w = Ok (t, w') →
  ∃ P x', poller_ x = Some P ∧ w_loops w' !! l = Some x' ∧
    ∀ cp, cp ∈ activecChannels_ x' → ∃ fd ev, interest (w_kernel w) (epollfd_ P) fd = Some (ev, cp).
Proof.
  intros Hx Hnil. unfold EventLoop.poll. rewrite (bind_Ok _ _ _ _ _ (load_loop_ok _ _ _ Hx)).
  destruct (poller_ x) as [P|]; [|done]. intros E. exists P.
  assert (Hnone : ∀ x', activecChannels_ x' = [] → ∀ cp, cp ∈ activecChannels_ x' →
    ∃ fd ev, interest (w_kernel w) (epollfd_ P) fd = Some (ev, cp))
    by (intros x' -> cp; by intros ?%not_elem_of_nil).
  unfold EventLoop.epoll_wait, EventLoop.now in E. rewrite bind_assoc in E.
  rewrite (bind_Ok _ _ _ _ _ (syscall_ok w)), bind_assoc, (bind_Ok _ _ _ _ _ (gets_ok _ _)) in E.
  destruct (sr_ret (answer w) <? 0).
  - rewrite (bind_Ok _ _ _ _ _ (ret_Ok _ _)), bind_assoc, (bind_Ok _ _ _ _ _ (syscall_ok _)) in E.
    rewrite (bind_Ok _ _ _ _ _ (ret_Ok _ _)) in E. apply bind_inv in E as (u & w3 & E3 & [= _ <-]).
    exists x. split; [done|]. split; [|by apply Hnone]. unfold when, log in E3.
    repeat case_match; try done; by injection E3 as _ <-.
  - rewrite (bind_Ok _ _ _ _ _ (ret_Ok _ _)), bind_assoc, (bind_Ok _ _ _ _ _ (syscall_ok _)) in E.
    rewrite (bind_Ok _ _ _ _ _ (ret_Ok _ _)) in E. revert E. set (evs := ztake _ _).
    intros (u & w3 & E3 & (u2 & w4 & E4 & [= _ <-])%bind_inv)%bind_inv.
    apply (fill_active l evs _ _ _ x) in E3 as (x3 & Hx3 & Hact); [|done].
    assert (Hrep : ∀ cp, cp ∈ activecChannels_ x3 →
      ∃ fd ev, interest (w_kernel w) (epollfd_ P) fd = Some (ev, cp)).
    { intros cp. rewrite Hact, Hnil. cbn. intros (e & -> & He)%list_elem_of_fmap.
      apply (ready_events_interest (w_kernel w) (epollfd_ P) [] (sr_ready (answer w))).
      unfold evs, ztake in He. by eapply subseteq_take. }
    destruct (_ && _); cbn [when] in E4.
    + rewrite (modify_loop_ok _ _ _ _ Hx3) in E4. injection E4 as _ <-. eexists. split; [done|].
      split; [apply lookup_insert_eq|]. exact Hrep.
    + injection E4 as _ <-. eauto.
Qed.

Lemma watched_own w l x P fd ev cp :
  inv w → w_loops w !! l = Some x → poller_ x = Some P →
  interest (w_kernel w) (epollfd_ P) fd = Some (ev, cp) → own l cp.
Proof.
  intros Hi Hx HP Hk l' ->. apply (i_watch _ _ _ _ Hi) in Hk as [t Ht].
  destruct (i_loop _ _ _ _ Hi _ _ Hx) as [(P' & HP' & Hfl) _]. assert (P' = P) as -> by congruence.
  by eapply (fo_own _ HF).
Qed.

(** ** The two halves of an iteration *)

Lemma dispatch_acts l x w w' :
  inv w → apart w → w_loops w !! l = Some x → threadId_ x = w_tid w →
  System.dispatch System.run_closure l w = Ok (tt, w') →
  inv w' ∧ apart w' ∧ acts (Reads l) w w'.
Proof.
  intros Hi Hap Hx Ht E. unfold System.dispatch in E.
  rewrite (bind_Ok _ _ _ _ _ (modify_loop_ok _ _ _ _ Hx)) in E.
  set (x1 := set_activecChannels_ [] x) in *. set (w1 := set_w_loops _ w) in *.
  assert (Hv1 : same_view F w w1) by by apply (view_loop F l x).
  pose proof (inv_view F idle [] _ _ Hv1 Hi) as Hi1.
  assert (Ha1 : acts Calls w w1) by (apply acts_same; [done|by eapply insert_state_at]).
  pose proof (acts_apart _ _ _ Ha1 Hap) as Hap1.
  assert (Hx1 : w_loops w1 !! l = Some x1) by apply lookup_insert_eq.
  assert (Hl : is_loop F l).
  { destruct (i_loop _ _ _ _ Hi _ _ Hx) as [(P & _ & Hf) _]. by eexists. }
  apply bind_inv in E as (t & w2 & E2 & E).
  pose proof (wp_poll F HF [] l x1 w1 Hi1 Hx1 Hl Ht eq_refl) as Hp. unfold wp in Hp. rewrite E2 in Hp.
  destruct Hp as [[Hi2 Hg2] Hact2].
  destruct (poll_reports l w1 t w2 x1 Hx1 eq_refl E2) as (P & x2 & HP & Hx2 & Hrep).
  pose proof (respects_poll l _ _ _ Hap1 E2) as Ha2. pose proof (acts_apart _ _ _ Ha2 Hap1) as Hap2.
  rewrite (bind_Ok _ _ _ _ _ (modify_loop_ok _ _ _ _ Hx2)) in E.
  set (x3 := set_pollReturnTime_ t x2) in *. set (w3 := set_w_loops _ w2) in *.
  assert (Hv3 : same_view F w2 w3) by by apply (view_loop F l x2).
  destruct (good_view F idle [] _ _ Hi2 Hv3) as [Hi3 Hg3].
  assert (Ha3 : acts Calls w2 w3) by (apply acts_same; [done|by eapply insert_state_at]).
  pose proof (acts_apart _ _ _ Ha3 Hap2) as Hap3.
  assert (Hx3 : w_loops w3 !! l = Some x3) by apply lookup_insert_eq.
  rewrite (bind_Ok _ _ _ _ _ (load_loop_ok _ _ _ Hx3)) in E.
  destruct (does_dispatch l t (activecChannels_ x3) w3 Hi3 Hap3) with w' as (Hi4 & _ & Ha4); [|done|].
  - intros cp Hcp. change (activecChannels_ x3) with (activecChannels_ x2) in Hcp. split.
    + eapply active_grow; [exact Hg3|]. by apply (Hact2 x2).
    + destruct (Hrep _ Hcp) as (fd & ev & Hk). by eapply (watched_own w1 l x1 P).
  - split; [done|]. split; [by eapply acts_apart|].
    etrans; [by apply acts_weaken|]. etrans; [by apply acts_weaken|].
    etrans; [by apply acts_weaken|]. exact Ha4.
Qed.

Lemma release_silent p w w' :
  Lifetime.release p w = Ok (tt, w') →
  w_tid w' = w_tid w ∧ w_loops w' = w_loops w ∧ w_kernel w' = w_kernel w.
Proof.
  unfold Lifetime.release. rewrite (bind_Ok _ _ _ _ _ (gets_ok _ _)).
  destruct (_ || _); cbn [negb when]; [by intros [= <-]|].
  unfold Lifetime.destroy. intros (c & w1 & E1 & (u & w2 & E2 & E3)%bind_inv)%bind_inv.
  unfold load_conn in E1. case_match; [|done]. injection E1 as <- <-.
  unfold log in E2. case_match; [|done]. injection E2 as _ <-. by injection E3 as <-.
Qed.

Lemma drop_silent fs w w' :
  Lifetime.drop_functors fs w = Ok (tt, w') →
  w_tid w' = w_tid w ∧ w_loops w' = w_loops w ∧ w_kernel w' = w_kernel w.
Proof.
  unfold Lifetime.drop_functors. generalize (omap Lifetime.functor_conn fs). intros ps. revert w.
  induction ps as [|p ps IH]; intros w; cbn [mapM_]; [by intros [= <-]|].
  intros ([] & w1 & (T & L & K1)%release_silent & (T' & L' & K')%IH)%bind_inv.
  split_and!; congruence.
Qed.

(** The state of loop [l] in [doPendingFunctions]: the flag is set and the queue
    taken; the taken calls run; the flag is reset. *)
Definition taken (l : ptr) (x : EventLoop) w : World K :=
  set_w_loops (<[l := set_pengdingFuntors_ [] (set_callingPendingFuntors_ true x)]> (w_loops w)) w.

(** The end of [doPendingFunctions]. *)
Definition settle (l : ptr) (fs : list Functor) : M (World K) unit :=
  modify_loop l (set_callingPendingFuntors_ false) ;;!
  Lifetime.drop_functors fs.

Lemma doPending_taken l x w :
  w_loops w !! l = Some x →
  System.doPendingFunctions l w =
    bind (mapM_ System.run_functor (pengdingFuntors_ x)) (λ _, settle l (pengdingFuntors_ x)) (taken l x w).
Proof.
  intros Hx. unfold System.doPendingFunctions, EventLoop.doPendingFunctions.
  rewrite (bind_Ok _ _ _ _ _ (modify_loop_ok _ _ _ _ Hx)). set (w1 := set_w_loops _ w).
  assert (Hx1 : w_loops w1 !! l = Some (set_callingPendingFuntors_ true x)) by apply lookup_insert_eq.
  rewrite (bind_Ok _ _ _ _ _ (load_loop_ok _ _ _ Hx1)), (bind_Ok _ _ _ _ _ (store_loop_ok _ _ _)).
  cbn [EventLoop.swap_functors fst snd].
  assert (Ew : set_w_loops (<[l := set_pengdingFuntors_ [] (set_callingPendingFuntors_ true x)]>
    (w_loops w1)) w1 = taken l x w).
  { subst w1. unfold taken. wcbn. rewrite insert_insert_eq. by destruct w. }
  by rewrite Ew.
Qed.

Lemma settle_silent l fs w w' :
  settle l fs w = Ok (tt, w') →
  ∃ x, w_loops w !! l = Some x ∧ w_tid w' = w_tid w ∧ w_kernel w' = w_kernel w ∧
    w_loops w' = <[l := set_callingPendingFuntors_ false x]> (w_loops w).
Proof.
  intros E. unfold settle in E.
  destruct (w_loops w !! l) as [x|] eqn:Hx; [|by unfold modify_loop, bind, load_loop in E; rewrite Hx in E].
  rewrite (bind_Ok _ _ _ _ _ (modify_loop_ok _ _ _ _ Hx)) in E. apply drop_silent in E as (Et & El & Ek).
  exists x. by split_and!.
Qed.

Lemma doPending_phases l x w w' :
  w_loops w !! l = Some x → System.doPendingFunctions l w = Ok (tt, w') →
  ∃ w1 x1, mapM_ System.run_functor (pengdingFuntors_ x) (taken l x w) = Ok (tt, w1) ∧
    w_loops w1 !! l = Some x1 ∧ w_tid w' = w_tid w1 ∧ w_kernel w' = w_kernel w1 ∧
    w_loops w' = <[l := set_callingPendingFuntors_ false x1]> (w_loops w1).
Proof.
  intros Hx. rewrite (doPending_taken l x w Hx).
  intros ([] & w1 & E1 & (x1 & ? & ? & ? & ?)%settle_silent)%bind_inv. by exists w1, x1.
Qed.

Lemma iteration_dispatches l x w w' :
  inv w → apart w → w_loops w !! l = Some x → threadId_ x = w_tid w →
  System.iteration l w = Ok (tt, w') →
  ∃ w1, inv w1 ∧ apart w1 ∧ acts (Reads l) w w1 ∧ System.doPendingFunctions l w1 = Ok (tt, w').
Proof.
  intros Hi Hap Hx Ht ([] & w1 & E1 & E2)%bind_inv. exists w1.
  destruct (dispatch_acts l x w w1) as (? & ? & ?); [done..|]. by split_and!.
Qed.
End iteration.

(** ** What is called

    The queued calls, each with the method or the user's callback that it
    stands for in the source. *)
Section calls.
Context {K : Type} `{Kernel K} `{InetLib} `{UserCode K}.
Implicit Types w : World K.

(** Call [f] is executed, from world [w] to world [w']. *)
Inductive executes w w' : Functor → Prop :=
  | x_sendInLoop p buf len :
      TcpConnection.run_sendInLoop p buf len w = Ok (tt, w') → executes w w' (FSendInLoop p buf len)
  | x_sendFileInLoop p fd offset count :
      TcpConnection.sendFileInLoop p fd offset count w = Ok (tt, w') →
      executes w w' (FSendFileInLoop p fd offset count)
  | x_shutdownInLoop p :
      TcpConnection.shutdownInLoop p w = Ok (tt, w') → executes w w' (FShutdownInLoop p)
  | x_connectEstablished p :
      TcpConnection.connectEstablished p w = Ok (tt, w') → executes w w' (FConnectEstablished p)
  | x_connectDestroyed p :
      TcpConnection.connectDestroyed p w = Ok (tt, w') → executes w w' (FConnectDestroyed p)
  | x_writeComplete cb p :
      onWriteComplete cb p (set_w_trace (w_trace w ++ [EvWriteComplete p]) w) = Ok (tt, w') →
      executes w w' (FWriteComplete (Some cb) p)
  | x_highWaterMark cb p len :
      onHighWaterMark cb p len (set_w_trace (w_trace w ++ [EvHighWaterMark p len]) w) = Ok (tt, w') →
      executes w w' (FHighWaterMark (Some cb) p len)
  | x_removeConnectionInLoop p :
      TcpServer.removeConnectionInLoop p w = Ok (tt, w') → executes w w' (FRemoveConnectionInLoop p)
  | x_listen : Acceptor.listen w = Ok (tt, w') → executes w w' FListen
  | x_user cb :
      onUser cb (set_w_trace (w_trace w ++ [EvUser cb]) w) = Ok (tt, w') → executes w w' (FUser cb).

(** All of [fs], one after the other. *)
Inductive executes_all : list Functor → World K → World K → Prop :=
  | x_nil w : executes_all [] w w
  | x_cons f fs w w1 w' : executes w w1 f → executes_all fs w1 w' → executes_all (f :: fs) w w'.

Lemma executes_iff f w w' : executes w w' f ↔ System.run_functor f w = Ok (tt, w').
Proof.
  split; [by intros []|].
  destruct f as [| | | | |[cb|] p|[cb|] p len| | |cb]; intros E; first [done|by constructor].
Qed.

Lemma executes_all_iff fs w w' : executes_all fs w w' ↔ mapM_ System.run_functor fs w = Ok (tt, w').
Proof.
  split.
  - induction 1 as [|f fs w w1 w' Hf%executes_iff _ IH]; [done|]. cbn [mapM_]. by rewrite (bind_Ok _ _ _ _ _ Hf).
  - revert w. induction fs as [|f fs IH]; intros w; cbn [mapM_]; [intros [= <-]; constructor|].
    intros ([] & w1 & E1%executes_iff & E2)%bind_inv. econstructor; [done|by apply IH].
Qed.

(** A round of loop [l]: its thread finds [quit_] set; or it lets the handlers of
    what [poll] reports run, takes the queue, executes the calls [fs] in it, and
    releases what they held. *)
Inductive one_round (l : ptr) w : list Functor → World K → Prop :=
  | one_ended x : w_loops w !! l = Some x → quit_ x = true → one_round l w [] (set_w_tid (threadId_ x) w)
  | one_turn x w1 x1 w2 w' :
      w_loops w !! l = Some x → quit_ x = false →
      System.dispatch System.run_closure l (set_w_tid (threadId_ x) w) = Ok (tt, w1) →
      w_loops w1 !! l = Some x1 → executes_all (pengdingFuntors_ x1) (taken l x1 w1) w2 →
      settle l (pengdingFuntors_ x1) w2 = Ok (tt, w') →
      one_round l w (pengdingFuntors_ x1) w'.

(** Rounds of several loops, each with the calls it executed. *)
Inductive ran : World K → list (ptr * list Functor) → World K → Prop :=
  | ran_nil w : ran w [] w
  | ran_cons l fs w w1 bs w' : one_round l w fs w1 → ran w1 bs w' → ran w ((l, fs) :: bs) w'.

(** The calls that loop [l] executed. *)
Fixpoint executed (l : ptr) (bs : list (ptr * list Functor)) : list Functor :=
  match bs with
  | [] => []
  | (l', fs) :: bs' => (if decide (l' = l) then fs else []) ++ executed l bs'
  end.
End calls.

(** ** The steps of the schedule model that match *)
Section simulation.
Context {K : Type} `{KernelOk K}.
Implicit Types s : sched K.

Definition sched_state s : loop_state := state_of (s_loop s) (s_kernel s).

(** Steps that stay at position [p] and start no task. *)
Record goes s s' (p : pc) (v : loop_state) : Prop := {
  go_steps : rtc LoopSched.step s s';
  go_pc : s_pc s' = p;
  go_wakers : s_wakers s' = 0%nat;
  go_done : s_done s' = s_done s;
  go_state : sched_state s' = v }.

Lemma goes_refl s : s_wakers s = 0%nat → goes s s (s_pc s) (sched_state s).
Proof. by split. Qed.
Lemma goes_trans s1 s2 s3 p v q u : goes s1 s2 p v → goes s2 s3 q u → goes s1 s3 q u.
Proof.
  intros [R1 _ _ D1 _] [R2 P2 W2 D2 V2]. split; [by etrans|done|done|congruence|done].
Qed.
Lemma goes_step s s' :
  LoopSched.step s s' → s_wakers s' = 0%nat → s_done s' = s_done s →
  goes s s' (s_pc s') (sched_state s').
Proof. intros Hs Hw Hd. split; try done. by apply rtc_once. Qed.

(** A task that was queued stays queued, or in hand, or is started. *)
Lemma tasks_kept s s' :
  rtc LoopSched.step s s' → reachable s →
  in_hand (s_pc s) = [] → in_hand (s_pc s') = [] →
  s_done s ++ pengdingFuntors_ (s_loop s) `prefix_of` s_done s' ++ pengdingFuntors_ (s_loop s').
Proof.
  intros Hs Hr H1 H2.
  assert (Hr' : reachable s') by (destruct Hr as (s0 & ? & ?); exists s0; split; [done|by etrans]).
  pose proof (i_fifo _ (sched_inv_reachable _ Hr)) as E1. pose proof (i_fifo _ (sched_inv_reachable _ Hr')) as E2.
  rewrite H1 in E1. rewrite H2 in E2. cbn in E1, E2. rewrite <- E1, <- E2. clear -Hs.
  induction Hs as [|s1 s2 s3 Hs _ IH]; [done|]. etrans; [|exact IH].
  destruct Hs as [Hs|Hs]; destruct Hs; cbn; try done; by apply prefix_app_r.
Qed.

(** A call of the loop's own thread, in a handler or in a task. *)
Lemma own_call tid c s :
  s_wakers s = 0%nat → threadId_ (s_loop s) = tid → c ≠ CRead →
  (∃ b, s_pc s = AtDispatch b) ∨ (∃ rest, s_pc s = AtRun rest) →
  ∃ s', goes s s' (s_pc s) (effect tid (sched_state s) c).
Proof.
  destruct s as [x k p n ps ds q]. cbn. intros -> <- Hc Hp.
  destruct c as [f| |]; [| |done].
  - set (x' := EventLoop.push_functor f x).
    exists (mkSched x' (own_wakeup x' k) p 0 (ps ++ [f]) ds q). split; try done.
    + apply rtc_once. left. destruct Hp as [[b ->]|[rest ->]]; constructor.
    + unfold sched_state, state_of, bump; cbn. rewrite Z.eqb_refl; cbn.
      unfold own_wakeup, EventLoop.needs_wakeup. change (callingPendingFuntors_ x') with (callingPendingFuntors_ x).
      destruct (callingPendingFuntors_ x); cbn; [|done]. by rewrite evw_self.
  - exists (mkSched (set_quit_ true x) k p 0 ps ds (S q)). split; try done.
    + apply rtc_once. left. destruct Hp as [[b ->]|[rest ->]]; constructor.
    + unfold sched_state, state_of; cbn. by rewrite Z.eqb_refl.
Qed.

(** A call of another thread: the loop's queue or flag, then its eventfd. *)
Lemma other_call tid c s :
  s_wakers s = 0%nat → threadId_ (s_loop s) ≠ tid → c ≠ CRead →
  ∃ s', goes s s' (s_pc s) (effect tid (sched_state s) c).
Proof.
  destruct s as [x k p n ps ds q]. cbn. intros -> Ht%Z.eqb_neq Hc.
  destruct c as [f| |]; [| |done].
  - set (x' := EventLoop.push_functor f x).
    exists (mkSched x' (eventfd_write (wakeupFd_ x') k).1 p 0 (ps ++ [f]) ds q). split; try done.
    + eapply rtc_l; [right; apply (o_queue x k p 0 ps ds q f)|]. apply rtc_once. right. apply o_wakeup.
    + unfold sched_state, state_of, bump; cbn. rewrite Ht; cbn. by rewrite evw_self.
  - exists (mkSched (set_quit_ true x) (eventfd_write (wakeupFd_ x) k).1 p 0 ps ds
      (if begun p then S q else q)). split; try done.
    + eapply rtc_l; [right; apply (o_quit x k p 0 ps ds q)|]. apply rtc_once. right.
      apply (o_wakeup (set_quit_ true x)).
    + unfold sched_state, state_of, bump; cbn. rewrite Ht; cbn. by rewrite evw_self.
Qed.

Lemma goes_thread s s' p tid cs :
  goes s s' p (effects tid cs (sched_state s)) → threadId_ (s_loop s') = threadId_ (s_loop s).
Proof. intros [_ _ _ _ E]. apply (f_equal ls_thread) in E. by rewrite (proj1 (effects_ids _ _ _)) in E. Qed.

(** Any number of calls that do not read the eventfd. *)
Lemma calls_go tid cs s :
  (∀ c s0, c ≠ CRead → s_wakers s0 = 0%nat → s_pc s0 = s_pc s →
     threadId_ (s_loop s0) = threadId_ (s_loop s) →
     ∃ s', goes s0 s' (s_pc s0) (effect tid (sched_state s0) c)) →
  s_wakers s = 0%nat → CRead ∉ cs → ∃ s', goes s s' (s_pc s) (effects tid cs (sched_state s)).
Proof.
  revert s. induction cs as [|c cs IH]; intros s Hc Hw Hcs; [exists s; by apply goes_refl|].
  apply not_elem_of_cons in Hcs as [Hne Hcs].
  destruct (Hc c s) as (s1 & G1); [done..|]. pose proof (goes_thread s s1 _ tid [c] G1) as Ht1.
  destruct G1 as [R1 P1 W1 D1 V1].
  destruct (IH s1) as (s2 & G2); [|done|done|].
  { intros c0 s0 ? ? Hp0 Ht0. apply Hc; [done|done|congruence|congruence]. }
  exists s2. rewrite P1, V1 in G2. by eapply (goes_trans s s1); [split|].
Qed.

Lemma own_calls tid cs s :
  s_wakers s = 0%nat → threadId_ (s_loop s) = tid → CRead ∉ cs →
  (∃ b, s_pc s = AtDispatch b) ∨ (∃ rest, s_pc s = AtRun rest) →
  ∃ s', goes s s' (s_pc s) (effects tid cs (sched_state s)).
Proof.
  intros Hw Ht Hcs Hp. apply calls_go; [|done|done]. intros c s0 Hne Hw0 Hp0 Ht0.
  apply own_call; [done|congruence|done|by rewrite Hp0].
Qed.
Lemma other_calls tid cs s :
  s_wakers s = 0%nat → threadId_ (s_loop s) ≠ tid → CRead ∉ cs →
  ∃ s', goes s s' (s_pc s) (effects tid cs (sched_state s)).
Proof.
  intros Hw Ht Hcs. apply calls_go; [|done|done]. intros c s0 Hne Hw0 Hp0 Ht0.
  apply other_call; [done|congruence|done].
Qed.

(** What the handlers do to their own loop, the wakeup handler among them: a
    read of an eventfd at 0 is not a step. *)
Lemma handlers_go tid cs s b :
  s_wakers s = 0%nat → threadId_ (s_loop s) = tid → callingPendingFuntors_ (s_loop s) = false →
  s_pc s = AtDispatch b →
  (if b then CRead ∈ cs else ls_count (sched_state s) = 0 ∨ CRead ∉ cs) →
  ∃ s', goes s s' (AtDispatch false) (effects tid cs (sched_state s)).
Proof.
  revert s b. induction cs as [|c cs IH]; intros s b Hw Ht Hcall Hp Hb.
  { destruct b; [by apply not_elem_of_nil in Hb|]. exists s. rewrite <- Hp. by apply goes_refl. }
  destruct (decide (c = CRead)) as [->|Hne].
  - destruct b.
    + destruct s as [x k p n ps ds q]; cbn in *; subst p n.
      set (s1 := mkSched x (eventfd_read (wakeupFd_ x) k).1 (AtDispatch false) 0 ps ds q).
      assert (E1 : sched_state s1 = effect tid (state_of x k) CRead).
      { unfold sched_state, state_of; cbn. rewrite evr_count. by rewrite decide_True. }
      assert (Hz : ls_count (sched_state s1) = 0) by by rewrite E1.
      destruct (IH s1 false) as (s2 & G2); [done..|by left|].
      exists s2. rewrite E1 in G2. eapply goes_trans; [|exact G2].
      apply (goes_step _ s1); [left; constructor|done..].
    + destruct Hb as [Hz|Hno]; [|by destruct Hno; left].
      destruct (IH s false) as (s2 & G2); [done..|by left|]. exists s2.
      assert (E : effect tid (sched_state s) CRead = sched_state s).
      { unfold effect. rewrite <- Hz. by destruct (sched_state s). }
      change (effects tid (CRead :: cs) (sched_state s))
        with (effects tid cs (effect tid (sched_state s) CRead)). by rewrite E.
  - destruct (own_call tid c s Hw Ht Hne) as (s1 & G1); [left; by exists b|].
    pose proof (goes_thread s s1 _ tid [c] G1) as Ht1. pose proof G1 as [R1 P1 W1 D1 V1].
    assert (Hsame : ls_calling (sched_state s1) = false ∧
      ls_count (sched_state s1) = ls_count (sched_state s)).
    { rewrite V1. unfold sched_state, state_of. destruct c; [| |done]; cbn;
        rewrite Ht, Z.eqb_refl; cbn; by rewrite ?Hcall. }
    destruct Hsame as [Hc1 Hn1].
    destruct (IH s1 b) as (s2 & G2); [done|congruence|done|congruence| |].
    { destruct b; [by apply elem_of_cons in Hb as [?|]|]. rewrite Hn1.
      destruct Hb as [?|Hno]; [by left|right]. by intros ?; apply Hno; right. }
    exists s2. rewrite V1 in G2. by eapply goes_trans.
Qed.
End simulation.

(** ** A round of a loop simulates *)
Section rounds.
Context {K : Type} `{KernelOk K} `{InetLibOk} `{UserCode K} (F : fixed) (HF : fixed_ok F).
Context {App : SafeApp F} {Pol : PoliteApp}.
Implicit Types (w : World K) (s : sched K).
Local Abbreviation inv := (inv F idle []).

(** Loop [l] as it stands between two rounds, in the model: at its check, or at
    its end after a [quit]; no caller is half-way. The model's histories are not
    compared here: [round_simulates] ties what it starts to what is executed. *)
Record simulates s w (l : ptr) : Prop := {
  sm_wakers : s_wakers s = 0%nat;
  sm_pc : s_pc s = AtCheck ∨ (s_pc s = AtEnd ∧ quit_ (s_loop s) = true);
  sm_state : state_at w l = Some (sched_state s) }.

Lemma effects_queue tid cs v : ∃ new, ls_queue (effects tid cs v) = ls_queue v ++ new.
Proof.
  revert v. induction cs as [|c cs IH]; intros v; [exists []; by rewrite app_nil_r|].
  destruct (IH (effect tid v c)) as [new E].
  assert (Hc : ∃ one, ls_queue (effect tid v c) = ls_queue v ++ one).
  { destruct c; cbn; repeat case_match; cbn; eauto; exists []; by rewrite app_nil_r. }
  destruct Hc as [one Hc]. exists (one ++ new). change (effects tid (c :: cs) v)
    with (effects tid cs (effect tid v c)). by rewrite E, Hc, app_assoc.
Qed.

(** The calls of a batch. *)
Lemma tasks_go l fs w w' s :
  apart w → s_wakers s = 0%nat → s_pc s = AtRun fs → threadId_ (s_loop s) = w_tid w →
  state_at w l = Some (sched_state s) → mapM_ System.run_functor fs w = Ok (tt, w') →
  ∃ s', rtc LoopSched.step s s' ∧ s_pc s' = AtRun [] ∧ s_wakers s' = 0%nat ∧
    s_done s' = s_done s ++ fs ∧ state_at w' l = Some (sched_state s').
Proof.
  revert w s. induction fs as [|f fs IH]; intros w s Hap Hw Hp Ht Hs; cbn [mapM_].
  { intros [= <-]. exists s. split_and!; try done. by rewrite app_nil_r. }
  intros ([] & w1 & E1 & E2)%bind_inv.
  pose proof (respects_run_functor f _ _ _ Hap E1) as Ha. pose proof (acts_apart _ _ _ Ha Hap) as Hap1.
  destruct Ha as [Et Ha]. destruct (Ha l) as (cs & Hcs & Ecs).
  apply calls_not_read in Hcs.
  destruct s as [x k p n ps ds q]. cbn in Hw, Hp, Ht. subst p n.
  set (s0 := mkSched x k (AtRun fs) 0 ps (ds ++ [f]) q).
  destruct (own_calls (w_tid w) cs s0) as (s1 & G1); [done|done|done|right; by exists fs|].
  pose proof (goes_thread s0 s1 _ _ _ G1) as Ht1. destruct G1 as [R1 P1 W1 D1 V1].
  destruct (IH w1 s1) as (s2 & R2 & P2 & W2 & D2 & V2); try done.
  { by rewrite Ht1, Et. }
  { rewrite Ecs, Hs, V1. done. }
  exists s2. split_and!; try done.
  - eapply rtc_l; [left; apply l_run|]. by etrans.
  - rewrite D2, D1. cbn. by rewrite <- app_assoc.
Qed.

(** The loop's own iteration. *)
Lemma own_iteration l w w1 y1 w' s :
  inv w → apart w → System.dispatch System.run_closure l w = Ok (tt, w1) →
  w_loops w1 !! l = Some y1 → System.doPendingFunctions l w1 = Ok (tt, w') →
  s_wakers s = 0%nat → s_pc s = AtCheck → quit_ (s_loop s) = false →
  callingPendingFuntors_ (s_loop s) = false → threadId_ (s_loop s) = w_tid w →
  state_at w l = Some (sched_state s) →
  ∃ s', rtc LoopSched.step s s' ∧ s_pc s' = AtCheck ∧ s_wakers s' = 0%nat ∧
    s_done s' = s_done s ++ pengdingFuntors_ y1 ∧
    pengdingFuntors_ (s_loop s) `prefix_of` pengdingFuntors_ y1 ∧
    state_at w' l = Some (sched_state s').
Proof.
  intros Hi Hap E Hy1 E1 Hw Hp Hq Hcall Ht Hs. destruct s as [x k p n ps ds q]. cbn in Hw, Hp, Hq, Hcall, Ht. subst p n.
  pose proof Hs as (y & Hy & Ey)%fmap_Some. unfold sched_state, state_of in Ey; cbn in Ey.
  destruct (dispatch_acts F HF l y w w1) as (Hi1 & Hap1 & [Et1 Ha1]); [done..|congruence|done|].
  destruct (Ha1 l) as (cs & _ & Ecs). rewrite Hs in Ecs. cbn [fmap option_fmap option_map] in Ecs.
  set (woken := bool_decide (CRead ∈ cs) && (0 <? eventfd_count k (wakeupFd_ x))).
  set (s1 := mkSched x k (AtDispatch woken) 0 ps ds q).
  destruct (handlers_go (w_tid w) cs s1 woken) as (s2 & G2); [done..| |].
  { unfold woken. case_bool_decide as Hr; cbn [andb]; [|by right].
    destruct (Z.ltb_spec 0 (eventfd_count k (wakeupFd_ x))); [done|]. left.
    pose proof (evcount_range k (wakeupFd_ x)). unfold sched_state, state_of; cbn. lia. }
  pose proof (goes_thread s1 s2 _ _ _ G2) as Ht2. destruct G2 as [R2 P2 W2 D2 V2].
  change (sched_state (mkSched x k AtCheck 0 ps ds q)) with (sched_state s1) in Ecs. rewrite <- V2 in Ecs.
  destruct s2 as [x2 k2 p2 n2 ps2 ds2 q2]. cbn in P2, W2, D2, Ht2. subst p2 n2 ds2.
  pose proof Ecs as (y1' & Hy1' & Ey1)%fmap_Some. assert (y1' = y1) as -> by congruence. clear Hy1'.
  unfold sched_state, state_of in Ey1; cbn in Ey1. injection Ey1 as Y1 Y2 Y3 Y4 Y5 Y6.
  destruct (doPending_phases l y1 w1 w' Hy1 E1) as (w3 & x3 & E3 & Hx3 & Et3 & Ek3 & El3).
  set (x4 := set_callingPendingFuntors_ true x2).
  set (s4 := mkSched (set_pengdingFuntors_ [] x4) k2 (AtRun (pengdingFuntors_ x2)) 0 ps2 ds q2).
  destruct (tasks_go l (pengdingFuntors_ y1) (taken l y1 w1) w3 s4) as (s5 & R5 & P5 & W5 & D5 & V5).
  - eapply ids_apart; [|exact Hap1]. intros l'. unfold ids, state_at, taken. wcbn.
    rewrite lookup_insert. case_decide; [subst; by rewrite Hy1|done].
  - done.
  - cbn. by rewrite Y3.
  - cbn. unfold taken. wcbn. by rewrite Ht2, Et1.
  - unfold state_at, taken. wcbn. rewrite lookup_insert_eq. cbn. unfold sched_state, state_of; cbn.
    by rewrite Y6, Y1, Y2, Y5.
  - exact E3.
  - destruct s5 as [x5 k5 p5 n5 ps5 ds5 q5]. cbn in P5, W5, D5. subst p5 n5 ds5.
    assert (Hnew : ∃ new, pengdingFuntors_ x2 = pengdingFuntors_ x ++ new)
      by (destruct (effects_queue (w_tid w) cs (sched_state s1)) as [new En]; exists new; by rewrite <- V2 in En).
    destruct Hnew as [new Hnew].
    exists (mkSched (set_callingPendingFuntors_ false x5) k5 AtCheck 0 ps5 (ds ++ pengdingFuntors_ y1) q5).
    split_and!; [|done|done|done|cbn; rewrite <- Y3, Hnew; by apply prefix_app_r|].
    + eapply rtc_l; [left; by apply l_check_go|]. eapply rtc_l; [left; apply (l_poll x k 0 ps ds q woken)|].
      { unfold woken. intros [_ Hc]%andb_true_iff. by apply Z.ltb_lt. }
      etrans; [exact R2|]. eapply rtc_l; [left; apply l_dispatched|].
      eapply rtc_l; [left; apply (l_swap x4)|]. etrans; [exact R5|]. apply rtc_once. left. apply l_ran.
    + apply fmap_Some in V5 as (y5 & Hy5 & Ey5). assert (y5 = x3) as -> by congruence.
      unfold state_at. rewrite El3, Ek3, lookup_insert_eq. cbn. unfold sched_state, state_of in *; cbn in *.
      injection Ey5 as Z1 Z2 Z3 Z4 Z5 Z6. by rewrite Z6, Z1, Z2, Z3, Z5.
Qed.

(** What an iteration does to the other loops. *)
Lemma other_iteration l l' x w w' :
  inv w → apart w → w_loops w !! l = Some x → threadId_ x = w_tid w → l' ≠ l →
  System.iteration l w = Ok (tt, w') → acts_on Calls l' w w'.
Proof.
  intros Hi Hap Hx Ht Hne E.
  destruct (iteration_dispatches F HF l x w w') as (w1 & Hi1 & Hap1 & Ha1 & E1); [done..|].
  assert (Hon1 : acts_on Calls l' w w1).
  { destruct Ha1 as [_ Ha1]. destruct (Ha1 l') as (cs & Hcs & Ecs). exists cs. split; [|done].
    eapply Forall_impl; [exact Hcs|]. intros c Hc ->. by apply Hne, Hc. }
  destruct (w_loops w1 !! l) as [x1|] eqn:Hx1.
  2:{ unfold System.doPendingFunctions, EventLoop.doPendingFunctions, modify_loop, bind, load_loop in E1.
      by rewrite Hx1 in E1. }
  destruct (doPending_phases l x1 w1 w' Hx1 E1) as (w3 & x3 & E3 & Hx3 & Et3 & Ek3 & El3).
  assert (Hap2 : apart (taken l x1 w1)).
  { eapply ids_apart; [|exact Hap1]. intros l0. unfold ids, state_at, taken. wcbn.
    rewrite lookup_insert. case_decide; [subst; by rewrite Hx1|done]. }
  pose proof (respects_mapM Calls System.run_functor (pengdingFuntors_ x1) respects_run_functor
    _ _ _ Hap2 E3) as [_ Ha3].
  destruct Ha1 as [Et1 _]. eapply acts_on_trans; [exact Et1|exact Hon1|].
  destruct (Ha3 l') as (cs & Hcs & Ecs). exists cs. split; [done|].
  assert (S1 : state_at (taken l x1 w1) l' = state_at w1 l')
    by (unfold state_at, taken; wcbn; by rewrite lookup_insert_ne by done).
  assert (S2 : state_at w' l' = state_at w3 l')
    by (unfold state_at; by rewrite El3, Ek3, lookup_insert_ne by done).
  rewrite S2, Ecs, S1. done.
Qed.

Lemma iteration_apart l x w w' :
  inv w → apart w → w_loops w !! l = Some x → threadId_ x = w_tid w →
  System.iteration l w = Ok (tt, w') → apart w'.
Proof.
  intros Hi Hap Hx Ht E. eapply ids_apart; [|exact Hap]. intros l'.
  destruct (iteration_dispatches F HF l x w w') as (w1 & Hi1 & Hap1 & Ha1 & E1); [done..|].
  rewrite <- (acts_ids _ _ _ l' Ha1). destruct (w_loops w1 !! l) as [x1|] eqn:Hx1.
  2:{ unfold System.doPendingFunctions, EventLoop.doPendingFunctions, modify_loop, bind, load_loop in E1.
      by rewrite Hx1 in E1. }
  destruct (doPending_phases l x1 w1 w' Hx1 E1) as (w3 & x3 & E3 & Hx3 & _ & Ek3 & El3).
  assert (Hids2 : ∀ l', ids (taken l x1 w1) l' = ids w1 l').
  { intros l0. unfold ids, state_at, taken. wcbn. rewrite lookup_insert.
    case_decide; [subst; by rewrite Hx1|done]. }
  pose proof (respects_mapM Calls System.run_functor (pengdingFuntors_ x1) respects_run_functor
    _ _ _ (ids_apart _ _ Hids2 Hap1) E3) as Ha3.
  rewrite <- Hids2, <- (acts_ids _ _ _ l' Ha3). unfold ids, state_at. rewrite El3, Ek3, lookup_insert.
  case_decide; [subst; by rewrite Hx3|done].
Qed.

(** One round of [while (!quit_)] of loop [l], on its own thread. *)
Definition round (l : ptr) : M (World K) unit :=
  let! x := load_loop l in
  modify (set_w_tid (threadId_ x)) ;;!
  let! _ := System.while_not_quit 1 l in
  ret tt.

Lemma round_inv l w w' :
  round l w = Ok (tt, w') → ∃ x, w_loops w !! l = Some x ∧
    let w0 := set_w_tid (threadId_ x) w in
    if quit_ x then w' = w0 else System.iteration l w0 = Ok (tt, w').
Proof.
  unfold round. intros (x & w1 & E1 & E)%bind_inv. unfold load_loop in E1. case_match eqn:Hx; [|done].
  injection E1 as <- <-. exists e. split; [done|]. rewrite (bind_Ok _ _ _ _ _ (modify_ok _ _)) in E.
  set (w0 := set_w_tid (threadId_ e) w) in *. apply bind_inv in E as (b & w2 & E2 & [= <-]).
  cbn [System.while_not_quit] in E2. change (w_loops w) with (w_loops w0) in Hx.
  rewrite (bind_Ok _ _ _ _ _ (load_loop_ok _ _ _ Hx)) in E2. destruct (quit_ e); [by injection E2 as _ <-|].
  apply bind_inv in E2 as ([] & w3 & E3 & (x3 & w4 & E4 & E5)%bind_inv).
  unfold load_loop in E4. destruct (w_loops w3 !! l); [|done]. injection E4 as _ <-.
  destruct (quit_ x3); by injection E5 as _ <-.
Qed.

(** A round, as [one_round] sees it. *)
Lemma round_runs l w w' : round l w = Ok (tt, w') → ∃ fs, one_round l w fs w'.
Proof.
  intros (x & Hx & E)%round_inv. cbv zeta in E. destruct (quit_ x) eqn:Hq; [subst w'; eexists; by eapply one_ended|].
  apply bind_inv in E as ([] & w1 & E1 & E2). destruct (w_loops w1 !! l) as [x1|] eqn:Hx1.
  2:{ unfold System.doPendingFunctions, EventLoop.doPendingFunctions, modify_loop, bind, load_loop in E2.
      by rewrite Hx1 in E2. }
  rewrite (doPending_taken l x1 w1 Hx1) in E2. apply bind_inv in E2 as ([] & w2 & E2%executes_all_iff & E3).
  eexists. by eapply one_turn.
Qed.

Lemma one_round_inv l fs w w' :
  one_round l w fs w' → ∃ x, w_loops w !! l = Some x ∧
    let w0 := set_w_tid (threadId_ x) w in
    if quit_ x then w' = w0 ∧ fs = [] else
      ∃ w1 x1, System.dispatch System.run_closure l w0 = Ok (tt, w1) ∧ w_loops w1 !! l = Some x1 ∧
        fs = pengdingFuntors_ x1 ∧ System.doPendingFunctions l w1 = Ok (tt, w').
Proof.
  intros [x Hx Hq|x w1 x1 w2 w3 Hx Hq E1 Hx1 E2%executes_all_iff E3]; exists x; (split; [done|]); cbv zeta; rewrite Hq;
    [done|].
  exists w1, x1. split_and!; try done. by rewrite (doPending_taken l x1 w1 Hx1), (bind_Ok _ _ _ _ _ E2).
Qed.

(** The simulation of one round, seen from any loop. *)
Lemma round_simulates l l' fs w w' s :
  inv w → apart w → reachable s → simulates s w l' → one_round l w fs w' →
  ∃ s', rtc LoopSched.step s s' ∧ simulates s' w' l' ∧
    s_done s' = s_done s ++ (if decide (l = l') then fs else []) ∧
    (l' = l → quit_ (s_loop s) = false → s_done s ++ pengdingFuntors_ (s_loop s) `prefix_of` s_done s').
Proof.
  intros Hi Hap Hr [Hw Hp Hs] (x & Hx & E)%one_round_inv. set (w0 := set_w_tid (threadId_ x) w) in *.
  cbv zeta in E. assert (Hi0 : inv w0) by (destruct Hi; by split).
  pose proof Hs as (y & Hy & Ey)%fmap_Some. unfold sched_state, state_of in Ey; cbn in Ey.
  injection Ey as Y1 Y2 Y3 Y4 Y5 Y6.
  destruct (decide (l' = l)) as [->|Hne].
  - assert (y = x) as -> by congruence. destruct (quit_ x) eqn:Hq.
    + destruct E as [-> ->]. rewrite decide_True by done.
      assert (Hend : ∃ s', rtc LoopSched.step s s' ∧ s_wakers s' = 0%nat ∧ s_pc s' = AtEnd ∧
        quit_ (s_loop s') = true ∧ sched_state s' = sched_state s ∧ s_done s' = s_done s).
      { destruct Hp as [Hp|[Hp Hqs]]; [|by exists s]. destruct s as [xs k p n ps ds q]. cbn in *. subst p.
        exists (mkSched (set_looping_ false xs) k AtEnd n ps ds q). split_and!; try done.
        apply rtc_once. left. by apply l_check_end. }
      destruct Hend as (s' & R & W' & P' & Q' & V' & D'). exists s'. split; [done|].
      split; [|split; [by rewrite app_nil_r|congruence]].
      split; [done|by right|]. by rewrite V'.
    + destruct Hp as [Hp|[_ ?]]; [|congruence].
      pose proof (i_calling _ (sched_inv_reachable _ Hr)) as Hcall. rewrite Hp in Hcall.
      destruct E as (w1 & x1 & E1 & Hx1 & -> & E2).
      destruct (own_iteration l w0 w1 x1 w' s) as (s' & R & P' & W' & D' & Hpre & V');
        [exact Hi0|exact Hap|exact E1|done|exact E2|done|done|congruence|exact Hcall|cbn; congruence|exact Hs|].
      exists s'. split; [done|]. split; [split; [done|by left|done]|]. rewrite decide_True by done.
      split; [done|]. intros _ _. rewrite D'. by apply prefix_app.
  - assert (Ha : acts_on Calls l' w0 w').
    { destruct (quit_ x); [destruct E as [-> _]; apply acts_on_refl|].
      destruct E as (w1 & x1 & E1 & _ & _ & E2). apply (other_iteration l l' x); try done.
      unfold System.iteration. by rewrite (bind_Ok _ _ _ _ _ E1). }
    destruct Ha as (cs & Hcs & Ecs). change (state_at w0 l') with (state_at w l') in Ecs.
    rewrite Hs in Ecs. cbn in Ecs.
    destruct (other_calls (w_tid w0) cs s) as (s' & G); [done| |by eapply calls_not_read|].
    { intros E'. apply Hne, (Hap l' l _ (state_of x (w_kernel w)) Hs); [unfold state_at; by rewrite Hx|].
      left. exact E'. }
    destruct G as [R P' W' D' V']. exists s'. split; [done|].
    split; [|split; [by rewrite decide_False, app_nil_r by done|by intros ?]].
    split; [done| |by rewrite V'].
    rewrite P'. destruct Hp as [?|[Hp Hqs]]; [by left|]. right. split; [done|].
    apply (f_equal ls_quit) in V'. change (quit_ (s_loop s')) with (ls_quit (sched_state s')). rewrite V'.
    assert (Hmono : ∀ cs v, ls_quit v = true → ls_quit (effects (w_tid w0) cs v) = true).
    { clear. induction cs as [|c cs IH]; intros v Hv; [done|]. apply (IH (effect _ v c)).
      destruct c; cbn; repeat case_match; done. }
    by apply Hmono.
Qed.

Lemma round_inv_apart l w w' :
  inv w → apart w → round l w = Ok (tt, w') → inv w' ∧ apart w'.
Proof.
  intros Hi Hap (x & Hx & E)%round_inv. set (w0 := set_w_tid (threadId_ x) w) in *. cbv zeta in E.
  assert (Hi0 : inv w0) by (destruct Hi; by split). destruct (quit_ x); [by subst w'|].
  destruct (i_loop _ _ _ _ Hi _ _ Hx) as [(P & _ & Hfl) _].
  split; [|by eapply (iteration_apart l x w0)].
  pose proof (wp_iteration F HF l (epollfd_ P) w0 Hi0 Hfl) as Hwp. unfold wp in Hwp. by rewrite E in Hwp.
Qed.

(** Any number of rounds. *)
Lemma step_mono s s' :
  LoopSched.step s s' → begun (s_pc s) = true →
  begun (s_pc s') = true ∧ s_done s `prefix_of` s_done s' ∧
  (quit_ (s_loop s) = true → quit_ (s_loop s') = true).
Proof.
  intros [Hs|Hs]; destruct Hs; cbn; intros Hb; split_and!; try done; by apply prefix_app_r.
Qed.
Lemma steps_mono s s' :
  rtc LoopSched.step s s' → begun (s_pc s) = true →
  s_done s `prefix_of` s_done s' ∧ (quit_ (s_loop s) = true → quit_ (s_loop s') = true).
Proof.
  induction 1 as [|s1 s2 s3 Hs _ IH]; [done|]. intros Hb.
  destruct (step_mono _ _ Hs Hb) as (Hb2 & Hd & Hq). destruct (IH Hb2) as [Hd2 Hq2].
  split; [by etrans|auto].
Qed.
Lemma simulates_begun s w l : simulates s w l → begun (s_pc s) = true.
Proof. by intros [_ [->|[-> _]] _]. Qed.
Lemma simulates_hand s w l : simulates s w l → in_hand (s_pc s) = [].
Proof. by intros [_ [->|[-> _]] _]. Qed.

Lemma rounds_simulate ls w w' :
  inv w → apart w → mapM_ round ls w = Ok (tt, w') →
  inv w' ∧ ∃ bs, bs.*1 = ls ∧ ran w bs w' ∧ ∀ l s, reachable s → simulates s w l →
    ∃ s', rtc LoopSched.step s s' ∧ reachable s' ∧ simulates s' w' l ∧
      s_done s' = s_done s ++ executed l bs ∧
      (l ∈ ls → quit_ (s_loop s') = false →
        s_done s ++ pengdingFuntors_ (s_loop s) `prefix_of` s_done s').
Proof.
  revert w. induction ls as [|l0 ls IH]; intros w Hi Hap; cbn [mapM_].
  { intros [= <-]. split; [done|]. exists []. split; [done|]. split; [constructor|].
    intros l s Hr Hs. exists s. cbn. rewrite app_nil_r. split_and!; try done. by intros ?%not_elem_of_nil. }
  intros ([] & w1 & E1 & E2)%bind_inv. destruct (round_inv_apart l0 w w1 Hi Hap E1) as [Hi1 Hap1].
  destruct (IH w1 Hi1 Hap1 E2) as (Hi' & bs & Ebs & Hran & Hall). split; [done|].
  destruct (round_runs _ _ _ E1) as [fs Hfs]. exists ((l0, fs) :: bs).
  split; [cbn; by rewrite Ebs|]. split; [by econstructor|].
  intros l s Hr Hs. destruct (round_simulates l0 l fs w w1 s Hi Hap Hr Hs Hfs) as (s1 & R1 & S1 & D1 & Hq1).
  assert (Hr1 : reachable s1) by (destruct Hr as (s0 & ? & ?); exists s0; split; [done|by etrans]).
  destruct (Hall l s1 Hr1 S1) as (s2 & R2 & Hr2 & S2 & D2 & Hq2). exists s2. split; [by etrans|].
  split_and!; [done..| |]; [cbn [executed]; by rewrite D2, D1, app_assoc|]. intros Hin Hq.
  destruct (steps_mono _ _ R2 (simulates_begun _ _ _ S1)) as [Hd Hq12].
  destruct (steps_mono _ _ R1 (simulates_begun _ _ _ Hs)) as [Hd01 Hq01].
  assert (Hqs : quit_ (s_loop s1) = false) by (destruct (quit_ (s_loop s1)); [by rewrite Hq12 in Hq|done]).
  assert (Hqs0 : quit_ (s_loop s) = false) by (destruct (quit_ (s_loop s)); [by rewrite Hq01 in Hqs|done]).
  destruct (decide (l = l0)) as [E|Hne]; [etrans; [by apply Hq1|exact Hd]|].
  apply elem_of_cons in Hin as [?|Hin]; [done|]. specialize (Hq2 Hin Hq).
  (* what is queued at [s] is queued or started at [s1] *)
  etrans; [|exact Hq2]. apply tasks_kept; [done|done|by eapply simulates_hand..].
Qed.
End rounds.

(** ** The theorems *)
Section theorem.
Context {K : Type} `{KernelOk K} `{InetLibOk} `{UserCode K} (F : fixed).
Implicit Types (w : World K) (s : sched K).

(** C3: the server implements the schedule of [LoopSched.v]. From a state in
    which the invariant holds and each loop has a thread and an eventfd of its
    own, and for an application that is safe and leaves the loops alone, any
    rounds of any loops do to the queue, the flags and the eventfd of each loop
    what a run of that model does: the steps of the loop's own thread in its own
    rounds, those of other threads in the rounds of other loops; and the tasks
    that this run starts are the calls that the rounds execute ([ran]: each is
    the method or the callback it was queued for, and it succeeds). So no queued
    call is lost, run twice or overtaken: what was queued is what was executed
    and what is in the queue, in order; and a loop that took a round and has not
    been told to quit has executed everything that was queued before. *)
Theorem server_refines_schedule ls w w' :
  fixed_ok F → SafeApp F → PoliteApp → inv F idle [] w → apart w → mapM_ round ls w = Ok (tt, w') →
  ∃ bs, bs.*1 = ls ∧ ran w bs w' ∧ ∀ l s, reachable s → simulates s w l →
    ∃ s', rtc LoopSched.step s s' ∧ simulates s' w' l ∧
      s_done s' = s_done s ++ executed l bs ∧
      s_pushed s' = s_done s' ++ pengdingFuntors_ (s_loop s') ∧
      (l ∈ ls → quit_ (s_loop s') = false →
        s_done s ++ pengdingFuntors_ (s_loop s) `prefix_of` s_done s').
Proof.
  intros HF App Pol Hi Hap E.
  destruct (rounds_simulate F HF ls w w' Hi Hap E) as (_ & bs & Ebs & Hran & Hall).
  exists bs. split; [done|]. split; [done|]. intros l s Hr Hs.
  destruct (Hall l s Hr Hs) as (s' & R & Hr' & S' & D' & Hd). exists s'. split_and!; try done.
  pose proof (i_fifo _ (sched_inv_reachable _ Hr')) as Hf. by rewrite (simulates_hand _ _ _ S') in Hf.
Qed.

Lemma wp_rounds (HF : fixed_ok F) (App : SafeApp F) ls w :
  inv F idle [] w → Forall (is_loop F) ls →
  wp (benign F) (mapM_ round ls) w (λ _ w', inv F idle [] w').
Proof.
  revert w. induction ls as [|l ls IH]; intros w Hi Hls; cbn [mapM_]; [by eapply wp_Ok|].
  inversion Hls as [|? ? Hl Hls']; subst. apply wp_bind. unfold round.
  destruct (inv_loop F idle [] _ _ Hi Hl) as (x & Hx & (P & _ & Hfl) & _).
  eapply wp_step; [by apply load_loop_ok|]. eapply wp_step; [apply modify_ok|].
  set (w0 := set_w_tid _ w). assert (Hi0 : inv F idle [] w0) by (destruct Hi; by split).
  apply wp_bind. cbn [System.while_not_quit]. eapply wp_step; [by apply load_loop_ok|].
  destruct (quit_ x); [by eapply wp_Ok; [done|]; eapply wp_Ok; [done|]; apply IH|].
  apply wp_bind. eapply wp_mono; [by apply (wp_iteration F HF l (epollfd_ P) w0)|].
  intros [] w1 Hi1. destruct (inv_loop F idle [] _ _ Hi1 Hl) as (x1 & Hx1 & _).
  eapply wp_step; [by apply load_loop_ok|]. destruct (quit_ x1);
    (eapply wp_Ok; [done|]; eapply wp_Ok; [done|]; by apply IH).
Qed.
End theorem.

(** ** The echo server *)
#[export] Instance echo_polite {K} `{KernelOk K} `{InetLib} : PoliteApp (H2 := EchoServer.user (K := K)).
Proof.
  split; intros; cbn; try (destruct (_ =? _)); try apply respects_ret.
  - unfold EchoServer.onConnection. respects.
  - unfold EchoServer.onMessage, with_string. respects. apply respects_send.
Qed.

Section boot.
Context {K : Type} `{KernelOk K} `{InetLibOk}.
Implicit Types w : World K.

(** The kernel gives each thread an identifier, and each loop an eventfd, of its
    own. *)
Definition loops_apart w : Prop := NoDup (o_tid <$> origins w) ∧ NoDup (o_event <$> origins w).

Lemma ready_apart ls os w :
  ready_to_listen ls os w → NoDup (o_tid <$> os) → NoDup (o_event <$> os) → apart w.
Proof.
  intros Hr Ht He l1 l2 v1 v2.
  intros (x1 & Hx1 & ->)%fmap_Some (x2 & Hx2 & ->)%fmap_Some. cbn.
  destruct (rl_loop _ _ _ Hr _ _ Hx1) as (i & o1 & Hi & Ho1 & Hn1).
  destruct (rl_loop _ _ _ Hr _ _ Hx2) as (j & o2 & Hj & Ho2 & Hn2).
  rewrite (nl_thread _ _ _ _ _ Hn1), (nl_thread _ _ _ _ _ Hn2), (nl_event _ _ _ _ _ Hn1),
    (nl_event _ _ _ _ _ Hn2).
  intros Hor. assert (i = j) as ->; [|congruence]. destruct Hor as [E|E].
  - apply (NoDup_lookup _ _ _ (o_tid o1) Ht); rewrite list_lookup_fmap; [by rewrite Ho1|].
    by rewrite Ho2; cbn; f_equal.
  - apply (NoDup_lookup _ _ _ (o_event o1) He); rewrite list_lookup_fmap; [by rewrite Ho1|].
    by rewrite Ho2; cbn; f_equal.
Qed.

(** A loop that its thread is about to run is one that [LoopSched.v] starts from. *)
Lemma ready_simulates ls os w w' l :
  ready_to_listen ls os w → (∀ l, state_at w' l = state_at w l) → l ∈ ls →
  ∃ s, reachable s ∧ simulates s w' l.
Proof.
  intros Hr Hs Hl. destruct (rl_live _ _ _ Hr _ Hl) as [x Hx].
  destruct (rl_loop _ _ _ Hr _ _ Hx) as (i & o & _ & _ & Hn).
  destruct (nl_idle _ _ _ _ _ Hn) as (_ & Hq & Hc). pose proof (nl_pending _ _ _ _ _ Hn) as Hp.
  exists (mkSched (set_quit_ false (set_looping_ true x)) (w_kernel w) AtCheck 0 [] [] 0). split.
  - exists (mkSched x (w_kernel w) AtStart 0 [] [] 0). split; [by split_and!|].
    eapply rtc_l; [left; apply l_start|]. apply rtc_once. left. apply l_reset.
  - split; [done|by left|]. rewrite Hs. unfold state_at. rewrite Hx. cbn.
    unfold sched_state, state_of; cbn. by rewrite Hq.
Qed.

(** C10: the echo server never sleeps on work. From the start of the program, if
    the kernel gives every thread an identifier and every loop an eventfd of its
    own, then after any rounds of the loops, whatever else the kernel answers,
    each loop is in a state the model of [LoopSched.v] reaches, and a loop whose
    queue is not empty has a readable eventfd, so that its next [epoll_wait]
    does not block; or the program has ended in one of the known faults. *)
Theorem echo_loops_scheduled w :
  boot w → loops_apart w → "asynclogger" ∈ w_loggers w →
  ∃ w1 ls, EchoServer.main_setup w = Ok (tt, w1) ∧ length ls = 3%nat ∧ NoDup (1 :: ls) ∧
    ∀ run, Forall (λ l, l ∈ 1 :: ls) run →
      match mapM_ (round (H3 := EchoServer.user)) run w1 with
      | Ok (_, w') => ∀ l, l ∈ 1 :: ls → ∃ x s, w_loops w' !! l = Some x ∧
          reachable s ∧ simulates s w' l ∧
          (pengdingFuntors_ x ≠ [] → 0 < eventfd_count (w_kernel w') (wakeupFd_ x))
      | Fault f => f = BadFunctionCall ∨ f = SignedOverflow ∨ f = LengthError ∨
          (f = NullDeref ∧ "asyclogger" ∉ w_loggers w)
      end.
Proof.
  intros Hb [Ht He] Hlog.
  destruct (main_setup_listens w Hb Hlog) as (w1 & ls & E & Hr & Hlen & Hnd & _ & _ & Hlg).
  destruct (listen_ok _ _ _ Hr) as (w2 & E2 & Hi & _). pose proof (ready_fixed_ok _ _ _ Hr) as HF.
  pose proof (ready_apart _ _ _ Hr Ht He) as Hap.
  pose proof (respects_listen Silent _ _ _ Hap E2) as Ha. pose proof (acts_apart _ _ _ Ha Hap) as Hap2.
  exists w2, ls. split; [by rewrite E|]. split_and!; [done..|]. intros run Hrun.
  pose proof (wp_rounds (fixed_of w1) HF (echo_safe _ HF) run w2 Hi) as Hw. unfold wp in Hw.
  destruct (mapM_ round run w2) as [[[] w']|f] eqn:Er.
  - intros l Hl.
    destruct (ready_simulates _ _ w1 w2 l Hr (λ l, acts_silent _ _ l Ha) Hl) as (s & Hrs & Ss).
    destruct (rounds_simulate (fixed_of w1) HF (App := echo_safe _ HF) run w2 w' Hi Hap2 Er)
      as (_ & bs & _ & _ & Hall).
    destruct (Hall l s Hrs Ss) as (s' & _ & Hr' & S' & _).
    pose proof (sm_state _ _ _ S') as (x & Hx & Ex)%fmap_Some. exists x, s'. split_and!; try done.
    unfold sched_state, state_of in Ex. injection Ex as X1 X2 X3 X4 X5 X6. intros Hne.
    destruct (i_awake _ (sched_inv_reachable _ Hr')) as [Hw'|[Hc|Hn]]; [congruence|..].
    + by destruct (sm_pc _ _ _ S') as [Hp|[Hp _]]; rewrite Hp in Hw'.
    + unfold LoopSched.count in Hc. by rewrite <- X6.
    + rewrite (sm_wakers _ _ _ S') in Hn. lia.
  - rewrite <- Hlg. apply Hw. eapply Forall_impl; [exact Hrun|].
    intros l. apply (ready_is_loop _ _ _ Hr).
Qed.
End boot.

(** ** Concrete runs *)
Definition succeeds {A} (o : outcome A) : bool := match o with Ok _ => true | Fault _ => false end.

(** The demo loop at its check. *)
Definition demo_checking : sched RefKernel.t :=
  mkSched (set_quit_ false (set_looping_ true demo_loop)) demo_kernel AtCheck 0 [] [] 0.

Lemma demo_checking_reachable : reachable demo_checking.
Proof.
  exists demo_sched0. split; [done|]. eapply rtc_l; [left; apply l_start|]. apply rtc_once. left. apply l_reset.
Qed.

Lemma demo_apart : apart demo_run_world.
Proof.
  intros l1 l2 v1 v2 (x1 & [-> _]%demo_loop_only & _)%fmap_Some (x2 & [-> _]%demo_loop_only & _)%fmap_Some.
  done.
Qed.

Lemma demo_simulates : simulates demo_checking demo_run_world 1.
Proof. split; [done|by left|]. by vm_compute. Qed.

(** The connection is readable, and the eventfd reported, in every round. *)
Lemma demo_rounds_ok :
  ∃ w', mapM_ (round (H1 := HexInet.lib) (H3 := EchoServer.user)) [1; 1] demo_run_world = Ok (tt, w').
Proof.
  assert (Hc : succeeds (mapM_ (round (H1 := HexInet.lib) (H3 := EchoServer.user)) [1; 1] demo_run_world)
    = true) by by vm_compute.
  revert Hc. generalize (mapM_ (round (H1 := HexInet.lib) (H3 := EchoServer.user)) [1; 1] demo_run_world).
  intros [[[] w']|f]; [by exists w'|done].
Qed.

Lemma server_refines_schedule_witness :
  ∃ w' bs s', mapM_ (round (H1 := HexInet.lib) (H3 := EchoServer.user)) [1; 1] demo_run_world = Ok (tt, w') ∧
    bs.*1 = [1; 1] ∧ ran (H0 := HexInet.lib) (H1 := EchoServer.user) demo_run_world bs w' ∧
    rtc LoopSched.step demo_checking s' ∧ simulates s' w' 1 ∧
    s_done s' = executed 1 bs ∧
    s_pushed s' = s_done s' ++ pengdingFuntors_ (s_loop s') ∧
    (1 ∈ [1; 1] → quit_ (s_loop s') = false →
       s_done demo_checking ++ pengdingFuntors_ (s_loop demo_checking) `prefix_of` s_done s').
Proof.
  destruct demo_rounds_ok as [w' E]. exists w'.
  destruct (server_refines_schedule demo_fixed [1; 1] demo_run_world w' demo_fixed_ok
    (echo_safe _ demo_fixed_ok) echo_polite demo_inv demo_apart E) as (bs & Ebs & Hran & Hall).
  destruct (Hall 1 demo_checking demo_checking_reachable demo_simulates) as (s' & R & S & D & P & Q).
  exists bs, s'. split; [exact E|]. split; [exact Ebs|]. split; [exact Hran|]. split; [exact R|].
  split; [exact S|]. split; [exact D|]. split; [exact P|exact Q].
Defined.

Lemma demo_boot_apart : loops_apart demo_boot.
Proof. split; by apply (bool_decide_unpack _). Qed.

Lemma echo_loops_scheduled_witness :
  ∃ w1 ls, EchoServer.main_setup demo_boot = Ok (tt, w1) ∧ length ls = 3%nat ∧ NoDup (1 :: ls) ∧
    ∀ run, Forall (λ l, l ∈ 1 :: ls) run →
      match mapM_ (round (H1 := HexInet.lib) (H3 := EchoServer.user)) run w1 with
      | Ok (_, w') => ∀ l, l ∈ 1 :: ls → ∃ x s, w_loops w' !! l = Some x ∧
          reachable s ∧ simulates s w' l ∧
          (pengdingFuntors_ x ≠ [] → 0 < eventfd_count (w_kernel w') (wakeupFd_ x))
      | Fault f => f = BadFunctionCall ∨ f = SignedOverflow ∨ f = LengthError ∨
          (f = NullDeref ∧ "asyclogger"%string ∉ w_loggers demo_boot)
      end.
Proof. apply echo_loops_scheduled; [apply demo_boot_ok|apply demo_boot_apart|by vm_compute]. Defined.
