(* ===== verification/WellFormed.v ===== *)
(** * The shape of the running program's state

    What types and [const] members promise in the C++ code, and what the
    library's comments promise of threads: every object a connection refers to
    is its own, and everything that happens to a connection happens on its own
    loop.  A consequence of the invariant of [Safety.v], stated in terms of the
    program's state alone. *)

From stdpp Require Import base tactics numbers list gmap strings.
From Stdlib Require Import ZArith Lia.
From S2P Require Import Prelude NetBuffer Kernel World Poller Demo Loop Channels Connection.
From S2P Require Import ConnFacts Inet LoopPool Server ServerFacts System Safety SafeTasks Handlers.
From S2P Require Import SafeRun Startup LoopRefine.

Local Open Scope string_scope.
Local Open Scope list_scope.
Local Open Scope Z_scope.
Local Open Scope prog_scope.

Section shape.
Context {K : Type} `{KernelOk K} `{InetLibOk}.
Implicit Types (w : World K) (c : TcpConnection).

(** The connection a queued call runs an operation of on its loop. *)
Definition operates_on (f : Functor) : option ptr :=
  match f with
  | FConnectEstablished p | FConnectDestroyed p | FWriteComplete _ p | FHighWaterMark _ p _
  | FSendFileInLoop p _ _ _ | FSendInLoop p _ _ | FShutdownInLoop p => Some p
  | _ => None
  end.

(** A call that refers to its connection, or to bytes, by a bare pointer. *)
Definition unowned (f : Functor) : bool :=
  match f with FSendInLoop _ _ _ | FShutdownInLoop _ => true | _ => false end.

Record well_formed w : Prop := {
  sh_loop l x : w_loops w !! l = Some x →
    is_Some (poller_ x) ∧ ∀ cb, cb ∈ callbacks (wakeupChannel_ x) → cb = CbLoopHandleRead l;
  sh_epoll l1 l2 x1 x2 P1 P2 : w_loops w !! l1 = Some x1 → w_loops w !! l2 = Some x2 →
    poller_ x1 = Some P1 → poller_ x2 = Some P2 → epollfd_ P1 = epollfd_ P2 → l1 = l2;
  sh_conn p c : w_conns w !! p = Some c →
    is_Some (w_loops w !! conn_loop_ c) ∧ ch_loop_ (channel_ c) = conn_loop_ c ∧
    (∀ cb, cb ∈ callbacks (channel_ c) → cb ∈ conn_closures p) ∧
    index_value (index_ (channel_ c)) ∧ Buffer.wf (inputBuffer_ c) ∧ Buffer.wf (outputBuffer_ c);
  sh_name p q c d : w_conns w !! p = Some c → w_conns w !! q = Some d → name_ c = name_ d → p = q;
  sh_map n p : connections_ (w_server w) !! n = Some p → ∃ c, w_conns w !! p = Some c ∧ name_ c = n;
  sh_task l x f : w_loops w !! l = Some x → f ∈ pengdingFuntors_ x →
    unowned f = false ∧
    ∀ p, operates_on f = Some p → ∃ c, w_conns w !! p = Some c ∧ conn_loop_ c = l;
  sh_order l x A p B : w_loops w !! l = Some x →
    pengdingFuntors_ x = A ++ FConnectDestroyed p :: B → FConnectEstablished p ∉ B;
  sh_watch ep fd ev p : interest (w_kernel w) ep fd = Some (ev, ChConn p) →
    ∃ c x P, w_conns w !! p = Some c ∧ w_loops w !! conn_loop_ c = Some x ∧ poller_ x = Some P ∧
      epollfd_ P = ep ∧ fd_ (channel_ c) = fd ∧ index_ (channel_ c) = ADDED }.

Lemma inv_well_formed (F : fixed) w : fixed_ok F → inv F idle [] w → well_formed w.
Proof.
  intros HF Hi.
  assert (Hq : ∀ l x, w_loops w !! l = Some x → pend idle w l = pengdingFuntors_ x)
    by (intros l x Hx; unfold pend, queue; by rewrite Hx).
  split.
  - intros l x Hx. destruct (i_loop _ _ _ _ Hi _ _ Hx) as [(P & HP & _) Hc]. rewrite HP. by split.
  - intros l1 l2 x1 x2 P1 P2 Hx1 Hx2 E1 E2 E.
    destruct (i_loop _ _ _ _ Hi _ _ Hx1) as [(Q1 & HQ1 & F1) _].
    destruct (i_loop _ _ _ _ Hi _ _ Hx2) as [(Q2 & HQ2 & F2) _].
    apply (fo_own _ HF l1 l2 (epollfd_ P1) (threadId_ x1) (threadId_ x2)); congruence.
  - intros p c Hc. destruct (i_conn _ _ _ _ Hi _ _ Hc) as (? & Hl & ? & ? & _ & ? & ?).
    split; [by apply (i_dom _ _ _ _ Hi)|]. by split_and!.
  - intros p q c d. apply (i_unique _ _ _ _ Hi).
  - intros n p. apply (i_map _ _ _ _ Hi).
  - intros l x f Hx Hf. rewrite <- (Hq _ _ Hx) in Hf. pose proof (i_functor _ _ _ _ Hi _ _ Hf) as Hok.
    destruct f; cbn in *; (split; [done|]); intros q; try done; by intros [= <-].
  - intros l x A p B Hx E. apply (i_order _ _ _ _ Hi l A). by rewrite (Hq _ _ Hx).
  - intros ep fd ev p Hk. destruct (i_watch _ _ _ _ Hi _ _ _ _ Hk) as (c & t & Hc & Hl & Hfd & Hix).
    destruct (i_dom _ _ _ _ Hi (conn_loop_ c)) as [x Hx]; [by eexists|].
    destruct (i_loop _ _ _ _ Hi _ _ Hx) as [(P & HP & Hf) _]. exists c, x, P. split_and!; try done. congruence.
Qed.

(** C4: the shape of the echo server's state. From the start of the program,
    after any rounds of its loops and whatever the kernel answers: each loop
    has its own epoll instance; a connection's channel belongs to the
    connection's loop and calls back only into that connection, and its buffers
    keep their class invariant; names are unique and the server's map agrees
    with them; queued calls that operate on a connection are in the queue of
    its own loop, hold a [shared_ptr] to it, and establish it before they
    destroy it; and epoll watches a connection only in the instance of its own
    loop, for its own descriptor and while its channel is marked as added. So
    whatever happens to a connection happens on its loop's thread. *)
Theorem echo_state_well_formed w :
  boot w → "asynclogger" ∈ w_loggers w →
  ∃ w1 ls, EchoServer.main_setup w = Ok (tt, w1) ∧ length ls = 3%nat ∧ well_formed w1 ∧
    ∀ run, Forall (λ l, l ∈ 1 :: ls) run →
      match mapM_ (round (H3 := EchoServer.user)) run w1 with
      | Ok (_, w') => well_formed w'
      | Fault f => f = BadFunctionCall ∨ f = SignedOverflow ∨ f = LengthError ∨
          (f = NullDeref ∧ "asyclogger" ∉ w_loggers w)
      end.
Proof.
  intros Hb Hlog.
  destruct (main_setup_listens w Hb Hlog) as (w1 & ls & E & Hr & Hlen & _ & _ & _ & Hlg).
  destruct (listen_ok _ _ _ Hr) as (w2 & E2 & Hi & _). pose proof (ready_fixed_ok _ _ _ Hr) as HF.
  exists w2, ls. rewrite E. split_and!; [done..|by eapply inv_well_formed|]. intros run Hrun.
  pose proof (wp_rounds (fixed_of w1) HF (echo_safe _ HF) run w2 Hi) as Hw. unfold wp in Hw.
  assert (Hl : Forall (is_loop (fixed_of w1)) run)
    by (eapply Forall_impl; [exact Hrun|]; intros l; apply (ready_is_loop _ _ _ Hr)).
  destruct (mapM_ round run w2) as [[[] w']|f].
  - by eapply inv_well_formed, Hw.
  - rewrite <- Hlg. by apply Hw.
Qed.
End shape.

Lemma echo_state_well_formed_witness :
  ∃ w1 ls, EchoServer.main_setup demo_boot = Ok (tt, w1) ∧ length ls = 3%nat ∧ well_formed w1 ∧
    ∀ run, Forall (λ l, l ∈ 1 :: ls) run →
      match mapM_ (round (H1 := HexInet.lib) (H3 := EchoServer.user)) run w1 with
      | Ok (_, w') => well_formed w'
      | Fault f => f = BadFunctionCall ∨ f = SignedOverflow ∨ f = LengthError ∨
          (f = NullDeref ∧ "asyclogger" ∉ w_loggers demo_boot)
      end.
Proof. apply echo_state_well_formed; [apply demo_boot_ok|by vm_compute]. Defined.
