(* ===== verification/Gone.v ===== *)
(** * The loops after the server (src/TcpServer.cpp, [~TcpServer])

    A loop does not know that the [TcpServer] is gone: [closeCallback_] of a
    connection is bound to the server's [this], and so are the acceptor's
    callback and the calls [removeConnectionInLoop] and [Acceptor::listen] that
    may still be queued.  Here the loops run on while the server's members are
    being destroyed and afterwards; what reaches a destroyed object ends in the
    fault [DeadServer].  Up to that these runs are those of [System.v]. *)

From stdpp Require Import base tactics numbers list gmap strings.
From Stdlib Require Import ZArith Lia.
From S2P Require Import Prelude NetBuffer Kernel World Poller Demo Loop Channels Connection.
From S2P Require Import ConnFacts Inet LoopPool Server ServerFacts System Safety SafeTasks Handlers.
From S2P Require Import SafeRun.

Local Open Scope string_scope.
Local Open Scope list_scope.
Local Open Scope Z_scope.
Local Open Scope prog_scope.

(** [connections_], the last member, is destroyed. [members]: the others are
    not, that is [loop_], [acceptor_] and [threadPool_] can still be used. *)
Module Gone.
Section ops.
Context {K : Type} `{Kernel K} `{InetLib} `{UserCode K} (members : bool).
Local Abbreviation M := (M (World K)).

(** [removeConnection] reads [loop_]; [removeConnectionInLoop] erases from the
    map. *)
Definition closeCallback (p : ptr) : M unit :=
  if members then
    let! s := gets w_server in
    EventLoop.runInLoop (srv_loop_ s) (FRemoveConnectionInLoop p) (throw DeadServer)
  else throw DeadServer.

Definition run_functor (f : Functor) : M unit :=
  match f with
  | FRemoveConnectionInLoop _ => throw DeadServer
  | FListen => if members then System.run_functor FListen else throw DeadServer
  | _ => System.run_functor f
  end.

(** [newConnection] inserts into the map. *)
Definition run_closure (receiveTime : Z) (c : closure) : M unit :=
  match c with
  | CbAcceptorHandleRead =>
      if members then Acceptor.handleRead (λ _ _, throw DeadServer) else throw DeadServer
  | CbConnHandleRead p => TcpConnection.handleRead closeCallback p receiveTime
  | CbConnHandleClose p => TcpConnection.handleClose closeCallback p
  | _ => System.run_closure receiveTime c
  end.

Definition doPendingFunctions : ptr → M unit :=
  EventLoop.doPendingFunctions run_functor Lifetime.drop_functors.

(** One turn of [while (!quit_)] of loop [l], on its own thread. *)
Definition round (l : ptr) : M unit :=
  let! x := load_loop l in
  modify (set_w_tid (threadId_ x)) ;;!
  if quit_ x then ret tt
  else System.dispatch run_closure l ;;! doPendingFunctions l.
End ops.
End Gone.

(** ** Up to calls to the server, nothing is different *)
Section below.
Context {S : Type}.

(** [m1] reaches the destroyed server, or does what [m2] does. *)
Definition below {A} (m1 m2 : M S A) : Prop := ∀ s, m1 s = Fault DeadServer ∨ m1 s = m2 s.

Lemma below_refl {A} (m : M S A) : below m m.
Proof. intros s. by right. Qed.
Lemma below_dead {A} (m : M S A) : below (throw DeadServer) m.
Proof. intros s. by left. Qed.
Lemma below_bind {A B} (m1 m2 : M S A) (k1 k2 : A → M S B) :
  below m1 m2 → (∀ a, below (k1 a) (k2 a)) → below (bind m1 k1) (bind m2 k2).
Proof.
  intros Hm Hk s. unfold bind. destruct (Hm s) as [->| ->]; [by left|].
  destruct (m2 s) as [[a s']|]; [apply Hk|by right].
Qed.
Lemma below_if {A} (b : bool) (m1 m2 n1 n2 : M S A) :
  below m1 n1 → below m2 n2 → below (if b then m1 else m2) (if b then n1 else n2).
Proof. by destruct b. Qed.
Lemma below_when (b : bool) m1 m2 : below m1 m2 → below (when b m1) (when b m2).
Proof. intros ?. by apply below_if, below_refl. Qed.
Lemma below_mapM {A} (f g : A → M S unit) l :
  (∀ x, below (f x) (g x)) → below (mapM_ f l) (mapM_ g l).
Proof. intros Hf. induction l as [|x l IH]; [apply below_refl|]. by apply below_bind. Qed.

(** A run that does not reach the server is safe if the other one is. *)
Lemma below_wp {A} (ok : fault → Prop) (m1 m2 : M S A) s Q :
  below m1 m2 → wp ok m2 s Q → wp (λ f, ok f ∨ f = DeadServer) m1 s Q.
Proof.
  intros Hm Hw. unfold wp in *. destruct (Hm s) as [->| ->]; [by right|].
  destruct (m2 s) as [[a s']|]; auto.
Qed.
End below.

Ltac below :=
  repeat first
    [ apply below_refl | apply below_dead | solve [eauto 3]
    | apply below_bind; [|intros ?] | apply below_when | apply below_mapM; intros ?
    | apply below_if
    | match goal with |- below (match ?x with _ => _ end) (match ?x with _ => _ end) => destruct x end ].

Section server.
Context {K : Type} `{Kernel K} `{InetLib} `{UserCode K} (members : bool).

Lemma below_closeCallback p : below (Gone.closeCallback (K := K) members p) (System.closeCallback p).
Proof.
  unfold Gone.closeCallback, System.closeCallback, TcpServer.removeConnection, EventLoop.runInLoop.
  destruct members; below.
Qed.
Local Hint Resolve below_closeCallback : core.

Lemma below_handleClose p :
  below (TcpConnection.handleClose (Gone.closeCallback members) p) (TcpConnection.handleClose System.closeCallback p).
Proof. unfold TcpConnection.handleClose, TcpConnection.call_close. below. Qed.
Local Hint Resolve below_handleClose : core.

Lemma below_run_functor f : below (Gone.run_functor members f) (System.run_functor f).
Proof. destruct f; cbn; below. destruct members; below. Qed.

Lemma below_run_closure t c : below (Gone.run_closure members t c) (System.run_closure t c).
Proof.
  destruct c; cbn [Gone.run_closure System.run_closure]; try destruct members;
    unfold Acceptor.handleRead, TcpConnection.handleRead; below.
Qed.
Local Hint Resolve below_run_functor below_run_closure : core.

Lemma below_call (f g : closure → M (World K) unit) o :
  (∀ c, below (f c) (g c)) → below (Channel.call f o) (Channel.call g o).
Proof. intros Hf. unfold Channel.call. below. Qed.

Lemma below_handleEvent (f g : closure → M (World K) unit) cp :
  (∀ c, below (f c) (g c)) → below (Channel.handleEvent f cp) (Channel.handleEvent g cp).
Proof.
  intros Hf. pose proof (λ o, below_call f g o Hf). unfold Channel.handleEvent, Channel.handleEventWithGuard. below.
Qed.
Local Hint Resolve below_handleEvent : core.

Lemma below_dispatch l : below (System.dispatch (Gone.run_closure members) l) (System.dispatch System.run_closure l).
Proof. unfold System.dispatch. below. Qed.

Lemma below_doPending l : below (Gone.doPendingFunctions members l) (System.doPendingFunctions l).
Proof. unfold Gone.doPendingFunctions, System.doPendingFunctions, EventLoop.doPendingFunctions. below. Qed.

(** Queued calls that use the server's own members. *)
Definition for_server (f : Functor) : bool :=
  match f with FRemoveConnectionInLoop _ => true | FListen => negb members | _ => false end.

(** A round of calls none of which does. *)
Lemma doPending_without_server l x w :
  w_loops w !! l = Some x → Forall (λ f, for_server f = false) (pengdingFuntors_ x) →
  Gone.doPendingFunctions members l w = System.doPendingFunctions l w.
Proof.
  intros Hx Hf. unfold Gone.doPendingFunctions, System.doPendingFunctions, EventLoop.doPendingFunctions.
  rewrite !(bind_Ok _ _ _ _ _ (modify_loop_ok _ _ _ _ Hx)). set (w1 := set_w_loops _ w).
  assert (Hx1 : w_loops w1 !! l = Some (set_callingPendingFuntors_ true x)) by apply lookup_insert_eq.
  rewrite !(bind_Ok _ _ _ _ _ (load_loop_ok _ _ _ Hx1)), !(bind_Ok _ _ _ _ _ (store_loop_ok _ _ _)).
  cbn [EventLoop.swap_functors fst snd]. change (pengdingFuntors_ (set_callingPendingFuntors_ true x)) with (pengdingFuntors_ x).
  set (w2 := set_w_loops _ w1). assert (E : ∀ w, mapM_ (Gone.run_functor members) (pengdingFuntors_ x) w =
    mapM_ System.run_functor (pengdingFuntors_ x) w); [|unfold bind; by rewrite E].
  clear -Hf. induction Hf as [|f fs Hf _ IH]; intros w; cbn [mapM_]; [done|]. unfold bind.
  assert (Gone.run_functor members f w = System.run_functor f w) as ->
    by (destruct f; try done; cbn in Hf; by destruct members).
  destruct (System.run_functor f w) as [[[] w1]|]; [apply IH|done].
Qed.
End server.

(** ** Without the server the map stays as it is *)
Section same_map.
Context {K : Type}.
Implicit Types w : World K.

Definition same_map w w' : Prop := connections_ (w_server w') = connections_ (w_server w).
#[export] Instance same_map_preorder : PreOrder same_map.
Proof. split; [done|]. unfold same_map. intros ???. congruence. Qed.

(** Programs that leave the map alone. *)
Definition keeps {A} (m : M (World K) A) : Prop := along same_map m.

Lemma keeps_modify f : (∀ w, same_map w (f w)) → keeps (modify f).
Proof. apply along_modify. Qed.
Lemma keeps_reads {A} (m : M (World K) A) : (∀ w a w', m w = Ok (a, w') → w' = w) → keeps m.
Proof. intros Hm w a w' ->%Hm. done. Qed.
Lemma keeps_mapM {A} (f : A → M (World K) unit) l : (∀ x, keeps (f x)) → keeps (mapM_ f l).
Proof.
  intros Hf. unfold keeps. induction l as [|x l IH]; cbn [mapM_]; [apply along_ret, _|].
  apply along_bind; [apply _|apply Hf|done].
Qed.
Lemma keeps_log name : keeps (log name).
Proof. apply keeps_reads. intros w [] w'. unfold log. case_decide; [by intros [= <-]|done]. Qed.
Lemma keeps_load_loop l : keeps (load_loop l).
Proof. apply keeps_reads. intros w x w'. unfold load_loop. case_match; [by intros [= _ <-]|done]. Qed.
Lemma keeps_load_conn p : keeps (load_conn p).
Proof. apply keeps_reads. intros w x w'. unfold load_conn. case_match; [by intros [= _ <-]|done]. Qed.
Lemma keeps_load_str p : keeps (TcpConnection.load_str p).
Proof. apply keeps_reads. intros w x w'. unfold TcpConnection.load_str. case_match; [by intros [= _ <-]|done]. Qed.
Lemma keeps_syscall : keeps syscall.
Proof. by intros w a w' [= _ <-]. Qed.
End same_map.

(** What single operations do to the map. *)
Create HintDb keeps discriminated.
#[local] Hint Resolve keeps_log keeps_load_loop keeps_load_conn keeps_load_str keeps_syscall : keeps.
#[local] Hint Extern 1 (keeps (modify _)) => by apply keeps_modify : keeps.
#[local] Hint Extern 1 (keeps (store_conn _ _)) => by apply keeps_modify : keeps.
#[local] Hint Extern 1 (keeps (store_loop _ _)) => by apply keeps_modify : keeps.
#[local] Hint Extern 1 (keeps (emit _)) => by apply keeps_modify : keeps.

(** Goes through a program statement by statement. *)
Local Ltac keeps :=
  repeat match goal with
    | |- keeps (bind _ _) => apply along_bind; [apply _| |intros ?]
    | |- along same_map ?m => change (keeps m)
    | |- keeps (ret _) => by apply along_ret, _
    | |- keeps (throw _) => by apply along_throw
    | |- keeps (gets _) => by apply along_gets, _
    | |- keeps (lift _) => by apply along_lift, _
    | |- keeps (when _ _) => apply along_when; [apply _|]
    | |- keeps (mapM_ _ _) => apply keeps_mapM; intros ?
    | |- keeps (if ?b then _ else _) => destruct b
    | |- keeps (match ?x with _ => _ end) => destruct x
    | |- keeps _ => solve [eauto with keeps]
    end.

Section kept.
Context {K : Type} `{Kernel K} `{InetLib} `{UserCode K}.
Implicit Types w : World K.

(** Callbacks that do not touch the server's map. *)
Class KeepsMap : Prop := {
  km_connection cb p : keeps (onConnection cb p);
  km_message cb p t : keeps (onMessage cb p t);
  km_write_complete cb p : keeps (onWriteComplete cb p);
  km_high_water cb p n : keeps (onHighWaterMark cb p n);
  km_user cb : keeps (onUser cb) }.

Lemma keeps_modify_loop l f : keeps (modify_loop (K := K) l f).
Proof. unfold modify_loop. keeps. Qed.
Lemma keeps_modify_conn p f : keeps (modify_conn (K := K) p f).
Proof. unfold modify_conn. keeps. Qed.
Local Hint Resolve keeps_modify_loop keeps_modify_conn : keeps.
Lemma keeps_modify_channel cp f : keeps (modify_channel (K := K) cp f).
Proof. destruct cp; cbn [modify_channel]; unfold modify_server; keeps. Qed.
Lemma keeps_load_channel cp : keeps (load_channel (K := K) cp).
Proof. destruct cp; cbn [load_channel]; keeps. Qed.
Local Hint Resolve keeps_modify_channel keeps_load_channel : keeps.
Lemma keeps_with_poller l cp f : keeps (EventLoop.with_poller (K := K) l cp f).
Proof. unfold EventLoop.with_poller. keeps. Qed.
Local Hint Resolve keeps_with_poller : keeps.
Lemma keeps_change_events f cp : keeps (Channel.change_events (K := K) f cp).
Proof. unfold Channel.change_events, Channel.update, EventLoop.updateChannel. keeps. Qed.
Lemma keeps_remove cp : keeps (Channel.remove (K := K) cp).
Proof. unfold Channel.remove, EventLoop.removeChannel. keeps. Qed.
Lemma keeps_wakeup l : keeps (EventLoop.wakeup (K := K) l).
Proof. unfold EventLoop.wakeup. keeps. Qed.
Local Hint Resolve keeps_change_events keeps_remove keeps_wakeup : keeps.
Lemma keeps_queue l f : keeps (EventLoop.queueInLoop (K := K) l f).
Proof. unfold EventLoop.queueInLoop. keeps. Qed.
Lemma keeps_poll l : keeps (EventLoop.poll (K := K) l).
Proof. unfold EventLoop.poll, EventLoop.epoll_wait, EventLoop.now, EventLoop.fillActiveChannels. keeps. Qed.
Lemma keeps_release p : keeps (Lifetime.release (K := K) p).
Proof. unfold Lifetime.release, Lifetime.destroy, Socket.dtor. keeps. Qed.
Local Hint Resolve keeps_queue keeps_poll keeps_release : keeps.

Lemma keeps_sys_write fd d : keeps (sys_write (K := K) fd d).
Proof. unfold sys_write. keeps. Qed.
Local Hint Resolve keeps_sys_write : keeps.
Lemma keeps_queue_write_complete p c : keeps (TcpConnection.queue_write_complete (K := K) p c).
Proof. unfold TcpConnection.queue_write_complete. keeps. Qed.
Local Hint Resolve keeps_queue_write_complete : keeps.
Lemma keeps_sendInLoop p d : keeps (TcpConnection.sendInLoop (K := K) p d).
Proof.
  unfold TcpConnection.sendInLoop, TcpConnection.try_write, TcpConnection.buffer_rest,
    Channel.enableWriting. keeps.
Qed.
Local Hint Resolve keeps_sendInLoop : keeps.
Lemma keeps_send p buf : keeps (TcpConnection.send (K := K) p buf).
Proof. unfold TcpConnection.send. keeps. Qed.
Lemma keeps_shutdownInLoop p : keeps (TcpConnection.shutdownInLoop (K := K) p).
Proof. unfold TcpConnection.shutdownInLoop, TcpConnection.shutdownWrite. keeps. Qed.
Local Hint Resolve keeps_shutdownInLoop : keeps.
Lemma keeps_handleWrite p : keeps (TcpConnection.handleWrite (K := K) p).
Proof.
  unfold TcpConnection.handleWrite, Channel.disableWriting.
  apply along_bind; [apply _|apply keeps_load_conn|intros c]. destruct (Channel.isWriting _); [|apply keeps_log].
  intros w a w' (m & w1 & E & Em)%bind_inv. unfold lift in E. destruct (Buffer.writeFd _ _) as [m'|] eqn:Hm; [|done].
  injection E as <- <-. revert Em. apply along_bind; [apply _| |intros r; keeps].
  unfold Buffer.writeFd in Hm. destruct (Buffer.peek _ _); [injection Hm as <-; apply keeps_sys_write|done].
Qed.
Lemma keeps_handleError p : keeps (TcpConnection.handleError (K := K) p).
Proof. unfold TcpConnection.handleError. keeps. Qed.
Local Hint Resolve keeps_handleWrite keeps_handleError : keeps.

Context {App : KeepsMap}.
Local Hint Resolve km_connection km_message km_write_complete km_high_water km_user : keeps.

Lemma keeps_call_connection p : keeps (TcpConnection.call_connection p).
Proof. unfold TcpConnection.call_connection. keeps. Qed.
Lemma keeps_call_message p t : keeps (TcpConnection.call_message p t).
Proof. unfold TcpConnection.call_message. keeps. Qed.
Local Hint Resolve keeps_call_connection keeps_call_message : keeps.

Lemma keeps_run_functor members f : keeps (Gone.run_functor members f).
Proof.
  destruct f; cbn [Gone.run_functor System.run_functor];
    unfold TcpConnection.run_sendInLoop, TcpConnection.sendFileInLoop, sys_sendfile,
      TcpConnection.connectEstablished, Channel.tie, Channel.enableReading, TcpConnection.connectDestroyed,
      Channel.disbaleAll, Acceptor.listen, Acceptor.modify_acceptor, modify_server, Socket.Listen; keeps.
Qed.

Lemma keeps_handleClose members p : keeps (TcpConnection.handleClose (Gone.closeCallback members) p).
Proof.
  unfold TcpConnection.handleClose, TcpConnection.call_close, Channel.disbaleAll, Gone.closeCallback,
    EventLoop.runInLoop. keeps.
Qed.
Local Hint Resolve keeps_run_functor keeps_handleClose : keeps.

Lemma keeps_run_closure members t c : keeps (Gone.run_closure members t c).
Proof.
  destruct c; cbn [Gone.run_closure System.run_closure];
    unfold EventLoop.handleRead, Acceptor.handleRead, Socket.Accept, TcpConnection.handleRead; keeps.
Qed.
Local Hint Resolve keeps_run_closure : keeps.

Lemma keeps_round members l : keeps (Gone.round members l).
Proof.
  unfold Gone.round, System.dispatch, Gone.doPendingFunctions, EventLoop.doPendingFunctions,
    Lifetime.drop_functors, Channel.handleEvent, Channel.handleEventWithGuard, Channel.call. keeps.
Qed.
End kept.

#[export] Instance echo_keeps_map {K} `{Kernel K} `{InetLib} : KeepsMap (H1 := EchoServer.user (K := K)).
Proof.
  split; intros; cbn; try (destruct (_ =? _)); try by apply along_ret, _.
  - unfold EchoServer.onConnection. keeps.
  - unfold EchoServer.onMessage, with_string. keeps. apply keeps_send.
Qed.

(** ** The rounds, and the acceptor's end *)
Section rounds.
Context {K : Type} `{KernelOk K} `{InetLibOk} `{UserCode K} (F : fixed) (HF : fixed_ok F).
Implicit Types w : World K.
Local Abbreviation inv := (inv F idle []).
Local Abbreviation safe := (safe F idle []).

(** The two faults that an end of the server adds to the known ones: none but a
    call to it. *)
Definition known (f : fault) : Prop := benign F f ∨ f = DeadServer.

Lemma inv_tid t w : inv w → inv (set_w_tid t w).
Proof. intros Hi. by destruct Hi; split. Qed.

Lemma wp_gone_round {App : SafeApp F} members l w :
  inv w → is_loop F l → wp known (Gone.round members l) w (λ _ w', inv w').
Proof.
  intros Hi Hl. destruct (inv_loop F idle [] _ _ Hi Hl) as (x & Hx & (P & _ & Hfl) & _).
  unfold Gone.round. eapply wp_step; [by apply load_loop_ok|]. eapply wp_step; [apply modify_ok|].
  set (w0 := set_w_tid _ w). assert (Hi0 : inv w0) by by apply inv_tid.
  destruct (quit_ x); [by eapply wp_Ok|].
  apply below_wp with (m2 := System.iteration l); [|by apply (wp_iteration F HF l (epollfd_ P) w0)].
  apply below_bind; [apply below_dispatch|intros _; apply below_doPending].
Qed.

Lemma wp_gone_rounds {App : SafeApp F} members ls w :
  inv w → Forall (is_loop F) ls → wp known (mapM_ (Gone.round members) ls) w (λ _ w', inv w').
Proof.
  intros Hi Hls. revert w Hi. induction Hls as [|l ls Hl _ IH]; intros w Hi; cbn [mapM_]; [by eapply wp_Ok|].
  apply wp_bind. eapply wp_mono; [by apply wp_gone_round|]. intros [] w1 Hi1. by apply IH.
Qed.

(** What [poller_->removeChannel] does with the acceptor's channel. *)
Lemma safe_accept_remove w : inv w → safe (Channel.remove ChAccept) w.
Proof.
  intros Hi. unfold Channel.remove. set (ch := acceptChannel_ (acceptor_ (w_server w))).
  eapply safe_read; [by apply (load_channel_ok ChAccept ch)|].
  destruct (i_server _ _ _ _ Hi) as (_ & Hl & _). change (is_loop F (ch_loop_ ch)) in Hl.
  destruct (inv_loop F idle [] _ _ Hi Hl) as (x & Hx & Hok). pose proof Hok as [(P & HP & Hfl) Hcb].
  unfold EventLoop.removeChannel, EventLoop.with_poller.
  eapply safe_read; [by apply load_loop_ok|]. rewrite HP.
  eapply safe_read; [by apply log_ok, (inv_log F HF idle [])|].
  eapply safe_read; [by apply (load_channel_ok ChAccept ch)|]. eapply safe_read; [apply gets_ok|].
  destruct (EpollPoller.removeChannel ChAccept ch P (w_kernel w)) as [[ch' P'] k'] eqn:E.
  injection E as Hch HP' Hk.
  eapply safe_step; [by apply modify_loop_ok|apply (view_loop F _ x); [done|]|done|].
  { split; [|done]. intros l0 [(P0 & HP0 & Hfl0) ?]. split; [|done]. exists P'. cbn.
    assert (P0 = P) as -> by congruence. by rewrite <- HP'. }
  intros Hi2 Hg2. set (w2 := set_w_loops _ w) in *.
  eapply safe_step; [by apply (modify_channel_ok ChAccept _ ch)| |done|].
  { cbn [put_chan]. apply view_server. rewrite <- Hch. by split_and!. }
  intros Hi3 Hg3. eapply wp_Ok; [apply modify_ok|]. apply accept_watch_good; [done|].
  intros ep fd ev q Hq. left. rewrite <- Hk in Hq. destruct (index_ ch =? ADDED); [|done].
  apply ctl_entries in Hq as [?|(_ & _ & _ & Hne)]; [done|by destruct Hne].
Qed.

Lemma safe_acceptor_dtor w : inv w → safe Acceptor.dtor w.
Proof.
  intros Hi. unfold Acceptor.dtor. apply safe_bind; [by apply safe_listen_events|]. intros w1 Hi1 Hg1.
  apply safe_bind; [by apply safe_accept_remove|]. intros w2 Hi2 Hg2.
  eapply safe_read; [apply gets_ok|]. by apply safe_emit.
Qed.

(** [loop_->quit()] of the destructor of an [EventLoopThread]. *)
Lemma safe_wakeup l w : inv w → is_loop F l → safe (EventLoop.wakeup l) w.
Proof.
  intros Hi Hl. destruct (inv_loop F idle [] _ _ Hi Hl) as (x & Hx & _).
  unfold EventLoop.wakeup. eapply safe_read; [by apply load_loop_ok|]. eapply safe_read; [apply gets_ok|].
  eapply safe_step; [apply modify_ok|apply view_irrelevant; try done|done|].
  - intros ep fd. wcbn. apply evw_interest.
  - intros Hi1 Hg1. apply safe_when; [intros _|done]. by apply safe_log.
Qed.

Lemma safe_quit l w : inv w → is_loop F l → safe (EventLoop.quit l) w.
Proof.
  intros Hi Hl. destruct (inv_loop F idle [] _ _ Hi Hl) as (x & Hx & _). unfold EventLoop.quit.
  eapply safe_step; [by apply modify_loop_ok|by apply (view_loop F l x)|done|]. intros Hi1 Hg1.
  eapply safe_read; [apply load_loop_ok, lookup_insert_eq|]. eapply safe_read; [apply gets_ok|].
  apply safe_when; [intros _|done]. by apply safe_wakeup.
Qed.

Lemma keeps_quit l : keeps (EventLoop.quit (K := K) l).
Proof. unfold EventLoop.quit. keeps; [apply keeps_modify_loop|apply keeps_wakeup]. Qed.

Lemma keeps_acceptor_dtor : keeps (Acceptor.dtor (K := K)).
Proof. unfold Acceptor.dtor, Channel.disbaleAll, Socket.dtor. keeps; [apply keeps_change_events|apply keeps_remove]. Qed.
End rounds.
