(* ===== verification/Shutdown.v ===== *)
(** * The end of the server (src/TcpServer.cpp, [~TcpServer])

    The destructor hands every connection to its loop to be destroyed; then the
    members go, the last one, [connections_], first.  The loops run on meanwhile
    and afterwards, as [Gone.v] says: a use of what is destroyed is a fault. *)

From stdpp Require Import base tactics numbers list gmap strings.
From Stdlib Require Import ZArith Lia.
From S2P Require Import Prelude NetBuffer Kernel World Poller Demo Loop Channels Connection.
From S2P Require Import ConnFacts Inet LoopPool Server ServerFacts System Safety SafeTasks Handlers.
From S2P Require Import Lifecycle SafeRun Startup Gone.

Local Open Scope string_scope.
Local Open Scope list_scope.
Local Open Scope Z_scope.
Local Open Scope prog_scope.

Section shutdown.
Context {K : Type} `{KernelOk K} `{InetLibOk} `{UserCode K} (F : fixed) (HF : fixed_ok F).
Implicit Types w v : World K.
Local Abbreviation inv := (inv F idle []).

(** The world with another map in the server. *)
Definition with_map (m : gmap string ptr) w : World K :=
  set_w_server (set_connections_ m (w_server w)) w.

(** [~EventLoopThread] of each thread of the pool, on thread [t]: it tells the
    loop to quit, and waits for the thread while the loops go on ([during]).
    A loop that was told takes no further round. *)
Definition pool_dtor (t : Z) (during : ptr → list ptr) : M (World K) unit :=
  let! s := gets w_server in
  mapM_ (λ l,
    modify (set_w_tid t) ;;!
    EventLoop.quit l ;;!
    mapM_ (Gone.round true) (during l)) (loops_ (threadPool_ s)).

(** The members' destructors, on thread [t], the last member's first, and what
    the loops do meanwhile and afterwards. The null pointers in the map release
    nothing. *)
Definition members_dtor (t : Z) (before : list ptr) (during : ptr → list ptr) (after : list ptr)
    : M (World K) unit :=
  modify (with_map ∅) ;;!
  mapM_ (Gone.round true) before ;;!
  pool_dtor t during ;;!
  modify (set_w_tid t) ;;!
  Acceptor.dtor ;;!
  mapM_ (Gone.round false) after.

(** The body of the destructor's loop, as [TcpServer.dtor] has it. *)
Definition dtor_item (item : string * ptr) : M (World K) unit :=
  let! c := load_conn item.2 in
  modify_server (λ s, set_connections_ (<[item.1 := 0]> (connections_ s)) s) ;;!
  EventLoop.runInLoop (conn_loop_ c) (FConnectDestroyed item.2)
    (TcpConnection.connectDestroyed item.2) ;;!
  Lifetime.release item.2.

Lemma dtor_items items : TcpServer.dtor items = mapM_ dtor_item items.
Proof. done. Qed.

(** No connection is on a loop of the thread that runs the destructor. *)
Definition elsewhere w : Prop :=
  ∀ p c x, w_conns w !! p = Some c → w_loops w !! conn_loop_ c = Some x → threadId_ x ≠ w_tid w.

(** The world after the call for [p] is queued on its loop. *)
Definition queued (p l : ptr) (x : EventLoop) w : World K :=
  set_w_kernel (queue_kernel x w)
    (set_w_loops (<[l := EventLoop.push_functor (FConnectDestroyed p) x]> (w_loops w)) w).

Lemma dtor_item_ok m v n p c x :
  inv v → elsewhere v → w_conns v !! p = Some c → w_loops v !! conn_loop_ c = Some x →
  dtor_item (n, p) (with_map m v) = Ok (tt, with_map (<[n := 0]> m) (queued p (conn_loop_ c) x v)).
Proof.
  intros Hi He Hc Hx. unfold dtor_item. cbn [fst snd].
  rewrite (bind_Ok _ _ _ _ _ (load_conn_ok p c (with_map m v) Hc)).
  rewrite (bind_Ok _ _ (with_map m v) tt (with_map (<[n := 0]> m) v)) by done.
  unfold EventLoop.runInLoop. set (w1 := with_map _ v).
  rewrite bind_assoc, (bind_Ok _ _ _ _ _ (load_loop_ok (conn_loop_ c) x w1 Hx)).
  rewrite bind_assoc, (bind_Ok _ _ _ _ _ (gets_ok _ w1)).
  unfold EventLoop.isInLoopThread. rewrite (proj2 (Z.eqb_neq _ _)) by exact (He _ _ _ Hc Hx).
  assert (Hlog : "asynclogger" ∈ w_loggers w1).
  { exact (inv_log F HF idle [] v Hi). }
  rewrite (bind_Ok _ _ _ _ _ (queueInLoop_ok _ (FConnectDestroyed p) x w1 Hx Hlog)).
  unfold Lifetime.release. rewrite (bind_Ok _ _ _ _ _ (gets_ok _ _)).
  set (w2 := set_w_kernel _ _).
  assert (Hh : Lifetime.held p w2 = true).
  { apply held_spec. right. exists (conn_loop_ c). unfold queue, w2. wcbn. rewrite lookup_insert_eq.
    cbn. rewrite omap_app. cbn. set_solver. }
  by rewrite Hh.
Qed.

(** What is queued for loop [l] by the items so far. *)
Definition handed w (l : ptr) (ps : list ptr) : list Functor :=
  FConnectDestroyed <$> filter (λ p, conn_loop_ <$> w_conns w !! p = Some l) ps.

Lemma item_good v n p c x (v' := with_map (delete n (connections_ (w_server v))) (queued p (conn_loop_ c) x v)) :
  inv v → elsewhere v → w_conns v !! p = Some c → name_ c = n → w_loops v !! conn_loop_ c = Some x →
  inv v' ∧ elsewhere v' ∧ ∀ l, queue v' l = queue v l ++ handed v l [p].
Proof.
  intros Hi He Hc Hn Hx.
  assert (Hf : fit idle v (conn_loop_ c) (FConnectDestroyed p)) by by eapply fit_conn.
  destruct (push_good F idle [] v _ x _ Hi Hx Hf) as [Hi2 _]. set (v2 := set_w_loops _ v) in *.
  assert (Hq : FConnectDestroyed p ∈ queue v2 (conn_loop_ c)).
  { unfold queue. subst v2. wcbn. rewrite lookup_insert_eq. cbn. set_solver. }
  destruct (forget_good F idle [] v2 p c _ Hi2 Hc Hq) as [Hi3 _]. split_and!.
  - eapply inv_view; [|exact Hi3]. subst n. apply view_irrelevant; try done.
    intros ep fd. subst v'. unfold queued, with_map. wcbn. unfold queue_kernel.
    destruct (EventLoop.needs_wakeup _ _); [apply evw_interest|done].
  - intros q d y Hd Hy. revert Hy. subst v'. unfold queued, with_map. wcbn. rewrite lookup_insert. case_decide as E.
    + intros [= <-]. exact (He p c x Hc Hx).
    + intros Hy. exact (He q d y Hd Hy).
  - intros l. subst v'. unfold queue, handed, queued, with_map. wcbn. rewrite lookup_insert, filter_cons, Hc. cbn.
    case_decide as E; [subst l; rewrite decide_True, Hx by done; done|].
    rewrite decide_False by congruence. by rewrite app_nil_r.
Qed.

Lemma with_map_queued m m' p l x v : with_map m (queued p l x v) = with_map m (with_map m' (queued p l x v)).
Proof. done. Qed.

(** The loop, on a map [m] whose entries for connections still to come are
    those of [v]. *)
Lemma dtor_loop items m v :
  inv v → elsewhere v → NoDup items.*1 →
  (∀ n p, (n, p) ∈ items → connections_ (w_server v) !! n = Some p) →
  ∃ v', mapM_ dtor_item items (with_map m v) =
      Ok (tt, with_map (foldl (λ m n, <[n := 0]> m) m items.*1) v') ∧
    inv v' ∧ w_conns v' = w_conns v ∧
    connections_ (w_server v') = foldl (λ m n, delete n m) (connections_ (w_server v)) items.*1 ∧
    ∀ l, queue v' l = queue v l ++ handed v l items.*2.
Proof.
  revert m v. induction items as [|[n p] items IH]; intros m v Hi He Hnd Hin.
  { exists v. split_and!; try done. intros l. by rewrite app_nil_r. }
  rewrite fmap_cons in Hnd. apply NoDup_cons in Hnd as [Hnot Hnd]. cbn [fst] in Hnot.
  destruct (i_map _ _ _ _ Hi n p) as (c & Hc & Hn); [apply Hin; by left|].
  destruct (i_conn _ _ _ _ Hi _ _ Hc) as (_ & Hl & _).
  destruct (i_dom _ _ _ _ Hi _ Hl) as [x Hx].
  destruct (item_good v n p c x Hi He Hc Hn Hx) as (Hi1 & He1 & Hq1).
  set (v1 := with_map (delete n _) _) in *.
  destruct (IH (<[n := 0]> m) v1 Hi1 He1 Hnd) as (v2 & E2 & Hi2 & Hc2 & Hm2 & Hq2).
  { intros n' p' Hin'. subst v1. wcbn. cbn. rewrite lookup_delete_ne.
    - apply Hin. by right.
    - intros <-. apply Hnot. apply list_elem_of_fmap. by exists (n, p'). }
  exists v2. split_and!; [|done|done|done|].
  - cbn [mapM_]. rewrite (bind_Ok _ _ _ _ _ (dtor_item_ok m v n p c x Hi He Hc Hx)).
    rewrite (with_map_queued _ (delete n (connections_ (w_server v)))). exact E2.
  - intros l. rewrite Hq2, Hq1. unfold handed. change (w_conns v1) with (w_conns v).
    rewrite <- app_assoc, <- fmap_app, <- filter_app. done.
Qed.

Lemma zeroed ns (m : gmap string ptr) n p :
  foldl (λ m n, <[n := 0]> m) m ns !! n = Some p → p = 0 ∨ ((n ∉ ns) ∧ m !! n = Some p).
Proof.
  revert m. induction ns as [|n' ns IH]; intros m; cbn.
  { intros E. right. split; [apply not_elem_of_nil|done]. }
  intros [?|[Hn E]]%IH; [by left|]. rewrite lookup_insert in E. case_decide; [left; congruence|].
  right. split; [|done]. rewrite not_elem_of_cons. by split; [congruence|].
Qed.

Lemma cleared ns (m : gmap string ptr) n p :
  foldl (λ m n, delete n m) m ns !! n = Some p → (n ∉ ns) ∧ m !! n = Some p.
Proof.
  revert m. induction ns as [|n' ns IH]; intros m; cbn.
  { intros E. split; [apply not_elem_of_nil|done]. }
  intros [Hn E]%IH. apply lookup_delete_Some in E as [Hne E].
  split; [|done]. rewrite not_elem_of_cons. by split; [congruence|].
Qed.

Lemma with_map_self v : with_map (connections_ (w_server v)) v = v.
Proof. by destruct v as [? ? ? ? [] ? ? ? ? ? ?]. Qed.

(** A safe operation has no new faults. *)
Lemma safe_known (m : M (World K) unit) w :
  safe F idle [] m w → wp (known F) m w (λ _ w', inv w').
Proof.
  unfold safe, wp. destruct (m w) as [[[] w']|f]; [by intros [? _]|by left].
Qed.

Lemma wp_pool_dtor {App : SafeApp F} t during w :
  inv w → (∀ l, Forall (is_loop F) (during l)) → wp (known F) (pool_dtor t during) w (λ _ w', inv w').
Proof.
  intros Hi Hd. unfold pool_dtor. eapply wp_step; [apply gets_ok|].
  assert (Hls : Forall (is_loop F) (loops_ (threadPool_ (w_server w)))).
  { destruct (i_server _ _ _ _ Hi) as (_ & _ & _ & _ & Hall & _). apply Forall_forall. intros l Hl. apply Hall.
    unfold EventLoopThreadPool.getAllLoops. destruct (loops_ _); [by apply not_elem_of_nil in Hl|done]. }
  revert w Hi Hls. intros w. generalize (loops_ (threadPool_ (w_server w))). intros ls Hi Hls. revert w Hi.
  induction Hls as [|l ls Hl _ IH]; intros w Hi; cbn [mapM_]; [by eapply wp_Ok|].
  apply wp_bind. eapply wp_step; [apply modify_ok|]. apply wp_bind.
  eapply wp_mono; [apply safe_known, (safe_quit F HF); [by apply inv_tid|done]|]. intros [] w1 Hi1.
  eapply wp_mono; [by apply wp_gone_rounds|]. intros [] w2 Hi2. by apply IH.
Qed.

Lemma wp_members_dtor {App : SafeApp F} t before during after w :
  inv (with_map ∅ w) → Forall (is_loop F) before → (∀ l, Forall (is_loop F) (during l)) →
  Forall (is_loop F) after →
  wp (known F) (members_dtor t before during after) w (λ _ w', inv w').
Proof.
  intros Hi Hb Hd Ha. unfold members_dtor. eapply wp_step; [apply modify_ok|].
  apply wp_bind. eapply wp_mono; [by apply wp_gone_rounds|]. intros [] w1 Hi1.
  apply wp_bind. eapply wp_mono; [by apply wp_pool_dtor|]. intros [] w2 Hi2.
  eapply wp_step; [apply modify_ok|]. apply wp_bind.
  eapply wp_mono; [apply safe_known, (safe_acceptor_dtor F HF); by apply inv_tid|]. intros [] w3 Hi3.
  by apply wp_gone_rounds.
Qed.

Lemma keeps_pool_dtor {Keep : KeepsMap} t during : keeps (pool_dtor t during).
Proof.
  apply along_bind; [apply _|by apply along_gets, _|]. intros s. apply keeps_mapM. intros l.
  apply along_bind; [apply _|by apply keeps_modify|]. intros _.
  apply along_bind; [apply _|apply keeps_quit|]. intros _. apply keeps_mapM. intros l'. apply keeps_round.
Qed.

Lemma members_dtor_map {Keep : KeepsMap} t before during after w w' :
  members_dtor t before during after w = Ok (tt, w') → connections_ (w_server w') = ∅.
Proof.
  unfold members_dtor. rewrite (bind_Ok _ _ _ _ _ (modify_ok _ _)).
  intros ([] & w1 & E1 & ([] & w2 & E2 & E)%bind_inv)%bind_inv. rewrite (bind_Ok _ _ _ _ _ (modify_ok _ _)) in E.
  apply bind_inv in E as ([] & w3 & E3 & E4).
  apply keeps_mapM in E1; [|intros; apply keeps_round]. apply keeps_pool_dtor in E2. apply keeps_acceptor_dtor in E3.
  apply keeps_mapM in E4; [|intros; apply keeps_round]. unfold same_map in *. rewrite E4, E3. exact (eq_trans E2 E1).
Qed.

(** Nothing queued and nothing in the map: no connection. *)
Lemma unheld_empty w :
  all_live w → connections_ (w_server w) = ∅ → (∀ l, queue w l = []) → w_conns w = ∅.
Proof.
  intros Hl Hm Hq. apply map_eq. intros p. rewrite lookup_empty. destruct (w_conns w !! p) as [c|] eqn:Ec; [|done].
  destruct (al_held _ Hl p) as [[n Hn]|[l Hin]]; [by eexists|by rewrite Hm in Hn|].
  by rewrite Hq in Hin; apply not_elem_of_nil in Hin.
Qed.

(** C8: the destructor of the server, run by a thread that has none of the
    connections' loops, while the other loops may have any calls queued. It
    ends; the map's entries are null; no connection is destroyed yet, but each
    has its [connectDestroyed] queued, once, behind what its loop had queued,
    and nowhere else. Then the members are destroyed: the map, the pool, which
    tells its loops to quit, and the acceptor, while the loops go on with any
    rounds, in between and afterwards. These rounds have no
    faults but the known ones and a call to the destroyed server; if they end,
    the program points to nothing that is dead, the map has stayed empty, and
    each connection that is still there is held by a queued call, so that none
    is left once the queues are empty. A round of queued calls none of which is
    the server's is as it was with the server alive. But a peer that closes its
    connection too late makes the connection call the destroyed server. *)
Theorem server_destructor_hands_over {App : SafeApp F} {Keep : KeepsMap} items w :
  inv w → elsewhere w → items ≡ₚ map_to_list (connections_ (w_server w)) →
  ∃ w1, TcpServer.dtor items w = Ok (tt, w1) ∧
    (∀ n p, connections_ (w_server w1) !! n = Some p → p = 0) ∧ w_conns w1 = w_conns w ∧
    (∀ l, queue w1 l = queue w l ++ handed w l items.*2) ∧
    (∀ t before during after, Forall (is_loop F) before → (∀ l, Forall (is_loop F) (during l)) →
       Forall (is_loop F) after →
      match members_dtor t before during after w1 with
      | Ok (_, w') => all_live w' ∧ connections_ (w_server w') = ∅ ∧
          ((∀ l, queue w' l = []) → w_conns w' = ∅)
      | Fault f => benign F f ∨ f = DeadServer
      end) ∧
    (∀ members l w', Forall (λ f, for_server members f = false) (queue w' l) →
      Gone.doPendingFunctions members l w' = System.doPendingFunctions l w') ∧
    (∀ w' p c x, conn_env w' p c x → connection_harmless p c → conn_closeCallback_ c = true →
      TcpConnection.handleClose (Gone.closeCallback false) p w' = Fault DeadServer).
Proof.
  intros Hi He Hp. set (m := connections_ (w_server w)) in *.
  assert (Hin : ∀ n p, (n, p) ∈ items ↔ m !! n = Some p)
    by (intros n p; rewrite Hp; apply elem_of_map_to_list).
  assert (Hnd : NoDup items.*1) by (rewrite Hp; apply NoDup_fst_map_to_list).
  assert (Hall : ∀ n p, m !! n = Some p → n ∈ items.*1)
    by (intros n p Hn; apply list_elem_of_fmap; exists (n, p); by rewrite Hin).
  destruct (dtor_loop items m w Hi He Hnd) as (v & E & Hv & Hc & Hm & Hq); [intros n p; apply Hin|].
  assert (Hempty : connections_ (w_server v) = ∅).
  { rewrite Hm. apply map_eq. intros n. rewrite lookup_empty. destruct (_ !! n) as [p|] eqn:En; [|done].
    apply cleared in En as [Hno En]. destruct Hno. by eapply Hall. }
  set (w1 := with_map (foldl (λ m n, <[n := 0]> m) m items.*1) v) in *. exists w1. split_and!.
  - rewrite dtor_items. subst m. by rewrite with_map_self in E.
  - intros n p [?|[Hno En]]%zeroed; [done|]. destruct Hno. by eapply Hall.
  - exact Hc.
  - exact Hq.
  - intros t before during after Hr1 Hr2 Hr3. assert (Ev : with_map ∅ w1 = v) by (rewrite <- Hempty; exact (with_map_self v)).
    pose proof (wp_members_dtor t before during after w1 ltac:(by rewrite Ev) Hr1 Hr2 Hr3) as Hw. unfold wp in Hw.
    destruct (members_dtor t before during after w1) as [[[] w']|f] eqn:E'; [|done].
    pose proof (inv_all_live F w' Hw) as Hl. split; [done|]. apply members_dtor_map in E'. split; [done|].
    intros Hq'. by apply (unheld_empty w').
  - intros members l w'. unfold queue. intros Hf. destruct (w_loops w' !! l) as [x|] eqn:Hx.
    + by apply (doPending_without_server members l x).
    + unfold Gone.doPendingFunctions, System.doPendingFunctions, EventLoop.doPendingFunctions, modify_loop, bind,
        load_loop. by rewrite Hx.
  - intros w' p c x Henv Hh Hcb. destruct (ce_poller _ _ _ _ Henv) as [P HP].
    destruct (EpollPoller.updateChannel (ChConn p) (set_events_ 0 (channel_ c)) P (w_kernel w'))
      as [[ch1 P1] k1] eqn:Eu.
    by destruct (handleClose_calls (Gone.closeCallback false) w' p c x P ch1 P1 k1 Henv HP Hh Hcb Eu) as (? & -> & _).
Qed.
End shutdown.

(** ** A concrete shutdown: one connection, on another thread's loop *)
Definition demo_shutdown : World RefKernel.t := set_w_tid 99 demo_run_world.

Lemma demo_shutdown_inv : inv demo_fixed idle [] demo_shutdown.
Proof. destruct demo_inv. by split. Qed.

Definition demo_end : M (World RefKernel.t) unit :=
  TcpServer.dtor (H1 := EchoServer.user) (map_to_list (connections_ (w_server demo_shutdown))) ;;!
  members_dtor (H1 := HexInet.lib) (H3 := EchoServer.user) 99 [1] (λ _, []) [1].

(** The loop takes its round: the connection goes, and then the acceptor. *)
Lemma demo_end_ok : ∃ w', demo_end demo_shutdown = Ok (tt, w') ∧
  w_trace w' = [EvRead 7 [x68; x69; x0a]; EvMessage 9; EvWrite 7 [x68; x69];
    EvConnection 9 false; EvClose 7; EvClose 5].
Proof.
  assert (Hc : match demo_end demo_shutdown with Ok (_, w') => w_trace w' | Fault _ => [] end =
    [EvRead 7 [x68; x69; x0a]; EvMessage 9; EvWrite 7 [x68; x69];
     EvConnection 9 false; EvClose 7; EvClose 5]) by by vm_compute.
  revert Hc. generalize (demo_end demo_shutdown). intros [[[] w']|f] Hc; [by exists w'|done].
Qed.

Lemma server_destructor_hands_over_witness :
  let items := map_to_list (connections_ (w_server demo_shutdown)) in
  ∃ w1 w', TcpServer.dtor (H1 := EchoServer.user) items demo_shutdown = Ok (tt, w1) ∧
    queue w1 1 = queue demo_shutdown 1 ++ [FConnectDestroyed 9] ∧
    members_dtor (H1 := HexInet.lib) (H3 := EchoServer.user) 99 [1] (λ _, []) [1] w1 = Ok (tt, w') ∧ all_live w'.
Proof.
  intros items.
  destruct (server_destructor_hands_over (H1 := HexInet.lib) (H3 := EchoServer.user) demo_fixed
    demo_fixed_ok (App := echo_safe _ demo_fixed_ok) items demo_shutdown demo_shutdown_inv)
    as (w1 & E & _ & _ & Hq & Hend & _); [|done|].
  - intros p c x _ Hx. apply demo_loop_only in Hx as [_ ->]. by vm_compute.
  - destruct demo_end_ok as (w' & E' & _). unfold demo_end in E'. fold items in E'. rewrite (bind_Ok _ _ _ _ _ E) in E'.
    exists w1, w'. split; [exact E|]. split; [by rewrite (Hq 1)|]. split; [exact E'|].
    assert (Hl : is_loop demo_fixed 1) by by eexists.
    specialize (Hend 99 [1] (λ _, []) [1] (proj2 (Forall_singleton _ _) Hl) (λ _, Forall_nil_2 _)
      (proj2 (Forall_singleton _ _) Hl)).
    rewrite E' in Hend. apply Hend.
Defined.
