(* ===== verification/Message.v ===== *)
(** * Log records (log_system/logs_code/Level.hpp, Message.hpp)

    A [std::string] of the logger is a list of bytes.  The time zone and the
    text of a thread's identifier belong to the platform: the class
    [Platform].  [read_line] is the reader a log line is meant for. *)

From stdpp Require Import base tactics numbers list strings pretty.
From Stdlib Require Import ZArith Lia Ascii.
From S2P Require Import Prelude.

Local Open Scope string_scope.
Local Open Scope list_scope.
Local Open Scope Z_scope.

(** The bytes of a literal, and of [std::to_string] of a [size_t] or an [int]. *)
Definition bytes : string → list byte := String.list_byte_of_string.
Definition to_string (n : Z) : list byte := bytes (pretty n).

(** [struct tm], as far as it is used. *)
Record tm := mkTm {
  tm_sec : Z;
  tm_min : Z;
  tm_hour : Z;
  tm_mday : Z;
  tm_mon : Z;
  tm_year : Z }.

(** [localtime_r], and [operator<<] on a [std::thread::id]. *)
Class Platform := {
  localtime : Z → tm;
  thread_text : Z → list byte }.

(** localtime(3): the ranges of the fields. libstdc++ prints a thread's
    identifier as a number. *)
Class PlatformOk `{Platform} := {
  localtime_clock t : 0 ≤ tm_sec (localtime t) ≤ 60 ∧ 0 ≤ tm_min (localtime t) ≤ 59 ∧
    0 ≤ tm_hour (localtime t) ≤ 23;
  localtime_date t : 1 ≤ tm_mday (localtime t) ≤ 31 ∧ 0 ≤ tm_mon (localtime t) ≤ 11;
  thread_digits tid : ∃ n : N, thread_text tid = bytes (pretty n) }.

Module LogLevel.
Inductive value := DEBUG | INFO | WARN | ERROR | FATAL.

Definition ToString (level : value) : list byte :=
  bytes match level with
        | DEBUG => "DEBUG" | INFO => "INFO" | WARN => "WARN" | ERROR => "ERROR" | FATAL => "FATAL"
        end.
End LogLevel.

Module LogMessage.
Record t := mk {
  line_ : Z;
  ctime_ : Z;
  file_name_ : list byte;
  name_ : list byte;
  payload_ : list byte;
  tid_ : Z;
  level_ : LogLevel.value }.

Section ops.
Context `{Platform}.

(** [now] and [tid] are [Util::Date::Now()] and the caller's identifier. *)
Definition ctor (now tid : Z) (level : LogLevel.value) (file : list byte) (line : Z)
    (name payload : list byte) : t :=
  mk line now file name payload tid level.

(** [strftime(buf, 128, "%H:%M:%S", &t)]. *)
Definition digit (n : Z) : byte := default x00 (Byte.of_N (Z.to_N (48 + n))).
Definition two_digits (n : Z) : list byte := [digit (n / 10); digit (n mod 10)].
Definition clock_text (now : Z) : list byte :=
  let t := localtime now in
  two_digits (tm_hour t) ++ bytes ":" ++ two_digits (tm_min t) ++ bytes ":" ++ two_digits (tm_sec t).

(** Byte 9 is the tab, 10 the newline. *)
Definition format (m : t) : list byte :=
  let tmp1 := bytes "[" ++ clock_text (ctime_ m) ++ bytes "][" in
  let tmp2 := bytes "][" ++ LogLevel.ToString (level_ m) ++ bytes "][" ++ name_ m ++ bytes "]["
              ++ file_name_ m ++ bytes ": " ++ to_string (line_ m) ++ bytes "]" ++ [x09]
              ++ payload_ m ++ [x0a] in
  tmp1 ++ thread_text (tid_ m) ++ tmp2.
End ops.
End LogMessage.

(** ** Reading a line back *)

(** What comes before the first [c], and what comes after it. *)
Fixpoint split_at (c : byte) (l : list byte) : option (list byte * list byte) :=
  match l with
  | [] => None
  | x :: l' => if decide (x = c) then Some ([], l')
               else '(a, b) ← split_at c l'; Some (x :: a, b)
  end.

(** A field in brackets. *)
Definition read_field (l : list byte) : option (list byte * list byte) :=
  match l with x5b :: l' => split_at x5d l' | _ => None end.

(** "file: line", the line number behind the last colon. *)
Definition read_place (l : list byte) : option (list byte * list byte) :=
  '(n, f) ← split_at x20 (reverse l);
  match f with x3a :: f' => Some (reverse f', reverse n) | _ => None end.

Record log_line := mkLine {
  ln_time : list byte;
  ln_thread : list byte;
  ln_level : list byte;
  ln_name : list byte;
  ln_file : list byte;
  ln_line : list byte;
  ln_payload : list byte }.

Definition read_line (l : list byte) : option log_line :=
  '(time, l) ← read_field l;
  '(tid, l) ← read_field l;
  '(level, l) ← read_field l;
  '(name, l) ← read_field l;
  '(place, l) ← read_field l;
  '(file, line) ← read_place place;
  match l with
  | x09 :: l' => match reverse l' with
                 | x0a :: p => Some (mkLine time tid level name file line (reverse p))
                 | _ => None
                 end
  | _ => None
  end.

(** The bytes before the first NUL: [std::string(buf)]. *)
Definition c_string (buf : list byte) : list byte :=
  match split_at x00 buf with Some (s, _) => s | None => buf end.

Lemma split_at_app c l1 l2 : c ∉ l1 → split_at c (l1 ++ c :: l2) = Some (l1, l2).
Proof.
  induction l1 as [|x l1 IH]; cbn; [by rewrite decide_True by done|].
  intros [Hx Hl]%not_elem_of_cons. rewrite decide_False by done. by rewrite IH.
Qed.

Lemma c_string_nul a b : c_string (a ++ x00 :: b) = c_string a.
Proof.
  unfold c_string. induction a as [|x a IH]; [done|]. cbn. case_decide; [done|].
  destruct (split_at x00 (a ++ x00 :: b)) as [[s1 t1]|], (split_at x00 a) as [[s2 t2]|]; cbn in *;
    by rewrite IH.
Qed.

Lemma c_string_all a : x00 ∉ a → c_string a = a.
Proof.
  unfold c_string. intros Ha. destruct (split_at x00 a) as [[s t]|] eqn:E; [|done]. exfalso.
  revert s E. induction a as [|x a IH]; intros s E; cbn in E; [done|].
  apply not_elem_of_cons in Ha as [Hx Ha]. rewrite decide_False in E by done.
  destruct (split_at x00 a) as [[s' t']|]; [|done]. injection E as _ ->. by eapply IH.
Qed.

Lemma read_field_ok a l : x5d ∉ a → read_field (x5b :: a ++ x5d :: l) = Some (a, l).
Proof. apply split_at_app. Qed.

Lemma read_place_ok f n : x20 ∉ n → read_place (f ++ bytes ": " ++ n) = Some (f, n).
Proof.
  intros Hn. unfold read_place. rewrite !reverse_app, <- app_assoc.
  change (reverse (bytes ": ")) with [x20; x3a].
  change ([x20; x3a] ++ reverse f) with (x20 :: x3a :: reverse f).
  rewrite split_at_app by by rewrite elem_of_reverse. cbn. by rewrite !reverse_involutive.
Qed.

(** ** Numbers and levels hold no separator *)

Definition is_digit (b : byte) : Prop := (48 ≤ Byte.to_N b ≤ 57)%N.

#[export] Instance is_digit_dec b : Decision (is_digit b).
Proof. unfold is_digit. apply _. Defined.

Lemma bytes_cons c s : bytes (String c s) = byte_of_ascii c :: bytes s.
Proof. done. Qed.

Lemma pretty_char_digit x : is_digit (byte_of_ascii (pretty_N_char x)).
Proof. unfold pretty_N_char. by repeat case_match. Qed.

Lemma pretty_N_go_digits x s : Forall is_digit (bytes s) → Forall is_digit (bytes (pretty_N_go x s)).
Proof.
  revert s. induction (N.lt_wf_0 x) as [x _ IH]. intros s Hs.
  destruct (decide (x = 0%N)) as [->|Hx]; [by rewrite pretty_N_go_0|].
  rewrite pretty_N_go_step by lia. apply IH; [apply N.div_lt; lia|].
  rewrite bytes_cons. constructor; [apply pretty_char_digit|done].
Qed.

Lemma pretty_N_digits (n : N) : Forall is_digit (bytes (pretty n)).
Proof.
  unfold pretty, pretty_N. case_decide; [by repeat constructor|]. by apply pretty_N_go_digits.
Qed.

Lemma to_string_digits n : 0 ≤ n → Forall is_digit (to_string n).
Proof.
  intros Hn. unfold to_string. destruct n as [|p|p]; [by repeat constructor| |lia].
  apply (pretty_N_go_digits (N.pos p)). constructor.
Qed.

Lemma bytes_length s : length (bytes s) = String.length s.
Proof. induction s as [|c s IH]; [done|]. rewrite bytes_cons. cbn. by rewrite IH. Qed.

(** Below 10^k it has at most k digits. *)
Lemma to_string_length k n : 0 ≤ n < 10 ^ Z.of_nat (S k) → zlen (to_string n) ≤ Z.of_nat (S k).
Proof.
  intros Hn. unfold to_string, zlen. destruct n as [|p|p]; [cbn; lia| |lia].
  assert (Hp : (N.pos p < 10 ^ N.of_nat (S k))%N).
  { apply N2Z.inj_lt. rewrite N2Z.inj_pow, nat_N_Z. cbn [Z.of_N]. lia. }
  pose proof (pretty_N_go_length (S k) (N.pos p) "" Hp) as Hl. rewrite bytes_length.
  change (pretty (Z.pos p)) with (pretty_N_go (N.pos p) ""). cbn in Hl |- *. lia.
Qed.

Lemma digits_without c l : bool_decide (is_digit c) = false → Forall is_digit l → c ∉ l.
Proof. intros Hc%bool_decide_eq_false Hl Hin. rewrite Forall_forall in Hl. by apply Hc, Hl. Qed.

(** A number is digits, after a sign perhaps. *)
Lemma to_string_without c n : bool_decide (is_digit c) = false → c ≠ x2d → c ∉ to_string n.
Proof.
  intros Hc Hs. destruct n as [|k|k]; [by apply digits_without, to_string_digits..|]. unfold to_string.
  change (pretty (Z.neg k)) with (String "-" (pretty (N.pos k))). rewrite bytes_cons, not_elem_of_cons.
  split; [done|]. by apply digits_without, pretty_N_digits.
Qed.

Lemma two_digits_digits n : 0 ≤ n < 100 → Forall is_digit (LogMessage.two_digits n).
Proof.
  assert (Hd : ∀ k, 0 ≤ k < 10 → is_digit (LogMessage.digit k)).
  { intros k Hk. assert (k ∈ seqZ 0 10) as Hin by (apply elem_of_seqZ; lia). clear Hk. revert k Hin.
    apply Forall_forall. by repeat constructor. }
  intros Hn. repeat constructor; apply Hd; Z.to_euclidean_division_equations; lia.
Qed.

Lemma level_no_bracket level : x5d ∉ LogLevel.ToString level.
Proof. by apply (bool_decide_unpack _); destruct level. Qed.
Lemma level_no_newline level : x0a ∉ LogLevel.ToString level.
Proof. by apply (bool_decide_unpack _); destruct level. Qed.

(** What each level reads as. *)
Definition read_level (l : list byte) : option LogLevel.value :=
  find (λ v, bool_decide (LogLevel.ToString v = l))
    [LogLevel.DEBUG; LogLevel.INFO; LogLevel.WARN; LogLevel.ERROR; LogLevel.FATAL].

Lemma read_level_ok level : read_level (LogLevel.ToString level) = Some level.
Proof. by destruct level. Qed.

Section message.
Context `{PlatformOk}.

Lemma clock_without c now : bool_decide (is_digit c) = false → c ≠ x3a → c ∉ LogMessage.clock_text now.
Proof.
  intros Hc Hn. destruct (localtime_clock now) as (? & ? & ?). unfold LogMessage.clock_text.
  rewrite !not_elem_of_app. change (bytes ":") with [x3a]. rewrite list_elem_of_singleton.
  split_and!; try done; (apply digits_without; [done|]; apply two_digits_digits; lia).
Qed.

Lemma thread_without c tid : bool_decide (is_digit c) = false → c ∉ thread_text tid.
Proof. intros Hc. destruct (thread_digits tid) as [n ->]. by apply digits_without, pretty_N_digits. Qed.

(** The record a line is read back to. *)
Definition line_of (m : LogMessage.t) : log_line :=
  mkLine (LogMessage.clock_text (LogMessage.ctime_ m)) (thread_text (LogMessage.tid_ m))
    (LogLevel.ToString (LogMessage.level_ m)) (LogMessage.name_ m) (LogMessage.file_name_ m)
    (to_string (LogMessage.line_ m)) (LogMessage.payload_ m).

Lemma read_line_format m :
  0 ≤ LogMessage.line_ m → x5d ∉ LogMessage.name_ m → x5d ∉ LogMessage.file_name_ m →
  read_line (LogMessage.format m) = Some (line_of m).
Proof.
  intros Hl Hn Hf. unfold line_of, LogMessage.format.
  pose proof (to_string_digits _ Hl) as Hd. set (n := to_string _) in *.
  set (time := LogMessage.clock_text _). set (tid := thread_text _).
  set (level := LogLevel.ToString _). set (name := LogMessage.name_ m) in *.
  set (place := LogMessage.file_name_ m ++ bytes ": " ++ n).
  assert (Hp : x5d ∉ place).
  { unfold place. rewrite !not_elem_of_app. split_and!; [done|by apply (bool_decide_unpack _)|].
    by apply digits_without. }
  set (rest := x09 :: LogMessage.payload_ m ++ [x0a]).
  assert (E : (bytes "[" ++ time ++ bytes "][") ++ tid ++ bytes "][" ++ level ++ bytes "][" ++
      name ++ bytes "][" ++ LogMessage.file_name_ m ++ bytes ": " ++ n ++ bytes "]" ++ [x09] ++
      LogMessage.payload_ m ++ [x0a] =
    x5b :: time ++ x5d :: x5b :: tid ++ x5d :: x5b :: level ++ x5d :: x5b :: name ++ x5d ::
      x5b :: place ++ x5d :: rest).
  { unfold place, rest. by rewrite <- !app_assoc. }
  rewrite E. clear E. unfold read_line.
  rewrite (read_field_ok time) by by apply clock_without. cbn [mbind option_bind].
  rewrite (read_field_ok tid) by by apply thread_without. cbn [mbind option_bind].
  rewrite (read_field_ok level) by apply level_no_bracket. cbn [mbind option_bind].
  rewrite (read_field_ok name) by done. cbn [mbind option_bind].
  rewrite (read_field_ok place) by done. cbn [mbind option_bind].
  unfold place. rewrite read_place_ok by by apply digits_without. cbn [mbind option_bind].
  unfold rest. cbv iota beta. by rewrite reverse_snoc, reverse_involutive.
Qed.

(** A log line reads back to the record it was made of: the time of day,
    the thread, the level, the logger's name, the file and line of the call and
    the message, whatever bytes the message has, if the logger's name and the
    file's hold no closing bracket. *)
Theorem log_line_reads_back m :
  0 ≤ LogMessage.line_ m → x5d ∉ LogMessage.name_ m → x5d ∉ LogMessage.file_name_ m →
  read_line (LogMessage.format m) =
    Some (mkLine (LogMessage.clock_text (LogMessage.ctime_ m)) (thread_text (LogMessage.tid_ m))
      (LogLevel.ToString (LogMessage.level_ m)) (LogMessage.name_ m) (LogMessage.file_name_ m)
      (to_string (LogMessage.line_ m)) (LogMessage.payload_ m)) ∧
  read_level (LogLevel.ToString (LogMessage.level_ m)) = Some (LogMessage.level_ m).
Proof. intros Hl Hn Hf. split; [by apply read_line_format|apply read_level_ok]. Qed.

(** A message whose fields keep to their line and their brackets. *)
Definition loggable (m : LogMessage.t) : Prop :=
  0 ≤ LogMessage.line_ m ∧ (x5d ∉ LogMessage.name_ m) ∧ (x5d ∉ LogMessage.file_name_ m) ∧
  (x0a ∉ LogMessage.name_ m) ∧ (x0a ∉ LogMessage.file_name_ m) ∧ (x0a ∉ LogMessage.payload_ m).

Lemma format_one_line m : loggable m → ∃ h, LogMessage.format m = h ++ [x0a] ∧ x0a ∉ h.
Proof.
  intros (Hl & _ & _ & Hn & Hf & Hp). unfold LogMessage.format. rewrite <- !app_assoc.
  eexists. split; [rewrite !app_assoc; reflexivity|]. rewrite <- !app_assoc, !not_elem_of_app.
  split_and!; try done; try (by apply (bool_decide_unpack _)).
  - by apply clock_without.
  - by apply thread_without.
  - apply level_no_newline.
  - by apply digits_without; [|apply to_string_digits].
Qed.

(** ** Reading a file of lines back *)

(** The lines of a text, each with its newline; [acc] is the line so far. *)
Fixpoint split_lines (acc s : list byte) : list (list byte) :=
  match s with
  | [] => match acc with [] => [] | _ => [acc] end
  | b :: s' => if decide (b = x0a) then (acc ++ [b]) :: split_lines [] s' else split_lines (acc ++ [b]) s'
  end.

Definition read_log (s : list byte) : option (list log_line) := mapM read_line (split_lines [] s).

Lemma split_lines_line acc h s : x0a ∉ h → split_lines acc (h ++ x0a :: s) = (acc ++ h ++ [x0a]) :: split_lines [] s.
Proof.
  revert acc. induction h as [|b h IH]; intros acc; cbn.
  - intros _. by rewrite decide_True by done.
  - intros [Hb Hh]%not_elem_of_cons. rewrite decide_False by congruence.
    rewrite IH by done. by rewrite <- app_assoc.
Qed.

Lemma read_log_messages ms : Forall loggable ms →
  read_log (concat (LogMessage.format <$> ms)) = Some (line_of <$> ms).
Proof.
  unfold read_log. induction 1 as [|m ms Hm _ IH]; [done|].
  rewrite fmap_cons. cbn [concat]. destruct (format_one_line m Hm) as (h & E & Hh). rewrite E, <- app_assoc.
  cbn [app]. rewrite split_lines_line by done. cbn [app mapM]. rewrite <- E.
  rewrite read_line_format by apply Hm. cbn [mbind option_bind]. by rewrite IH.
Qed.
End message.

(** ** A platform to evaluate with *)
Module UtcPlatform.
#[global] Instance platform : Platform := {
  localtime t := mkTm (t mod 60) (t / 60 mod 60) (t / 3600 mod 24) 1 0 70;
  thread_text tid := bytes (pretty (Z.to_N tid)) }.

#[global] Instance platform_ok : PlatformOk.
Proof.
  split; cbn; intros t; [|lia|by eexists].
  Z.to_euclidean_division_equations. lia.
Qed.
End UtcPlatform.

Definition demo_message : LogMessage.t :=
  LogMessage.ctor 3725 140 LogLevel.ERROR (bytes "src/a.cpp") 42 (bytes "asynclogger") (bytes "no ] route").

Example demo_line :
  LogMessage.format demo_message =
    bytes "[01:02:05][140][ERROR][asynclogger][src/a.cpp: 42]" ++ [x09] ++ bytes "no ] route" ++ [x0a].
Proof. by vm_compute. Qed.

Lemma log_line_reads_back_witness :
  let m := demo_message in
  read_line (LogMessage.format m) =
    Some (mkLine (LogMessage.clock_text (LogMessage.ctime_ m)) (thread_text (LogMessage.tid_ m))
      (LogLevel.ToString (LogMessage.level_ m)) (LogMessage.name_ m) (LogMessage.file_name_ m)
      (to_string (LogMessage.line_ m)) (LogMessage.payload_ m)) ∧
  read_level (LogLevel.ToString (LogMessage.level_ m)) = Some (LogMessage.level_ m).
Proof.
  intros m. apply log_line_reads_back; [done|by apply (bool_decide_unpack _)..].
Defined.
