(* ===== verification/Timestamp.v ===== *)
(** * Points in time and thread identifiers (src/Timestamp.cpp,
    src/CurrentThread.cpp)

    [Timestamp.toString] prints a time with [snprintf]; [CurrentThread.tid] asks
    the kernel for the thread's identifier once.  The time zone is the
    platform's, so [localtime] is a parameter; so are the kernel's answers. *)

From stdpp Require Import base tactics numbers list strings pretty.
From Stdlib Require Import ZArith Lia.
From S2P Require Import Prelude Message.

Local Open Scope Z_scope.
Local Open Scope prog_scope.

(** ** [printf] *)

(** A conversion [%0wd]: the sign and the zeros count in the width. *)
Definition zero_padded (w : nat) (n : Z) : list byte :=
  let sign := if n <? 0 then bytes "-" else [] in
  let d := to_string (Z.abs n) in
  sign ++ replicate (w - length sign - length d) x30 ++ d.

Module Timestamp.
Record t := mk { secondsSinceEopch_ : Z }.

Definition ctor : t := mk 0.
Definition ctor_at (secondsSinceEpoch : Z) : t := mk secondsSinceEpoch.

Section ops.
(** [localtime], null when the year does not fit an [int]. *)
Context (localtime : Z → option tm).

(** [time] is what [time(NULL)] returns. *)
Definition now (time : Z) : t := ctor_at time.

Definition fields (tm_time : tm) : list byte :=
  zero_padded 4 (tm_year tm_time + 1900) ++ bytes "/" ++ zero_padded 2 (tm_mon tm_time + 1)
    ++ bytes "/" ++ zero_padded 2 (tm_mday tm_time) ++ bytes " " ++ zero_padded 2 (tm_hour tm_time)
    ++ bytes ":" ++ zero_padded 2 (tm_min tm_time) ++ bytes ":" ++ zero_padded 2 (tm_sec tm_time).

(** [snprintf] writes at most 127 bytes and the terminating NUL into [buf],
    which is zeroed. The sums are of [int]s. *)
Definition toString (ts : t) : outcome (list byte) :=
  match localtime (secondsSinceEopch_ ts) with
  | None => Fault NullDeref
  | Some tm_time =>
      if (INT_MAX <? tm_year tm_time + 1900) || (INT_MAX <? tm_mon tm_time + 1) then Fault SignedOverflow
      else
        let s := ztake 127 (fields tm_time) in
        Ok (c_string (s ++ replicate (128 - length s) x00))
  end.
End ops.
End Timestamp.

Module CurrentThread.
(** A thread's own copy of [t_cachedTid], and how often it called [gettid]. *)
Record t := mk { t_cachedTid : Z; asked : nat }.

(** What the loader sets up for a new thread. *)
Definition fresh : t := mk 0 0.

Section ops.
(** The kernel's answers to this thread's calls of [gettid]. *)
Context (gettid : nat → Z).

Definition cacheTid : M t unit :=
  let! s := gets t_cachedTid in
  when (s =? 0) (modify (λ x, mk (int32 (gettid (asked x))) (S (asked x)))).

Definition tid : M t Z :=
  let! s := gets t_cachedTid in
  when (s =? 0) cacheTid ;;!
  gets t_cachedTid.

(** [n] calls. *)
Fixpoint tids (n : nat) : M t (list Z) :=
  match n with
  | O => ret []
  | S n' => let! i := tid in let! l := tids n' in ret (i :: l)
  end.
End ops.
End CurrentThread.

(** ** Digits *)

(** [n] in [w] digits. *)
Fixpoint digits (w : nat) (n : Z) : list byte :=
  match w with
  | O => []
  | S w' => digits w' (n / 10) ++ [LogMessage.digit (n mod 10)]
  end.

Lemma digits_length w n : length (digits w n) = w.
Proof. revert n. induction w as [|w IH]; intros n; cbn; [done|]. rewrite length_app, IH. cbn. lia. Qed.

(** The values a field of a date or of a clock takes, tried one by one. *)
Definition padded_ok (w : nat) (n : Z) : bool := bool_decide (zero_padded w n = digits w n).
Lemma padded_small w n : forallb (padded_ok w) (seqZ 0 (10 ^ Z.of_nat w)) = true →
  0 ≤ n < 10 ^ Z.of_nat w → zero_padded w n = digits w n.
Proof.
  intros Hall Hn. apply (bool_decide_eq_true_1 _). apply (proj1 (forallb_forall _ _) Hall).
  apply list_elem_of_In, elem_of_seqZ. lia.
Qed.
Lemma padded2 n : 0 ≤ n < 100 → zero_padded 2 n = digits 2 n.
Proof. apply (padded_small 2). by vm_compute. Qed.
Lemma padded4 n : 0 ≤ n < 10000 → zero_padded 4 n = digits 4 n.
Proof. apply (padded_small 4). by vm_compute. Qed.

(** ** The order of texts *)

(** The order of [std::string] on bytes, and of dates on their numbers. *)
Fixpoint lex (a b : list Z) : comparison :=
  match a, b with
  | [], [] => Eq
  | [], _ => Lt
  | _, [] => Gt
  | x :: a', y :: b' => match x ?= y with Eq => lex a' b' | c => c end
  end.

Definition codes (s : list byte) : list Z := (λ b, Z.of_N (Byte.to_N b)) <$> s.

(** Compare by [c], then by [d]. *)
Definition thenc (c d : comparison) : comparison := match c with Eq => d | _ => c end.

Lemma thenc_assoc c d e : thenc (thenc c d) e = thenc c (thenc d e).
Proof. by destruct c. Qed.
Lemma lex_app a1 a2 b1 b2 : length a1 = length b1 →
  lex (a1 ++ a2) (b1 ++ b2) = thenc (lex a1 b1) (lex a2 b2).
Proof.
  revert b1. induction a1 as [|x a1 IH]; intros [|y b1] E; try done. cbn.
  destruct (x ?= y); [apply IH; cbn in E; lia|done..].
Qed.
Lemma codes_app s s' : codes (s ++ s') = codes s ++ codes s'.
Proof. apply fmap_app. Qed.
Lemma codes_length s : length (codes s) = length s.
Proof. apply length_fmap. Qed.
Lemma lex_refl a : lex a a = Eq.
Proof. induction a as [|x a IH]; [done|]. cbn. by rewrite Z.compare_refl. Qed.

(** The text of a digit, and the order it has. *)
Lemma digit_code k : 0 ≤ k < 10 → Z.of_N (Byte.to_N (LogMessage.digit k)) = 48 + k.
Proof.
  intros Hk. assert (Hall : forallb (λ k, Z.of_N (Byte.to_N (LogMessage.digit k)) =? 48 + k) (seqZ 0 10) = true)
    by by vm_compute.
  apply Z.eqb_eq. apply (proj1 (forallb_forall _ _) Hall). apply list_elem_of_In, elem_of_seqZ. lia.
Qed.

Lemma compare_digits n m : thenc (n / 10 ?= m / 10) (n mod 10 ?= m mod 10) = (n ?= m).
Proof.
  pose proof (Z.div_mod n 10). pose proof (Z.div_mod m 10).
  pose proof (Z.mod_pos_bound n 10). pose proof (Z.mod_pos_bound m 10). unfold thenc.
  destruct (Z.compare_spec (n / 10) (m / 10)), (Z.compare_spec (n mod 10) (m mod 10)),
    (Z.compare_spec n m); first [done | lia].
Qed.

Lemma lex_digits w n m : 0 ≤ n < 10 ^ Z.of_nat w → 0 ≤ m < 10 ^ Z.of_nat w →
  lex (codes (digits w n)) (codes (digits w m)) = (n ?= m).
Proof.
  revert n m. induction w as [|w IH]; intros n m Hn Hm.
  { cbn in *. replace n with m by lia. by rewrite Z.compare_refl. }
  replace (10 ^ Z.of_nat (S w)) with (10 * 10 ^ Z.of_nat w) in *
    by (rewrite Nat2Z.inj_succ, Z.pow_succ_r by lia; lia).
  pose proof (Z.mod_pos_bound n 10). pose proof (Z.mod_pos_bound m 10).
  cbn [digits]. rewrite !codes_app, lex_app by by rewrite !codes_length, !digits_length.
  rewrite IH by (split; [apply Z.div_pos; lia | apply Z.div_lt_upper_bound; lia]).
  rewrite <- (compare_digits n m). f_equal. cbn -[Z.add]. rewrite !digit_code by lia.
  rewrite Z.add_compare_mono_l. by destruct (_ ?= _).
Qed.

(** ** Printing a time *)

(** A broken-down time of a year of four digits, with the fields localtime(3)
    gives. *)
Definition printable (t : tm) : Prop :=
  0 ≤ tm_year t + 1900 < 10000 ∧ 0 ≤ tm_mon t < 12 ∧ 0 ≤ tm_mday t < 32 ∧
  0 ≤ tm_hour t < 24 ∧ 0 ≤ tm_min t < 60 ∧ 0 ≤ tm_sec t < 61.

(** Its numbers, the most significant first. *)
Definition numbers (t : tm) : list Z :=
  [tm_year t + 1900; tm_mon t + 1; tm_mday t; tm_hour t; tm_min t; tm_sec t].

Lemma fields_digits t : printable t →
  Timestamp.fields t =
    digits 4 (tm_year t + 1900) ++ bytes "/" ++ digits 2 (tm_mon t + 1) ++ bytes "/" ++
    digits 2 (tm_mday t) ++ bytes " " ++ digits 2 (tm_hour t) ++ bytes ":" ++
    digits 2 (tm_min t) ++ bytes ":" ++ digits 2 (tm_sec t).
Proof.
  intros (? & ? & ? & ? & ? & ?). unfold Timestamp.fields. rewrite padded4, !padded2 by lia.
  done.
Qed.

Lemma fields_length t : printable t → length (Timestamp.fields t) = 19%nat.
Proof. intros H. rewrite fields_digits by done. rewrite !length_app, !digits_length. done. Qed.

Lemma digits_nonzero w n : x00 ∉ digits w n.
Proof.
  revert n. induction w as [|w IH]; intros n; [apply not_elem_of_nil|].
  cbn. rewrite not_elem_of_app. split; [done|]. rewrite list_elem_of_singleton. intros E.
  pose proof (digit_code (n mod 10) (Z.mod_pos_bound n 10 eq_refl)) as Hc. rewrite <- E in Hc.
  pose proof (Z.mod_pos_bound n 10 eq_refl). cbn in Hc. lia.
Qed.

Lemma fields_nonzero t : printable t → x00 ∉ Timestamp.fields t.
Proof.
  intros H. rewrite fields_digits by done. rewrite !not_elem_of_app.
  split_and!; first [apply digits_nonzero | apply (bool_decide_unpack _); by vm_compute].
Qed.

Lemma lex_fields t1 t2 : printable t1 → printable t2 →
  lex (codes (Timestamp.fields t1)) (codes (Timestamp.fields t2)) = lex (numbers t1) (numbers t2).
Proof.
  intros H1 H2. rewrite !fields_digits by done.
  destruct H1 as (? & ? & ? & ? & ? & ?), H2 as (? & ? & ? & ? & ? & ?). rewrite !codes_app.
  rewrite !lex_app by (rewrite !codes_length; by rewrite ?digits_length).
  rewrite !lex_refl, !lex_digits by (cbn [Z.of_nat Pos.of_succ_nat]; lia).
  cbn [lex numbers thenc]. repeat (destruct (_ ?= _); [|done..]). done.
Qed.

Lemma toString_fields lt ts t : lt (Timestamp.secondsSinceEopch_ ts) = Some t → printable t →
  Timestamp.toString lt ts = Ok (Timestamp.fields t).
Proof.
  intros Ht Hp. pose proof (fields_length _ Hp) as Hl. pose proof (fields_nonzero _ Hp) as Hz.
  destruct Hp as (? & ? & _). unfold Timestamp.toString. rewrite Ht. unfold INT_MAX.
  rewrite !(proj2 (Z.ltb_ge _ _)) by lia. cbn [orb].
  rewrite (ztake_ge 127) by (unfold zlen; lia). rewrite Hl. do 1 f_equal.
  change (128 - 19)%nat with (S 108). cbn [replicate]. rewrite c_string_nul. by apply c_string_all.
Qed.

(** C32: texts of two times sort as the times do: [toString] of a time whose year
    has four digits returns 19 bytes, and two such texts compare as strings the
    way the broken-down times compare from the year down to the second; so they
    are equal only for the same second on the clock. *)
Theorem texts_sort_as_times lt ts1 ts2 t1 t2 :
  lt (Timestamp.secondsSinceEopch_ ts1) = Some t1 → lt (Timestamp.secondsSinceEopch_ ts2) = Some t2 →
  printable t1 → printable t2 →
  ∃ s1 s2, Timestamp.toString lt ts1 = Ok s1 ∧ Timestamp.toString lt ts2 = Ok s2 ∧
    length s1 = 19%nat ∧ length s2 = 19%nat ∧
    lex (codes s1) (codes s2) = lex (numbers t1) (numbers t2) ∧ (s1 = s2 → t1 = t2).
Proof.
  intros Ht1 Ht2 H1 H2. exists (Timestamp.fields t1), (Timestamp.fields t2).
  split_and!; eauto using toString_fields, fields_length, lex_fields. intros E.
  pose proof (lex_fields _ _ H1 H2) as Hc. rewrite E, lex_refl in Hc.
  destruct t1, t2. cbn in Hc.
  repeat match type of Hc with context [?x ?= ?y] =>
    destruct (Z.compare_spec x y); [|discriminate..] end.
  f_equal; lia.
Qed.

(** The clock of a platform in UTC, for the day 2024/01/02. *)
Definition demo_localtime (s : Z) : option tm :=
  if decide (0 ≤ s < 86400) then Some (mkTm (s mod 60) (s / 60 mod 60) (s / 3600) 2 0 124) else None.

Lemma texts_sort_as_times_witness :
  ∃ s1 s2, Timestamp.toString demo_localtime (Timestamp.now 5025) = Ok s1 ∧
    Timestamp.toString demo_localtime (Timestamp.now 36000) = Ok s2 ∧
    s1 = bytes "2024/01/02 01:23:45" ∧ lex (codes s1) (codes s2) = Lt.
Proof.
  destruct (texts_sort_as_times demo_localtime (Timestamp.now 5025) (Timestamp.now 36000)
    (mkTm 45 23 1 2 0 124) (mkTm 0 0 10 2 0 124) eq_refl eq_refl
    ltac:(unfold printable; cbn; lia) ltac:(unfold printable; cbn; lia))
    as (s1 & s2 & E1 & E2 & _ & _ & Hc & _).
  exists s1, s2. split_and!; [done | done | | by rewrite Hc].
  assert (E : Timestamp.toString demo_localtime (Timestamp.now 5025) = Ok (bytes "2024/01/02 01:23:45"))
    by by vm_compute.
  congruence.
Defined.

(** A time that [localtime] refuses dereferences null, and the last years of
    an [int] overflow. *)
Theorem toString_faults lt ts f :
  Timestamp.toString lt ts = Fault f ↔
    (f = NullDeref ∧ lt (Timestamp.secondsSinceEopch_ ts) = None) ∨
    (f = SignedOverflow ∧ ∃ t, lt (Timestamp.secondsSinceEopch_ ts) = Some t ∧
      (INT_MAX < tm_year t + 1900 ∨ INT_MAX < tm_mon t + 1)).
Proof.
  unfold Timestamp.toString. destruct (lt _) as [t|]; [|naive_solver].
  destruct (orb _ _) eqn:E.
  - apply orb_true_iff in E. rewrite !Z.ltb_lt in E. naive_solver.
  - apply orb_false_iff in E. rewrite !Z.ltb_ge in E. split; [done|].
    intros [[_ ?]|(_ & t' & [= <-] & ?)]; [done|lia].
Qed.

(** ** The thread's identifier *)

(** A thread asks the kernel once, however often it wants its identifier, if
    the kernel answers a nonzero number. *)
Theorem tid_asks_once gettid n : int32 (gettid 0%nat) ≠ 0 →
  CurrentThread.tids gettid (S n) CurrentThread.fresh =
    Ok (replicate (S n) (int32 (gettid 0%nat)), CurrentThread.mk (int32 (gettid 0%nat)) 1).
Proof.
  set (i := int32 (gettid 0%nat)). intros Hi. set (c := CurrentThread.mk i 1).
  assert (Hc : CurrentThread.tid gettid c = Ok (i, c)).
  { unfold CurrentThread.tid, bind, gets, when, c. cbn. by rewrite (proj2 (Z.eqb_neq _ _) Hi). }
  assert (Hcs : ∀ k, CurrentThread.tids gettid k c = Ok (replicate k i, c)).
  { induction k as [|k IH]; [done|]. cbn. unfold bind. by rewrite Hc, IH. }
  cbn [CurrentThread.tids]. unfold bind.
  replace (CurrentThread.tid gettid CurrentThread.fresh) with (@Ok (Z * CurrentThread.t) (i, c)) by done.
  by rewrite Hcs.
Qed.
