(* ===== verification/Files.v ===== *)
(** * Files as the logger uses them (log_system/logs_code/Util.hpp, C stdio)

    The state of the logger's process: the files' contents as the kernel has
    them and as they were last synced, the directories, standard output, and
    the answers of the system calls to come.  A [FILE] holds the bytes stdio has
    not handed to the kernel yet; stdio may hand over any part of them at any
    write.  What a failing write leaves is arbitrary. *)

From stdpp Require Import base tactics numbers list gmap countable strings.
From Stdlib Require Import ZArith Lia.
From S2P Require Import Prelude World LogBuffer Message.

Local Open Scope string_scope.
Local Open Scope list_scope.
Local Open Scope Z_scope.
Local Open Scope prog_scope.

#[export] Instance byte_countable : Countable byte.
Proof. by apply (inj_countable Byte.to_N Byte.of_N), Byte.of_to_N. Defined.

(** stat(2), mkdir(2) and the removal of a tree on the tree of directories. *)
Class Directories (D : Type) := {
  path_exists : list byte → D → bool;
  mkdir : list byte → D → D;
  remove_tree : list byte → D → D }.

(** [mkdir] removes nothing, and of a path that exists it fails with EEXIST. *)
Class DirectoriesOk (D : Type) `{Directories D} := {
  remove_tree_gone p d : path_exists p (remove_tree p d) = false;
  mkdir_keeps p q d : path_exists q d = true → path_exists q (mkdir p d) = true;
  mkdir_eexist p d : path_exists p d = true → mkdir p d = d }.

(** What can be observed of the logger and the backup server besides files.
    [LSend fd data n]: [write] was given [data], and took [n] bytes of it. *)
Inductive log_event :=
  | LFopen (name : list byte)
  | LFclose (name : list byte)
  | LConnect (fd : Z)
  | LSend (fd : Z) (data : list byte) (n : Z)
  | LClose (fd : Z)
  | LPrint.

(** [lw_stdout] is what [StdoutFlush] wrote; messages are [LPrint] events. *)
Record LogWorld (D : Type) := mkLogWorld {
  lw_files : gmap (list byte) (list byte);
  lw_synced : gmap (list byte) (list byte);
  lw_dirs : D;
  lw_stdout : list byte;
  lw_oracle : nat → sysret;
  lw_clock : nat;
  lw_trace : list log_event }.
Arguments mkLogWorld {D}.
Arguments lw_files {D}.
Arguments lw_synced {D}.
Arguments lw_dirs {D}.
Arguments lw_stdout {D}.
Arguments lw_oracle {D}.
Arguments lw_clock {D}.
Arguments lw_trace {D}.

Record FILE := mkFILE {
  f_name : list byte;
  f_pending : list byte;
  f_error : bool }.

Section stdio.
Context {D : Type} `{Directories D}.
Local Abbreviation M := (M (LogWorld D)).
Implicit Types w : LogWorld D.

Definition set_lw_files fs w : LogWorld D :=
  mkLogWorld fs (lw_synced w) (lw_dirs w) (lw_stdout w) (lw_oracle w) (lw_clock w) (lw_trace w).
Definition set_lw_synced fs w : LogWorld D :=
  mkLogWorld (lw_files w) fs (lw_dirs w) (lw_stdout w) (lw_oracle w) (lw_clock w) (lw_trace w).
Definition set_lw_dirs d w : LogWorld D :=
  mkLogWorld (lw_files w) (lw_synced w) d (lw_stdout w) (lw_oracle w) (lw_clock w) (lw_trace w).
Definition set_lw_stdout s w : LogWorld D :=
  mkLogWorld (lw_files w) (lw_synced w) (lw_dirs w) s (lw_oracle w) (lw_clock w) (lw_trace w).
Definition lw_tick w : LogWorld D :=
  mkLogWorld (lw_files w) (lw_synced w) (lw_dirs w) (lw_stdout w) (lw_oracle w) (S (lw_clock w))
    (lw_trace w).
Definition lw_log e w : LogWorld D :=
  mkLogWorld (lw_files w) (lw_synced w) (lw_dirs w) (lw_stdout w) (lw_oracle w) (lw_clock w)
    (lw_trace w ++ [e]).

(** The next answer of the kernel. *)
Definition sys : M sysret := λ w, Ok (lw_oracle w (lw_clock w), lw_tick w).
Definition note (e : log_event) : M unit := modify (lw_log e).
(** A message to [std::cerr] or [std::cout], or [perror]. *)
Definition print : M unit := note LPrint.

Definition content_of (name : list byte) w : list byte := default [] (lw_files w !! name).
(** [data] arrives at the end of the file (O_APPEND). *)
Definition append_file (name data : list byte) w : LogWorld D :=
  set_lw_files (<[name := content_of name w ++ data]> (lw_files w)) w.

(** ** C stdio *)

(** [fopen(name, "ab")]. *)
Definition fopen (name : list byte) : M (option FILE) :=
  let! r := sys in
  if sr_ret r <? 0 then ret None
  else modify (append_file name []) ;;! note (LFopen name) ;;! ret (Some (mkFILE name [] false)).

(** Hands the bytes over: on success the first [n] of them, or all of them;
    after a failure any number has arrived and anything may be left. The result
    says whether it succeeded. *)
Definition hand_over (all_of_them : bool) (data : list byte) (f : FILE) : M (bool * FILE) :=
  let! r := sys in
  if sr_ret r <? 0 then
    modify (append_file (f_name f) (ztake (- 1 - sr_ret r) data)) ;;!
    ret (false, mkFILE (f_name f) (sr_data r) true)
  else
    let n := if all_of_them then zlen data else sr_ret r in
    modify (append_file (f_name f) (ztake n data)) ;;!
    ret (true, mkFILE (f_name f) (zdrop n data) (f_error f)).

(** A null [FILE*] is dereferenced. The result says whether all was taken. *)
Definition fwrite_ret (data : list byte) (fs : option FILE) : M (bool * FILE) :=
  let! f := deref NullDeref fs in
  hand_over false (f_pending f ++ data) f.

Definition fwrite (data : list byte) (fs : option FILE) : M FILE :=
  let! r := fwrite_ret data fs in ret r.2.

(** With [false] for [EOF]. *)
Definition fflush (f : FILE) : M (bool * FILE) := hand_over true (f_pending f) f.

(** The result of [fsync(fileno(f))] is 0 on success. *)
Definition fsync (f : FILE) : M Z :=
  let! r := sys in
  if sr_ret r =? 0 then
    modify (λ w, set_lw_synced (<[f_name f := content_of (f_name f) w]> (lw_synced w)) w) ;;! ret 0
  else ret (-1).

Definition fclose (f : FILE) : M unit :=
  let! _ := fflush f in note (LFclose (f_name f)).
End stdio.

(** ** Util::Date and Util::File *)
Module Date.
(** [time(nullptr)]. *)
Definition Now {D} : M (LogWorld D) Z := let! r := sys in ret (sr_ret r).
End Date.

Module File.
(** The separators "/" and "\". *)
Definition is_sep (c : byte) : Prop := c = x2f ∨ c = x5c.
#[export] Instance is_sep_dec c : Decision (is_sep c).
Proof. unfold is_sep. apply _. Defined.

Definition npos : Z := 2 ^ 64 - 1.

Definition find_first_of (s : list byte) (index : nat) : option nat :=
  (λ x, (index + x.1)%nat) <$> list_find is_sep (drop index s).

(** As a [size_t], [npos] if there is none. *)
Definition find_last_of (s : list byte) : Z :=
  match list_find is_sep (reverse s) with
  | Some (i, _) => zlen s - 1 - Z.of_nat i
  | None => npos
  end.

(** [pos] is an [int]; in [pos != npos] it is converted back. *)
Definition Path (filename : list byte) : outcome (list byte) :=
  if decide (filename = []) then Ok []
  else
    let pos := int32 (find_last_of filename) in
    if wrap64 pos =? npos then Ok []
    else if pos =? INT_MAX then Fault SignedOverflow
    else Ok (ztake (wrap64 (pos + 1)) filename).

Section ops.
Context {D : Type} `{Directories D}.

(** The loop from [index] on; [None]: not finished within [fuel] rounds. *)
Fixpoint create_loop (fuel : nat) (pathname : list byte) (index : nat) (d : D) : option D :=
  if decide (index < length pathname)%nat then
    match fuel with
    | O => None
    | S fuel' =>
        match find_first_of pathname index with
        | None => Some (mkdir pathname d)
        | Some pos =>
            if decide (pos = index) then create_loop fuel' pathname (pos + 1) d
            else
              let sub_path := take pos pathname in
              if path_exists sub_path d then create_loop fuel' pathname (pos + 1) d
              else create_loop fuel' pathname (pos + 1) (mkdir sub_path d)
        end
    end
  else Some d.

(** Each round moves [index] on, so [size] rounds are enough (theorem
    [CreateDirectory_makes_path]). *)
Definition create_dirs (pathname : list byte) (d : D) : option D :=
  if path_exists pathname d then Some d else create_loop (length pathname) pathname 0 d.

Local Abbreviation M := (M (LogWorld D)).

Definition CreateDirectory (pathname : list byte) : M unit :=
  when (bool_decide (pathname = [])) print ;;!
  modify (λ w, set_lw_dirs (default (lw_dirs w) (create_dirs pathname (lw_dirs w))) w).

(** -1 if stat(2) fails. *)
Definition FileSize (filename : list byte) : M Z :=
  let! r := sys in
  if sr_ret r =? -1 then print ;;! ret (-1)
  else let! w := gets (content_of filename) in ret (zlen w).

(** The result and what [*content] holds; [read] gets as many bytes as the
    kernel gives, and the stream is good if these are all. *)
Definition GetContent (filename : list byte) : M (bool * list byte) :=
  let! opened := sys in
  if sr_ret opened <? 0 then print ;;! ret (false, [])
  else
    let! size := FileSize filename in
    let len := wrap64 size in
    let! content := lift (vec_resize len []) in
    let! r := sys in
    let! file := gets (content_of filename) in
    let got := ztake (Z.min (sr_ret r) len) file in
    let content := got ++ zdrop (zlen got) content in
    if zlen got <? len then print ;;! ret (false, content) else ret (true, content).

(** stat(2) succeeds. *)
Definition Exists (filename : list byte) : M bool :=
  let! d := gets lw_dirs in ret (path_exists filename d).
End ops.
End File.

(** ** Util::JsonUtil and Util::JsonData *)

(** [V] stands for [Json::Value]: jsoncpp's writer gives a result and the text,
    its reader whether it succeeded and what it read. *)
Module JsonUtil.
Section ops.
Context {D V : Type}.
Local Abbreviation M := (M (LogWorld D)).

(** The result, and [*str]. *)
Definition Serialize (write : V → Z * list byte) (val : V) (str : list byte) : M (bool * list byte) :=
  let r := write val in
  if negb (r.1 =? 0) then print ;;! ret (false, str) else ret (true, r.2).

(** The result, and [*val]. *)
Definition UnSerialize (parse : list byte → bool * V) (str : list byte) : M (bool * V) :=
  let r := parse str in
  if negb r.1 then print ;;! ret (false, r.2) else ret (true, r.2).

(** What the reader takes back from the writer comes back. *)
Lemma Serialize_UnSerialize write parse val str w :
  (∀ v, (write v).1 = 0) → (∀ v, parse (write v).2 = (true, v)) →
  bind (Serialize write val str) (λ r, UnSerialize parse r.2) w = Ok ((true, val), w).
Proof.
  intros Hw Hp. unfold Serialize, UnSerialize. rewrite Hw. unfold bind, ret. cbn. by rewrite Hp.
Qed.
End ops.
End JsonUtil.

(** The constructor of [JsonData] from the file it is named with. The result of
    [UnSerialize] is not looked at. *)
Definition load_config {D} `{Directories D} (parse : list byte → bool * JsonValue) (conf : list byte)
    : M (LogWorld D) JsonData :=
  let! there := File.Exists conf in
  if there : bool then
    let! r := File.GetContent conf in
    if (r.1 : bool) then
      let! root := JsonUtil.UnSerialize parse r.2 in
      lift (JsonData_ctor (Some root.2))
    else print ;;! print ;;! lift (JsonData_ctor None)
  else print ;;! lift (JsonData_ctor None).

(** [GetJsonData]: the constructor runs at the first call only. *)
Definition GetJsonData {D} `{Directories D} (parse : list byte → bool * JsonValue) (conf : list byte)
    (json_data : option JsonData) : M (LogWorld D) (JsonData * option JsonData) :=
  match json_data with
  | Some d => ret (d, json_data)
  | None => let! d := load_config parse conf in ret (d, Some d)
  end.

(** ** [CreateDirectory] against [mkdir -p] *)

(** The directories a path names, outermost first: its prefixes that end where a
    component ends. [fresh] says that the component at the end of [acc] is
    empty. *)
Fixpoint components (acc : list byte) (fresh : bool) (s : list byte) : list (list byte) :=
  let here := if fresh then [] else [acc] in
  match s with
  | [] => here
  | c :: s' => if decide (File.is_sep c) then here ++ components (acc ++ [c]) true s'
               else components (acc ++ [c]) false s'
  end.
Definition ancestors (path : list byte) : list (list byte) := components [] true path.

Definition ensure {D} `{Directories D} (d : D) (p : list byte) : D :=
  if path_exists p d then d else mkdir p d.

(** The reference: make each directory of the path that is not there yet. *)
Definition mkdir_p {D} `{Directories D} (path : list byte) (d : D) : D :=
  if path_exists path d then d else foldl ensure d (ancestors path).

(** ** std::filesystem *)
Module fs.
Section ops.
Context {D : Type} `{Directories D}.
Local Abbreviation M := (M (LogWorld D)).

(** A function of std::filesystem: an error of the system is an exception, here
    an uncaught one. *)
Definition filesystem (f : LogWorld D → LogWorld D) : M unit :=
  let! r := sys in if sr_ret r <? 0 then throw Terminated else modify f.

Definition remove_all (p : list byte) : M unit :=
  filesystem (λ w, set_lw_files (filter (λ f, f.1 ≠ p ∧ ¬ (p ++ bytes "/") `prefix_of` f.1) (lw_files w))
    (set_lw_dirs (remove_tree p (lw_dirs w)) w)).
Definition create_directories (p : list byte) : M unit :=
  filesystem (λ w, set_lw_dirs (mkdir_p p (lw_dirs w)) w).
End ops.
End fs.

Lemma components_run acc b l s :
  Forall (λ c, ¬ File.is_sep c) l →
  components acc b (l ++ s) = components (acc ++ l) (b && bool_decide (l = [])) s.
Proof.
  revert acc b. induction l as [|c l IH]; intros acc b Hl.
  - by rewrite app_nil_r, bool_decide_true, andb_true_r.
  - apply Forall_cons in Hl as [Hc Hl]. cbn. rewrite decide_False, IH by done.
    by rewrite <- app_assoc, andb_false_r.
Qed.

(** The directories above a directory of the path are those before it. *)
Lemma components_above acc b s pre p post :
  components acc b s = pre ++ p :: post →
  ∃ t, p = acc ++ t ∧ components acc b t = pre ++ [p].
Proof.
  revert acc b pre. induction s as [|c s IH]; intros acc b pre E; cbn in E.
  - destruct b; [by destruct pre|]. destruct pre as [|? pre]; [|by destruct pre].
    injection E as <- <-. exists []. by rewrite app_nil_r.
  - destruct (decide (File.is_sep c)) as [Hc|Hc].
    + destruct b; [|destruct pre as [|a pre]].
      * destruct (IH _ _ _ E) as (t & -> & Et). exists (c :: t). rewrite <- app_assoc in *.
        split; [done|]. cbn. by rewrite decide_True.
      * injection E as <- _. exists []. by rewrite app_nil_r.
      * injection E as <- E. destruct (IH _ _ _ E) as (t & -> & Et). exists (c :: t).
        rewrite <- app_assoc in *. split; [done|]. cbn. rewrite decide_True by done. by rewrite Et.
    + destruct (IH _ _ _ E) as (t & -> & Et). exists (c :: t). rewrite <- app_assoc in *.
      split; [done|]. cbn. by rewrite decide_False.
Qed.

Section create.
Context {D : Type} `{DirectoriesOk D}.
Implicit Types d : D.

Lemma create_loop_ok fuel path i d :
  (i ≤ length path)%nat → (length path - i ≤ fuel)%nat →
  File.create_loop fuel path i d = Some (foldl ensure d (components (take i path) true (drop i path))).
Proof.
  revert i d. induction fuel as [|fuel IH]; intros i d Hi Hf; cbn.
  { rewrite decide_False by lia. rewrite drop_ge by lia. done. }
  case_decide as Hlt; [|by rewrite drop_ge by lia].
  assert (Hr : take i path ++ drop i path = path) by apply take_drop.
  set (acc := take i path) in *. set (rest := drop i path) in *.
  assert (Hacc : length acc = i) by (unfold acc; rewrite length_take; lia).
  unfold File.find_first_of. fold rest.
  destruct (list_find File.is_sep rest) as [[k c]|] eqn:Ef; cbn.
  - apply list_find_Some in Ef as (Hk & Hc & Hpre).
    apply take_drop_middle in Hk as Hsplit. set (l1 := take k rest) in *.
    assert (Hl1 : length l1 = k) by (unfold l1; rewrite length_take; apply lookup_lt_Some in Hk; lia).
    assert (Hns : Forall (λ x, ¬ File.is_sep x) l1).
    { apply Forall_lookup_2. intros j y Hj. unfold l1 in Hj.
      apply lookup_take_Some in Hj as [Hj Hjk]. by apply (Hpre j). }
    assert (Hlen : (i + k < length path)%nat).
    { rewrite <- Hr, length_app, Hacc. apply lookup_lt_Some in Hk. lia. }
    assert (Ht : take (i + k + 1) path = acc ++ l1 ++ [c]).
    { rewrite <- Hr, <- Hsplit. rewrite !app_assoc, (cons_middle c), app_assoc.
      apply take_app_length'. rewrite !length_app; cbn. lia. }
    assert (Hd : drop (i + k + 1) path = drop (S k) rest).
    { unfold rest. rewrite drop_drop. f_equal. lia. }
    assert (Hsub : take (i + k) path = acc ++ l1).
    { rewrite <- Hr, <- Hsplit, app_assoc. apply take_app_length'. rewrite length_app. lia. }
    assert (Hcomp : components acc true rest =
      (if decide (k = 0%nat) then [] else [acc ++ l1]) ++
      components (acc ++ l1 ++ [c]) true (drop (S k) rest)).
    { rewrite <- Hsplit at 1. rewrite components_run by done. cbn. rewrite decide_True by done.
      rewrite <- app_assoc. f_equal. destruct (decide (k = 0%nat)) as [Ek|Ek].
      - rewrite bool_decide_true; [done|]. by apply length_zero_iff_nil; rewrite Hl1.
      - rewrite bool_decide_false; [done|]. intros E. by rewrite E in Hl1. }
    rewrite Hcomp. destruct (decide (i + k = i)%nat) as [Ek|Ek].
    + rewrite (decide_True (P := k = 0%nat)) by lia. rewrite IH, Ht, Hd by lia. done.
    + rewrite (decide_False (P := k = 0%nat)) by lia. cbn [app foldl]. unfold ensure at 2.
      rewrite Hsub. destruct (path_exists (acc ++ l1) d); by rewrite IH, Ht, Hd by lia.
  - apply list_find_None in Ef. rewrite <- (app_nil_r rest), components_run by done.
    assert (Hne : rest ≠ []) by (intros E; rewrite <- Hr, E, app_nil_r in Hlt; lia).
    rewrite bool_decide_false by done. cbn. rewrite Hr. unfold ensure.
    destruct (path_exists path d) eqn:Ex; [|done]. by rewrite mkdir_eexist.
Qed.

Lemma ensure_keeps d p q : path_exists q d = true → path_exists q (ensure d p) = true.
Proof. unfold ensure. destruct (path_exists p d); [done|]. apply mkdir_keeps. Qed.

Lemma foldl_ensure_keeps ps d q :
  path_exists q d = true → path_exists q (foldl ensure d ps) = true.
Proof. revert d. induction ps as [|p ps IH]; intros d Hq; cbn; [done|]. by apply IH, ensure_keeps. Qed.

(** mkdir(2) succeeds where the directories above exist. *)
Definition can_make : Prop := ∀ p d,
  (∀ q, q ∈ ancestors p → q ≠ p → path_exists q d = true) → path_exists p (mkdir p d) = true.

Lemma foldl_ensure_makes pre post path d :
  can_make → ancestors path = pre ++ post → Forall (λ p, path_exists p d = true) pre →
  Forall (λ p, path_exists p (foldl ensure d post) = true) (ancestors path).
Proof.
  intros Hmk. revert pre d. induction post as [|p post IH]; intros pre d E Hpre; cbn.
  { by rewrite E, app_nil_r. }
  apply (IH (pre ++ [p])); [by rewrite <- app_assoc|]. apply Forall_app. split.
  - eapply Forall_impl; [exact Hpre|]. intros q. apply ensure_keeps.
  - apply Forall_singleton. unfold ensure. destruct (path_exists p d) eqn:Ep; [done|].
    apply Hmk. intros q Hq Hne. destruct (components_above _ _ _ _ _ _ E) as (t & Et & Ea).
    cbn in Et. subst t. unfold ancestors in Hq. rewrite Ea in Hq.
    apply elem_of_app in Hq as [Hq|Hq%list_elem_of_singleton]; [|done].
    by eapply Forall_forall in Hpre.
Qed.

(** C33: [CreateDirectory] ends after at most as many rounds as the path has
    characters, and does what [mkdir -p] does: it makes exactly the directories
    of the path that are not there, outermost first; so, where nothing else
    forbids it, all of them exist afterwards. *)
Theorem CreateDirectory_makes_path path d :
  File.create_dirs path d = Some (mkdir_p path d) ∧
  (can_make → path_exists path d = false →
   Forall (λ p, path_exists p (mkdir_p path d) = true) (ancestors path)).
Proof.
  unfold File.create_dirs, mkdir_p. destruct (path_exists path d) eqn:Ex; [done|]. split.
  - rewrite create_loop_ok by lia. by rewrite take_0.
  - intros Hmk _. by apply (foldl_ensure_makes []).
Qed.
End create.

(** ** A tree of directories to evaluate with: the names that exist *)
Module NameTree.
Definition parents (p : list byte) : list (list byte) := filter (λ q, q ≠ p) (ancestors p).

#[global] Instance dirs : Directories (gset (list byte)) := {
  path_exists p d := bool_decide (p ∈ d);
  mkdir p d := if decide (Forall (λ q, q ∈ d) (parents p)) then {[p]} ∪ d else d;
  remove_tree p d := filter (λ q, q ≠ p ∧ ¬ (p ++ bytes "/") `prefix_of` q) d }.

#[global] Instance dirs_ok : DirectoriesOk (gset (list byte)).
Proof.
  split; unfold path_exists, mkdir, remove_tree, dirs.
  - intros p d. apply bool_decide_eq_false. set_solver.
  - intros p q d Hq%bool_decide_eq_true. apply bool_decide_eq_true. case_decide; set_solver.
  - intros p d Hp%bool_decide_eq_true. case_decide; [|done]. set_solver.
Qed.

Lemma dirs_can_make : can_make (D := gset (list byte)).
Proof.
  intros p d Hq. unfold path_exists, mkdir, dirs in *. apply bool_decide_eq_true.
  rewrite decide_True; [set_solver|]. apply Forall_forall. intros q [Hne Hin]%list_elem_of_filter.
  specialize (Hq q Hin Hne). by apply bool_decide_eq_true in Hq.
Qed.
End NameTree.

Example demo_ancestors :
  ancestors (bytes "../logfile//a/") = [bytes ".."; bytes "../logfile"; bytes "../logfile//a"].
Proof. by vm_compute. Qed.

Lemma CreateDirectory_makes_path_witness :
  let path := bytes "../logfile//a/" in
  let d : gset (list byte) := {[bytes ".."]} in
  File.create_dirs path d = Some (mkdir_p path d) ∧
  Forall (λ p, path_exists p (mkdir_p path d) = true) (ancestors path).
Proof.
  intros path d. destruct (CreateDirectory_makes_path path d) as [E Hp].
  split; [done|]. apply Hp; [apply NameTree.dirs_can_make|by vm_compute].
Defined.

(** ** stdio when the kernel refuses nothing *)
Section stdio_ok.
Context {D : Type}.
Implicit Types w : LogWorld D.

Definition io_good w : Prop := ∀ n, 0 ≤ sr_ret (lw_oracle w n).

(** From [w] to [w'] no content changes but that of [name]. *)
Record touches (name : list byte) w w' : Prop := {
  to_oracle : lw_oracle w' = lw_oracle w;
  to_dirs : lw_dirs w' = lw_dirs w;
  to_stdout : lw_stdout w' = lw_stdout w;
  to_others m : m ≠ name → content_of m w' = content_of m w }.

#[export] Instance touches_preorder name : PreOrder (touches name).
Proof.
  split; [by split|]. intros w1 w2 w3 [? ? ? H1] [? ? ? H2].
  split; [congruence..|]. intros m Hm. by rewrite H2, H1.
Qed.

Lemma touches_good name w w' : touches name w w' → io_good w → io_good w'.
Proof. intros [E _ _ _] Hg n. rewrite E. apply Hg. Qed.

Lemma touches_none m w w' : content_of m w' = content_of m w → touches m w w' → ∀ n, touches n w w'.
Proof.
  intros Em [? ? ? Ho] n. split; try done. intros k _.
  destruct (decide (k = m)) as [->|]; [done|by apply Ho].
Qed.

Lemma content_append_eq name d w : content_of name (append_file name d w) = content_of name w ++ d.
Proof. unfold content_of, append_file; cbn. by rewrite lookup_insert_eq. Qed.

Lemma content_append_ne name m d w :
  m ≠ name → content_of m (append_file name d w) = content_of m w.
Proof. intros Hm. unfold content_of, append_file; cbn. by rewrite lookup_insert_ne. Qed.

Lemma touches_append name d w : touches name w (append_file name d w).
Proof. split; try done. intros m Hm. by apply content_append_ne. Qed.

(** A system call and what it appends. *)
Lemma touches_call name d w : touches name w (append_file name d (lw_tick w)).
Proof. destruct (touches_append name d (lw_tick w)). by split. Qed.

Lemma sys_ok w : sys w = Ok (lw_oracle w (lw_clock w), lw_tick w).
Proof. done. Qed.

Lemma fopen_ok name w :
  io_good w → ∃ w', fopen name w = Ok (Some (mkFILE name [] false), w') ∧
    touches name w w' ∧ content_of name w' = content_of name w.
Proof.
  intros Hg. unfold fopen. rewrite (bind_Ok _ _ _ _ _ (sys_ok w)).
  rewrite (proj2 (Z.ltb_ge _ _)) by apply Hg. eexists. split; [done|]. split.
  - destruct (touches_call name [] w). by split.
  - transitivity (content_of name (append_file name [] (lw_tick w))); [done|].
    rewrite content_append_eq. by rewrite app_nil_r.
Qed.

Lemma hand_over_ok b data f w :
  io_good w → ∃ k w',
    hand_over b data f w = Ok ((true, mkFILE (f_name f) (zdrop k data) (f_error f)), w') ∧
    touches (f_name f) w w' ∧ content_of (f_name f) w' = content_of (f_name f) w ++ ztake k data ∧
    (b = true → k = zlen data).
Proof.
  intros Hg. unfold hand_over. rewrite (bind_Ok _ _ _ _ _ (sys_ok w)).
  rewrite (proj2 (Z.ltb_ge _ _)) by apply Hg. set (k := if b then _ else _).
  exists k. eexists. split; [done|]. split; [apply touches_call|].
  split; [apply (content_append_eq (f_name f) _ (lw_tick w))|]. by intros ->.
Qed.

Lemma fwrite_ret_ok data f w :
  io_good w → ∃ p w',
    fwrite_ret data (Some f) w = Ok ((true, mkFILE (f_name f) p (f_error f)), w') ∧
    touches (f_name f) w w' ∧
    content_of (f_name f) w' ++ p = content_of (f_name f) w ++ f_pending f ++ data.
Proof.
  intros Hg. unfold fwrite_ret. rewrite (bind_Ok _ _ _ _ _ (ret_Ok f w)).
  destruct (hand_over_ok false (f_pending f ++ data) f w Hg) as (k & w' & E & Ht & Hc & _).
  rewrite E. do 2 eexists. split; [done|]. split; [done|].
  by rewrite Hc, <- app_assoc, ztake_zdrop.
Qed.

Lemma fwrite_ok data f w :
  io_good w → ∃ p w',
    fwrite data (Some f) w = Ok (mkFILE (f_name f) p (f_error f), w') ∧ touches (f_name f) w w' ∧
    content_of (f_name f) w' ++ p = content_of (f_name f) w ++ f_pending f ++ data.
Proof.
  intros Hg. destruct (fwrite_ret_ok data f w Hg) as (p & w' & E & Ht & Hc).
  unfold fwrite. rewrite (bind_Ok _ _ _ _ _ E). by do 2 eexists.
Qed.

Lemma fflush_ok f w :
  io_good w → ∃ w',
    fflush f w = Ok ((true, mkFILE (f_name f) [] (f_error f)), w') ∧ touches (f_name f) w w' ∧
    content_of (f_name f) w' = content_of (f_name f) w ++ f_pending f.
Proof.
  intros Hg. unfold fflush.
  destruct (hand_over_ok true (f_pending f) f w Hg) as (k & w' & E & Ht & Hc & Hk).
  rewrite (Hk eq_refl) in *. exists w'. rewrite zdrop_ge in E by done.
  by rewrite ztake_ge in Hc by done.
Qed.

Lemma fsync_ok f w : ∃ r w', fsync f w = Ok (r, w') ∧ touches (f_name f) w w' ∧
  content_of (f_name f) w' = content_of (f_name f) w ∧
  (r = 0 → lw_synced w' !! f_name f = Some (content_of (f_name f) w)).
Proof.
  unfold fsync. rewrite (bind_Ok _ _ _ _ _ (sys_ok w)). destruct (_ =? _).
  - do 2 eexists. split; [done|]. split_and!; [by split|done|]. intros _. cbn.
    by rewrite lookup_insert_eq.
  - do 2 eexists. split; [done|]. split_and!; [by split|done|done].
Qed.

Lemma when_print b w : ∃ w', when b print w = Ok (tt, w') ∧ ∀ name, touches name w w' ∧
  content_of name w' = content_of name w.
Proof. destruct b; eexists; (split; [done|]); by split. Qed.
End stdio_ok.
