(* ===== verification/ThreadPool.v ===== *)
(** * The logger's thread pool (log_system/logs_code/ThreadPool.hpp)

    Workers take tasks from one queue.  As in [AsyncWorker.v], the steps are the
    critical sections of the mutex, the notifications and the ends of the
    tasks, so every interleaving the mutex allows is a run.  A task ends; what
    it does is the caller's business ([Backup.v]). *)

From stdpp Require Import base tactics numbers list relations.
From Stdlib Require Import ZArith Lia.
From S2P Require Import Prelude.

Module ThreadPool.
Section pool.
Context {T : Type}.

(** Where a worker's [for(;;)] is. *)
Inductive worker_pc :=
  | AtWait          (* about to lock [queue_mutex] and evaluate the predicate *)
  | MustWait        (* the predicate was false; locked, not yet waiting *)
  | Waiting         (* in [condition.wait] *)
  | Running (t : T) (* unlocked, in [task()] *)
  | Returned.

(** Where [~ThreadPool] is, if it is called. *)
Inductive dtor_pc :=
  | Alive
  | Notifying       (* [stop] is set *)
  | Joining
  | Gone.

(** [notifiers]: threads in [enqueue] between the critical section and
    [notify_one]. The last three fields are histories. *)
Record t := mk {
  workers : list worker_pc;
  tasks : list T;
  stop : bool;
  notifiers : nat;
  destructor : dtor_pc;
  submitted : list T;
  started : list T;
  finished : list T }.

Implicit Types (p : t) (ws : list worker_pc).

Definition ctor (threads : nat) : t :=
  mk (replicate threads AtWait) [] false 0 Alive [] [] [].

Definition set_workers ws p : t :=
  mk ws (tasks p) (stop p) (notifiers p) (destructor p) (submitted p) (started p) (finished p).

(** [queue_mutex] is free. *)
Definition unlocked p : Prop := MustWait ∉ workers p.

(** The predicate of the wait. *)
Definition wake_up p : bool := stop p || negb (bool_decide (tasks p = [])).

(** The critical section of [enqueue]. *)
Definition enqueue (task : T) p : outcome t :=
  if stop p then Fault RuntimeError
  else Ok (mk (workers p) (tasks p ++ [task]) (stop p) (S (notifiers p)) (destructor p)
             (submitted p ++ [task]) (started p) (finished p)).

(** The rest of a worker's critical section after the wait: the worker is the
    one between [ws1] and [ws2]. *)
Definition section ws1 ws2 p : t :=
  match tasks p with
  | [] => set_workers (ws1 ++ Returned :: ws2) p
  | task :: rest =>
      mk (ws1 ++ Running task :: ws2) rest (stop p) (notifiers p) (destructor p)
        (submitted p) (started p ++ [task]) (finished p)
  end.

(** [condition.notify_all()]. *)
Definition notified (w : worker_pc) : worker_pc :=
  match w with Waiting => AtWait | _ => w end.

Inductive notify_one : list worker_pc → list worker_pc → Prop :=
  | notify_none ws : Waiting ∉ ws → notify_one ws ws
  | notify_some ws1 ws2 : notify_one (ws1 ++ Waiting :: ws2) (ws1 ++ AtWait :: ws2).

Inductive worker_step p : t → Prop :=
  | w_must_wait ws1 ws2 :
      workers p = ws1 ++ AtWait :: ws2 → unlocked p → wake_up p = false →
      worker_step p (set_workers (ws1 ++ MustWait :: ws2) p)
  | w_wait ws1 ws2 :
      workers p = ws1 ++ MustWait :: ws2 → worker_step p (set_workers (ws1 ++ Waiting :: ws2) p)
  | w_spurious ws1 ws2 :
      workers p = ws1 ++ Waiting :: ws2 → worker_step p (set_workers (ws1 ++ AtWait :: ws2) p)
  | w_section ws1 ws2 :
      workers p = ws1 ++ AtWait :: ws2 → unlocked p → wake_up p = true →
      worker_step p (section ws1 ws2 p)
  | w_end ws1 ws2 task :
      workers p = ws1 ++ Running task :: ws2 →
      worker_step p (mk (ws1 ++ AtWait :: ws2) (tasks p) (stop p) (notifiers p) (destructor p)
        (submitted p) (started p) (finished p ++ [task])).

(** [enqueue] by any thread; one on a stopped pool throws and changes nothing. *)
Inductive enqueue_step p : t → Prop :=
  | e_push task p' : unlocked p → enqueue task p = Ok p' → enqueue_step p p'
  | e_notify n ws :
      notifiers p = S n → notify_one (workers p) ws →
      enqueue_step p (mk ws (tasks p) (stop p) n (destructor p)
        (submitted p) (started p) (finished p)).

(** [~ThreadPool]. *)
Inductive dtor_step p : t → Prop :=
  | d_stop :
      destructor p = Alive → unlocked p →
      dtor_step p (mk (workers p) (tasks p) true (notifiers p) Notifying
        (submitted p) (started p) (finished p))
  | d_notify_all :
      destructor p = Notifying →
      dtor_step p (mk (notified <$> workers p) (tasks p) (stop p) (notifiers p) Joining
        (submitted p) (started p) (finished p))
  | d_joined :
      destructor p = Joining → Forall (λ w, w = Returned) (workers p) →
      dtor_step p (mk (workers p) (tasks p) (stop p) (notifiers p) Gone
        (submitted p) (started p) (finished p)).

Definition step p p' : Prop := worker_step p p' ∨ enqueue_step p p' ∨ dtor_step p p'.

Definition reachable (threads : nat) p : Prop := rtc step (ctor threads) p.

(** ** Invariant *)

(** The tasks in the hands of workers. *)
Definition running_task (w : worker_pc) : option T :=
  match w with Running task => Some task | _ => None end.
Definition running p : list T := omap running_task (workers p).

Definition awake (w : worker_pc) : Prop :=
  match w with AtWait | Running _ => True | _ => False end.

Record pool_inv (threads : nat) p : Prop := {
  pi_length : length (workers p) = threads;
  pi_order : submitted p = started p ++ tasks p;
  pi_runs : started p ≡ₚ finished p ++ running p;
  pi_must : MustWait ∈ workers p → tasks p = [] ∧ stop p = false;
  pi_wake : tasks p ≠ [] → stop p = false → workers p ≠ [] →
    Exists awake (workers p) ∨ (0 < notifiers p)%nat;
  pi_stop : stop p = true ↔ destructor p ≠ Alive;
  pi_join : destructor p = Joining ∨ destructor p = Gone → Waiting ∉ workers p;
  pi_returned : Returned ∈ workers p → stop p = true ∧ tasks p = [];
  pi_gone : destructor p = Gone → Forall (λ w, w = Returned) (workers p) }.

Lemma running_ctor threads : running (ctor threads) = [].
Proof. unfold running; cbn. by induction threads. Qed.

Lemma pool_inv_ctor threads : pool_inv threads (ctor threads).
Proof.
  assert (Hw : ∀ w, w ∈ workers (ctor threads) → w = AtWait)
    by (intros w Hin; by apply elem_of_replicate in Hin as [? _]).
  split; cbn; try done.
  - apply length_replicate.
  - change ([] ≡ₚ running (ctor threads)). by rewrite running_ctor.
  - by intros [].
  - by intros ?%Hw.
Qed.

(** Replacing one worker. *)
Lemma elem_of_middle (w x y : worker_pc) ws1 ws2 :
  w ∈ ws1 ++ x :: ws2 → w = x ∨ w ∈ ws1 ++ y :: ws2.
Proof. rewrite !elem_of_app, !elem_of_cons. tauto. Qed.

Lemma omap_middle ws1 ws2 w :
  omap running_task (ws1 ++ w :: ws2) =
    omap running_task ws1 ++ option_list (running_task w) ++ omap running_task ws2.
Proof. rewrite omap_app. cbn. by destruct (running_task w). Qed.

Lemma running_middle ws1 ws2 w p :
  workers p = ws1 ++ w :: ws2 →
  running p = omap running_task ws1 ++ option_list (running_task w) ++ omap running_task ws2.
Proof. intros E. unfold running. by rewrite E, omap_middle. Qed.

Lemma Exists_middle (P : worker_pc → Prop) x y ws1 ws2 :
  (P x → P y) → Exists P (ws1 ++ x :: ws2) → Exists P (ws1 ++ y :: ws2).
Proof. rewrite !Exists_app, !Exists_cons. tauto. Qed.

Lemma wake_up_false p : wake_up p = false → tasks p = [] ∧ stop p = false.
Proof. intros [? ?%negb_false_iff%bool_decide_eq_true]%orb_false_iff. done. Qed.

Lemma wake_up_true p : wake_up p = true → tasks p = [] → stop p = true.
Proof. intros [?|H]%orb_true_iff Ht; [done|]. by rewrite bool_decide_true in H. Qed.

(** A worker that waits moves on without touching the queue. *)
Lemma pool_inv_move n ws1 w w' ws2 p :
  workers p = ws1 ++ w :: ws2 → pool_inv n p →
  running_task w = None → running_task w' = None → w ≠ Returned → w' ≠ Returned →
  (w' = MustWait → tasks p = [] ∧ stop p = false) →
  (w' = Waiting → stop p = false) → (tasks p ≠ [] → awake w → awake w') →
  pool_inv n (set_workers (ws1 ++ w' :: ws2) p).
Proof.
  intros E [Hlen Ho Hr Hm Hw Hst Hj Hret Hg] Rw Rw' Nw Nw' Cm Cw Ca.
  assert (Hin : ∀ v, v ∈ ws1 ++ w' :: ws2 → v = w' ∨ v ∈ workers p)
    by (intros v; rewrite E; apply elem_of_middle).
  split; cbn; try done.
  - by rewrite E, !length_app in *.
  - rewrite (running_middle ws1 ws2 w p E), Rw in Hr.
    rewrite omap_middle, Rw'. exact Hr.
  - intros [<-|?]%Hin; auto.
  - intros Ht Hs _. destruct Hw as [Ha|]; [done|done|by rewrite E; destruct ws1| |by right].
    left. rewrite E in Ha. eapply Exists_middle; [|exact Ha]. by apply Ca.
  - intros Hd [Hx|Hx]%Hin; [|by apply Hj]. apply eq_sym, Cw in Hx.
    assert (stop p = true) by (apply Hst; by destruct Hd as [->| ->]). congruence.
  - intros [<-|?]%Hin; auto. done.
  - intros Hd%Hg. rewrite E, Forall_app, Forall_cons in Hd. by destruct Hd as (_ & ? & _).
Qed.

Lemma pool_inv_section n ws1 ws2 p :
  workers p = ws1 ++ AtWait :: ws2 → wake_up p = true → pool_inv n p →
  pool_inv n (section ws1 ws2 p).
Proof.
  intros E Hk [Hlen Ho Hr Hm Hw Hst Hj Hret Hg]. pose proof (wake_up_true _ Hk) as Hk'. unfold section.
  assert (Hin : ∀ w v, v ∈ ws1 ++ w :: ws2 → v = w ∨ v ∈ workers p)
    by (intros w v; rewrite E; apply elem_of_middle).
  assert (Hng : destructor p ≠ Gone).
  { intros Hd%Hg. rewrite E, Forall_app, Forall_cons in Hd. by destruct Hd as (_ & ? & _). }
  rewrite (running_middle _ _ _ _ E) in Hr. cbn in Hr.
  destruct (tasks p) as [|task rest] eqn:Ht; split; cbn; rewrite ?Ht; try done.
  - by rewrite E, !length_app in *.
  - by rewrite omap_middle.
  - intros [?|Hx]%Hin; [done|]. destruct (Hm Hx). split; auto.
  - intros Hd [?|Hx]%Hin; [done|]. by apply Hj.
  - intros _. auto.
  - by rewrite E, !length_app in *.
  - by rewrite Ho, <- app_assoc.
  - rewrite omap_middle, Hr. cbn. solve_Permutation.
  - intros [?|Hx]%Hin; [done|]. by destruct (Hm Hx).
  - intros _ _ _. left. rewrite Exists_app, Exists_cons. right. by left.
  - intros Hd [?|Hx]%Hin; [done|]. by apply Hj.
  - intros [?|Hx]%Hin; [done|]. by destruct (Hret Hx).
Qed.

Lemma pool_inv_end n ws1 ws2 task p :
  workers p = ws1 ++ Running task :: ws2 → pool_inv n p →
  pool_inv n (mk (ws1 ++ AtWait :: ws2) (tasks p) (stop p) (notifiers p) (destructor p)
    (submitted p) (started p) (finished p ++ [task])).
Proof.
  intros E [Hlen Ho Hr Hm Hw Hst Hj Hret Hg].
  assert (Hin : ∀ v, v ∈ ws1 ++ AtWait :: ws2 → v = AtWait ∨ v ∈ workers p)
    by (intros v; rewrite E; apply elem_of_middle).
  rewrite (running_middle _ _ _ _ E) in Hr. cbn in Hr.
  split; cbn; try done.
  - by rewrite E, !length_app in *.
  - rewrite omap_middle, Hr. cbn. solve_Permutation.
  - intros [?|Hx]%Hin; [done|]. by apply Hm.
  - intros _ _ _. left. rewrite Exists_app, Exists_cons. right. by left.
  - intros Hd [?|Hx]%Hin; [done|]. by apply Hj.
  - intros [?|Hx]%Hin; [done|]. by apply Hret.
  - intros Hd%Hg. rewrite E, Forall_app, Forall_cons in Hd. by destruct Hd as (_ & ? & _).
Qed.

Lemma pool_inv_worker n p p' : worker_step p p' → pool_inv n p → pool_inv n p'.
Proof.
  intros Hs Hi. destruct Hs as [ws1 ws2 E Hu Hk|ws1 ws2 E|ws1 ws2 E|ws1 ws2 E Hu Hk|ws1 ws2 task E].
  - apply wake_up_false in Hk as [Ht Hs]. by eapply pool_inv_move.
  - destruct (pi_must _ _ Hi) as [Ht Hs]; [rewrite E; set_solver|]. by eapply pool_inv_move.
  - by eapply pool_inv_move.
  - by apply pool_inv_section.
  - by apply pool_inv_end.
Qed.

(** Notifications only wake workers. *)
Lemma notify_one_middle ws ws' :
  notify_one ws ws' →
  (ws' = ws ∧ Waiting ∉ ws) ∨ ∃ ws1 ws2, ws = ws1 ++ Waiting :: ws2 ∧ ws' = ws1 ++ AtWait :: ws2.
Proof. intros []; [by left|right; eauto]. Qed.

Lemma pool_inv_enqueue n p p' : enqueue_step p p' → pool_inv n p → pool_inv n p'.
Proof.
  intros Hs Hi. destruct Hs as [task p' Hu E|k ws Hk Hnot].
  - destruct Hi as [Hlen Ho Hr Hm Hw Hst Hj Hret Hg]. unfold enqueue in E.
    destruct (stop p) eqn:Es; [done|]. injection E as <-. split; cbn; rewrite ?Es; try done.
    + by rewrite Ho, app_assoc.
    + intros _ _ _. right. lia.
    + intros Hx%Hret. by destruct Hx.
  - destruct (notify_one_middle _ _ Hnot) as [[-> Hnw]|(ws1 & ws2 & E & ->)].
    + destruct Hi as [Hlen Ho Hr Hm Hw Hst Hj Hret Hg]. split; cbn; try done.
      intros Ht Hs Hne. left. destruct (Hw Ht Hs Hne) as [|_]; [done|].
      destruct (workers p) as [|w ws] eqn:Ew; [done|]. apply Exists_cons. left.
      destruct w; cbn; try done.
      * destruct Hm; [left|]. done.
      * apply Hnw. left.
      * destruct Hret; [left|]. congruence.
    + pose proof (pool_inv_move n ws1 Waiting AtWait ws2 p E Hi) as Hi'.
      destruct Hi' as [Hlen Ho Hr Hm Hw Hst Hj Hret Hg]; try done.
      split; cbn; try done. intros _ _ _. left. apply Exists_app. right. by left.
Qed.

Lemma elem_of_notified w ws : w ∈ notified <$> ws → w ≠ Waiting ∧ (w ∈ ws ∨ w = AtWait).
Proof. intros (x & -> & Hx)%list_elem_of_fmap. destruct x; cbn; auto. Qed.

Lemma running_notified ws : omap running_task (notified <$> ws) = omap running_task ws.
Proof. induction ws as [|w ws IH]; [done|]. destruct w; cbn; by rewrite ?IH. Qed.

Lemma pool_inv_dtor n p p' : dtor_step p p' → pool_inv n p → pool_inv n p'.
Proof.
  intros Hs [Hlen Ho Hr Hm Hw Hst Hj Hret Hg]. destruct Hs as [Hd Hu|Hd|Hd Hall]; split; cbn; try done.
  - by intros [].
  - intros Hx. by destruct (Hret Hx).
  - by rewrite length_fmap.
  - by rewrite running_notified.
  - intros [_ [?|?]]%elem_of_notified; [auto|done].
  - intros Ht Hs. assert (stop p = true) by (apply Hst; by rewrite Hd). congruence.
  - rewrite Hst, Hd. done.
  - intros _ [? _]%elem_of_notified. done.
  - intros [_ [?|?]]%elem_of_notified; [auto|done].
  - rewrite Hst, Hd. done.
  - intros _. apply Hj. by left.
Qed.

Lemma pool_inv_step n p p' : step p p' → pool_inv n p → pool_inv n p'.
Proof. intros [?|[?|?]]; eauto using pool_inv_worker, pool_inv_enqueue, pool_inv_dtor. Qed.

Lemma pool_inv_reachable n p : reachable n p → pool_inv n p.
Proof.
  intros Hr. pose proof (pool_inv_ctor n) as Hi. unfold reachable in Hr.
  induction Hr as [|p1 p2 p3 Hs _ IH]; [done|]. by eapply IH, pool_inv_step.
Qed.

(** C20: under every interleaving of the workers, the callers of [enqueue] and
    the destructor, the tasks accepted so far are those started, in the order
    they were accepted, and those in the queue; each started task has ended or
    is in the hands of one worker, so none is lost or run twice; and while a
    task waits in a pool that has workers, a worker is awake or a caller is
    about to wake one. *)
Theorem pool_runs_each_task_once n p :
  reachable n p →
  submitted p = started p ++ tasks p ∧
  started p ≡ₚ finished p ++ running p ∧ (length (running p) ≤ n)%nat ∧
  (tasks p ≠ [] → (0 < n)%nat → Exists awake (workers p) ∨ (0 < notifiers p)%nat ∨
     destructor p = Notifying).
Proof.
  intros Hr. destruct (pool_inv_reachable _ _ Hr) as [Hlen Ho Hrun Hm Hw Hst Hj Hret Hg].
  split_and!; [done|done| |].
  - rewrite <- Hlen. unfold running. clear. induction (workers p) as [|w ws IH]; cbn; [lia|].
    destruct (running_task w); cbn; lia.
  - intros Ht Hn. assert (Hne : workers p ≠ []) by (intros E; rewrite E in Hlen; cbn in Hlen; lia).
    destruct (stop p) eqn:Es; [|destruct (Hw Ht eq_refl Hne); auto].
    destruct (destructor p) eqn:Ed; [by destruct (proj1 Hst eq_refl)|auto|..].
    + left. destruct (workers p) as [|w ws]; [done|]. apply Exists_cons. left.
      destruct w; cbn; try done.
      * by destruct Hm; [left|].
      * destruct Hj; [by left|left].
      * by destruct Hret; [left|].
    + exfalso. specialize (Hg eq_refl). destruct (workers p) as [|w ws]; [done|].
      apply Forall_cons in Hg as [-> _]. by destruct Hret; [left|].
Qed.

(** ** The destructor *)

(** What is left to do once the destructor waits for the workers. *)
Definition worker_work (w : worker_pc) : nat :=
  match w with Running _ => 2 | Returned => 0 | _ => 1 end.
Definition work p : nat :=
  2 * length (tasks p) + sum_list_with worker_work (workers p) + notifiers p +
  match destructor p with Gone => 0 | _ => 1 end.

Definition closing p : Prop := destructor p = Joining ∨ destructor p = Gone.

(** Every step from there works something off, and accepts no new task. *)
Lemma closing_step n p p' :
  pool_inv n p → closing p → step p p' →
  (work p' < work p)%nat ∧ closing p' ∧ submitted p' = submitted p.
Proof.
  intros [Hlen Ho Hr Hm Hw Hst Hj Hret Hg] Hc Hs.
  assert (Es : stop p = true) by (apply Hst; by destruct Hc as [->| ->]).
  assert (Hnw : Waiting ∉ workers p) by by apply Hj.
  assert (Hnm : MustWait ∉ workers p) by (intros Hx; destruct (Hm Hx); congruence).
  unfold work, closing in *.
  destruct Hs as [Hs|[Hs|Hs]]; destruct Hs.
  - by apply wake_up_false in H1 as [_ ?]; congruence.
  - exfalso. apply Hnm. rewrite H. set_solver.
  - exfalso. apply Hnw. rewrite H. set_solver.
  - rewrite H. unfold section. destruct (tasks p) as [|task rest] eqn:Et; cbn; rewrite ?Et;
      rewrite !sum_list_with_app; cbn; split_and!; try done; cbn; lia.
  - rewrite H; cbn; rewrite !sum_list_with_app; cbn; split_and!; try done; lia.
  - unfold enqueue in H0. by rewrite Es in H0.
  - apply notify_one_middle in H0 as [[-> _]|(ws1 & ws2 & E & _)]; [|rewrite E in Hnw; set_solver].
    cbn. split_and!; try done; lia.
  - by destruct Hc; congruence.
  - by destruct Hc; congruence.
  - cbn. rewrite H. split_and!; [lia|by right|done].
Qed.

#[local] Instance dtor_pc_dec : EqDecision dtor_pc.
Proof. solve_decision. Defined.
#[local] Instance returned_dec (w : worker_pc) : Decision (w = Returned).
Proof. destruct w; try (by right); by left. Defined.

(** Unless the destructor has returned, somebody can move. *)
Lemma closing_progress n p :
  pool_inv n p → closing p → destructor p ≠ Gone → ∃ p', worker_step p p' ∨ dtor_step p p'.
Proof.
  intros [Hlen Ho Hr Hm Hw Hst Hj Hret Hg] Hc Hd.
  assert (Es : stop p = true) by (apply Hst; by destruct Hc as [->| ->]).
  assert (Hnw : Waiting ∉ workers p) by by apply Hj.
  assert (Hnm : MustWait ∉ workers p) by (intros Hx; destruct (Hm Hx); congruence).
  destruct Hc as [Hc|]; [|done].
  destruct (decide (Forall (λ w, w = Returned) (workers p))) as [Hall|Hall].
  { eexists. right. by apply d_joined. }
  apply not_Forall_Exists in Hall; [|apply _]. apply Exists_exists in Hall as (w & Hin & Hw').
  destruct w as [| | |task|]; [|done|done| |by destruct Hw'];
    apply list_elem_of_split in Hin as (ws1 & ws2 & E).
  - eexists. left. eapply w_section; [done..|]. unfold wake_up. by rewrite Es.
  - eexists. left. by eapply w_end.
Qed.

Lemma closing_run n k p p' :
  pool_inv n p → closing p → nsteps step k p p' →
  (work p' + k ≤ work p)%nat ∧ pool_inv n p' ∧ closing p' ∧ submitted p' = submitted p.
Proof.
  intros Hi Hc Hr. revert Hi Hc. induction Hr as [p|k p1 p2 p3 Hs _ IH]; intros Hi Hc.
  { split_and!; [lia|done..]. }
  destruct (closing_step _ _ _ Hi Hc Hs) as (Hlt & Hc2 & Hsub).
  destruct IH as (Hle & Hi3 & Hc3 & Hsub3); [by eapply pool_inv_step|done|].
  split_and!; [lia|done|done|congruence].
Qed.

(** So it can return, without any other thread. *)
Lemma closing_ends n p : pool_inv n p → closing p →
  ∃ p', rtc (λ a b, worker_step a b ∨ dtor_step a b) p p' ∧ destructor p' = Gone.
Proof.
  remember (work p) as k eqn:Ek. revert p Ek. induction (Nat.lt_wf_0 k) as [k _ IH]. intros p -> Hi Hc.
  destruct (decide (destructor p = Gone)) as [Hd|Hd]; [by exists p|].
  destruct (closing_progress n p Hi Hc Hd) as [p1 Hs1].
  assert (Hs : step p p1) by (unfold step; tauto).
  destruct (closing_step _ _ _ Hi Hc Hs) as (Hlt & Hc1 & _).
  destruct (IH _ Hlt p1 eq_refl) as (p2 & Hr & Hg); [by eapply pool_inv_step|done|].
  exists p2. split; [by eapply rtc_l|done].
Qed.

(** A pool that was never used can be destroyed. *)
Lemma unused_pool_ends threads :
  ∃ p', rtc (λ a b, worker_step a b ∨ dtor_step a b) (ctor threads) p' ∧ destructor p' = Gone.
Proof.
  set (p0 := ctor threads).
  assert (Hu : unlocked p0) by (intros Hin; by apply elem_of_replicate in Hin as [? _]).
  set (p1 := mk (workers p0) [] true 0 Notifying [] [] []).
  set (p2 := mk (notified <$> workers p1) [] true 0 Joining [] [] []).
  assert (H1 : dtor_step p0 p1) by by apply d_stop.
  assert (H2 : dtor_step p1 p2) by by apply d_notify_all.
  destruct (closing_ends threads p2) as (p3 & Hr & Hd); [|by left|].
  { eapply pool_inv_dtor; [exact H2|]. eapply pool_inv_dtor; [exact H1|]. apply pool_inv_ctor. }
  exists p3. split; [|done]. eapply rtc_l; [by right|]. by eapply rtc_l; [right|].
Qed.

(** C22: the destructor of a pool with workers returns, and not before every
    accepted task has been executed. Once it has woken the workers, every run
    is bounded by the work left; a run can be continued until the destructor
    has returned; and then all workers have returned, the queue is empty and
    exactly the accepted tasks have ended. *)
Theorem pool_destructor_drains n p :
  reachable n p → destructor p = Joining → (0 < n)%nat →
  (∀ k p', nsteps step k p p' → (k ≤ work p)%nat) ∧
  (∀ p', rtc step p p' → destructor p' ≠ Gone → ∃ p'', step p' p'') ∧
  (∀ p', rtc step p p' → destructor p' = Gone →
     Forall (λ w, w = Returned) (workers p') ∧ tasks p' = [] ∧ finished p' ≡ₚ submitted p).
Proof.
  intros Hr Hd Hn. pose proof (pool_inv_reachable _ _ Hr) as Hi.
  assert (Hc : closing p) by by left. split_and!.
  - intros k p' Hk. destruct (closing_run _ _ _ _ Hi Hc Hk) as [Hle _]. lia.
  - intros p' [k Hk]%rtc_nsteps_1 Hg. destruct (closing_run _ _ _ _ Hi Hc Hk) as (_ & Hi' & Hc' & _).
    destruct (closing_progress _ _ Hi' Hc' Hg) as [p'' Hs]. exists p''. unfold step. tauto.
  - intros p' [k Hk]%rtc_nsteps_1 Hg.
    destruct (closing_run _ _ _ _ Hi Hc Hk) as (_ & [Hlen Ho Hrun _ _ _ _ Hret Hgone] & _ & Hsub).
    pose proof (Hgone Hg) as Hall. split; [done|].
    assert (Ht : tasks p' = []).
    { destruct (workers p') as [|w ws] eqn:E; [by rewrite <- Hlen in Hn; apply Nat.nlt_0_r in Hn|].
      apply Forall_cons in Hall as [-> _]. by apply Hret; left. }
    split; [done|]. rewrite <- Hsub, Ho, Ht, app_nil_r, Hrun.
    replace (running p') with (@nil T); [by rewrite app_nil_r|].
    unfold running. clear -Hall. induction Hall as [|w ws -> _ IH]; [done|exact IH].
Qed.
(** ** The futures *)

(** A wake-up nobody asked for. *)
Inductive spurious p : t → Prop :=
  | spurious_wake ws1 ws2 :
      workers p = ws1 ++ Waiting :: ws2 → spurious p (set_workers (ws1 ++ AtWait :: ws2) p).

(** The steps that are taken for the tasks there are: those of the workers and
    the notifications. *)
Definition progress p p' : Prop :=
  (worker_step p p' ∨ enqueue_step p p') ∧ submitted p' = submitted p ∧ ¬ spurious p p'.

(** What is left to do for them. *)
Definition worker_steps (w : worker_pc) : nat :=
  match w with Running _ => 3 | AtWait => 2 | MustWait => 1 | Waiting | Returned => 0 end.
Definition to_do p : nat :=
  2 * length (tasks p) + sum_list_with worker_steps (workers p) + 3 * notifiers p.

Lemma sum_middle (f : worker_pc → nat) ws1 w ws2 :
  sum_list_with f (ws1 ++ w :: ws2) = (sum_list_with f (ws1 ++ ws2) + f w)%nat.
Proof. rewrite !sum_list_with_app. cbn. lia. Qed.

(** Count with the worker of [E] apart. *)
Ltac count E := rewrite E; cbn; rewrite ?sum_middle; cbn.

Lemma progress_step p p' : progress p p' → (to_do p' < to_do p)%nat ∧ destructor p' = destructor p.
Proof.
  intros ([Hs|Hs] & Hsub & Hns); unfold to_do;
    [destruct Hs as [ws1 ws2 E _ _|ws1 ws2 E|ws1 ws2 E|ws1 ws2 E _ _|ws1 ws2 task E]
    |destruct Hs as [task p' _ He|n ws E Hn]].
  - count E. split; [lia|done].
  - count E. split; [lia|done].
  - destruct Hns. by constructor.
  - rewrite E. unfold section. destruct (tasks p) eqn:Et; cbn; rewrite ?Et, !sum_middle; cbn;
      (split; [lia|done]).
  - count E. split; [lia|done].
  - unfold enqueue in He. destruct (stop p); [done|]. injection He as <-. cbn in Hsub.
    apply (f_equal length) in Hsub. rewrite length_app in Hsub. cbn in Hsub. lia.
  - rewrite E; cbn. apply notify_one_middle in Hn as [[-> _]|(ws1 & ws2 & Ew & ->)];
      [|rewrite Ew, !sum_middle; cbn]; (split; [lia|done]).
Qed.

Lemma progress_run n k p p' :
  pool_inv n p → nsteps progress k p p' →
  (to_do p' + k ≤ to_do p)%nat ∧ pool_inv n p' ∧ destructor p' = destructor p ∧
  submitted p' = submitted p.
Proof.
  intros Hi Hr. revert Hi. induction Hr as [p|k p1 p2 p3 Hs _ IH]; intros Hi.
  { split_and!; [lia|done..]. }
  destruct (progress_step _ _ Hs) as [Hlt Hd]. destruct Hs as (Hs & Hsub & _).
  destruct IH as (Hle & Hi3 & Hd3 & Hsub3).
  { apply (pool_inv_step n p1); [|done]. unfold step. tauto. }
  split_and!; [lia|done|congruence|congruence].
Qed.

(** A worker of a kind, or none. *)
Lemma first_worker (f : worker_pc → bool) ws :
  (∃ ws1 w ws2, ws = ws1 ++ w :: ws2 ∧ f w = true) ∨ Forall (λ w, f w = false) ws.
Proof.
  induction ws as [|w ws [(ws1 & w' & ws2 & -> & Hw)|IH]]; [by right| |].
  - left. by exists (w :: ws1), w', ws2.
  - destruct (f w) eqn:Ew; [left; by exists [], w, ws|right; by constructor].
Qed.

Lemma not_spurious p p' : to_do p' ≠ (to_do p + 2)%nat → ¬ spurious p p'.
Proof. intros Hq Hp. apply Hq. destruct Hp as [ws1 ws2 E]. unfold to_do. count E. lia. Qed.

(** The first worker to move: one that runs a task, else one that is about to
    wait, else one at the predicate. *)
Definition runs (w : worker_pc) : bool := match w with Running _ => true | _ => false end.
Definition must_wait (w : worker_pc) : bool := match w with MustWait => true | _ => false end.
Definition at_wait (w : worker_pc) : bool := match w with AtWait => true | _ => false end.
Definition idle (w : worker_pc) : Prop := w = Waiting ∨ w = Returned.

Lemma worker_progress n p : pool_inv n p → stop p = false →
  (∃ p', progress p p') ∨ Forall idle (workers p).
Proof.
  intros Hi Hs.
  destruct (first_worker runs (workers p)) as [(ws1 & w & ws2 & E & Hk)|Hrun].
  { left. destruct w as [| | |task|]; try done. eexists. split_and!; [left; by apply w_end|done|].
    apply not_spurious. unfold to_do. count E. lia. }
  destruct (first_worker must_wait (workers p)) as [(ws1 & w & ws2 & E & Hk)|Hmust].
  { left. destruct w; try done. eexists. split_and!; [left; by apply w_wait|done|].
    apply not_spurious. unfold to_do. count E. lia. }
  assert (Hu : unlocked p) by (intros Hin; by apply (proj1 (Forall_forall _ _) Hmust) in Hin).
  destruct (first_worker at_wait (workers p)) as [(ws1 & w & ws2 & E & Hk)|Hat].
  - left. destruct w; try done. destruct (wake_up p) eqn:Ek.
    + pose proof (wake_up_true _ Ek) as Ht. rewrite Hs in Ht.
      eexists. split_and!; [left; by apply w_section|by unfold section; destruct (tasks p)|].
      apply not_spurious. unfold section, to_do. destruct (tasks p); [by discriminate Ht|]. count E. lia.
    + eexists. split_and!; [left; by apply w_must_wait|done|].
      apply not_spurious. unfold to_do. count E. lia.
  - right. apply Forall_forall. intros w Hin. rewrite Forall_forall in Hrun, Hmust, Hat.
    specialize (Hrun w Hin). specialize (Hmust w Hin). specialize (Hat w Hin).
    unfold idle. destruct w; naive_solver.
Qed.

Lemma idle_runs_none ws : Forall idle ws → omap running_task ws = [].
Proof. induction 1 as [|w ws [-> | ->] _ IH]; done. Qed.

(** If a task has not ended, somebody can move for it. *)
Lemma unfinished_progress n p : pool_inv n p → (0 < n)%nat → destructor p = Alive →
  (∃ p', progress p p') ∨ (tasks p = [] ∧ finished p ≡ₚ submitted p).
Proof.
  intros Hi Hn Hd. assert (Hs : stop p = false).
  { destruct (stop p) eqn:E; [by destruct (proj1 (pi_stop _ _ Hi) E)|done]. }
  destruct (worker_progress _ _ Hi Hs) as [|Hidle]; [by left|].
  destruct Hi as [Hlen Ho Hr _ Hw _ _ _ _]. destruct (decide (length (tasks p) = 0)%nat) as [Et|Et].
  { apply nil_length_inv in Et. right. split; [done|]. rewrite Ho, Hr, Et, app_nil_r. unfold running.
    by rewrite idle_runs_none, app_nil_r. }
  left. destruct Hw as [Ha|Hk]; [by intros E; rewrite E in Et|done| | |].
  { intros E. rewrite E in Hlen. cbn in Hlen. lia. }
  { exfalso. apply Exists_exists in Ha as (w & Hin & Ha).
    by destruct (proj1 (Forall_forall _ _) Hidle _ Hin) as [-> | ->]. }
  destruct (notifiers p) as [|k] eqn:Ek; [lia|].
  assert (∃ ws, notify_one (workers p) ws) as [ws Hnot].
  { destruct (first_worker (λ w, match w with Waiting => true | _ => false end) (workers p))
      as [(ws1 & w & ws2 & E & Hw')|Hwait].
    - destruct w; try done. eexists. rewrite E. apply notify_some.
    - eexists. apply notify_none. intros Hin. by apply (proj1 (Forall_forall _ _) Hwait) in Hin. }
  eexists. split_and!; [right; by eapply e_notify|done|]. intros Hp. inversion Hp. lia.
Qed.

(** C21: the futures of a pool that has workers and is not being destroyed
    become ready: without new tasks and spurious wake-ups it takes no more
    steps than [to_do] counts, and it can take one unless every accepted task
    has ended. *)
Theorem pool_futures_ready n p :
  reachable n p → (0 < n)%nat → destructor p = Alive →
  (∀ k p', nsteps progress k p p' → (k ≤ to_do p)%nat) ∧
  (∀ p', rtc progress p p' →
     (∃ p'', progress p' p'') ∨ (tasks p' = [] ∧ finished p' ≡ₚ submitted p)).
Proof.
  intros Hr Hn Hd. pose proof (pool_inv_reachable _ _ Hr) as Hi. split.
  - intros k p' Hk. destruct (progress_run _ _ _ _ Hi Hk) as [Hle _]. lia.
  - intros p' [k Hk]%rtc_nsteps_1. destruct (progress_run _ _ _ _ Hi Hk) as (_ & Hi' & Hd' & <-).
    by apply (unfinished_progress n); [..|congruence].
Qed.

(** A pool of no workers never starts a task: the future of [enqueue] is never
    ready. *)
Theorem pool_without_workers p : reachable 0 p → started p = [] ∧ finished p = [].
Proof.
  intros Hr. cut (workers p = [] ∧ started p = [] ∧ finished p = []); [tauto|].
  unfold reachable in Hr. assert (H0 : workers (ctor 0) = [] ∧ started (ctor 0) = [] ∧ finished (ctor 0) = [])
    by done.
  induction Hr as [|p1 p2 p3 Hs _ IH]; [done|]. apply IH. destruct H0 as (Hw & Hs0 & Hf).
  assert (Hno : ∀ ws1 w ws2, workers p1 ≠ ws1 ++ w :: ws2) by (intros [|x ws1] w ws2; by rewrite Hw).
  destruct Hs as [Hs|[Hs|Hs]];
    [by destruct Hs as [? ? E|? ? E|? ? E|? ? E|? ? ? E]; apply Hno in E
    |destruct Hs as [task p' _ He|n ws _ E]|destruct Hs as [_ _|_|_ _]].
  - unfold enqueue in He. destruct (stop p1); [done|]. by injection He as <-.
  - apply notify_one_middle in E as [[-> _]|(? & ? & E & _)]; [done|by apply Hno in E].
  - done.
  - cbn. by rewrite Hw.
  - done.
Qed.
End pool.
Arguments t : clear implicits.
Arguments worker_pc : clear implicits.
End ThreadPool.

(** ** A concrete pool: one worker, one task, and the destructor in its join *)
Import ThreadPool.

Definition demo_closing : ThreadPool.t Z :=
  ThreadPool.mk [AtWait] [7%Z] true 1 Joining [7%Z] [] [].

Lemma demo_closing_reachable : reachable 1 demo_closing.
Proof.
  eapply rtc_l; [right; left; apply (e_push _ 7%Z); [|done]|].
  { by intros ?%list_elem_of_singleton. }
  eapply rtc_l; [right; right; apply d_stop; [done|]|].
  { by intros ?%list_elem_of_singleton. }
  eapply rtc_l; [right; right; by apply d_notify_all|]. done.
Qed.

Lemma pool_runs_each_task_once_witness :
  let p := demo_closing in
  submitted p = started p ++ tasks p ∧
  started p ≡ₚ finished p ++ running p ∧ (length (running p) ≤ 1)%nat ∧
  (tasks p ≠ [] → (0 < 1)%nat → Exists awake (workers p) ∨ (0 < notifiers p)%nat ∨
     destructor p = Notifying).
Proof. intros p. apply pool_runs_each_task_once, demo_closing_reachable. Defined.

Lemma pool_destructor_drains_witness :
  let p := demo_closing in
  (∀ k p', nsteps step k p p' → (k ≤ work p)%nat) ∧
  (∀ p', rtc step p p' → destructor p' ≠ Gone → ∃ p'', step p' p'') ∧
  (∀ p', rtc step p p' → destructor p' = Gone →
     Forall (λ w, w = Returned) (workers p') ∧ tasks p' = [] ∧ finished p' ≡ₚ submitted p).
Proof.
  intros p. apply (pool_destructor_drains 1); [apply demo_closing_reachable|done|lia].
Defined.

(** One worker, which waits, and a task just accepted. *)
Definition demo_busy : ThreadPool.t Z :=
  ThreadPool.mk [Waiting] [7%Z] false 1 Alive [7%Z] [] [].

Lemma demo_busy_reachable : reachable 1 demo_busy.
Proof.
  eapply rtc_l; [left; apply (w_must_wait _ [] []); [done| |done]|].
  { by intros ?%list_elem_of_singleton. }
  eapply rtc_l; [left; by apply (w_wait _ [] [])|].
  eapply rtc_l; [right; left; apply (e_push _ 7%Z); [|done]|]; [|done].
  by intros ?%list_elem_of_singleton.
Qed.

Lemma pool_futures_ready_witness :
  let p := demo_busy in
  (∀ k p', nsteps progress k p p' → (k ≤ 5)%nat) ∧
  (∀ p', rtc progress p p' →
     (∃ p'', progress p' p'') ∨ (tasks p' = [] ∧ finished p' ≡ₚ [7%Z])).
Proof.
  intros p. apply (pool_futures_ready 1); [apply demo_busy_reachable|lia|done].
Defined.

Lemma pool_without_workers_witness :
  let p : ThreadPool.t Z := ThreadPool.mk [] [7%Z] false 1 Alive [7%Z] [] [] in
  started p = [] ∧ finished p = [].
Proof.
  intros p. apply pool_without_workers.
  eapply rtc_l; [right; left; apply (e_push _ 7%Z); [by intros ?%elem_of_nil|done]|done].
Defined.
