(* ===== verification/LogFlush.v ===== *)
(** * Where log data goes (log_system/logs_code/LogFlush.hpp)

    The three [LogFlush] classes: standard output, one file, and files that are
    rolled over when they have reached a size.  A [Flush] returns the object as
    it leaves it. *)

From stdpp Require Import base tactics numbers list gmap strings pretty.
From Stdlib Require Import ZArith Lia.
From S2P Require Import Prelude World LogBuffer Message Files.

Local Open Scope string_scope.
Local Open Scope list_scope.
Local Open Scope Z_scope.
Local Open Scope prog_scope.

Module StdoutFlush.
(** [cout.write]. *)
Definition Flush {D} (data : list byte) : M (LogWorld D) unit :=
  modify (λ w, set_lw_stdout (lw_stdout w ++ data) w).
End StdoutFlush.

Module FileFlush.
Record t := mk {
  filename_ : list byte;
  fs_ : option FILE }.

Section ops.
Context {D : Type} `{Directories D} (cfg : JsonData).
Local Abbreviation M := (M (LogWorld D)).

Definition ctor (filename : list byte) : M t :=
  let! path := lift (File.Path filename) in
  File.CreateDirectory path ;;!
  let! fs := fopen filename in
  when (bool_decide (fs = None)) print ;;!
  ret (mk filename fs).

Definition Flush (data : list byte) (f : t) : M t :=
  let! fs := fwrite data (fs_ f) in
  when (f_error fs) print ;;!
  if flush_log cfg =? 1 then
    let! r := fflush fs in
    when (negb r.1) print ;;!
    ret (mk (filename_ f) (Some r.2))
  else if flush_log cfg =? 2 then
    let! r := fflush fs in
    let! _ := fsync r.2 in
    ret (mk (filename_ f) (Some r.2))
  else ret (mk (filename_ f) (Some fs)).
End ops.
End FileFlush.

Module RollFileFlush.
Record t := mk {
  cnt_ : Z;
  cur_size_ : Z;
  max_size_ : Z;
  basename_ : list byte;
  fs_ : option FILE }.

Section ops.
Context {D : Type} `{Directories D} `{Platform} (cfg : JsonData).
Local Abbreviation M := (M (LogWorld D)).

Definition ctor (filename : list byte) (max_size : Z) : M t :=
  let! path := lift (File.Path filename) in
  File.CreateDirectory path ;;!
  ret (mk 0 0 max_size filename None).

(** The name for the time [now] and the count, already incremented. *)
Definition name_stem (r : t) (now : Z) : list byte :=
  let t := localtime now in
  basename_ r ++ bytes "_" ++ to_string (tm_year t + 1900) ++ to_string (tm_mon t + 1)
    ++ to_string (tm_mday t) ++ to_string (tm_hour t) ++ to_string (tm_min t)
    ++ to_string (tm_sec t).
Definition file_name (r : t) (now cnt : Z) : list byte :=
  name_stem r now ++ bytes "-" ++ to_string cnt ++ bytes ".log".

(** [++cnt_] on a [size_t]. *)
Definition CreateFilename (r : t) : M (list byte * t) :=
  let! now := Date.Now in
  let cnt := wrap64 (cnt_ r + 1) in
  ret (file_name r now cnt, mk cnt (cur_size_ r) (max_size_ r) (basename_ r) (fs_ r)).

Definition InitLogFile (r : t) : M t :=
  if bool_decide (fs_ r = None) || (max_size_ r <=? cur_size_ r) then
    match fs_ r with Some f => fclose f | None => ret tt end ;;!
    let! n := CreateFilename (mk (cnt_ r) (cur_size_ r) (max_size_ r) (basename_ r) None) in
    let! fs := fopen n.1 in
    when (bool_decide (fs = None)) print ;;!
    ret (mk (cnt_ n.2) 0 (max_size_ r) (basename_ r) fs)
  else ret r.

(** [Flush] after [InitLogFile]. *)
Definition write_out (data : list byte) (r : t) : M t :=
  let! fs := fwrite data (fs_ r) in
  when (f_error fs) print ;;!
  let size := wrap64 (cur_size_ r + zlen data) in
  let! s := fflush fs in
  when (negb s.1) print ;;!
  (if flush_log cfg =? 2 then
     let! ok := fsync s.2 in when (negb (ok =? 0)) print
   else ret tt) ;;!
  ret (mk (cnt_ r) size (max_size_ r) (basename_ r) (Some s.2)).

Definition Flush (data : list byte) (r : t) : M t :=
  let! r := InitLogFile r in write_out data r.
End ops.
End RollFileFlush.

Module LogFlush.
Inductive t :=
  | Stdout
  | ToFile (f : FileFlush.t)
  | ToRollFile (r : RollFileFlush.t).

(** The virtual call. *)
Definition Flush {D} `{Directories D} `{Platform} (cfg : JsonData) (data : list byte) (e : t)
    : M (LogWorld D) t :=
  match e with
  | Stdout => StdoutFlush.Flush data ;;! ret Stdout
  | ToFile f => let! f := FileFlush.Flush cfg data f in ret (ToFile f)
  | ToRollFile r => let! r := RollFileFlush.Flush cfg data r in ret (ToRollFile r)
  end.
End LogFlush.

Module LogFlushFactory.
(** [FlushType] with the arguments of its constructor. *)
Inductive flush_args :=
  | StdoutFlush_args
  | FileFlush_args (filename : list byte)
  | RollFileFlush_args (filename : list byte) (max_size : Z).

Definition CreateLog {D} `{Directories D} (args : flush_args) : M (LogWorld D) LogFlush.t :=
  match args with
  | StdoutFlush_args => ret LogFlush.Stdout
  | FileFlush_args filename => let! f := FileFlush.ctor filename in ret (LogFlush.ToFile f)
  | RollFileFlush_args filename max_size =>
      let! r := RollFileFlush.ctor filename max_size in ret (LogFlush.ToRollFile r)
  end.
End LogFlushFactory.

(** ** Names of rolled files *)

Lemma bytes_inj s t : bytes s = bytes t → s = t.
Proof.
  intros E. rewrite <- (String.string_of_list_byte_of_string s),
    <- (String.string_of_list_byte_of_string t). unfold bytes in E. by rewrite E.
Qed.

Lemma to_string_inj a b : to_string a = to_string b → a = b.
Proof. intros E%bytes_inj. by apply (inj pretty) in E. Qed.

(** The count is what stands between the last dash and ".log". *)
Lemma rolled_suffix_inj s t a b :
  0 ≤ a → 0 ≤ b →
  s ++ bytes "-" ++ to_string a ++ bytes ".log" = t ++ bytes "-" ++ to_string b ++ bytes ".log" →
  a = b.
Proof.
  intros Ha Hb E.
  assert (E' : (s ++ bytes "-" ++ to_string a) ++ bytes ".log"
             = (t ++ bytes "-" ++ to_string b) ++ bytes ".log") by by rewrite <- !app_assoc.
  apply (inj (.++ bytes ".log")) in E'. apply (f_equal reverse) in E'.
  rewrite !reverse_app, <- !app_assoc in E'. change (reverse (bytes "-")) with [x2d] in E'.
  assert (Hd : ∀ n, 0 ≤ n → x2d ∉ reverse (to_string n)).
  { intros n Hn. rewrite elem_of_reverse. by apply digits_without; [|apply to_string_digits]. }
  apply (f_equal (split_at x2d)) in E'. cbn [app] in E'.
  rewrite !split_at_app in E' by auto. injection E' as E' _.
  apply to_string_inj. by apply (inj reverse).
Qed.

Section roll.
Context {D : Type} `{Directories D} `{Platform} (cfg : JsonData).
Implicit Types (w : LogWorld D) (r : RollFileFlush.t).
Import RollFileFlush.

Lemma file_name_inj r1 r2 t1 t2 a b :
  0 ≤ a → 0 ≤ b → file_name r1 t1 a = file_name r2 t2 b → a = b.
Proof.
  intros Ha Hb E. by eapply rolled_suffix_inj.
Qed.

(** ** One [Flush] *)

Lemma init_keeps r f w :
  fs_ r = Some f → cur_size_ r < max_size_ r → InitLogFile r w = Ok (r, w).
Proof.
  intros Hf Hc. unfold InitLogFile. rewrite Hf, bool_decide_false by done.
  by rewrite (proj2 (Z.leb_gt _ _)) by done.
Qed.

(** With nothing pending, as after every [Flush]. *)
Definition flushed (fs : option FILE) : Prop := from_option (λ f, f_pending f = []) True fs.

Lemma init_rolls r w :
  io_good w → flushed (fs_ r) → fs_ r = None ∨ max_size_ r ≤ cur_size_ r →
  ∃ now w', InitLogFile r w =
      Ok (mk (wrap64 (cnt_ r + 1)) 0 (max_size_ r) (basename_ r)
            (Some (mkFILE (file_name r now (wrap64 (cnt_ r + 1))) [] false)), w') ∧
    ∀ m, touches m w w' ∧ content_of m w' = content_of m w.
Proof.
  intros Hg Hp Hroll. unfold InitLogFile.
  assert (E0 : bool_decide (fs_ r = None) || (max_size_ r <=? cur_size_ r) = true).
  { apply orb_true_iff. destruct Hroll as [->|?]; [by left|right; by apply Z.leb_le]. }
  rewrite E0.
  assert (E1 : ∃ w1, match fs_ r with Some f => fclose f | None => ret tt end w = Ok (tt, w1) ∧
    ∀ m, touches m w w1 ∧ content_of m w1 = content_of m w).
  { destruct (fs_ r) as [f|]; [|eexists; split; [done|by split]].
    destruct (fflush_ok f w Hg) as (w1 & Ef & Ht & Hc). unfold fclose.
    rewrite (bind_Ok _ _ _ _ _ Ef). eexists. split; [done|]. cbn in Hp. rewrite Hp, app_nil_r in Hc.
    intros m. pose proof (touches_none _ _ _ Hc Ht m) as [? ? ? Ho].
    split; [by split|]. destruct (decide (m = f_name f)) as [->|Hm]; [exact Hc|].
    by apply (to_others _ _ _ Ht). }
  destruct E1 as (w1 & E1 & H1). rewrite (bind_Ok _ _ _ _ _ E1).
  unfold CreateFilename, Date.Now. rewrite !bind_assoc, (bind_Ok _ _ _ _ _ (sys_ok w1)).
  rewrite (bind_Ok _ _ _ _ _ (ret_Ok _ _)), (bind_Ok _ _ _ _ _ (ret_Ok _ _)). cbn [fst snd].
  set (now := sr_ret _). set (name := file_name _ _ _).
  assert (Hg1 : io_good (lw_tick w1)) by exact (touches_good _ _ _ (proj1 (H1 [])) Hg).
  destruct (fopen_ok name (lw_tick w1) Hg1) as (w2 & E2 & Ht2 & Hc2).
  rewrite (bind_Ok _ _ _ _ _ E2). cbn [cnt_]. exists now, w2. split; [done|].
  intros m. destruct (H1 m) as [Ht1 Hc1]. split.
  - etrans; [exact Ht1|]. destruct (touches_none _ _ _ Hc2 Ht2 m). by split.
  - rewrite <- Hc1. destruct (decide (m = name)) as [->|Hm]; [exact Hc2|].
    by apply (to_others _ _ _ Ht2).
Qed.

Lemma write_out_ok data r f w :
  io_good w → fs_ r = Some f → f_pending f = [] →
  ∃ w', write_out cfg data r w =
      Ok (mk (cnt_ r) (wrap64 (cur_size_ r + zlen data)) (max_size_ r) (basename_ r)
            (Some (mkFILE (f_name f) [] (f_error f))), w') ∧
    touches (f_name f) w w' ∧ content_of (f_name f) w' = content_of (f_name f) w ++ data.
Proof.
  intros Hg Hf Hp. unfold write_out. rewrite Hf.
  destruct (fwrite_ok data f w Hg) as (p & w1 & E1 & Ht1 & Hc1). rewrite Hp in Hc1.
  rewrite (bind_Ok _ _ _ _ _ E1). cbn [f_error].
  destruct (when_print (f_error f) w1) as (w2 & E2 & H2). destruct (H2 (f_name f)) as [Ht2 Hc2].
  rewrite (bind_Ok _ _ _ _ _ E2). assert (Ht02 : touches (f_name f) w w2) by by etrans.
  destruct (fflush_ok (mkFILE (f_name f) p (f_error f)) w2) as (w3 & E3 & Ht3 & Hc3);
    [by eapply touches_good|]. cbn [f_name f_error f_pending] in E3, Ht3, Hc3. rewrite (bind_Ok _ _ _ _ _ E3). cbn [fst snd].
  rewrite (bind_Ok _ _ _ _ _ (ret_Ok tt w3 : when (negb true) print w3 = _)).
  assert (E4 : ∃ w4, (if flush_log cfg =? 2 then
      bind (fsync (mkFILE (f_name f) [] (f_error f))) (λ ok, when (negb (ok =? 0)) print)
      else ret tt) w3 = Ok (tt, w4) ∧ touches (f_name f) w3 w4 ∧
      content_of (f_name f) w4 = content_of (f_name f) w3).
  { destruct (_ =? 2); [|by exists w3].
    destruct (fsync_ok (mkFILE (f_name f) [] (f_error f)) w3) as (ok & w4 & E4 & Ht4 & Hc4 & _).
    rewrite (bind_Ok _ _ _ _ _ E4). destruct (when_print (negb (ok =? 0)) w4) as (w5 & E5 & H5).
    destruct (H5 (f_name f)) as [Ht5 Hc5]. exists w5. split; [done|]. split; [by etrans|].
    by rewrite Hc5. }
  destruct E4 as (w4 & E4 & Ht4 & Hc4). rewrite (bind_Ok _ _ _ _ _ E4). exists w4.
  split; [done|]. split; [by etrans; [|etrans]|]. by rewrite Hc4, Hc3, Hc2, Hc1.
Qed.

(** ** Runs of [Flush] *)

Fixpoint flush_all (ds : list (list byte)) r : M (LogWorld D) t :=
  match ds with
  | [] => ret r
  | d :: ds' => bind (Flush cfg d r) (flush_all ds')
  end.

Lemma flush_all_snoc ds d r w :
  flush_all (ds ++ [d]) r w = bind (flush_all ds r) (Flush cfg d) w.
Proof.
  revert r w. induction ds as [|d' ds IH]; intros r w; cbn.
  - unfold bind, ret. by destruct (Flush cfg d r w) as [[]|].
  - rewrite bind_assoc. unfold bind. destruct (Flush cfg d' r w) as [[r1 w1]|]; [|done]. apply IH.
Qed.

Definition total (ds : list (list byte)) : Z := zlen (concat ds).

(** The names of an output depend on its base name. *)
Lemma file_name_base r r0 now k :
  basename_ r = basename_ r0 → file_name r now k = file_name r0 now k.
Proof. intros E. unfold file_name, name_stem. by rewrite E. Qed.

(** The files are [mine] to write. *)
Definition owned_by (mine : list byte → Prop) (r0 : t) : Prop :=
  ∀ now k, 0 ≤ k → mine (file_name r0 now k).

(** [gs]: what went to each file; [ns]: the files. Files that are not [mine]
    may change. *)
Record rolled (mine : list byte → Prop) (r0 : t) (w0 : LogWorld D) (ds : list (list byte)) (gs : list (list (list byte)))
    (ns : list (list byte)) r w : Prop := {
  ro_frame : lw_oracle w = lw_oracle w0;
  ro_data : concat gs = ds;
  ro_files : length ns = length gs;
  ro_cnt : cnt_ r = zlen gs;
  ro_count : zlen gs ≤ zlen ds;
  ro_max : max_size_ r = max_size_ r0;
  ro_base : basename_ r = basename_ r0;
  ro_names i n : ns !! i = Some n → ∃ now, n = file_name r0 now (Z.of_nat i + 1);
  ro_content i n g : ns !! i = Some n → gs !! i = Some g →
    content_of n w = content_of n w0 ++ concat g;
  ro_others n : mine n → n ∉ ns → content_of n w = content_of n w0;
  ro_full i g : gs !! i = Some g → (S i < length gs)%nat → max_size_ r0 ≤ total g;
  ro_size g g' d : g ∈ gs → g = g' ++ [d] → g' = [] ∨ total g' < max_size_ r0;
  ro_open : match last ns, last gs with
            | Some n, Some g => ∃ e, fs_ r = Some (mkFILE n [] e) ∧ cur_size_ r = total g ∧ g ≠ []
            | _, _ => fs_ r = None
            end }.

Lemma total_snoc ds d : total (ds ++ [d]) = total ds + zlen d.
Proof. unfold total. rewrite concat_app, zlen_app. cbn. by rewrite app_nil_r. Qed.
Lemma total_app ds1 ds2 : total (ds1 ++ ds2) = total ds1 + total ds2.
Proof. unfold total. by rewrite concat_app, zlen_app. Qed.
Lemma total_nonneg ds : 0 ≤ total ds.
Proof. apply zlen_nonneg. Qed.

Section runs.
Context (mine : list byte → Prop) (r0 : t) (w0 : LogWorld D) (Hown : owned_by mine r0) (Hg : io_good w0).
Local Abbreviation rolled := (rolled mine r0 w0).

(** What a flush changes of the files that are not [mine]. *)
Definition mine_only w w' : Prop :=
  lw_stdout w' = lw_stdout w ∧ ∀ n, ¬ mine n → content_of n w' = content_of n w.

(** The files are different ones. *)
Lemma rolled_names ds gs ns r w :
  rolled ds gs ns r w → ∀ i j n, ns !! i = Some n → ns !! j = Some n → i = j.
Proof.
  intros Hr i j n Hi Hj. destruct (ro_names _ _ _ _ _ _ _ _ Hr _ _ Hi) as (t1 & E1).
  destruct (ro_names _ _ _ _ _ _ _ _ Hr _ _ Hj) as (t2 & E2).
  rewrite E1 in E2. apply file_name_inj in E2; lia.
Qed.

(** The next record goes to the open file. *)
Lemma rolled_keep ds gs g ns n r w e d :
  rolled ds (gs ++ [g]) (ns ++ [n]) r w → total ds + zlen d < 2 ^ 64 →
  fs_ r = Some (mkFILE n [] e) → cur_size_ r = total g → total g < max_size_ r0 →
  ∃ r' w', Flush cfg d r w = Ok (r', w') ∧
    rolled (ds ++ [d]) (gs ++ [g ++ [d]]) (ns ++ [n]) r' w' ∧ mine_only w w'.
Proof.
  intros Hr Hlen Hf Hcur Hlt. pose proof Hr as [Hfr Hda Hfi Hcn Hco Hma Hba Hna Hct Hot Hfu Hsi Hop].
  destruct (write_out_ok d r (mkFILE n [] e) w) as (w' & E & Ht & Hc);
    [intros k; rewrite Hfr; apply Hg|done|done|]. cbn [f_name f_error] in *.
  do 2 eexists. split.
  { unfold Flush. rewrite (bind_Ok _ _ _ _ _ (init_keeps _ _ _ Hf ltac:(lia))). exact E. }
  split; [|split; [apply Ht|]].
  2: { intros m Hm. apply (to_others _ _ _ Ht). intros ->. apply Hm.
       destruct (Hna (length ns) n) as [t ->]; [by rewrite list_lookup_middle|]. apply Hown. lia. }
  assert (Hln : length ns = length gs) by (rewrite !length_app in Hfi; cbn in Hfi; lia).
  assert (Hne : g ≠ []).
  { rewrite !last_snoc in Hop. by destruct Hop as (? & _ & _ & ?). }
  split; cbn; try done.
  - rewrite <- Hfr. apply Ht.
  - rewrite <- Hda, !concat_app. cbn. by rewrite !app_nil_r, app_assoc.
  - rewrite !length_app; cbn; lia.
  - rewrite Hcn. by rewrite !zlen_app.
  - unfold zlen in Hco |- *. rewrite length_app in Hco. rewrite !length_app. cbn [length] in *. lia.
  - intros i m gi Hi Hgi. destruct (decide (m = n)) as [->|Hm].
    + assert (i = length ns) as -> by (eapply rolled_names; [exact Hr|exact Hi|by rewrite list_lookup_middle]).
      rewrite Hln, list_lookup_middle in Hgi by done. injection Hgi as <-.
      rewrite Hc, (Hct (length ns) n g), concat_app; cbn;
        [by rewrite app_nil_r, app_assoc|by rewrite list_lookup_middle|by rewrite Hln, list_lookup_middle].
    + rewrite (to_others _ _ _ Ht) by done. apply (Hct i); [done|].
      apply lookup_snoc_Some in Hi as [[Hi _]|[_ ?]]; [|congruence].
      rewrite lookup_app_l in Hgi |- * by lia. done.
  - intros m Hmi Hm. rewrite (to_others _ _ _ Ht); [by apply Hot|]. intros ->. set_solver.
  - intros i gi Hgi Hi. rewrite length_app in Hi; cbn in Hi. apply (Hfu i); [|by rewrite length_app; cbn; lia].
    rewrite lookup_app_l in Hgi |- * by lia. done.
  - intros gi g' d' Hin Eg. apply elem_of_app in Hin as [Hin|Hin%list_elem_of_singleton].
    + apply (Hsi gi g' d'); [|done]. set_solver.
    + rewrite Hin in Eg. apply app_inj_tail in Eg as [<- _]. by right.
  - rewrite !last_snoc. exists e. split; [done|]. split; [|by destruct g].
    rewrite total_snoc, Hcur. apply wrap64_small.
    assert (total ds = total (concat gs) + total g) as Eq
      by (rewrite <- Hda, concat_app; cbn; by rewrite app_nil_r, total_app).
    pose proof (total_nonneg g). pose proof (total_nonneg (concat gs)). pose proof (zlen_nonneg d). lia.
Qed.

(** The next record opens a file. *)
Lemma rolled_roll ds gs ns r w d :
  rolled ds gs ns r w → zlen ds + 1 < 2 ^ 64 → zlen d < 2 ^ 64 →
  flushed (fs_ r) → fs_ r = None ∨ max_size_ r ≤ cur_size_ r →
  (∀ g, last gs = Some g → max_size_ r0 ≤ total g) →
  ∃ r' w' n, Flush cfg d r w = Ok (r', w') ∧
    rolled (ds ++ [d]) (gs ++ [[d]]) (ns ++ [n]) r' w' ∧ mine_only w w'.
Proof.
  intros Hr Hlen Hd Hp Hroll Hlast.
  pose proof Hr as [Hfr Hda Hfi Hcn Hco Hma Hba Hna Hct Hot Hfu Hsi Hop].
  assert (Hgw : io_good w) by (intros k; rewrite Hfr; apply Hg).
  destruct (init_rolls r w Hgw Hp Hroll) as (now & w1 & E1 & H1).
  assert (Hcnt : wrap64 (cnt_ r + 1) = zlen gs + 1)
    by (rewrite Hcn; pose proof (zlen_nonneg gs); apply wrap64_small; lia).
  rewrite Hcnt, (file_name_base _ _ _ _ Hba) in E1. set (n := file_name r0 now (zlen gs + 1)) in *.
  assert (Hn : mine n) by (apply Hown; pose proof (zlen_nonneg gs); lia).
  set (r1 := mk _ _ _ _ _) in E1.
  destruct (write_out_ok d r1 (mkFILE n [] false) w1) as (w' & E & Ht & Hc);
    [by eapply touches_good; [apply (H1 n)|]|done|done|]. cbn [f_name f_error] in *.
  assert (Hfresh : n ∉ ns).
  { intros [i Hi]%list_elem_of_lookup. destruct (Hna _ _ Hi) as (t2 & E2).
    apply file_name_inj in E2; [|pose proof (zlen_nonneg gs); lia|lia].
    apply lookup_lt_Some in Hi. rewrite Hfi in Hi. unfold zlen in E2. lia. }
  assert (Hcn0 : content_of n w' = content_of n w0 ++ d).
  { rewrite Hc. destruct (H1 n) as [_ ->]. by rewrite (Hot n Hn Hfresh). }
  assert (Hsame : ∀ m, m ≠ n → content_of m w' = content_of m w).
  { intros m Hm. rewrite (to_others _ _ _ Ht) by done. apply (H1 m). }
  do 3 eexists. split; [unfold Flush; rewrite (bind_Ok _ _ _ _ _ E1); exact E|].
  split; [|split; [rewrite (to_stdout _ _ _ Ht); apply (H1 n)|]].
  2: { intros m Hm. apply Hsame. by intros ->. }
  split; cbn; try done.
  - rewrite (to_oracle _ _ _ Ht). destruct (H1 n) as [Ht1 _]. by rewrite (to_oracle _ _ _ Ht1).
  - rewrite concat_app, Hda. done.
  - rewrite !length_app; cbn; lia.
  - by rewrite zlen_app.
  - unfold zlen in Hco |- *. rewrite !length_app. cbn [length]. rewrite ?length_app. cbn [length]. lia.
  - intros i m [[_ Hi]|[-> <-]]%lookup_snoc_Some; [by apply Hna|].
    exists now. unfold n, zlen. by rewrite Hfi.
  - intros i m g [[Hlt Hi]|[-> <-]]%lookup_snoc_Some Hgi.
    + rewrite lookup_app_l in Hgi by lia. rewrite Hsame; [by apply (Hct i)|].
      intros ->. apply Hfresh. by eapply list_elem_of_lookup_2.
    + rewrite Hfi, list_lookup_middle in Hgi by done. injection Hgi as <-. cbn. by rewrite app_nil_r.
  - intros m Hmi Hm. rewrite Hsame; [apply Hot; [done|]|]; set_solver.
  - intros i g [[Hlt Hi]|[-> <-]]%lookup_snoc_Some Hi2; rewrite length_app in Hi2; cbn in Hi2; [|lia].
    destruct (decide (S i < length gs)%nat); [by eapply Hfu|]. apply Hlast.
    rewrite last_lookup. by replace (pred (length gs)) with i by lia.
  - intros g g' d' [Hin|Hin%list_elem_of_singleton]%elem_of_app Eg; [by eapply Hsi|].
    left. rewrite Hin in Eg. by destruct g' as [|? []].
  - rewrite !last_snoc. exists false. split; [done|]. split; [|done].
    change (total [d]) with (zlen (d ++ [])). rewrite app_nil_r. apply wrap64_small.
    pose proof (zlen_nonneg d). lia.
Qed.

Lemma rolled_step ds gs ns r w d :
  rolled ds gs ns r w → zlen ds + 1 < 2 ^ 64 → total (ds ++ [d]) < 2 ^ 64 →
  ∃ r' w' gs' ns', Flush cfg d r w = Ok (r', w') ∧ rolled (ds ++ [d]) gs' ns' r' w' ∧ mine_only w w'.
Proof.
  intros Hr Hlen Htot. rewrite total_snoc in Htot. pose proof (total_nonneg ds).
  pose proof (zlen_nonneg d). pose proof (ro_files _ _ _ _ _ _ _ _ Hr) as Hfi.
  pose proof (ro_open _ _ _ _ _ _ _ _ Hr) as Hop. pose proof (ro_max _ _ _ _ _ _ _ _ Hr) as Hma.
  destruct gs as [|g gs _] using rev_ind.
  - destruct ns; [|done]. cbn in Hop.
    destruct (rolled_roll ds [] [] r w d) as (r' & w' & n & E & Hr'); try done; try lia.
    + by rewrite Hop.
    + by left.
    + by do 4 eexists.
  - destruct ns as [|n ns _] using rev_ind; [rewrite length_app in Hfi; cbn in Hfi; lia|].
    rewrite !last_snoc in Hop. destruct Hop as (e & Hf & Hcur & Hne).
    destruct (Z.lt_ge_cases (total g) (max_size_ r0)) as [Hlt|Hge].
    + destruct (rolled_keep ds gs g ns n r w e d) as (r' & w' & E & Hr'); try done.
      by do 4 eexists.
    + destruct (rolled_roll ds (gs ++ [g]) (ns ++ [n]) r w d) as (r' & w' & m & E & Hr');
        try done; try lia.
      * by rewrite Hf.
      * intros g'. rewrite last_snoc. intros [= <-]. done.
      * by do 4 eexists.
Qed.
End runs.

Lemma rolled_start mine r0 w0 : fs_ r0 = None → cnt_ r0 = 0 → rolled mine r0 w0 [] [] [] r0 w0.
Proof. intros Hf Hc. split; try done. by intros ? ? ? ?%not_elem_of_nil. Qed.

(** C19: a [RollFileFlush] loses nothing. From a new object, if the kernel
    refuses no call, any sequence of records goes to a sequence of different
    new-named files, in order and whole: what a file holds at the end is what
    it held before and the records of its group, all of them handed to the
    kernel; no other file changes. A file is left for the next one when it has
    reached the maximal size, and not before: without its last record its
    group is smaller than that, or empty. *)
Theorem roll_files_hold_everything ds r0 w0 :
  io_good w0 → fs_ r0 = None → cnt_ r0 = 0 → zlen ds < 2 ^ 64 → total ds < 2 ^ 64 →
  ∃ r w gs ns, flush_all ds r0 w0 = Ok (r, w) ∧
    concat gs = ds ∧ length ns = length gs ∧ NoDup ns ∧
    (∀ i n g, ns !! i = Some n → gs !! i = Some g →
       content_of n w = content_of n w0 ++ concat g) ∧
    (∀ n, n ∉ ns → content_of n w = content_of n w0) ∧
    (∀ i g, gs !! i = Some g → (S i < length gs)%nat → max_size_ r0 ≤ total g) ∧
    (∀ g g' d, g ∈ gs → g = g' ++ [d] → g' = [] ∨ total g' < max_size_ r0) ∧
    flushed (fs_ r).
Proof.
  intros Hg Hf0 Hc0 Hn Ht.
  assert (Hrun : ∃ r w gs ns, flush_all ds r0 w0 = Ok (r, w) ∧ rolled (λ _, True) r0 w0 ds gs ns r w).
  { induction ds as [|d ds IH] using rev_ind.
    - exists r0, w0, [], []. split; [done|]. by apply rolled_start.
    - rewrite total_snoc in Ht. rewrite zlen_app in Hn. change (zlen [d]) with 1 in Hn.
      pose proof (zlen_nonneg d). destruct IH as (r & w & gs & ns & E & Hr); [lia|lia|].
      destruct (rolled_step (λ _, True) r0 w0 (λ _ _ _, I) Hg ds gs ns r w d)
        as (r' & w' & gs' & ns' & E' & Hr' & _); [done|lia|rewrite total_snoc; lia|].
      exists r', w', gs', ns'. by rewrite flush_all_snoc, (bind_Ok _ _ _ _ _ E). }
  destruct Hrun as (r & w & gs & ns & E & Hr). exists r, w, gs, ns.
  pose proof (rolled_names _ _ _ _ _ _ _ _ Hr) as Hnames. destruct Hr. split_and!; try done.
  - apply NoDup_alt. intros i j n Hi Hj. by eapply Hnames.
  - intros n Hno. by apply ro_others0.
  - destruct (last ns), (last gs); [|by rewrite ro_open0..]. by destruct ro_open0 as (e & -> & _).
Qed.
End roll.

(** ** One file *)
Section file.
Context {D : Type} `{Directories D} (cfg : JsonData).
Implicit Types w : LogWorld D.

(** [Flush] on an open file, if the kernel refuses nothing: the record follows
    what the file and stdio held; with [flush_log] 1 or 2 nothing is left in
    stdio. *)
Lemma file_flush_ok data f fs w :
  io_good w → FileFlush.fs_ f = Some fs →
  ∃ p w', FileFlush.Flush cfg data f w =
      Ok (FileFlush.mk (FileFlush.filename_ f) (Some (mkFILE (f_name fs) p (f_error fs))), w') ∧
    touches (f_name fs) w w' ∧
    content_of (f_name fs) w' ++ p = content_of (f_name fs) w ++ f_pending fs ++ data ∧
    (flush_log cfg = 1 ∨ flush_log cfg = 2 → p = []).
Proof.
  intros Hg Hf. unfold FileFlush.Flush. rewrite Hf.
  destruct (fwrite_ok data fs w Hg) as (p & w1 & E1 & Ht1 & Hc1).
  rewrite (bind_Ok _ _ _ _ _ E1). cbn [f_error].
  destruct (when_print (f_error fs) w1) as (w2 & E2 & H2). destruct (H2 (f_name fs)) as [Ht2 Hc2].
  rewrite (bind_Ok _ _ _ _ _ E2). assert (Ht02 : touches (f_name fs) w w2) by by etrans.
  destruct (fflush_ok (mkFILE (f_name fs) p (f_error fs)) w2) as (w3 & E3 & Ht3 & Hc3);
    [by eapply touches_good|]. cbn [f_name f_error f_pending] in E3, Ht3, Hc3.
  assert (Hc03 : content_of (f_name fs) w3 = content_of (f_name fs) w ++ f_pending fs ++ data)
    by by rewrite Hc3, Hc2, Hc1.
  destruct (flush_log cfg =? 1) eqn:E1'; [|destruct (flush_log cfg =? 2) eqn:E2'].
  - rewrite (bind_Ok _ _ _ _ _ E3). cbn [fst snd].
    rewrite (bind_Ok _ _ _ _ _ (ret_Ok tt w3 : when (negb true) print w3 = _)).
    exists [], w3. split; [done|]. split; [by etrans|]. by rewrite app_nil_r.
  - rewrite (bind_Ok _ _ _ _ _ E3). cbn [fst snd].
    destruct (fsync_ok (mkFILE (f_name fs) [] (f_error fs)) w3) as (ok & w4 & E4 & Ht4 & Hc4 & _).
    rewrite (bind_Ok _ _ _ _ _ E4). exists [], w4. split; [done|].
    cbn [f_name] in *. split; [by etrans; [|etrans]|]. by rewrite app_nil_r, Hc4.
  - exists p, w2. split; [done|]. split; [done|]. split; [by rewrite Hc2|].
    apply Z.eqb_neq in E1', E2'. lia.
Qed.

(** A file that could not be opened: the constructor prints a message and the
    first [Flush] dereferences the null [FILE*]. *)
Lemma failed_open_crashes data name w :
  sr_ret (lw_oracle w (lw_clock w)) < 0 →
  (∃ w', fopen name w = Ok (None, w')) ∧
  FileFlush.Flush cfg data (FileFlush.mk name None) w = Fault NullDeref.
Proof.
  intros Hn. split; [|done]. unfold fopen. rewrite (bind_Ok _ _ _ _ _ (sys_ok w)).
  rewrite (proj2 (Z.ltb_lt _ _)) by done. by eexists.
Qed.
End file.

(** ** A concrete run *)
Definition demo_log_world : LogWorld (gset (list byte)) :=
  mkLogWorld ∅ ∅ {[bytes "log"]} [] (λ _, ret_only 2) 0 [].

Definition demo_roll : RollFileFlush.t := RollFileFlush.mk 0 0 4 (bytes "log/roll") None.

Lemma roll_files_hold_everything_witness :
  let ds := [bytes "abc"; bytes "de"; bytes "fgh"] in
  let r0 := demo_roll in let w0 := demo_log_world in
  ∃ r w gs ns, flush_all shipped_config ds r0 w0 = Ok (r, w) ∧
    concat gs = ds ∧ length ns = length gs ∧ NoDup ns ∧
    (∀ i n g, ns !! i = Some n → gs !! i = Some g →
       content_of n w = content_of n w0 ++ concat g) ∧
    (∀ n, n ∉ ns → content_of n w = content_of n w0) ∧
    (∀ i g, gs !! i = Some g → (S i < length gs)%nat → RollFileFlush.max_size_ r0 ≤ total g) ∧
    (∀ g g' d, g ∈ gs → g = g' ++ [d] → g' = [] ∨ total g' < RollFileFlush.max_size_ r0) ∧
    flushed (RollFileFlush.fs_ r).
Proof. intros ds r0 w0. by apply roll_files_hold_everything. Defined.
