(* ===== verification/Sinks.v ===== *)
(** * What the logger relies on of its outputs

    The logger hands every buffer to each of its [LogFlush]es in turn.  [Sink]
    states what it needs of one: that a flush succeeds, adds the buffer to what
    the output holds, and leaves alone what is not the output's own.  The three
    outputs of [LogFlush.v] are instances, and outputs that own different
    things can be used side by side. *)

From stdpp Require Import base tactics numbers list gmap strings.
From Stdlib Require Import ZArith Lia.
From S2P Require Import Prelude World LogBuffer Message Files LogFlush.

Local Open Scope list_scope.
Local Open Scope Z_scope.
Local Open Scope prog_scope.

Section sinks.
Context {D : Type} `{Directories D} `{Platform} (cfg : JsonData).
Implicit Types (w : LogWorld D) (e : LogFlush.t) (ds : list (list byte)).

(** What can be written to: standard output, or a file. *)
Definition resource : Type := option (list byte).
Definition content_at (r : resource) w : list byte :=
  match r with None => lw_stdout w | Some n => content_of n w end.

(** [holds ds e w]: [e] is the output, and [w] the world, after [ds] was
    flushed; [fits ds]: it can take so much. *)
Class Sink (owns : resource → Prop) (fits : list (list byte) → Prop)
    (holds : list (list byte) → LogFlush.t → LogWorld D → Prop) := {
  sink_flush ds e w d : io_good w → holds ds e w → fits (ds ++ [d]) →
    ∃ e' w', LogFlush.Flush cfg d e w = Ok (e', w') ∧ holds (ds ++ [d]) e' w' ∧
      lw_oracle w' = lw_oracle w ∧ ∀ r, ¬ owns r → content_at r w' = content_at r w;
  sink_frame ds e w w' : lw_oracle w' = lw_oracle w →
    (∀ r, owns r → content_at r w' = content_at r w) → holds ds e w → holds ds e w' }.

(** An output that can take anything. *)
Definition any_size ds : Prop := True.

(** ** Standard output *)
Definition stdout_owns (r : resource) : Prop := r = None.
Definition stdout_holds (s0 : list byte) ds e w : Prop :=
  e = LogFlush.Stdout ∧ lw_stdout w = s0 ++ concat ds.

#[export] Instance stdout_sink s0 : Sink stdout_owns any_size (stdout_holds s0).
Proof.
  split.
  - intros ds e w d _ [-> Hs] _. exists LogFlush.Stdout. eexists. split; [done|].
    split; [split; [done|]|split; [done|]].
    + cbn. by rewrite Hs, concat_app, <- app_assoc; cbn; rewrite app_nil_r.
    + by intros [n|] Hr.
  - intros ds e w w' _ Ho [-> Hs]. split; [done|]. rewrite <- Hs. by apply (Ho None).
Qed.

(** ** One file *)
Definition file_owns (n : list byte) (r : resource) : Prop := r = Some n.

(** An open file of which stdio holds nothing back. *)
Definition writes_to e (n : list byte) : Prop :=
  ∃ name err, e = LogFlush.ToFile (FileFlush.mk name (Some (mkFILE n [] err))).
Definition file_holds (n c0 : list byte) ds e w : Prop :=
  writes_to e n ∧ content_of n w = c0 ++ concat ds.

Lemma file_sink n c0 : flush_log cfg = 1 ∨ flush_log cfg = 2 → Sink (file_owns n) any_size (file_holds n c0).
Proof.
  intros Hcfg. split.
  - intros ds e w d Hg [(name & err & ->) Hc] _.
    destruct (file_flush_ok cfg d (FileFlush.mk name (Some (mkFILE n [] err))) _ w Hg eq_refl)
      as (p & w1 & E1 & Ht & Hc1 & Hp). rewrite (Hp Hcfg) in *. rewrite app_nil_r in Hc1.
    cbn [f_name f_pending f_error app] in *. cbn [LogFlush.Flush].
    rewrite (bind_Ok _ _ _ _ _ E1). do 2 eexists. split; [done|]. split_and!; [|apply Ht|].
    + split; [by do 2 eexists|]. by rewrite Hc1, Hc, concat_app, <- app_assoc; cbn; rewrite app_nil_r.
    + intros [m|] Hr; [|apply Ht]. apply (to_others _ _ _ Ht). intros ->. by apply Hr.
  - intros ds e w w' _ Ho [He Hc]. split; [done|]. rewrite <- Hc. by apply (Ho (Some n)).
Qed.

(** ** A rolling output *)

(** The names it makes. *)
Definition named (r0 : RollFileFlush.t) (n : list byte) : Prop :=
  ∃ now k, 0 ≤ k ∧ n = RollFileFlush.file_name r0 now k.
(** Its counters of files and bytes do not wrap around. *)
Definition counted ds : Prop := zlen ds < 2 ^ 64 ∧ total ds < 2 ^ 64.
Definition roll_owns (r0 : RollFileFlush.t) (r : resource) : Prop := ∃ n, r = Some n ∧ named r0 n.
Definition roll_holds (r0 : RollFileFlush.t) (w0 : LogWorld D) ds e w : Prop :=
  ∃ r gs ns, e = LogFlush.ToRollFile r ∧ rolled (named r0) r0 w0 ds gs ns r w.

#[export] Instance roll_sink r0 w0 : Sink (roll_owns r0) counted (roll_holds r0 w0).
Proof.
  assert (Hown : owned_by (named r0) r0) by (intros now k Hk; by exists now, k).
  split.
  - intros ds e w d Hg (r & gs & ns & -> & Hr) [Hn Ht].
    assert (Hg0 : io_good w0) by (intros k; rewrite <- (ro_frame _ _ _ _ _ _ _ _ Hr); apply Hg).
    rewrite zlen_app in Hn. change (zlen [d]) with 1 in Hn.
    destruct (rolled_step cfg (named r0) r0 w0 Hown Hg0 ds gs ns r w d Hr Hn Ht)
      as (r' & w' & gs' & ns' & E & Hr' & Hs & Ho).
    exists (LogFlush.ToRollFile r'), w'. split; [cbn; by rewrite (bind_Ok _ _ _ _ _ E)|].
    split; [by exists r', gs', ns'|]. split.
    + by rewrite (ro_frame _ _ _ _ _ _ _ _ Hr'), (ro_frame _ _ _ _ _ _ _ _ Hr).
    + intros [n|] Hno; [|exact Hs]. apply Ho. intros Hn'. apply Hno. by exists n.
  - intros ds e w w' Ho Hc (r & gs & ns & -> & Hr). exists r, gs, ns. split; [done|].
    assert (Hsame : ∀ n, named r0 n → content_of n w' = content_of n w)
      by (intros n Hn; apply (Hc (Some n)); by exists n).
    destruct Hr as [Hfr Hda Hfi Hcn Hco Hma Hba Hna Hct Hot Hfu Hsi Hop]. split; try done.
    + by rewrite Ho.
    + intros i n g Hi Hgi. rewrite Hsame; [by apply (Hct i)|].
      destruct (Hna _ _ Hi) as [now ->]. exists now, (Z.of_nat i + 1). split; [lia|done].
    + intros n Hn Hno. rewrite Hsame by done. by apply Hot.
Qed.

(** ** Any of the three *)
(** As its constructor leaves it, if it could open its file. *)
Definition new_output (e0 : LogFlush.t) : Prop :=
  match e0 with
  | LogFlush.Stdout => True
  | LogFlush.ToFile f => ∃ n err, FileFlush.fs_ f = Some (mkFILE n [] err)
  | LogFlush.ToRollFile r => RollFileFlush.fs_ r = None ∧ RollFileFlush.cnt_ r = 0
  end.

Definition file_of (f : FileFlush.t) : list byte := from_option f_name [] (FileFlush.fs_ f).

Definition owns (e0 : LogFlush.t) : resource → Prop :=
  match e0 with
  | LogFlush.Stdout => stdout_owns
  | LogFlush.ToFile f => file_owns (file_of f)
  | LogFlush.ToRollFile r => roll_owns r
  end.
Definition fits (e0 : LogFlush.t) : list (list byte) → Prop :=
  match e0 with LogFlush.ToRollFile _ => counted | _ => any_size end.
Definition holds (e0 : LogFlush.t) w0 : list (list byte) → LogFlush.t → LogWorld D → Prop :=
  match e0 with
  | LogFlush.Stdout => stdout_holds (lw_stdout w0)
  | LogFlush.ToFile f => file_holds (file_of f) (content_of (file_of f) w0)
  | LogFlush.ToRollFile r => roll_holds r w0
  end.

Lemma output_sink e0 w0 : flush_log cfg = 1 ∨ flush_log cfg = 2 → Sink (owns e0) (fits e0) (holds e0 w0).
Proof. intros Hcfg. destruct e0; [apply stdout_sink|by apply file_sink|apply roll_sink]. Qed.

Lemma output_starts e0 w0 : new_output e0 → holds e0 w0 [] e0 w0.
Proof.
  destruct e0 as [|f|r]; cbn.
  - intros _. split; [done|]. by rewrite app_nil_r.
  - destruct f as [name fs]. cbn. intros (n & err & ->). split; [by exists name, err|].
    by rewrite app_nil_r.
  - intros [Hf Hc]. exists r, [], []. split; [done|]. by apply rolled_start.
Qed.

(** Outputs that own different things, and how to see it by their names: a
    rolling output owns names that begin in one way. *)
Definition apart (es : list LogFlush.t) : Prop :=
  ForallOrdPairs (λ e1 e2, ∀ r, owns e1 r → ¬ owns e2 r) es.

Definition stem (r : RollFileFlush.t) : list byte := RollFileFlush.basename_ r ++ bytes "_".
Definition separate (e1 e2 : LogFlush.t) : bool :=
  match e1, e2 with
  | LogFlush.Stdout, LogFlush.Stdout => false
  | LogFlush.Stdout, _ | _, LogFlush.Stdout => true
  | LogFlush.ToFile f1, LogFlush.ToFile f2 => bool_decide (file_of f1 ≠ file_of f2)
  | LogFlush.ToFile f, LogFlush.ToRollFile r | LogFlush.ToRollFile r, LogFlush.ToFile f =>
      bool_decide (¬ stem r `prefix_of` file_of f)
  | LogFlush.ToRollFile r1, LogFlush.ToRollFile r2 =>
      bool_decide (¬ stem r1 `prefix_of` stem r2 ∧ ¬ stem r2 `prefix_of` stem r1)
  end.
Fixpoint all_separate (es : list LogFlush.t) : bool :=
  match es with [] => true | e :: es => forallb (separate e) es && all_separate es end.

Lemma named_stem r n : named r n → stem r `prefix_of` n.
Proof.
  intros (now & k & _ & ->). unfold stem, RollFileFlush.file_name, RollFileFlush.name_stem.
  rewrite <- !app_assoc. apply prefix_app. by apply prefix_app_r.
Qed.

Lemma separate_owns e1 e2 : separate e1 e2 = true → ∀ r, owns e1 r → ¬ owns e2 r.
Proof.
  destruct e1 as [|f1|r1], e2 as [|f2|r2]; cbn; try done.
  - by intros _ r -> [= ].
  - by intros _ r -> (n & [= ] & _).
  - by intros _ r -> [= ].
  - intros Hs%bool_decide_eq_true r -> E. apply Hs. by injection E.
  - intros Hs%bool_decide_eq_true r -> (n & [= E] & Hn%named_stem). apply Hs. by rewrite E.
  - by intros _ r (n & -> & _) [= ].
  - intros Hs%bool_decide_eq_true r (n & -> & Hn%named_stem) [= E]. apply Hs. by rewrite <- E.
  - intros [H1 H2]%bool_decide_eq_true r (n & -> & Hn1%named_stem) (n' & [= <-] & Hn2%named_stem).
    by destruct (prefix_weak_total _ _ _ Hn1 Hn2).
Qed.

Lemma all_separate_apart es : all_separate es = true → apart es.
Proof.
  induction es as [|e es IH]; cbn; [constructor|]. intros [Hs Hes]%andb_true_iff.
  constructor; [|by apply IH]. apply Forall_forall. intros e' He r.
  apply separate_owns. rewrite forallb_forall in Hs. by apply Hs, list_elem_of_In.
Qed.

(** What the output has received since [w0]: a rolling output, in pieces, each
    in a file of its own, and no other of the files it could name has changed. *)
Definition written (e0 : LogFlush.t) w0 (text : list byte) w : Prop :=
  match e0 with
  | LogFlush.Stdout => lw_stdout w = lw_stdout w0 ++ text
  | LogFlush.ToFile f => content_of (file_of f) w = content_of (file_of f) w0 ++ text
  | LogFlush.ToRollFile r => ∃ ns parts, NoDup ns ∧ Forall (named r) ns ∧ concat parts = text ∧
      Forall2 (λ n part, content_of n w = content_of n w0 ++ part) ns parts ∧
      ∀ n, named r n → n ∉ ns → content_of n w = content_of n w0
  end.

Lemma concat_groups (gs : list (list (list byte))) : concat ((λ g, concat g) <$> gs) = concat (concat gs).
Proof. induction gs as [|g gs IH]; [done|]. rewrite fmap_cons. cbn. by rewrite concat_app, IH. Qed.

Lemma holds_written e0 w0 ds e w : holds e0 w0 ds e w → written e0 w0 (concat ds) w.
Proof.
  destruct e0 as [|f|r0]; cbn; [by intros [_ ?]..|]. intros (r & gs & ns & _ & Hr).
  pose proof (rolled_names _ _ _ _ _ _ _ _ Hr) as Hnames.
  destruct Hr as [_ Hda Hfi _ _ _ _ Hna Hct Hot _ _ _].
  exists ns, ((λ g, concat g) <$> gs). split_and!.
  - apply NoDup_alt. intros i j n Hi Hj. by eapply Hnames.
  - apply Forall_lookup. intros i n Hi. destruct (Hna _ _ Hi) as [now ->].
    exists now, (Z.of_nat i + 1). split; [lia|done].
  - by rewrite concat_groups, Hda.
  - apply Forall2_same_length_lookup_2; [by rewrite length_fmap|]. intros i n part Hi Hp.
    rewrite list_lookup_fmap in Hp. destruct (gs !! i) as [g|] eqn:Hg; [|done]. injection Hp as <-.
    by apply (Hct i).
  - intros n Hn Hno. by apply Hot.
Qed.
End sinks.
