(* ===== verification/Backup.v ===== *)
(** * Backup of error messages (log_system/logs_code/backlog/)

    The client, [start_backup], is what the logger's thread pool runs for an
    error or fatal message; the server is a program of its own, whose threads
    append what they read to one file. *)

From stdpp Require Import base tactics numbers list gmap strings pretty.
From Stdlib Require Import ZArith Lia Strings.Ascii.
From S2P Require Import Prelude World Inet LogBuffer Message Files.

Local Open Scope string_scope.
Local Open Scope list_scope.
Local Open Scope Z_scope.
Local Open Scope prog_scope.

(** ** The client (CliBackupLog.cpp) *)
Module CliBackupLog.
Section ops.
Context {D : Type}.
Local Abbreviation M := (M (LogWorld D)).

(** The loop around [connect] with [cnt] retries left; whether it connected. *)
Fixpoint try_connect (cnt : nat) (sock : Z) : M bool :=
  let! r := sys in
  if sr_ret r =? -1 then
    print ;;!
    match cnt with O => print ;;! ret false | S cnt' => try_connect cnt' sock end
  else note (LConnect sock) ;;! ret true.

(** A failed [connect] returns without closing the socket; a short [write] is
    not continued. *)
Definition start_backup (message : list byte) : M unit :=
  let! s := sys in
  let sock := sr_ret s in
  when (sock <? 0) print ;;!
  let! connected := try_connect 5 sock in
  if (connected : bool) then
    let! r := sys in
    (if sr_ret r =? -1 then print else note (LSend sock message (sr_ret r))) ;;!
    note (LClose sock)
  else ret tt.
End ops.
End CliBackupLog.

(** ** The server (ServerBackuplog.hpp, ServerBackuplog.cpp) *)

Module ServerBackuplog.
Definition filename : list byte := bytes "./logfile.log".

Record ThreadData := mkThreadData {
  sock : Z;
  client_ip : list byte;
  client_port : Z }.

Record TcpServer := mkTcpServer {
  listen_sock_ : Z;
  port_ : Z }.

Section ops.
Context {D : Type} `{InetLib}.
Local Abbreviation M := (M (LogWorld D)).

Definition backup_log (message : list byte) : M unit :=
  let! fp := fopen filename in
  when (bool_decide (fp = None)) (print ;;! throw AssertFailure) ;;!
  let! r := fwrite_ret message fp in
  when (negb r.1) (print ;;! throw AssertFailure) ;;!
  let! f := fflush r.2 in
  fclose f.2.

Definition ctor (port : Z) : TcpServer := mkTcpServer 0 port.

Definition init_service (ts : TcpServer) : M TcpServer :=
  let! s := sys in
  when (sr_ret s =? -1) print ;;!
  let! b := sys in
  when (sr_ret b <? 0) print ;;!
  let! l := sys in
  when (sr_ret l <? 0) print ;;!
  ret (mkTcpServer (sr_ret s) (port_ ts)).

(** [read] of at most [cap] bytes: -1, or their number, and the bytes. *)
Definition read (cap : Z) : M (Z * list byte) :=
  let! r := sys in
  if sr_ret r <? 0 then ret (-1, [])
  else let data := ztake cap (sr_data r) in ret (zlen data, data).

(** [stack]: what the 1024 bytes of [buf] hold at first. [func_] is
    [backup_log]. *)
Definition service (stack : list byte) (client_info : list byte) : M unit :=
  let! r := read 1024 in
  if r.1 =? -1 then print ;;! print
  else if 0 <? r.1 then
    let buf := splice 0 r.2 stack in
    let! buf := lift (mem_write r.1 [x00] buf) in
    backup_log (client_info ++ c_string buf)
  else ret tt.

Definition client_info (td : ThreadData) : list byte :=
  client_ip td ++ bytes ":" ++ to_string (client_port td).

Definition threadRoutine (stack : list byte) (td : ThreadData) : M unit :=
  service stack (client_info td) ;;! note (LClose (sock td)).

(** One round of [start_service]: the data for the new thread, if there is a
    connection. *)
Definition accept_one (ts : TcpServer) : M (option ThreadData) :=
  print ;;!
  let! r := sys in
  if sr_ret r =? -1 then print ;;! ret None
  else
    let! buf := lift (Ok (inet_ntop (sin_addr (sr_addr r)))) in
    print ;;! print ;;! print ;;!
    ret (Some (mkThreadData (sr_ret r) (bytes buf) (InetAddress.ntohs (sin_port (sr_addr r))))).

(** [rounds] rounds of the endless loop: what the threads it made are given. *)
Fixpoint start_service (rounds : nat) (ts : TcpServer) : M (list ThreadData) :=
  match rounds with
  | O => ret []
  | S n =>
      let! td := accept_one ts in
      let! tds := start_service n ts in
      ret (option_list td ++ tds)
  end.

Definition usage (procgress : list byte) : M unit := print.

(** stat(2) succeeds; nobody asks. *)
Definition file_exist `{Directories D} (name : list byte) : M bool :=
  let! d := gets lw_dirs in ret (path_exists name d).

(** *** [atoi] *)
Definition is_space (b : byte) : bool := bool_decide (b ∈ [x20; x09; x0a; x0b; x0c; x0d]).

Fixpoint skip_spaces (l : list byte) : list byte :=
  match l with b :: l' => if is_space b then skip_spaces l' else l | [] => [] end.

(** The value of the digits [l] begins with, behind those worth [acc]. *)
Fixpoint leading_digits (acc : Z) (l : list byte) : Z :=
  match l with
  | b :: l' => if bool_decide (is_digit b) then leading_digits (10 * acc + (Z.of_N (Byte.to_N b) - 48)) l'
               else acc
  | [] => acc
  end.

(** Undefined if the number is not an [int]. *)
Definition atoi (s : list byte) : outcome Z :=
  let n := match skip_spaces s with
           | x2d :: l => - leading_digits 0 l
           | x2b :: l => leading_digits 0 l
           | l => leading_digits 0 l
           end in
  if (n <? - 2 ^ 31) || (INT_MAX <? n) then Fault SignedOverflow else Ok n.

(** [main] up to [rounds] rounds of the loop; [None] if it exits before. *)
Definition main (argv : list (list byte)) (rounds : nat) : M (option (list ThreadData)) :=
  if negb (length argv =? 2)%nat then
    let! procgress := deref NullDeref (argv !! 0%nat) in
    usage procgress ;;! print ;;! ret None
  else
    let! arg := deref NullDeref (argv !! 1%nat) in
    let! n := lift (atoi arg) in
    let tcp := ctor (n mod 2 ^ 16) in
    let! tcp := init_service tcp in
    let! tds := start_service rounds tcp in
    ret (Some tds).
End ops.
End ServerBackuplog.

#[export] Instance log_event_eq_dec : EqDecision log_event.
Proof. solve_decision. Defined.

(** ** What the client does *)
Section client.
Context {D : Type}.
Implicit Types w : LogWorld D.

(** What happened, messages on the terminal apart. *)
Definition events w : list log_event := filter (λ e, e ≠ LPrint) (lw_trace w).

(** The result of the [n]-th call from now. *)
Definition result_at (n : nat) w : Z := sr_ret (lw_oracle w (lw_clock w + n)%nat).

(** [n] calls later, with [es] seen since. *)
Record later (n : nat) (es : list log_event) w w' : Prop := {
  la_oracle : lw_oracle w' = lw_oracle w;
  la_clock : lw_clock w' = (lw_clock w + n)%nat;
  la_files : lw_files w' = lw_files w;
  la_events : events w' = events w ++ es }.

Lemma later_trans n1 n2 es1 es2 w1 w2 w3 :
  later n1 es1 w1 w2 → later n2 es2 w2 w3 → later (n1 + n2) (es1 ++ es2) w1 w3.
Proof.
  intros [O1 C1 F1 E1] [O2 C2 F2 E2]. split; [congruence|lia|congruence|].
  by rewrite E2, E1, app_assoc.
Qed.

Lemma later_tick w : later 1 [] w (lw_tick w).
Proof. split; cbn; [done|lia|done|by rewrite app_nil_r]. Qed.

Lemma later_print w : later 0 [] w (lw_log LPrint w).
Proof.
  split; cbn; [done|lia|done|]. unfold events. cbn [lw_trace lw_log]. by rewrite filter_app.
Qed.

Lemma later_note e w : e ≠ LPrint → later 0 [e] w (lw_log e w).
Proof.
  intros He. split; cbn; [done|lia|done|]. unfold events. cbn [lw_trace lw_log].
  by rewrite filter_app, filter_cons_True, filter_nil by done.
Qed.

Lemma print_ok w : print w = Ok (tt, lw_log LPrint w).
Proof. done. Qed.
Lemma note_ok e w : note e w = Ok (tt, lw_log e w).
Proof. done. Qed.

Lemma result_later n k es w w' : later n es w w' → result_at k w' = result_at (n + k) w.
Proof. intros [O C _ _]. unfold result_at. rewrite O, C. do 2 f_equal. lia. Qed.

Lemma try_connect_ok cnt sock w :
  (∀ k, (k ≤ cnt)%nat → (∀ j, (j < k)%nat → result_at j w = -1) → result_at k w ≠ -1 →
     ∃ w', CliBackupLog.try_connect cnt sock w = Ok (true, w') ∧ later (S k) [LConnect sock] w w') ∧
  ((∀ k, (k ≤ cnt)%nat → result_at k w = -1) →
     ∃ w', CliBackupLog.try_connect cnt sock w = Ok (false, w') ∧ later (S cnt) [] w w').
Proof.
  assert (Hfirst : result_at 0 w = sr_ret (lw_oracle w (lw_clock w)))
    by (unfold result_at; by rewrite Nat.add_0_r).
  revert w Hfirst. induction cnt as [|cnt IH]; intros w Hfirst; cbn [CliBackupLog.try_connect];
    rewrite (bind_Ok _ _ _ _ _ (sys_ok w)), <- Hfirst; pose proof (later_tick w) as H1;
    (destruct (Z.eqb_spec (result_at 0 w) (-1)) as [E|E];
      [rewrite (bind_Ok _ _ _ _ _ (print_ok _)); pose proof (later_trans _ _ _ _ _ _ _ H1 (later_print _)) as H2|]).
  - split; [intros k Hk _ Hne; by assert (k = 0%nat) as -> by lia|intros _].
    rewrite (bind_Ok _ _ _ _ _ (print_ok _)). eexists. split; [done|].
    exact (later_trans _ _ _ _ _ _ _ H2 (later_print _)).
  - split; [intros k Hk _ _|intros Hall; by specialize (Hall 0%nat (Nat.le_refl _))].
    assert (k = 0%nat) as -> by lia. rewrite (bind_Ok _ _ _ _ _ (note_ok _ _)). eexists. split; [done|].
    by eapply (later_trans 1 0 []); [exact H1|apply later_note].
  - set (w2 := lw_log LPrint _) in *.
    destruct (IH w2) as [Hok Hfail]; [unfold result_at; by rewrite Nat.add_0_r|]. split.
    + intros [|k] Hk Hj Hne; [done|].
      destruct (Hok k) as (w' & Ew & Hw); [lia|..].
      * intros j Hj'. rewrite (result_later _ _ _ _ _ H2). by apply (Hj (S j)); lia.
      * by rewrite (result_later _ _ _ _ _ H2).
      * exists w'. split; [done|]. exact (later_trans _ _ _ _ _ _ _ H2 Hw).
    + intros Hall. destruct Hfail as (w' & Ew & Hw).
      * intros k Hk. rewrite (result_later _ _ _ _ _ H2). apply (Hall (S k)). lia.
      * exists w'. split; [done|]. exact (later_trans _ _ _ _ _ _ _ H2 Hw).
  - split; [|intros Hall; exfalso; apply E, Hall; lia].
    intros [|k] Hk Hj Hne; [|exfalso; apply E, Hj; lia].
    rewrite (bind_Ok _ _ _ _ _ (note_ok _ _)). eexists. split; [done|].
    by eapply (later_trans 1 0 []); [exact H1|apply later_note].
Qed.

(** [start_backup] returns after at most six attempts to connect, whatever
    happens. If an attempt succeeds, the whole message is given to one [write],
    and the socket is closed; the rest of a message that the kernel takes only
    in part is lost. If all fail, nothing is sent and the socket
    stays open. *)
Theorem start_backup_cases message w (sock := result_at 0 w) :
  (∀ k, (k ≤ 5)%nat → (∀ j, (j < k)%nat → result_at (1 + j) w = -1) → result_at (1 + k) w ≠ -1 →
     ∃ w', CliBackupLog.start_backup message w = Ok (tt, w') ∧
       let n := result_at (2 + k) w in
       later (3 + k) ([LConnect sock] ++ (if n =? -1 then [] else [LSend sock message n])
         ++ [LClose sock]) w w') ∧
  ((∀ k, (k ≤ 5)%nat → result_at (1 + k) w = -1) →
     ∃ w', CliBackupLog.start_backup message w = Ok (tt, w') ∧ later 7 [] w w').
Proof.
  unfold CliBackupLog.start_backup. rewrite (bind_Ok _ _ _ _ _ (sys_ok w)).
  replace (sr_ret (lw_oracle w (lw_clock w))) with sock
    by (unfold sock, result_at; by rewrite Nat.add_0_r).
  assert (E1 : ∃ w1, when (sock <? 0) print (lw_tick w) = Ok (tt, w1) ∧ later 1 [] w w1).
  { destruct (sock <? 0); eexists; (split; [done|]); [|apply later_tick].
    exact (later_trans _ _ _ _ _ _ _ (later_tick w) (later_print _)). }
  destruct E1 as (w1 & E1 & H1). rewrite (bind_Ok _ _ _ _ _ E1).
  destruct (try_connect_ok 5 sock w1) as [Hok Hfail]. split.
  - intros k Hk Hj Hne. destruct (Hok k Hk) as (w2 & E2 & H2).
    + intros j Hjk. rewrite (result_later _ _ _ _ _ H1). by apply Hj.
    + by rewrite (result_later _ _ _ _ _ H1).
    + rewrite (bind_Ok _ _ _ _ _ E2), (bind_Ok _ _ _ _ _ (sys_ok w2)).
      pose proof (later_trans _ _ _ _ _ _ _ (later_trans _ _ _ _ _ _ _ H1 H2) (later_tick w2)) as H3.
      replace (sr_ret (lw_oracle w2 (lw_clock w2))) with (result_at (2 + k) w).
      2:{ pose proof (result_later _ 0 _ _ _ (later_trans _ _ _ _ _ _ _ H1 H2)) as Er.
          unfold result_at at 1 in Er. rewrite Nat.add_0_r in Er. rewrite Er. f_equal. lia. }
      destruct (result_at (2 + k) w =? -1).
      * rewrite (bind_Ok _ _ _ _ _ (print_ok _)). eexists. split; [apply note_ok|].
        pose proof (later_trans _ _ _ _ _ _ _ (later_trans _ _ _ _ _ _ _ H3 (later_print _))
          (later_note (LClose sock) _ ltac:(done))) as H4.
        replace (3 + k)%nat with (1 + S k + 1 + 0 + 0)%nat by lia. exact H4.
      * rewrite (bind_Ok _ _ _ _ _ (note_ok _ _)). eexists. split; [apply note_ok|].
        pose proof (later_trans _ _ _ _ _ _ _ (later_trans _ _ _ _ _ _ _ H3
          (later_note (LSend sock message (result_at (2 + k) w)) _ ltac:(done)))
          (later_note (LClose sock) _ ltac:(done))) as H4.
        replace (3 + k)%nat with (1 + S k + 1 + 0 + 0)%nat by lia. exact H4.
  - intros Hall. destruct Hfail as (w2 & E2 & H2).
    { intros k Hk. rewrite (result_later _ _ _ _ _ H1). by apply Hall. }
    rewrite (bind_Ok _ _ _ _ _ E2). exists w2. split; [done|].
    exact (later_trans _ _ _ _ _ _ _ H1 H2).
Qed.
End client.

(** ** What the server does *)

Section server.
Context {D : Type}.
Implicit Types w : LogWorld D.
Import ServerBackuplog.

Lemma backup_log_ok message w :
  io_good w → ∃ w', backup_log message w = Ok (tt, w') ∧ touches filename w w' ∧
    content_of filename w' = content_of filename w ++ message.
Proof.
  intros Hg. unfold backup_log.
  destruct (fopen_ok filename w Hg) as (w1 & E1 & Ht1 & Hc1). rewrite (bind_Ok _ _ _ _ _ E1).
  rewrite bool_decide_false by done. rewrite (bind_Ok _ _ _ _ _ (ret_Ok tt w1)).
  assert (Hg1 : io_good w1) by by eapply touches_good.
  destruct (fwrite_ret_ok message (mkFILE filename [] false) w1 Hg1) as (p & w2 & E2 & Ht2 & Hc2).
  cbn [f_name f_error f_pending app] in *. rewrite (bind_Ok _ _ _ _ _ E2). cbn [fst snd negb].
  rewrite (bind_Ok _ _ _ _ _ (ret_Ok tt w2)).
  assert (Hg2 : io_good w2) by by eapply touches_good.
  destruct (fflush_ok (mkFILE filename p false) w2 Hg2) as (w3 & E3 & Ht3 & Hc3).
  cbn [f_name f_error f_pending] in *. rewrite (bind_Ok _ _ _ _ _ E3). cbn [fst snd].
  assert (Hg3 : io_good w3) by by eapply touches_good. unfold fclose.
  destruct (fflush_ok (mkFILE filename [] false) w3 Hg3) as (w4 & E4 & Ht4 & Hc4).
  cbn [f_name f_error f_pending] in *. rewrite (bind_Ok _ _ _ _ _ E4). rewrite app_nil_r in Hc4.
  eexists. split; [done|]. assert (Ht : touches filename w w4) by (do 3 (etrans; [eassumption|]); done).
  split; [destruct Ht; by split|]. transitivity (content_of filename w4); [done|].
  by rewrite Hc4, Hc3, Hc2, Hc1.
Qed.

(** The client an answer of [accept] stands for. *)
Definition accepted_client `{InetLib} (r : sysret) : option ThreadData :=
  if sr_ret r =? -1 then None
  else Some (mkThreadData (sr_ret r) (bytes (inet_ntop (sin_addr (sr_addr r))))
         (InetAddress.ntohs (sin_port (sr_addr r)))).

(** The loop makes a thread for every connection there is, in order, and goes on
    after a failed [accept]. *)
Lemma start_service_accepts `{InetLib} rounds ts w :
  ∃ w', start_service rounds ts w =
      Ok (omap (λ n, accepted_client (lw_oracle w n)) (seq (lw_clock w) rounds), w') ∧
    lw_files w' = lw_files w.
Proof.
  revert w. induction rounds as [|n IH]; intros w; cbn [start_service seq omap list_omap]; [by exists w|].
  assert (∃ w1, accept_one ts w = Ok (accepted_client (lw_oracle w (lw_clock w)), w1) ∧
    lw_oracle w1 = lw_oracle w ∧ lw_clock w1 = S (lw_clock w) ∧ lw_files w1 = lw_files w)
    as (w1 & E1 & Ho & Hc & Hf).
  { unfold accept_one, accepted_client. rewrite (bind_Ok _ _ _ _ _ (print_ok w)).
    rewrite (bind_Ok _ _ _ _ _ (sys_ok _)). cbn.
    destruct (sr_ret _ =? -1); eexists; (split; [reflexivity|done]). }
  rewrite (bind_Ok _ _ _ _ _ E1). destruct (IH w1) as (w2 & E2 & Hf2).
  rewrite (bind_Ok _ _ _ _ _ E2), Ho, Hc. exists w2.
  split; [by destruct (accepted_client _)|congruence].
Qed.

(** C34: a thread of the backup server, for the bytes one [read] of at most
    1024 gives. If it fails or gives none, no file changes; if it gives fewer
    than 1024, and opening and writing the file succeed, the client's address and
    the bytes up to the first NUL are appended to the log file and nothing else
    changes; if it gives 1024, the
    terminating zero is written behind the end of the buffer. *)
Theorem backup_service_cases stack td w :
  zlen stack = 1024 →
  let r := lw_oracle w (lw_clock w) in let data := ztake 1024 (sr_data r) in
  (sr_ret r < 0 ∨ data = [] → ∃ w', threadRoutine stack td w = Ok (tt, w') ∧ lw_files w' = lw_files w) ∧
  (io_good w → 0 < zlen data < 1024 →
   ∃ w', threadRoutine stack td w = Ok (tt, w') ∧ touches filename w w' ∧
     content_of filename w' = content_of filename w ++ client_info td ++ c_string data) ∧
  (0 ≤ sr_ret r → zlen data = 1024 → threadRoutine stack td w = Fault OutOfBounds).
Proof.
  intros Hst r data. unfold threadRoutine, service, read. rewrite !bind_assoc.
  rewrite (bind_Ok _ _ _ _ _ (sys_ok w)). fold r. fold data.
  assert (Hin : ∀ n : Z, 0 ≤ sr_ret r → (sr_ret r <? 0) = false) by (intros _ ?; by apply Z.ltb_ge).
  split_and!.
  - intros Hno. destruct (Z.ltb_spec (sr_ret r) 0) as [Hlt|Hge]; [|destruct Hno as [?|E]; [lia|rewrite E]];
      eexists; (split; [reflexivity|done]).
  - intros Hg Hd. rewrite (Hin 0) by apply Hg. rewrite (bind_Ok _ _ _ _ _ (ret_Ok _ _)). cbn [fst snd].
    rewrite (proj2 (Z.eqb_neq _ _)), (proj2 (Z.ltb_lt _ _)) by lia.
    set (buf := splice 0 data stack).
    assert (Hbuf : zlen buf = 1024) by (unfold buf; rewrite zlen_splice by lia; done).
    rewrite mem_write_Ok by (change (zlen [x00]) with 1; lia).
    assert (Ec : c_string (splice (zlen data) [x00] buf) = c_string data).
    { assert (Hb : buf = data ++ zdrop (0 + zlen data) stack)
        by (unfold buf, splice; by rewrite (ztake_0 0)).
      rewrite Hb. unfold splice. rewrite ztake_app_le, (ztake_ge _ data) by lia. apply c_string_nul. }
    rewrite bind_assoc. rewrite (bind_Ok _ _ _ _ _ (eq_refl : lift (Ok _) (lw_tick w) = Ok (_, _))).
    rewrite Ec.
    destruct (backup_log_ok (client_info td ++ c_string data) (lw_tick w)) as (w' & E & Ht & Hc);
      [exact Hg|].
    rewrite (bind_Ok _ _ _ _ _ E). eexists. split; [apply note_ok|].
    split; [destruct Ht; by split|]. exact Hc.
  - intros Hr Hd. rewrite (Hin 0) by done. rewrite (bind_Ok _ _ _ _ _ (ret_Ok _ _)). cbn [fst snd].
    rewrite (proj2 (Z.eqb_neq _ _)), (proj2 (Z.ltb_lt _ _)) by lia.
    rewrite mem_write_OutOfBounds; [done|]. rewrite zlen_splice by lia. change (zlen [x00]) with 1. lia.
Qed.
End server.

(** ** Concrete runs *)
Definition demo_client_world : LogWorld unit :=
  mkLogWorld ∅ ∅ tt []
    (λ n, ret_only (nth n [7; -1; -1; 0] 4)) 0 [].

Lemma start_backup_cases_witness :
  ∃ w', CliBackupLog.start_backup (bytes "error") demo_client_world = Ok (tt, w') ∧
    later 5 [LConnect 7; LSend 7 (bytes "error") 4; LClose 7] demo_client_world w'.
Proof.
  destruct (start_backup_cases (bytes "error") demo_client_world) as [Hok _].
  destruct (Hok 2%nat) as (w' & E & Hl); [lia| |done|].
  - intros j Hj. destruct j as [|[|j]]; [done..|lia].
  - by exists w'.
Defined.

Definition demo_server_world : LogWorld unit :=
  mkLogWorld ∅ ∅ tt [] (λ _, mkSysret 5 (bytes "error") [] (mkInetAddress 2 0 0)) 0 [].
Definition demo_thread_data : ServerBackuplog.ThreadData :=
  ServerBackuplog.mkThreadData 8 (bytes "10.0.0.2") 4711.

Lemma backup_service_cases_witness :
  ∃ w', ServerBackuplog.threadRoutine (replicate 1024 x41) demo_thread_data demo_server_world
      = Ok (tt, w') ∧
    touches ServerBackuplog.filename demo_server_world w' ∧
    content_of ServerBackuplog.filename w' = bytes "10.0.0.2:4711error".
Proof.
  destruct (backup_service_cases (replicate 1024 x41) demo_thread_data demo_server_world)
    as (_ & Hok & _); [done|].
  destruct Hok as (w' & E & Ht & Hc); [by intros n|done|].
  exists w'. split; [exact E|]. split; [exact Ht|]. rewrite Hc. by vm_compute.
Defined.

(** ** [atoi] reads decimal numbers *)
Section atoi.
Import ServerBackuplog.

Lemma digit_not_space b : is_digit b → is_space b = false.
Proof.
  intros Hb. unfold is_space. apply bool_decide_eq_false. intros Hin. revert b Hin Hb.
  assert (Hf : Forall (λ b, ¬ is_digit b) [x20; x09; x0a; x0b; x0c; x0d])
    by by apply (bool_decide_unpack _).
  intros b Hin. by apply (proj1 (Forall_forall _ _) Hf).
Qed.

Lemma leading_char acc d l : (d < 10)%N →
  leading_digits acc (byte_of_ascii (pretty_N_char d) :: l) = leading_digits (10 * acc + Z.of_N d) l.
Proof.
  intros Hd. cbn [leading_digits]. rewrite bool_decide_true by apply pretty_char_digit.
  f_equal. assert (Hall : forallb (λ d, Z.of_N (Byte.to_N (byte_of_ascii (pretty_N_char d))) - 48 =? Z.of_N d)
    (N.of_nat <$> seq 0 10) = true) by by vm_compute.
  rewrite (proj1 (Z.eqb_eq _ _) (proj1 (forallb_forall _ _) Hall d ltac:(
    apply list_elem_of_In, list_elem_of_fmap; exists (N.to_nat d); split; [lia|];
    apply elem_of_seq; lia))). done.
Qed.

Lemma leading_pretty x s :
  leading_digits 0 (bytes (pretty_N_go x s)) = leading_digits (Z.of_N x) (bytes s).
Proof.
  revert s. induction (N.lt_wf_0 x) as [x _ IH]. intros s.
  destruct (decide (x = 0%N)) as [->|Hx]; [by rewrite pretty_N_go_0|].
  rewrite pretty_N_go_step by lia. rewrite IH by (apply N.div_lt; lia).
  rewrite bytes_cons, leading_char by (apply N.mod_lt; lia). f_equal.
  pose proof (N.div_mod x 10 ltac:(done)). lia.
Qed.

(** A decimal number that is an [int] is read as itself. *)
Lemma atoi_to_string n : 0 ≤ n ≤ INT_MAX → atoi (to_string n) = Ok n.
Proof.
  intros Hn. assert (El : leading_digits 0 (to_string n) = n).
  { destruct n as [|p|p]; [done| |lia]. exact (leading_pretty (N.pos p) ""). }
  pose proof (to_string_digits n ltac:(lia)) as Hd. unfold atoi.
  assert (Hs : skip_spaces (to_string n) = to_string n).
  { destruct (to_string n) as [|b l]; [done|]. inversion Hd as [|? ? Hb _]; subst. cbn.
    by rewrite digit_not_space. }
  rewrite Hs. replace (match to_string n with x2d :: l => _ | _ => _ end) with n.
  - rewrite (proj2 (Z.ltb_ge _ _)), (proj2 (Z.ltb_ge _ _)) by lia. done.
  - destruct (to_string n) as [|b l]; [done|]. inversion Hd as [|? ? Hb _]; subst.
    destruct b; try done; by destruct Hb.
Qed.
End atoi.

(** Text that is no number is port 0. *)
Example atoi_none : ServerBackuplog.atoi (bytes " port") = Ok 0.
Proof. by vm_compute. Qed.
Example atoi_overflow : ServerBackuplog.atoi (bytes "2147483648") = Fault SignedOverflow.
Proof. by vm_compute. Qed.
