(* ===== verification/Logger.v ===== *)
(** * The asynchronous logger (log_system/logs_code/AsyncLogger.hpp, Manager.hpp)

    A log call formats a line, sends it to the backup server through the thread
    pool if it is an error, and pushes it to the worker; the worker's callback
    hands what it collected to every [LogFlush].  [log_step] puts the worker of
    [AsyncWorker.v] and the files of [Files.v] together. *)

From stdpp Require Import base tactics numbers list gmap relations strings.
From Stdlib Require Import ZArith Lia.
From S2P Require Import Prelude World LogBuffer AsyncWorker Message Files LogFlush Sinks.
From S2P Require Import ThreadPool Backup.

Local Open Scope string_scope.
Local Open Scope list_scope.
Local Open Scope Z_scope.
Local Open Scope prog_scope.

Module AsyncLogger.
Record t := mk {
  logger_name_ : list byte;
  flushs_ : list LogFlush.t;
  asyncworker : AsyncWorker }.

Section ops.
Context {D : Type} `{Directories D} `{Platform} (cfg : JsonData).
Local Abbreviation M := (M (LogWorld D)).

(** The worker starts with two buffers of the configured size. *)
Definition new_worker (type : AsyncType) : outcome AsyncWorker :=
  let? prod := Buffer.ctor cfg in
  let? cons := Buffer.ctor cfg in
  Ok (mkAsyncWorker type false prod cons WEnter 0 [] [] [] []).

Definition ctor (logger_name : list byte) (flushs : list LogFlush.t) (type : AsyncType) : outcome t :=
  let? worker := new_worker type in
  Ok (mk logger_name flushs worker).

(** The loop of [RealFlush]; every [LogFlush] is left as its [Flush] leaves it. *)
Fixpoint RealFlush (buffer : list byte) (flushs : list LogFlush.t) : M (list LogFlush.t) :=
  match flushs with
  | [] => ret []
  | e :: es =>
      let! e' := LogFlush.Flush cfg buffer e in
      let! es' := RealFlush buffer es in
      ret (e' :: es')
  end.

(** [tp->enqueue(start_backup, data)] and [ret.get()]: an accepted task is run
    by a worker (theorem [pool_runs_each_task_once]) and the caller waits for
    it. The result is whether the call returns: with no worker it does not. *)
Definition backup (tp : option (ThreadPool.t (list byte))) (data : list byte) : M bool :=
  let! p := deref NullDeref tp in
  match ThreadPool.enqueue data p with
  | Ok _ =>
      match ThreadPool.workers p with
      | [] => ret false
      | _ => CliBackupLog.start_backup data ;;! ret true
      end
  | Fault _ => print ;;! ret true
  end.

(** The line for [asyncworker->Push], if the call gets that far. *)
Definition serialize (tp : option (ThreadPool.t (list byte))) (tid : Z) (logger : t)
    (level : LogLevel.value) (file : list byte) (line : Z) (msg : list byte)
    : M (option (list byte)) :=
  let! now := Date.Now in
  let data := LogMessage.format (LogMessage.ctor now tid level file line (logger_name_ logger) msg) in
  match level with
  | LogLevel.FATAL | LogLevel.ERROR =>
      let! back := backup tp data in
      ret (if back : bool then Some data else None)
  | _ => ret (Some data)
  end.

(** [Debug] to [Fatal]; [formatted] is what [vasprintf] made. When it fails the
    pointer it should have set is used all the same. *)
Definition log_at (level : LogLevel.value) (tp : option (ThreadPool.t (list byte))) (tid : Z)
    (logger : t) (file : list byte) (line : Z) (formatted : option (list byte))
    : M (option (list byte)) :=
  match formatted with
  | None => print ;;! throw Dangling
  | Some msg => serialize tp tid logger level file line (c_string msg)
  end.

Definition Debug := log_at LogLevel.DEBUG.
Definition Info := log_at LogLevel.INFO.
Definition Warn := log_at LogLevel.WARN.
Definition Error := log_at LogLevel.ERROR.
Definition Fatal := log_at LogLevel.FATAL.
End ops.
End AsyncLogger.

Module LoggerBuilder.
Record t := mk {
  logger_name_ : list byte;
  flushs_ : list LogFlush.t;
  async_type_ : AsyncType }.

Definition ctor : t := mk (bytes "async_logger") [] ASYNC_SAFE.

Definition BuildLoggerName (name : list byte) (b : t) : t := mk name (flushs_ b) (async_type_ b).
Definition BuildLoggerType (type : AsyncType) (b : t) : t := mk (logger_name_ b) (flushs_ b) type.
(** [flushs_.emplace_back]. *)
Definition add_flush (e : LogFlush.t) (b : t) : t :=
  mk (logger_name_ b) (flushs_ b ++ [e]) (async_type_ b).
Definition BuildLoggerFlush {D} `{Directories D} (args : LogFlushFactory.flush_args) (b : t)
    : M (LogWorld D) t :=
  let! e := LogFlushFactory.CreateLog args in ret (add_flush e b).

(** The logger, and the builder as it is left. *)
Definition Build (cfg : JsonData) (b : t) : outcome (AsyncLogger.t * t) :=
  if decide (logger_name_ b = []) then Fault AssertFailure
  else
    let b := match flushs_ b with [] => add_flush LogFlush.Stdout b | _ => b end in
    let? l := AsyncLogger.ctor cfg (logger_name_ b) (flushs_ b) (async_type_ b) in
    Ok (l, b).
End LoggerBuilder.

(** ** The registry *)
Module LoggerManager.
(** A logger is named by its address; [Name] is its [Name()]. *)
Section manager.
Context (Name : Z → list byte).

Record t := mk {
  default_logger_ : Z;
  loggers_ : gmap (list byte) Z }.
Implicit Types m : t.

(** [built] is the logger the builder makes. *)
Definition ctor (built : Z) : t := mk built {[bytes "default" := built]}.

Definition LoggerExist (name : list byte) m : bool := bool_decide (is_Some (loggers_ m !! name)).

(** The second critical section of [AddLogger]. *)
Definition insert_logger (l : Z) m : t := mk (default_logger_ m) (<[Name l := l]> (loggers_ m)).

Definition AddLogger (l : Z) m : t := if LoggerExist (Name l) m then m else insert_logger l m.

(** [None]: [nullptr]. *)
Definition GetLogger (name : list byte) m : option Z := loggers_ m !! name.
Definition DefaultLogger m : Z := default_logger_ m.

(** The loggers whose [Stop] is called, one after the other, in the order of the
    map; each call returns when that logger's worker has. *)
Definition StopAll m : list Z := (map_to_list (loggers_ m)).*2.

(** [AddLogger] by several threads: the mutex is released between the test and
    the insertion. [adding]: the loggers that have passed the test. *)
Inductive add_step : t * list Z → t * list Z → Prop :=
  | add_refused m adding l : LoggerExist (Name l) m = true → add_step (m, adding) (m, adding)
  | add_tested m adding l : LoggerExist (Name l) m = false → add_step (m, adding) (m, adding ++ [l])
  | add_inserted m l a1 a2 : add_step (m, a1 ++ l :: a2) (insert_logger l m, a1 ++ a2).

Lemma StopAll_spec m l : l ∈ StopAll m ↔ ∃ name, GetLogger name m = Some l.
Proof.
  unfold StopAll, GetLogger. rewrite list_elem_of_fmap. split.
  - intros [[name l'] [-> Hl%elem_of_map_to_list]]. by exists name.
  - intros [name Hl]. exists (name, l). by rewrite elem_of_map_to_list.
Qed.

(** The first logger of a name stays: after any sequence of [AddLogger],
    [GetLogger] finds for each name the logger that had it before, or else the
    first added one, and nothing for other names; the default logger stays; and
    [StopAll] stops exactly the loggers that can be found. *)
Theorem manager_first_wins ls m name :
  GetLogger name (foldl (λ m l, AddLogger l m) m ls) =
    match GetLogger name m with
    | Some l => Some l
    | None => find (λ l, bool_decide (Name l = name)) ls
    end ∧
  DefaultLogger (foldl (λ m l, AddLogger l m) m ls) = DefaultLogger m ∧
  ∀ l, l ∈ StopAll (foldl (λ m l, AddLogger l m) m ls) ↔
    ∃ name, GetLogger name (foldl (λ m l, AddLogger l m) m ls) = Some l.
Proof.
  apply and_assoc. split; [|intros l; apply StopAll_spec].
  revert m. induction ls as [|l ls IH]; intros m; cbn; [by destruct (GetLogger name m)|].
  destruct (IH (AddLogger l m)) as [-> ->]. unfold GetLogger, AddLogger, LoggerExist, insert_logger.
  case_bool_decide as Hl; cbn.
  - split; [|done]. destruct (loggers_ m !! name) eqn:E; [done|].
    rewrite bool_decide_false; [done|]. intros En. rewrite En, E in Hl. by destruct Hl.
  - split; [|done]. case_bool_decide as En.
    + rewrite <- En, lookup_insert_eq. apply eq_None_not_Some in Hl. by rewrite Hl.
    + by rewrite lookup_insert_ne.
Qed.

(** Two threads that add loggers of one name: both pass the test, and the
    second replaces the first. *)
Lemma concurrent_add_replaces l1 l2 m :
  Name l1 = Name l2 → GetLogger (Name l1) m = None →
  ∃ m1 m2, rtc add_step (m, []) (m1, [l2]) ∧ add_step (m1, [l2]) (m2, []) ∧
    GetLogger (Name l1) m1 = Some l1 ∧ GetLogger (Name l1) m2 = Some l2.
Proof.
  intros En Hn. unfold GetLogger in *.
  exists (insert_logger l1 m), (insert_logger l2 (insert_logger l1 m)).
  assert (He : ∀ l, Name l = Name l1 → LoggerExist (Name l) m = false).
  { intros l El. unfold LoggerExist. rewrite El, Hn. by apply bool_decide_false; intros []. }
  split_and!.
  - eapply rtc_l; [by apply (add_tested m [] l1), He|].
    eapply rtc_l; [by apply (add_tested m [l1] l2), He|].
    apply rtc_once. apply (add_inserted m l1 [] [l2]).
  - apply (add_inserted _ l2 [] []).
  - cbn. by rewrite lookup_insert_eq.
  - cbn. by rewrite En, lookup_insert_eq.
Qed.
End manager.
(** The names of loggers at the addresses from 0 on. *)
Definition name_of (loggers : list AsyncLogger.t) (l : Z) : list byte :=
  default [] (AsyncLogger.logger_name_ <$> loggers !! Z.to_nat l).

(** [LoggerManager::GetInstance()], the first time: the default logger and the
    registry. *)
Definition GetInstance (cfg : JsonData) : outcome (AsyncLogger.t * t) :=
  let? built := LoggerBuilder.Build cfg
    (LoggerBuilder.BuildLoggerName (bytes "default") LoggerBuilder.ctor) in
  Ok (built.1, ctor 0).
End LoggerManager.

(** ** From the worker to the files *)
Section pipeline.
Context {D : Type} `{Directories D} `{Platform} (cfg : JsonData).
Implicit Types (w : LogWorld D) (a : AsyncWorker) (fl : list LogFlush.t).

(** The worker, the outputs and the files. A step in which the worker hands
    bytes to its callback runs [RealFlush] on them. *)
Inductive log_step : AsyncWorker * list LogFlush.t * LogWorld D →
    AsyncWorker * list LogFlush.t * LogWorld D → Prop :=
  | ls_quiet a a' fl w :
      step cfg a a' → delivered a' = delivered a → log_step (a, fl, w) (a', fl, w)
  | ls_flush a a' fl w buffer fl' w' :
      step cfg a a' → delivered a' = delivered a ++ buffer → buffer ≠ [] →
      AsyncLogger.RealFlush cfg buffer fl w = Ok (fl', w') →
      log_step (a, fl, w) (a', fl', w').

Lemma step_delivers a a' : step cfg a a' → ∃ buffer, delivered a' = delivered a ++ buffer.
Proof.
  intros [[data Hs]|[Hs|Hs]]; destruct Hs; cbn; try (by exists []; rewrite app_nil_r);
    [repeat case_match; cbn|]; try (by exists []; rewrite app_nil_r); by eexists.
Qed.

(** A rolling output among them counts the bytes it is given. *)
Definition bounded (es : list LogFlush.t) (text : list byte) : Prop :=
  Forall (λ e, match e with LogFlush.ToRollFile _ => zlen text < 2 ^ 64 | _ => True end) es.

Lemma bounded_prefix es s t : bounded es (s ++ t) → bounded es s.
Proof.
  intros Hb. eapply Forall_impl; [exact Hb|]. intros [|f|r]; try done. rewrite zlen_app.
  pose proof (zlen_nonneg t). lia.
Qed.

Lemma nonempty_count (ds : list (list byte)) : Forall (λ d, d ≠ []) ds → zlen ds ≤ total ds.
Proof.
  induction 1 as [|d ds Hd _ IH]; [done|]. rewrite zlen_cons. change (d :: ds) with ([d] ++ ds).
  rewrite total_app. unfold total at 1. cbn [concat]. rewrite app_nil_r.
  destruct d; [done|]. rewrite zlen_cons. pose proof (zlen_nonneg d). lia.
Qed.

Lemma bounded_fits es ds : Forall (λ d, d ≠ []) ds → bounded es (concat ds) → Forall (λ e, fits e ds) es.
Proof.
  intros Hne Hb. eapply Forall_impl; [exact Hb|]. intros [|f|r]; try done. cbn. intros Hlt.
  pose proof (nonempty_count _ Hne). unfold counted, total in *. lia.
Qed.

Section sinks.
Context (es0 : list LogFlush.t) (w0 : LogWorld D).
Context (Hcfg : flush_log cfg = 1 ∨ flush_log cfg = 2) (Hg : io_good w0).

(** The outputs [fl], one by one those of [es], after [ds] was flushed. *)
Definition all_hold (ds : list (list byte)) (es fl : list LogFlush.t) w : Prop :=
  Forall2 (λ e0 e, holds e0 w0 ds e w) es fl.

Lemma all_hold_frame ds es fl w w' :
  lw_oracle w' = lw_oracle w →
  Forall (λ e0, ∀ r, owns e0 r → content_at r w' = content_at r w) es →
  all_hold ds es fl w → all_hold ds es fl w'.
Proof.
  intros Ho Hs Hh. induction Hh as [|e0 e es fl He Hh IH]; [constructor|].
  apply Forall_cons in Hs as [Hs0 Hs]. constructor; [|by apply IH].
  eapply (sink_frame cfg (Sink := output_sink cfg e0 w0 Hcfg)); eauto.
Qed.

Lemma all_hold_start es : Forall new_output es → all_hold [] es es w0.
Proof. induction 1 as [|e0 es He _ IH]; constructor; [by apply output_starts|done]. Qed.

Lemma RealFlush_ok buffer ds es fl w :
  lw_oracle w = lw_oracle w0 → apart es → all_hold ds es fl w → Forall (λ e, fits e (ds ++ [buffer])) es →
  ∃ fl' w', AsyncLogger.RealFlush cfg buffer fl w = Ok (fl', w') ∧ all_hold (ds ++ [buffer]) es fl' w' ∧
    lw_oracle w' = lw_oracle w0 ∧
    ∀ r, Forall (λ e, ¬ owns e r) es → content_at r w' = content_at r w.
Proof.
  intros Ho Hap Hh. revert w Ho Hh. revert fl.
  induction Hap as [|e0 es Hne Hap IH]; intros fl w Ho Hh Hfit; inversion Hh as [|? e ? fl1 He Hh1]; subst.
  { exists [], w. split_and!; [done|constructor|done|done]. }
  apply Forall_cons in Hfit as [Hf0 Hfit].
  destruct (sink_flush cfg (Sink := output_sink cfg e0 w0 Hcfg) ds e w buffer) as (e' & w1 & E1 & He1 & Ho1 & Hk1);
    [intros k; rewrite Ho; apply Hg|done|done|].
  assert (Hh2 : all_hold ds es fl1 w1).
  { apply (all_hold_frame ds es fl1 w); [done| |done]. eapply Forall_impl; [exact Hne|].
    intros e1 Hd r Hr. apply Hk1. intros Hr0. by apply (Hd r). }
  destruct (IH fl1 w1 ltac:(congruence) Hh2 Hfit) as (fl2 & w2 & E2 & Hh3 & Ho2 & Hk2).
  exists (e' :: fl2), w2. split; [|split; [|split; [done|]]].
  - cbn [AsyncLogger.RealFlush]. by rewrite (bind_Ok _ _ _ _ _ E1), (bind_Ok _ _ _ _ _ E2).
  - constructor; [|done]. eapply (sink_frame cfg (Sink := output_sink cfg e0 w0 Hcfg)); [| |exact He1].
    + congruence.
    + intros r Hr. apply Hk2. eapply Forall_impl; [exact Hne|]. intros e1 Hd. by apply Hd.
  - intros r Hr. apply Forall_cons in Hr as [Hr0 Hr]. by rewrite Hk2, Hk1.
Qed.

(** What holds between the worker and the outputs. *)
Record pipe_inv (s : AsyncWorker * list LogFlush.t * LogWorld D) : Prop := {
  pv_worker : worker_inv s.1.1;
  pv_oracle : lw_oracle s.2 = lw_oracle w0;
  pv_outputs : ∃ ds, concat ds = delivered s.1.1 ∧ Forall (λ d, d ≠ []) ds ∧ all_hold ds es0 s.1.2 s.2;
  pv_others : ∀ r, Forall (λ e, ¬ owns e r) es0 → content_at r s.2 = content_at r w0 }.

Context (Hap : apart es0).

Lemma step_worker_inv a a' : step cfg a a' → worker_inv a → worker_inv a'.
Proof.
  intros [[d Hs]|[Hs|Hs]]; eauto using worker_inv_push, worker_inv_thread, worker_inv_stop.
Qed.

(** The outputs take what the worker hands over. *)
Lemma pipe_flush a a' fl w buffer :
  pipe_inv (a, fl, w) → delivered a' = delivered a ++ buffer → buffer ≠ [] →
  worker_inv a' → bounded es0 (delivered a') →
  ∃ fl' w', AsyncLogger.RealFlush cfg buffer fl w = Ok (fl', w') ∧ pipe_inv (a', fl', w').
Proof.
  intros [Hw Ho (ds & Hd & Hne & Hh) Hot] Ed Hb Hw' Hbd. cbn in *.
  assert (Hne' : Forall (λ d, d ≠ []) (ds ++ [buffer])) by (apply Forall_app; by repeat constructor).
  assert (Hd' : concat (ds ++ [buffer]) = delivered a')
    by (rewrite concat_app, Hd, Ed; cbn; by rewrite app_nil_r).
  destruct (RealFlush_ok buffer ds es0 fl w Ho Hap Hh) as (fl' & w' & E & Hh' & Ho' & Hk).
  { apply bounded_fits; [done|]. by rewrite Hd'. }
  exists fl', w'. split; [done|]. split; cbn; [done|done|by exists (ds ++ [buffer])|].
  intros r Hr. by rewrite Hk, Hot.
Qed.

Lemma pipe_inv_step s s' : log_step s s' → pipe_inv s → bounded es0 (delivered s'.1.1) → pipe_inv s'.
Proof.
  intros Hs Hv Hb. pose proof (pv_worker _ Hv) as Hw.
  destruct Hs as [a a' fl w Hs Hd|a a' fl w buffer fl' w' Hs Hd Hne E]; cbn in *.
  - destruct Hv as [_ Ho Hds Hot]. split; cbn in *; [by eapply step_worker_inv|done| |done]. by rewrite Hd.
  - destruct (pipe_flush a a' fl w buffer Hv Hd Hne (step_worker_inv _ _ Hs Hw) Hb)
      as (fl2 & w2 & E2 & Hv2). rewrite E in E2. by injection E2 as <- <-.
Qed.

(** No step of the worker is held up by the outputs. *)
Lemma pipe_progress a a' fl w :
  pipe_inv (a, fl, w) → step cfg a a' → bounded es0 (delivered a') →
  ∃ fl' w', log_step (a, fl, w) (a', fl', w').
Proof.
  intros Hv Hs Hb. destruct (step_delivers a a' Hs) as [buffer Hd].
  destruct (decide (buffer = [])) as [->|Hne].
  - rewrite app_nil_r in Hd. exists fl, w. by apply ls_quiet.
  - destruct (pipe_flush a a' fl w buffer Hv Hd Hne (step_worker_inv _ _ Hs (pv_worker _ Hv)) Hb)
      as (fl2 & w2 & E2 & _). exists fl2, w2. by eapply ls_flush.
Qed.

Lemma pipe_written s e0 : pipe_inv s → e0 ∈ es0 → written e0 w0 (delivered s.1.1) s.2.
Proof.
  intros [_ _ (ds & <- & _ & Hh) _] [i Hi]%list_elem_of_lookup.
  destruct (Forall2_lookup_l _ _ _ _ _ Hh Hi) as (e & _ & He). by eapply holds_written.
Qed.

Lemma pipe_starts a0 : initial a0 → Forall new_output es0 → pipe_inv (a0, es0, w0).
Proof.
  intros Hi Hn. split; cbn; [by apply worker_inv_initial|done| |done]. exists [].
  destruct Hi as (_ & _ & _ & _ & _ & _ & -> & _). split_and!; [done|done|].
  by apply all_hold_start.
Qed.

Lemma log_step_delivers s s' : log_step s s' → ∃ buffer, delivered s'.1.1 = delivered s.1.1 ++ buffer.
Proof.
  intros []; cbn; [exists []; by rewrite app_nil_r|by eexists].
Qed.

Lemma pipe_inv_reachable s s' :
  rtc log_step s s' → pipe_inv s → bounded es0 (delivered s'.1.1) → pipe_inv s'.
Proof.
  intros Hr Hv. revert s' Hr. refine (rtc_ind_r _ _ _ _); [done|]. intros s1 s2 _ Hs IH Hb.
  eapply pipe_inv_step; [exact Hs| |done]. apply IH.
  destruct (log_step_delivers _ _ Hs) as [buffer E]. rewrite E in Hb. by eapply bounded_prefix.
Qed.

(** C15: the logger from [Push] to its outputs. Let a new worker have new outputs
    of any kind that own different things (standard output, open files, rolling
    files), let [flush_log] be 1 or 2, so that each flush empties stdio's
    buffer, and let no call of the kernel fail. Then
    under every interleaving of producers, worker and [Stop], each output has
    received the delivered bytes and nothing else: the accepted ones in order,
    except for those still in the two buffers; what belongs to none of them has
    not changed; a worker that sleeps has written
    everything it accepted, and so has one at the moment it returns after
    [Stop]; and the outputs never hold the worker up. A rolling output is only
    promised to work for less than 2^64 bytes. (Runs go up to a push that
    overruns its vector, which a worker in the unsafe mode may come to:
    [AsyncWorker.comes_to].) *)
Theorem accepted_lines_reach_outputs a0 a fl w :
  initial a0 → Forall new_output es0 → rtc log_step (a0, es0, w0) (a, fl, w) →
  bounded es0 (delivered a) →
  (∀ e0, e0 ∈ es0 → written e0 w0 (delivered a) w) ∧
  (∀ r, Forall (λ e, ¬ owns e r) es0 → content_at r w = content_at r w0) ∧
  accepted a = delivered a ++ Buffer.content (buffer_consumer_ a)
                 ++ Buffer.content (buffer_productor_ a) ∧
  (worker a = WWaiting → ∀ e0, e0 ∈ es0 → written e0 w0 (accepted a) w) ∧
  (∀ a' fl' w', log_step (a, fl, w) (a', fl', w') → bounded es0 (delivered a') →
     worker a ≠ WDone → worker a' = WDone → ∀ e0, e0 ∈ es0 → written e0 w0 (accepted a') w') ∧
  (∀ a', step cfg a a' → bounded es0 (delivered a') → ∃ fl' w', log_step (a, fl, w) (a', fl', w')).
Proof.
  intros Hi Hn Hr Hb. pose proof (pipe_inv_reachable _ _ Hr (pipe_starts _ Hi Hn) Hb) as Hv.
  pose proof (pv_worker _ Hv) as Hw. cbn in Hw. split_and!.
  - intros e0. by apply (pipe_written (a, fl, w)).
  - apply (pv_others _ Hv).
  - apply (wi_order _ Hw).
  - intros Hwait e0 He. rewrite <- (drained_accepted a) by (done || by left). by apply (pipe_written (a, fl, w)).
  - intros a' fl' w' Hs Hb' Hne Hd e0 He. pose proof (pipe_inv_step _ _ Hs Hv Hb') as Hv'.
    rewrite <- (return_drains cfg a a'); [by apply (pipe_written (a', fl', w'))|done|by inversion Hs|done|done].
  - intros a' Hs Hb'. by apply (pipe_progress a a' fl w).
Qed.
End sinks.

(** *** Open files of different names *)
Section files.
Context (ns : list (list byte)) (w0 : LogWorld D).
Context (Hcfg : flush_log cfg = 1 ∨ flush_log cfg = 2) (Hg : io_good w0) (Hnd : NoDup ns).

Lemma files_new fl ns' : Forall2 writes_to fl ns' → Forall new_output fl.
Proof. induction 1 as [|e n fl ms (name & err & ->) _ IH]; constructor; [by exists n, err|done]. Qed.

Lemma files_apart fl ns' : Forall2 writes_to fl ns' → NoDup ns' → apart fl.
Proof.
  induction 1 as [|e n fl ms (name & err & ->) Hf IH]; intros Hn; [constructor|].
  apply NoDup_cons in Hn as [Hn Hd]. constructor; [|by apply IH].
  clear IH Hd. induction Hf as [|e' m fl ms (name' & err' & ->) _ IH]; constructor; cbn.
  - unfold file_owns. cbn. intros r -> [= ->]. apply Hn. by left.
  - apply IH. intros Hin. apply Hn. by right.
Qed.

Lemma files_bounded fl ns' text : Forall2 writes_to fl ns' → bounded fl text.
Proof. induction 1 as [|e n fl ms (name & err & ->) _ IH]; by constructor. Qed.

Lemma files_written fl n text w : Forall2 writes_to fl ns → n ∈ ns →
  (∀ e0, e0 ∈ fl → written e0 w0 text w) → content_of n w = content_of n w0 ++ text.
Proof.
  intros Hf [i Hi]%list_elem_of_lookup Hw. destruct (Forall2_lookup_r _ _ _ _ _ Hf Hi)
    as (e & He & (name & err & ->)). exact (Hw _ (list_elem_of_lookup_2 _ _ _ He)).
Qed.

(** For a logger that writes to open files of different names only, without a
    bound on what it is given. *)
Theorem accepted_lines_reach_files a0 fl0 a fl w :
  initial a0 → Forall2 writes_to fl0 ns → rtc log_step (a0, fl0, w0) (a, fl, w) →
  (∀ n, n ∈ ns → content_of n w = content_of n w0 ++ delivered a) ∧
  accepted a = delivered a ++ Buffer.content (buffer_consumer_ a)
                 ++ Buffer.content (buffer_productor_ a) ∧
  (worker a = WWaiting → ∀ n, n ∈ ns → content_of n w = content_of n w0 ++ accepted a) ∧
  (∀ a' fl' w', log_step (a, fl, w) (a', fl', w') → worker a ≠ WDone → worker a' = WDone →
     ∀ n, n ∈ ns → content_of n w' = content_of n w0 ++ accepted a') ∧
  (∀ a', step cfg a a' → ∃ fl' w', log_step (a, fl, w) (a', fl', w')).
Proof.
  intros Hi Hf Hr. pose proof (files_apart _ _ Hf Hnd) as Hap.
  assert (Hb : ∀ text, bounded fl0 text) by (intros text; by eapply files_bounded).
  pose proof (pipe_inv_reachable fl0 w0 Hcfg Hg Hap _ _ Hr (pipe_starts fl0 w0 _ Hi (files_new _ _ Hf)) (Hb _)) as Hv.
  pose proof (pv_worker _ _ _ Hv) as Hw. cbn in Hw.
  assert (Hc : ∀ n, n ∈ ns → content_of n w = content_of n w0 ++ delivered a).
  { intros n Hn. apply (files_written fl0); [done..|]. intros e0. by apply (pipe_written fl0 w0 (a, fl, w)). }
  split_and!; [done|apply (wi_order _ Hw)| | |].
  - intros Hwait. by rewrite <- (drained_accepted a) by (done || by left).
  - intros a' fl' w' Hs Hne Hd n Hn.
    pose proof (pipe_inv_step fl0 w0 Hcfg Hg Hap _ _ Hs Hv (Hb _)) as Hv'.
    rewrite <- (return_drains cfg a a'); [|done|by inversion Hs|done|done].
    apply (files_written fl0); [done..|]. intros e0. by apply (pipe_written fl0 w0 (a', fl', w')).
  - intros a' Hs. by apply (pipe_progress fl0 w0 Hcfg Hg Hap a a' fl w).
Qed.
End files.
End pipeline.
Section new_worker.
Context (cfg : JsonData).

(** The constructor's worker is one the theorem speaks of. *)
Lemma new_worker_initial type a : AsyncLogger.new_worker cfg type = Ok a → 0 ≤ cfg_buffer_size cfg → initial a.
Proof.
  unfold AsyncLogger.new_worker, Buffer.ctor. intros E Hs.
  destruct (vec_resize (cfg_buffer_size cfg) []) as [v|] eqn:Ev; [|done]. injection E as <-.
  apply zlen_vec_resize in Ev as Hz; [|done].
  assert (Hmax : cfg_buffer_size cfg ≤ max_size)
    by (unfold vec_resize in Ev; destruct (Z.ltb_spec max_size (cfg_buffer_size cfg)); [done|lia]).
  assert (Hwf : Buffer.wf (Buffer.mk v 0 0)) by (unfold Buffer.wf, Buffer.size; cbn; lia).
  split_and!; try done; by apply slice_0.
Qed.
End new_worker.

(** ** A concrete run: one line pushed to a worker with one file *)
Definition demo_sinks : list LogFlush.t :=
  [LogFlush.ToFile (FileFlush.mk (bytes "log/a") (Some (mkFILE (bytes "log/a") [] false)))].

Lemma accepted_lines_reach_files_witness :
  (∀ n, n ∈ [bytes "log/a"] →
     content_of n demo_log_world = content_of n demo_log_world ++ delivered demo_pushed) ∧
  accepted demo_pushed = delivered demo_pushed ++ Buffer.content (buffer_consumer_ demo_pushed)
    ++ Buffer.content (buffer_productor_ demo_pushed) ∧
  (worker demo_pushed = WWaiting → ∀ n, n ∈ [bytes "log/a"] →
     content_of n demo_log_world = content_of n demo_log_world ++ accepted demo_pushed) ∧
  (∀ a' fl' w', log_step (H0 := UtcPlatform.platform) demo_config
       (demo_pushed, demo_sinks, demo_log_world) (a', fl', w') →
     worker demo_pushed ≠ WDone → worker a' = WDone → ∀ n, n ∈ [bytes "log/a"] →
     content_of n w' = content_of n demo_log_world ++ accepted a') ∧
  (∀ a', step demo_config demo_pushed a' →
     ∃ fl' w', log_step (H0 := UtcPlatform.platform) demo_config
       (demo_pushed, demo_sinks, demo_log_world) (a', fl', w')).
Proof.
  apply (accepted_lines_reach_files (H0 := UtcPlatform.platform) demo_config [bytes "log/a"]
    demo_log_world) with (a0 := demo_worker0) (fl0 := demo_sinks).
  - by left.
  - by intros n.
  - apply NoDup_singleton.
  - apply demo_worker0_initial.
  - constructor; [by do 2 eexists|constructor].
  - apply rtc_once, ls_quiet; [|done]. left. exists (replicate 6 x41).
    by apply (push_now demo_config (replicate 6 x41) demo_worker0).
Defined.

(** ** And with an output of each kind *)
Definition demo_three : list LogFlush.t := LogFlush.Stdout :: demo_sinks ++ [LogFlush.ToRollFile demo_roll].

Lemma accepted_lines_reach_outputs_witness :
  let w := demo_log_world in
  (∀ e0, e0 ∈ demo_three → written e0 w (delivered demo_pushed) w) ∧
  (∀ r, Forall (λ e, ¬ owns e r) demo_three → content_at r w = content_at r w) ∧
  accepted demo_pushed = delivered demo_pushed ++ Buffer.content (buffer_consumer_ demo_pushed)
    ++ Buffer.content (buffer_productor_ demo_pushed) ∧
  (worker demo_pushed = WWaiting → ∀ e0, e0 ∈ demo_three → written e0 w (accepted demo_pushed) w) ∧
  (∀ a' fl' w', log_step (H0 := UtcPlatform.platform) demo_config (demo_pushed, demo_three, w) (a', fl', w') →
     bounded demo_three (delivered a') → worker demo_pushed ≠ WDone → worker a' = WDone →
     ∀ e0, e0 ∈ demo_three → written e0 w (accepted a') w') ∧
  (∀ a', step demo_config demo_pushed a' → bounded demo_three (delivered a') →
     ∃ fl' w', log_step (H0 := UtcPlatform.platform) demo_config (demo_pushed, demo_three, w) (a', fl', w')).
Proof.
  apply (accepted_lines_reach_outputs (H0 := UtcPlatform.platform) demo_config demo_three demo_log_world)
    with (a0 := demo_worker0).
  - by left.
  - by intros n.
  - by apply all_separate_apart.
  - apply demo_worker0_initial.
  - repeat constructor. by exists (bytes "log/a"), false.
  - apply rtc_once, ls_quiet; [|done]. left. exists (replicate 6 x41).
    by apply (push_now demo_config (replicate 6 x41) demo_worker0).
  - by repeat constructor.
Defined.

(** ** The functions of MyLog.cpp *)
Module MyLog.
Definition GetLogger : list byte → LoggerManager.t → option Z := LoggerManager.GetLogger.
Definition DefaultLogger : LoggerManager.t → Z := LoggerManager.DefaultLogger.
Definition StopAllLoggers : LoggerManager.t → list Z := LoggerManager.StopAll.
End MyLog.
