(* ===== verification/LogCalls.v ===== *)
(** * Log calls of many threads, from the call to the file

    [Logger.v] puts the logger's worker and its files together; here are the
    threads that log.  A call formats its line, sends it to the backup server
    if it is an error ([AsyncLogger.log_at], one step), and then pushes the line
    as [AsyncWorker.v] says: at once, refused, or after waiting for room. *)

From stdpp Require Import base tactics numbers list gmap relations strings.
From Stdlib Require Import ZArith Lia.
From S2P Require Import Prelude World LogBuffer AsyncWorker Message Files LogFlush Sinks.
From S2P Require Import ThreadPool Backup Logger.

Local Open Scope list_scope.
Local Open Scope Z_scope.
Local Open Scope prog_scope.

(** ** Operations that leave the files alone *)
Section keeps.
Context {D : Type}.

(** Nothing is written, and the kernel is the same. *)
Definition untouched (w w' : LogWorld D) : Prop :=
  lw_oracle w' = lw_oracle w ∧ lw_files w' = lw_files w ∧ lw_stdout w' = lw_stdout w.
#[export] Instance untouched_preorder : PreOrder untouched.
Proof. split; [done|]. intros w1 w2 w3 (? & ? & ?) (? & ? & ?). split_and!; congruence. Qed.

Lemma untouched_content w w' r : untouched w w' → content_at r w' = content_at r w.
Proof. intros (_ & Hf & Hs). destruct r; cbn; [|done]. unfold content_of. by rewrite Hf. Qed.

Lemma keeps_sys : along untouched sys.
Proof. by intros w ? ? [= <- <-]. Qed.
Lemma keeps_note e : along untouched (note e).
Proof. by intros w ? ? [= <- <-]. Qed.
Lemma keeps_print : along untouched print.
Proof. apply keeps_note. Qed.
End keeps.
#[export] Hint Resolve keeps_sys keeps_note keeps_print : along.

Section log_at.
Context {D : Type} `{Directories D} `{Platform}.
Local Abbreviation keeps := (along (untouched (D := D))).

Lemma keeps_try_connect cnt sock : keeps (CliBackupLog.try_connect cnt sock).
Proof. induction cnt as [|cnt IH]; cbn; along. Qed.
#[local] Hint Resolve keeps_try_connect : along.

Lemma keeps_start_backup message : keeps (CliBackupLog.start_backup message).
Proof. unfold CliBackupLog.start_backup. along. Qed.
#[local] Hint Resolve keeps_start_backup : along.

Lemma keeps_backup tp data : keeps (AsyncLogger.backup tp data).
Proof.
  unfold AsyncLogger.backup. along. destruct (ThreadPool.enqueue _ _); [|along].
  destruct (ThreadPool.workers _); along.
Qed.
#[local] Hint Resolve keeps_backup : along.

(** A log call changes no file; its line, if it returns from the backup, is the
    formatted message. *)
Lemma log_at_ok level tp tid logger file line msg (w : LogWorld D) r w' :
  AsyncLogger.log_at level tp tid logger file line (Some msg) w = Ok (r, w') →
  untouched w w' ∧
  ∀ data, r = Some data → data = LogMessage.format (LogMessage.ctor
    (sr_ret (lw_oracle w (lw_clock w))) tid level file line (AsyncLogger.logger_name_ logger) (c_string msg)).
Proof.
  intros E. assert (Hk : keeps (AsyncLogger.log_at level tp tid logger file line (Some msg))).
  { unfold AsyncLogger.log_at, AsyncLogger.serialize, Date.Now. along. destruct level; along. }
  split; [exact (Hk _ _ _ E)|]. intros data ->.
  unfold AsyncLogger.log_at, AsyncLogger.serialize in E.
  apply bind_inv in E as (now & w1 & E1 & E2). injection E1 as <- <-.
  destruct level; unfold ret in E2; try congruence;
    (apply bind_inv in E2 as ([] & w2 & _ & E3); unfold ret in E3; congruence).
Qed.
End log_at.

(** ** Building a logger *)
Section build.
Context {D : Type} `{Directories D} `{Platform} (cfg : JsonData).
Implicit Types (w : LogWorld D) (b : LoggerBuilder.t).
Import LoggerBuilder LogFlushFactory.

(** A user's calls of [BuildLoggerFlush]. *)
Fixpoint build_flushs (args : list flush_args) b : M (LogWorld D) t :=
  match args with
  | [] => ret b
  | a :: args' =>
      let! b := BuildLoggerFlush a b in
      build_flushs args' b
  end.

(** A logger of its own name and type, with these outputs. *)
Definition new_logger (name : list byte) (type : AsyncType) (args : list flush_args)
    : M (LogWorld D) AsyncLogger.t :=
  let! b := build_flushs args (BuildLoggerType type (BuildLoggerName name ctor)) in
  let! built := lift (Build cfg b) in
  ret built.1.

(** The outputs, if their files can be opened. *)
Definition output_of (a : flush_args) : LogFlush.t :=
  match a with
  | StdoutFlush_args => LogFlush.Stdout
  | FileFlush_args n => LogFlush.ToFile (FileFlush.mk n (Some (mkFILE n [] false)))
  | RollFileFlush_args n max_size => LogFlush.ToRollFile (RollFileFlush.mk 0 0 max_size n None)
  end.
Definition outputs_of (args : list flush_args) : list LogFlush.t :=
  match args with [] => [LogFlush.Stdout] | _ => output_of <$> args end.

(** A file name of a length an [int] can count. *)
Definition short (a : flush_args) : Prop :=
  match a with
  | StdoutFlush_args => True
  | FileFlush_args n | RollFileFlush_args n _ => zlen n ≤ INT_MAX
  end.

Lemma find_last_of_range s : File.find_last_of s = File.npos ∨ 0 ≤ File.find_last_of s < zlen s.
Proof.
  unfold File.find_last_of. destruct (list_find _ _) as [[i c]|] eqn:E; [|by left]. right.
  apply list_find_Some in E as (E & _). apply lookup_lt_Some in E. rewrite length_reverse in E.
  unfold zlen. lia.
Qed.

Lemma Path_ok n : zlen n ≤ INT_MAX → ∃ p, File.Path n = Ok p.
Proof.
  intros Hn. unfold File.Path, INT_MAX in *. case_decide; [by eexists|].
  destruct (find_last_of_range n) as [->|Hr]; [by eexists|].
  rewrite int32_small by lia. destruct (wrap64 _ =? _); [by eexists|].
  rewrite (proj2 (Z.eqb_neq _ _)) by lia. by eexists.
Qed.

Lemma CreateDirectory_keeps p w : ∃ w', File.CreateDirectory p w = Ok (tt, w') ∧ untouched w w'.
Proof. unfold File.CreateDirectory, when. by destruct (bool_decide (p = [])); eexists. Qed.

Lemma touches_same n w w' : touches n w w' → content_of n w' = content_of n w →
  lw_oracle w' = lw_oracle w ∧ ∀ r, content_at r w' = content_at r w.
Proof.
  intros Ht Hc. split; [apply Ht|]. intros [m|]; [|apply Ht]. cbn.
  destruct (decide (m = n)) as [->|Hm]; [done|by apply (to_others _ _ _ Ht)].
Qed.

Lemma CreateLog_ok a w : io_good w → short a →
  ∃ w', CreateLog a w = Ok (output_of a, w') ∧ lw_oracle w' = lw_oracle w ∧
    ∀ r, content_at r w' = content_at r w.
Proof.
  intros Hg Hn. destruct a as [|n|n max_size]; cbn [CreateLog output_of].
  - by exists w.
  - destruct (Path_ok n Hn) as [p Hp]. destruct (CreateDirectory_keeps p w) as (w1 & E1 & Hu).
    destruct (fopen_ok n w1) as (w2 & E2 & Ht & Hc); [intros k; rewrite (proj1 Hu); apply Hg|].
    exists w2. split.
    + unfold FileFlush.ctor. rewrite Hp, !bind_assoc.
      rewrite (bind_Ok _ _ _ _ _ (eq_refl : lift (Ok p) w = Ok (p, w))).
      by rewrite bind_assoc, (bind_Ok _ _ _ _ _ E1), bind_assoc, (bind_Ok _ _ _ _ _ E2).
    + destruct (touches_same _ _ _ Ht Hc) as [Ho Hsame]. split; [by rewrite Ho, (proj1 Hu)|].
      intros r. by rewrite Hsame, (untouched_content _ _ _ Hu).
  - destruct (Path_ok n Hn) as [p Hp]. destruct (CreateDirectory_keeps p w) as (w1 & E1 & Hu).
    exists w1. split.
    + unfold RollFileFlush.ctor. rewrite Hp, !bind_assoc.
      rewrite (bind_Ok _ _ _ _ _ (eq_refl : lift (Ok p) w = Ok (p, w))).
      by rewrite bind_assoc, (bind_Ok _ _ _ _ _ E1).
    + split; [apply Hu|]. intros r. by apply untouched_content.
Qed.

Lemma build_flushs_ok args b w : io_good w → Forall short args →
  ∃ w', build_flushs args b w =
      Ok (mk (logger_name_ b) (flushs_ b ++ (output_of <$> args)) (async_type_ b), w') ∧
    lw_oracle w' = lw_oracle w ∧ ∀ r, content_at r w' = content_at r w.
Proof.
  intros Hg Hn. revert b w Hg. induction Hn as [|a args Hn _ IH]; intros b w Hg; cbn [build_flushs].
  { exists w. destruct b. by rewrite fmap_nil, app_nil_r. }
  destruct (CreateLog_ok a w Hg Hn) as (w1 & E1 & Ho & Hc).
  unfold BuildLoggerFlush. rewrite bind_assoc, (bind_Ok _ _ _ _ _ E1), (bind_Ok _ _ _ _ _ (ret_Ok _ w1)).
  destruct (IH (add_flush (output_of a) b) w1) as (w2 & E2 & Ho2 & Hc2); [intros k; rewrite Ho; apply Hg|].
  exists w2. rewrite E2. cbn. rewrite <- app_assoc. split; [done|].
  split; [congruence|]. intros r. by rewrite Hc2.
Qed.

Lemma outputs_new args : Forall new_output (outputs_of args).
Proof.
  assert (Hn : ∀ a, new_output (output_of a)) by (intros [|n|n m]; [done|by exists n, false|done]).
  destruct args as [|a args]; [by constructor|]. cbn [outputs_of]. apply Forall_fmap, Forall_true.
  intros a'. apply Hn.
Qed.

(** What the builder makes: a new worker of its type, and its outputs. *)
Lemma Build_ok b l b' : Build cfg b = Ok (l, b') → 0 ≤ cfg_buffer_size cfg →
  AsyncLogger.logger_name_ l = logger_name_ b ∧
  AsyncLogger.new_worker cfg (async_type_ b) = Ok (AsyncLogger.asyncworker l) ∧
  initial (AsyncLogger.asyncworker l) ∧
  AsyncLogger.flushs_ l = (match flushs_ b with [] => [LogFlush.Stdout] | es => es end).
Proof.
  unfold Build. intros E Hb. case_decide as Hnm; [done|]. unfold AsyncLogger.ctor in E.
  destruct b as [name es type]; destruct es as [|e es]; cbn in *;
    (destruct (AsyncLogger.new_worker cfg type) as [wk|] eqn:Ea; [|done]);
    injection E as <- <-; (split_and!; [done|done|by eapply new_worker_initial|done]).
Qed.

Lemma outputs_of_flushs args :
  (match output_of <$> args with [] => [LogFlush.Stdout] | es => es end) = outputs_of args.
Proof. by destruct args. Qed.

(** A logger built on files that can be opened has these outputs, and its worker
    is a new one. *)
Lemma new_logger_ok name type args w l w' :
  io_good w → Forall short args → 0 ≤ cfg_buffer_size cfg →
  new_logger name type args w = Ok (l, w') →
  initial (AsyncLogger.asyncworker l) ∧ AsyncLogger.flushs_ l = outputs_of args ∧
  lw_oracle w' = lw_oracle w ∧ ∀ r, content_at r w' = content_at r w.
Proof.
  intros Hg Hn Hb E. unfold new_logger in E.
  destruct (build_flushs_ok args (BuildLoggerType type (BuildLoggerName name ctor)) w Hg Hn)
    as (w1 & E1 & Ho & Hc).
  rewrite (bind_Ok _ _ _ _ _ E1) in E. apply bind_inv in E as ([l' b] & w2 & E2 & E3).
  unfold lift in E2. destruct (Build cfg _) as [r|] eqn:EB; [|done].
  injection E2 as -> <-. injection E3 as <- <-.
  destruct (Build_ok _ _ _ EB Hb) as (_ & _ & Hi & Hf).
  split_and!; [done| |done|done]. rewrite Hf. apply outputs_of_flushs.
Qed.

Lemma written_since e0 w0 w1 text w :
  (∀ r, content_at r w1 = content_at r w0) → written e0 w1 text w → written e0 w0 text w.
Proof.
  intros Hc. destruct e0 as [|f|r]; cbn.
  - intros ->. pose proof (Hc None) as E. cbn in E. by rewrite E.
  - intros ->. pose proof (Hc (Some (file_of f))) as E. cbn in E. by rewrite E.
  - assert (Hn : ∀ n, content_of n w1 = content_of n w0) by (intros n; exact (Hc (Some n))).
    intros (ns & parts & Hnd & Hnm & Hp & Hf & Ho). exists ns, parts. split_and!; [done..| |].
    + eapply Forall2_impl; [exact Hf|]. cbn. intros n part ->. by rewrite Hn.
    + intros n Hnn Hno. by rewrite <- Hn, Ho.
Qed.
End build.

(** ** The callers *)

(** What a call is given; [text] is what [vasprintf] made. *)
Record log_call := mkCall {
  lc_level : LogLevel.value;
  lc_tid : Z;
  lc_file : list byte;
  lc_line : Z;
  lc_text : list byte }.

Definition message_of (logger : AsyncLogger.t) (now : Z) (c : log_call) : LogMessage.t :=
  LogMessage.ctor now (lc_tid c) (lc_level c) (lc_file c) (lc_line c)
    (AsyncLogger.logger_name_ logger) (c_string (lc_text c)).

(** The callers' messages, by where the calls are: about to push, waiting for
    room, accepted (in this order), refused.  [called] has all of them. *)
Record system (D : Type) := mkSystem {
  sy_worker : AsyncWorker;
  sy_flushs : list LogFlush.t;
  sy_world : LogWorld D;
  called : list LogMessage.t;
  calling : list LogMessage.t;
  waiting : list LogMessage.t;
  logged : list LogMessage.t;
  refused : list LogMessage.t }.
Arguments mkSystem {D}.
Arguments sy_worker {D}.
Arguments sy_flushs {D}.
Arguments sy_world {D}.
Arguments called {D}.
Arguments calling {D}.
Arguments waiting {D}.
Arguments logged {D}.
Arguments refused {D}.

Section calls.
Context {D : Type} `{Directories D} `{Platform} (cfg : JsonData) (logger : AsyncLogger.t).
Implicit Types (s : system D) (a : AsyncWorker) (m : LogMessage.t).

(** [AsyncLogger::Flush] and [AsyncLogger::Stop]. *)
Definition Flush (data : list byte) : AsyncWorker → AsyncWorker → Prop := push_step cfg data.
Definition Stop : AsyncWorker → AsyncWorker → Prop := stop_step.

Definition set_calls a calling' waiting' logged' refused' s : system D :=
  mkSystem a (sy_flushs s) (sy_world s) (called s) calling' waiting' logged' refused'.

(** A message comes to the buffer, in the world that its call leaves. *)
Definition arrive m w' s : system D :=
  mkSystem (sy_worker s) (sy_flushs s) w' (called s ++ [m]) (calling s ++ [m])
    (waiting s) (logged s) (refused s).
Definition set_world w' s : system D :=
  mkSystem (sy_worker s) (sy_flushs s) w' (called s) (calling s) (waiting s) (logged s) (refused s).

(** The call [c] up to its push; the second way, it waits for the pool for ever. *)
Inductive format_step (c : log_call) s : system D → Prop :=
  | f_line tp data w' (m := message_of logger (sr_ret (lw_oracle (sy_world s) (lw_clock (sy_world s)))) c) :
      AsyncLogger.log_at (lc_level c) tp (lc_tid c) logger (lc_file c) (lc_line c) (Some (lc_text c))
        (sy_world s) = Ok (Some data, w') →
      format_step c s (arrive m w' s)
  | f_never_returns tp w' :
      AsyncLogger.log_at (lc_level c) tp (lc_tid c) logger (lc_file c) (lc_line c) (Some (lc_text c))
        (sy_world s) = Ok (None, w') →
      format_step c s (set_world w' s).

(** A step of [Flush] leaves [woken] alone when the call has just come to the
    buffer, and changes it when it comes back from the wait. *)
Inductive flush_step s : system D → Prop :=
  | p_accepted m l1 l2 a' :
      calling s = l1 ++ m :: l2 → Flush (LogMessage.format m) (sy_worker s) a' →
      woken a' = woken (sy_worker s) → accepted a' ≠ accepted (sy_worker s) →
      flush_step s (set_calls a' (l1 ++ l2) (waiting s) (logged s ++ [m]) (refused s) s)
  | p_refused m l1 l2 :
      calling s = l1 ++ m :: l2 → Flush (LogMessage.format m) (sy_worker s) (sy_worker s) →
      flush_step s (set_calls (sy_worker s) (l1 ++ l2) (waiting s) (logged s) (refused s ++ [m]) s)
  | p_blocked m l1 l2 a' :
      calling s = l1 ++ m :: l2 → Flush (LogMessage.format m) (sy_worker s) a' →
      woken a' = woken (sy_worker s) → blocked a' ≠ blocked (sy_worker s) →
      flush_step s (set_calls a' (l1 ++ l2) (waiting s ++ [m]) (logged s) (refused s) s)
  | p_back_accepted m l1 l2 a' :
      waiting s = l1 ++ m :: l2 → Flush (LogMessage.format m) (sy_worker s) a' →
      woken a' ≠ woken (sy_worker s) → accepted a' ≠ accepted (sy_worker s) →
      flush_step s (set_calls a' (calling s) (l1 ++ l2) (logged s ++ [m]) (refused s) s)
  | p_back m a' :
      m ∈ waiting s → Flush (LogMessage.format m) (sy_worker s) a' →
      woken a' ≠ woken (sy_worker s) → accepted a' = accepted (sy_worker s) →
      flush_step s (set_calls a' (calling s) (waiting s) (logged s) (refused s) s).

(** A step of the worker's thread, or of [Stop], with what it writes. *)
Inductive pipe_step (R : AsyncWorker → AsyncWorker → Prop) s : system D → Prop :=
  | p_step a' fl' w' :
      R (sy_worker s) a' → log_step cfg (sy_worker s, sy_flushs s, sy_world s) (a', fl', w') →
      pipe_step R s (mkSystem a' fl' w' (called s) (calling s) (waiting s) (logged s) (refused s)).

Inductive call_step s s' : Prop :=
  | c_format c : format_step c s s' → call_step s s'
  | c_flush : flush_step s s' → call_step s s'
  | c_worker : pipe_step thread_step s s' → call_step s s'
  | c_stop : pipe_step Stop s s' → call_step s s'.

(** ** Invariant *)
(** Every message is where its bytes are. *)
Record books s : Prop := {
  bk_logged : accepted (sy_worker s) = concat (LogMessage.format <$> logged s);
  bk_waiting : blocked (sy_worker s) ++ woken (sy_worker s) ≡ₚ LogMessage.format <$> waiting s;
  bk_called : called s ≡ₚ logged s ++ refused s ++ waiting s ++ calling s }.

(** What a step of [Flush] can do. *)
Inductive flushed (data : list byte) a a' : Prop :=
  | fl_none : a' = a → flushed data a a'
  | fl_now : accepted a' = accepted a ++ data → blocked a' = blocked a → woken a' = woken a →
      flushed data a a'
  | fl_block : accepted a' = accepted a → blocked a' = blocked a ++ [data] → woken a' = woken a →
      flushed data a a'
  | fl_later : accepted a' = accepted a ++ data → blocked a' = blocked a →
      woken a ≡ₚ data :: woken a' → woken a' ≠ woken a → flushed data a a'
  | fl_again : accepted a' = accepted a → blocked a' ++ woken a' ≡ₚ blocked a ++ woken a →
      woken a' ≠ woken a → flushed data a a'.

Lemma shorter {A} (l1 l2 : list A) x : l1 ++ l2 ≠ l1 ++ x :: l2.
Proof. intros E%(f_equal length). rewrite !length_app in E. cbn in E. lia. Qed.

Lemma Flush_cases data a a' : Flush data a a' → flushed data a a' ∧ delivered a' = delivered a.
Proof.
  intros Hs. destruct Hs as
    [a _ _|a prod _ _ _ _|a _ _ _|a prod w1 w2 _ E _ _|a w1 w2 _ E _|a b1 b2 E].
  - split; [by apply fl_none|done].
  - split; [by apply fl_now|done].
  - split; [by apply fl_block|done].
  - split; [|done]. apply fl_later; cbn; rewrite ?E; [done..|solve_Permutation|apply shorter].
  - split; [|done]. apply fl_again; [done|..]; cbn; rewrite E; [solve_Permutation|apply shorter].
  - split; [|done]. apply fl_again; [done|..]; cbn; rewrite ?E; [solve_Permutation|].
    intros E'%(f_equal length). rewrite length_app in E'. cbn in E'. lia.
Qed.

(** The worker's own steps leave the producers' data where it counts. *)
Lemma worker_keeps a a' :
  thread_step a a' ∨ Stop a a' →
  accepted a' = accepted a ∧ blocked a' ++ woken a' ≡ₚ blocked a ++ woken a.
Proof.
  intros [Hs|Hs]; [|by destruct Hs]. destruct Hs as
    [| | |a prod cons swapped bl wk bytes _ _ _ Hn a' _|]; try done.
  assert (Hp : bl ++ wk ≡ₚ blocked a ++ woken a).
  { destruct (swapped && _); [|by destruct Hn as [-> ->]]. destruct Hn; [done|]. solve_Permutation. }
  by repeat case_match.
Qed.

Lemma format_not_nil m : LogMessage.format m ≠ [].
Proof. by unfold LogMessage.format. Qed.

Lemma format_grows {A} (l x : list A) : l ++ x = l → x ≠ [] → False.
Proof. intros E%(f_equal length) Hx. rewrite length_app in E. destruct x; [done|cbn in E; lia]. Qed.

Lemma books_arrive m w' s : books s → books (arrive m w' s).
Proof. intros [Hl Hw Hc]. split; cbn; try done. rewrite Hc. solve_Permutation. Qed.

Lemma books_world w' s : books s → books (set_world w' s).
Proof. intros [Hl Hw Hc]. by split. Qed.

Lemma books_flush s s' : flush_step s s' → books s → books s'.
Proof.
  intros Hs [Hl Hw Hc]. destruct Hs as
    [m l1 l2 a' Ec Hf Hwk Ha|m l1 l2 Ec Hf|m l1 l2 a' Ec Hf Hwk Hb
    |m l1 l2 a' Ec Hf Hwk Ha|m a' Hin Hf Hwk Ha];
    destruct (Flush_cases _ _ _ Hf) as [Hfl _].
  - inversion Hfl as [->|Ea Eb _|? Eb _|Ea Eb Hperm ?|Ea _ Hne]; try done.
    split; cbn; [|by rewrite Eb, Hwk|rewrite Hc, Ec; solve_Permutation].
    rewrite Ea, Hl, fmap_app, concat_app. cbn. by rewrite app_nil_r.
  - split; cbn; [done..|]. rewrite Hc, Ec. solve_Permutation.
  - inversion Hfl as [->|? Eb _|Ea Eb _|? Eb ? ?|Ea _ Hne]; try done.
    split; cbn; [by rewrite Ea| |rewrite Hc, Ec; solve_Permutation].
    rewrite Eb, Hwk, fmap_app, <- Hw. cbn. solve_Permutation.
  - inversion Hfl as [->|? ? ?|Ea Eb ?|Ea Eb Hperm ?|Ea _ Hne]; try done.
    split; cbn; [| |rewrite Hc, Ec; solve_Permutation].
    + rewrite Ea, Hl, fmap_app, concat_app. cbn. by rewrite app_nil_r.
    + apply (Permutation_cons_inv (a := LogMessage.format m)).
      transitivity (blocked (sy_worker s) ++ woken (sy_worker s)).
      { rewrite Eb, Hperm. solve_Permutation. }
      rewrite Hw, Ec, !fmap_app. cbn. solve_Permutation.
  - split; cbn; [by rewrite Ha| |done].
    inversion Hfl as [->|? ? ?|? ? ?|Ea Eb Hperm ?|? Hperm Hne]; try done; [|by rewrite Hperm].
    exfalso. rewrite Ha in Ea. symmetry in Ea. by eapply format_grows, format_not_nil.
Qed.

Lemma books_step s s' : call_step s s' → books s → books s'.
Proof.
  intros [c Hs|Hs|Hs|Hs] Hb; [| |destruct Hb as [Hl Hw Hc]..].
  - destruct Hs; [by apply books_arrive|by apply books_world].
  - by eapply books_flush.
  - destruct Hs as [a' fl' w' Hs _]. destruct (worker_keeps _ _ (or_introl Hs)) as [Ea Hperm].
    split; cbn; [by rewrite Ea|by rewrite Hperm|done].
  - destruct Hs as [a' fl' w' Hs _]. destruct (worker_keeps _ _ (or_intror Hs)) as [Ea Hperm].
    split; cbn; [by rewrite Ea|by rewrite Hperm|done].
Qed.

(** The bookkeeping holds no caller up: whatever [Flush] may do for a message
    that is on its way is a step. *)
Lemma calls_unrestricted s m a' :
  books s → Flush (LogMessage.format m) (sy_worker s) a' →
  (m ∈ calling s ∧ woken a' = woken (sy_worker s)) ∨ (m ∈ waiting s ∧ woken a' ≠ woken (sy_worker s)) →
  ∃ s', call_step s s' ∧ sy_worker s' = a'.
Proof.
  intros Hi Hf Hm. destruct (Flush_cases _ _ _ Hf) as [Hfl _].
  destruct Hm as [[(l1 & l2 & E)%list_elem_of_split Hw]|[Hin Hw]].
  - inversion Hfl as [->|Ea Eb _|Ea Eb _|? ? ? Hne|? ? Hne]; try done.
    + eexists. split; [eapply c_flush; by eapply p_refused|done].
    + eexists. split; [eapply c_flush, p_accepted; try done|done].
      rewrite Ea. intros E'. by eapply format_grows, format_not_nil.
    + eexists. split; [eapply c_flush, p_blocked; try done|done].
      rewrite Eb. intros E'. by eapply format_grows.
  - inversion Hfl as [->|? ? ?|? ? ?|Ea Eb Hperm Hne|Ea Hperm Hne]; try done.
    + apply list_elem_of_split in Hin as (l1 & l2 & E).
      eexists. split; [eapply c_flush, p_back_accepted; try done|done].
      rewrite Ea. intros E'. by eapply format_grows, format_not_nil.
    + eexists. split; [eapply c_flush; by eapply p_back|done].
Qed.

Definition system0 a0 fl0 (w0 : LogWorld D) : system D := mkSystem a0 fl0 w0 [] [] [] [] [].

Lemma books_start a0 fl0 w0 : initial a0 → books (system0 a0 fl0 w0).
Proof. intros (_ & _ & _ & Hb & Hwk & Hac & _). split; cbn; [done|by rewrite Hb, Hwk|done]. Qed.

Section run.
Context (es0 : list LogFlush.t) (w0 : LogWorld D).
Context (Hcfg : flush_log cfg = 1 ∨ flush_log cfg = 2) (Hg : io_good w0) (Hap : apart es0).

(** A push hands nothing to the callback. *)
Lemma pipe_push data a a' fl w :
  Flush data a a' → pipe_inv es0 w0 (a, fl, w) → pipe_inv es0 w0 (a', fl, w).
Proof.
  intros Hs [Hw Ho Hds Hot]. pose proof (proj2 (Flush_cases _ _ _ Hs)) as Hd.
  split; cbn in *; [by eapply worker_inv_push|done|by rewrite Hd|done].
Qed.

Lemma pipe_world a fl w w' : untouched w w' → pipe_inv es0 w0 (a, fl, w) → pipe_inv es0 w0 (a, fl, w').
Proof.
  intros Hu [Hw Ho (ds & Hd & Hne & Hh) Hot]. split; cbn in *; [done|by rewrite (proj1 Hu)| |].
  2: { intros r Hr. rewrite (untouched_content _ _ _ Hu). by apply Hot. }
  exists ds. split_and!; [done..|]. apply (all_hold_frame cfg w0 Hcfg ds es0 fl w); [apply Hu| |done].
  apply Forall_true. intros e0 r _. by apply untouched_content.
Qed.

Definition sy_pipe s : AsyncWorker * list LogFlush.t * LogWorld D := (sy_worker s, sy_flushs s, sy_world s).

Lemma pipe_call s s' :
  call_step s s' → pipe_inv es0 w0 (sy_pipe s) → bounded es0 (delivered (sy_worker s')) →
  pipe_inv es0 w0 (sy_pipe s').
Proof.
  intros [c Hs|Hs|Hs|Hs] Hp Hb.
  - destruct Hs as [tp data w' m E|tp w' E]; apply log_at_ok in E as [Hu _]; by eapply pipe_world.
  - by destruct Hs; [eapply pipe_push..|eapply pipe_push].
  - destruct Hs. by eapply (pipe_inv_step cfg es0 w0 Hcfg Hg Hap).
  - destruct Hs. by eapply (pipe_inv_step cfg es0 w0 Hcfg Hg Hap).
Qed.

Lemma call_step_delivers s s' :
  call_step s s' → ∃ buffer, delivered (sy_worker s') = delivered (sy_worker s) ++ buffer.
Proof.
  assert (Hf : ∀ data a a', Flush data a a' → ∃ buffer, delivered a' = delivered a ++ buffer)
    by (intros data a a' Hs; exists []; rewrite app_nil_r; apply (Flush_cases _ _ _ Hs)).
  intros [c []|[]|[a' fl' w' _ Hs]|[a' fl' w' _ Hs]]; cbn; eauto; try (by exists []; rewrite app_nil_r);
    exact (log_step_delivers cfg _ _ Hs).
Qed.

Lemma call_reachable a0 s :
  initial a0 → Forall new_output es0 → rtc call_step (system0 a0 es0 w0) s →
  bounded es0 (delivered (sy_worker s)) → books s ∧ pipe_inv es0 w0 (sy_pipe s).
Proof.
  intros Hi Hn Hr. revert s Hr. refine (rtc_ind_r _ _ _ _).
  - intros _. split; [by apply books_start|by apply pipe_starts].
  - intros s1 s2 _ Hs IH Hb. destruct IH as [Hbk Hp].
    { destruct (call_step_delivers _ _ Hs) as [buffer E]. rewrite E in Hb. by eapply bounded_prefix. }
    split; [by eapply books_step|by eapply pipe_call].
Qed.
End run.

(** C16: what is logged can be read back. Let a logger be built with any outputs
    that own different things: standard output, files, rolling files (standard
    output alone, if the user asks for none), whose names an [int] can count; let
    [flush_log] be 1 or 2, let no call of the kernel fail, and let a rolling
    output get less than 2^64 bytes. Then under every interleaving of the threads that
    log, the worker and [Stop], each message is in one place: in the log,
    refused, or with its caller, who waits for room or is about to push; and
    when the worker sleeps, or has returned with nothing pushed behind it,
    reading what was added to each output line by line (to a rolling one: to its
    files, one after the other) gives the records of the messages in the log,
    each once and in the order they were accepted, if no field of a message holds
    a newline, no name a closing bracket, and no line number is negative. *)
Theorem log_calls_read_back `{!PlatformOk} name type args w0 w1 s :
  io_good w0 → Forall short args → apart (outputs_of args) →
  0 ≤ cfg_buffer_size cfg → (flush_log cfg = 1 ∨ flush_log cfg = 2) →
  new_logger cfg name type args w0 = Ok (logger, w1) →
  rtc call_step (system0 (AsyncLogger.asyncworker logger) (AsyncLogger.flushs_ logger) w1) s →
  bounded (outputs_of args) (delivered (sy_worker s)) →
  called s ≡ₚ logged s ++ refused s ++ waiting s ++ calling s ∧
  (Forall loggable (called s) → drained (sy_worker s) →
   ∀ e0, e0 ∈ outputs_of args → ∃ text, written e0 w0 text (sy_world s) ∧
     read_log text = Some (line_of <$> logged s)).
Proof.
  intros Hg Hn Hap Hb Hcfg E Hr Hbd.
  destruct (new_logger_ok cfg name type args w0 logger w1 Hg Hn Hb E) as (Hi & Hf & Ho & Hc0).
  assert (Hg1 : io_good w1) by (intros k; rewrite Ho; apply Hg). rewrite Hf in Hr.
  destruct (call_reachable (outputs_of args) w1 Hcfg Hg1 Hap _ _ Hi (outputs_new args) Hr Hbd)
    as [[Hl Hw Hc] Hp].
  split; [done|]. intros Hok Hd e0 He. exists (delivered (sy_worker s)).
  split; [eapply written_since; [exact Hc0|by apply (pipe_written _ _ _ _ Hp)]|].
  pose proof (pv_worker _ _ _ Hp) as Hv. cbn in Hv. rewrite (drained_accepted _ Hv Hd), Hl.
  apply read_log_messages. rewrite Hc in Hok. by apply Forall_app in Hok as [? _].
Qed.
End calls.

(** ** A concrete run: one call, and the worker until it sleeps *)
Definition demo_log_config : JsonData := mkJsonData 128 0 8 1 "127.0.0.1"%string 6635 3.
Definition demo_log_buffer : Buffer.t := Buffer.mk (replicate 128 x00) 0 0.
Definition demo_idle_worker : AsyncWorker :=
  mkAsyncWorker ASYNC_SAFE false demo_log_buffer demo_log_buffer WEnter 0 [] [] [] [].
(** What a run that does not fault returns. *)
Definition result {A} (o : outcome A) (d : A) : A := match o with Ok r => r | Fault _ => d end.
Lemma Ok_result {A} (o : outcome A) d : match o with Ok _ => true | Fault _ => false end = true → o = Ok (result o d).
Proof. by destruct o. Qed.

Definition demo_outputs : list LogFlushFactory.flush_args :=
  [LogFlushFactory.StdoutFlush_args; LogFlushFactory.FileFlush_args (bytes "log/a");
   LogFlushFactory.RollFileFlush_args (bytes "log/roll") 4].
Definition demo_built : AsyncLogger.t * LogWorld (gset (list byte)) :=
  result (new_logger demo_log_config (bytes "asynclogger") ASYNC_SAFE demo_outputs demo_log_world)
    (AsyncLogger.mk [] [] demo_idle_worker, demo_log_world).
Definition demo_logger : AsyncLogger.t := demo_built.1.
Definition demo_call : log_call := mkCall LogLevel.INFO 140 (bytes "a.cpp") 42 (bytes "hello").
Definition demo_hello : LogMessage.t := message_of demo_logger 2 demo_call.

Definition demo_text : list byte := LogMessage.format demo_hello.

(** Its states: the line pushed, taken by the worker, written. *)
Definition demo_full : Buffer.t :=
  match Buffer.Push demo_log_config demo_text demo_log_buffer with Ok b => b | Fault _ => demo_log_buffer end.
Definition demo_worker1 : AsyncWorker := pushed demo_full demo_text [] [] demo_idle_worker.
Definition demo_worker2 : AsyncWorker :=
  mkAsyncWorker ASYNC_SAFE false demo_log_buffer demo_full WHandle 0 [] [] demo_text [].
Definition demo_worker3 : AsyncWorker := handled demo_text WEnter demo_worker2.
Definition demo_written : list LogFlush.t * LogWorld (gset (list byte)) :=
  result (AsyncLogger.RealFlush (H0 := UtcPlatform.platform) demo_log_config demo_text demo_three
    (lw_tick demo_built.2)) (demo_three, demo_log_world).

Lemma demo_flushed :
  AsyncLogger.RealFlush (H0 := UtcPlatform.platform) demo_log_config demo_text demo_three (lw_tick demo_built.2)
  = Ok (demo_written.1, demo_written.2).
Proof. rewrite <- surjective_pairing. apply Ok_result. by vm_compute. Qed.

Definition demo_system (a : AsyncWorker) (fl : list LogFlush.t) (w : LogWorld (gset (list byte)))
    (calling logged : list LogMessage.t) : system (gset (list byte)) :=
  mkSystem a fl w [demo_hello] calling [] logged [].
Definition demo_asleep : system (gset (list byte)) :=
  demo_system (set_worker WWaiting (set_worker WMustWait demo_worker3)) demo_written.1 demo_written.2
    [] [demo_hello].

Definition demo_start : system (gset (list byte)) :=
  system0 (AsyncLogger.asyncworker demo_logger) (AsyncLogger.flushs_ demo_logger) demo_built.2.

Lemma demo_calls :
  rtc (call_step (H0 := UtcPlatform.platform) demo_log_config demo_logger)
    demo_start demo_asleep.
Proof.
  assert (Ht2 : thread_step demo_worker1 demo_worker2).
  { assert (E : swap_buffers demo_worker1 = (demo_log_buffer, demo_full, true)) by by vm_compute.
    assert (Er : Buffer.Readable demo_full = Ok demo_text) by by vm_compute.
    assert (Hw : wake_up demo_worker1 = true) by by vm_compute.
    exact (t_section demo_worker1 demo_log_buffer demo_full true [] [] demo_text eq_refl Hw E
      (notify_none []) Er). }
  assert (Ht3 : thread_step demo_worker2 demo_worker3).
  { apply (t_handle demo_worker2 demo_text); [done|by vm_compute]. }
  assert (Ht4 : thread_step demo_worker3 (set_worker WMustWait demo_worker3)).
  { by apply t_must_wait. }
  set (w1 := lw_tick demo_built.2).
  eapply (rtc_l _ _ (demo_system demo_idle_worker demo_three w1 [demo_hello] [])).
  { apply (c_format _ _ _ _ demo_call). apply (f_line demo_logger demo_call demo_start None demo_text w1).
    reflexivity. }
  eapply (rtc_l _ _ (demo_system demo_worker1 demo_three w1 [] [demo_hello])).
  { apply c_flush. apply (p_accepted demo_log_config (demo_system demo_idle_worker demo_three w1 [demo_hello] [])
      demo_hello [] [] demo_worker1); [done| |done|by vm_compute].
    apply push_now; [done..|by vm_compute|by vm_compute]. }
  eapply (rtc_l _ _ (demo_system demo_worker2 demo_three w1 [] [demo_hello])).
  { apply c_worker, p_step; [done|]. apply ls_quiet; [by right; left|done]. }
  eapply (rtc_l _ _ (demo_system demo_worker3 demo_written.1 demo_written.2 [] [demo_hello])).
  { apply c_worker, p_step; [done|].
    apply (ls_flush _ _ _ _ _ demo_text); [by right; left|reflexivity|done|exact demo_flushed]. }
  eapply (rtc_l _ _ (demo_system (set_worker WMustWait demo_worker3) demo_written.1 demo_written.2
    [] [demo_hello])).
  { apply c_worker, p_step; [done|]. apply ls_quiet; [by right; left|done]. }
  apply rtc_once. apply c_worker, p_step; [by apply t_wait|].
  apply ls_quiet; [right; left; by apply t_wait|done].
Qed.

Lemma log_calls_read_back_witness :
  Forall (λ e0, ∃ text, written e0 demo_log_world text (sy_world demo_asleep) ∧
    read_log text = Some [line_of demo_hello]) (outputs_of demo_outputs).
Proof.
  destruct (log_calls_read_back (H0 := UtcPlatform.platform) demo_log_config demo_logger
    (bytes "asynclogger") ASYNC_SAFE demo_outputs demo_log_world demo_built.2 demo_asleep) as [_ Hr];
    [by intros n|by repeat (apply Forall_cons; split; [by vm_compute|])|by apply all_separate_apart|done|by left|reflexivity
    |apply demo_calls|by repeat constructor|].
  apply Forall_forall. apply Hr; [|by left]. constructor; [|constructor].
  split; [done|]. split_and!; by apply (bool_decide_unpack _).
Defined.
