(* ===== verification/LogErrors.v ===== *)
(** * Error and fatal log calls, with the thread pool in steps

    In [LogCalls] the backup of an error is part of the step that formats its
    line.  Here the caller, the pool and the logger take turns: the caller
    enqueues [start_backup] and waits for the future, a worker of the pool runs
    the task, and only then does the caller push its line. *)

From stdpp Require Import base tactics numbers list gmap relations strings.
From Stdlib Require Import ZArith Lia.
From S2P Require Import Prelude World LogBuffer AsyncWorker Message Files LogFlush Sinks.
From S2P Require Import ThreadPool Backup Logger LogCalls.

Local Open Scope list_scope.
Local Open Scope Z_scope.
Local Open Scope prog_scope.

#[local] Arguments LogMessage.format : simpl never.

(** ** The system *)

(** [saving]: the messages of the callers in [ret.get()]. [saved]: of those that
    came back from there. [turned_away]: of those for which [enqueue] threw,
    because the pool was closed. *)
Record backed_system (D : Type) := mkBacked {
  bs_sys : system D;
  bs_pool : ThreadPool.t (list byte);
  saving : list LogMessage.t;
  saved : list LogMessage.t;
  turned_away : list LogMessage.t }.
Arguments mkBacked {D}.
Arguments bs_sys {D}.
Arguments bs_pool {D}.
Arguments saving {D}.
Arguments saved {D}.
Arguments turned_away {D}.

(** [level == FATAL || level == ERROR]. *)
Definition is_error (level : LogLevel.value) : bool :=
  match level with LogLevel.FATAL | LogLevel.ERROR => true | _ => false end.

Section steps.
Context {D : Type} `{Directories D} `{Platform} (cfg : JsonData) (logger : AsyncLogger.t).
Implicit Types (s : system D) (p : ThreadPool.t (list byte)) (st : backed_system D) (m : LogMessage.t).

(** The message of a call that is made now. *)
Definition message_now (c : log_call) s : LogMessage.t :=
  message_of logger (sr_ret (lw_oracle (sy_world s) (lw_clock (sy_world s)))) c.

Inductive backed_step : backed_system D → backed_system D → Prop :=
  | b_plain c s s' p sv sd ta :
      is_error (lc_level c) = false → format_step logger c s s' →
      backed_step (mkBacked s p sv sd ta) (mkBacked s' p sv sd ta)
  (** [tp->enqueue(start_backup, data)] *)
  | b_submit c s p p' sv sd ta (m := message_now c s) :
      is_error (lc_level c) = true → ThreadPool.unlocked p →
      ThreadPool.enqueue (LogMessage.format m) p = Ok p' →
      backed_step (mkBacked s p sv sd ta)
        (mkBacked (set_world (lw_tick (sy_world s)) s) p' (sv ++ [m]) sd ta)
  | b_closed c s p f sv sd ta (m := message_now c s) :
      is_error (lc_level c) = true → ThreadPool.unlocked p →
      ThreadPool.enqueue (LogMessage.format m) p = Fault f →
      backed_step (mkBacked s p sv sd ta)
        (mkBacked (arrive m (lw_log LPrint (lw_tick (sy_world s))) s) p sv sd (ta ++ [m]))
  (** [ret.get()] returns: the task has ended. Of two tasks with the same text
      either may be the caller's. *)
  | b_returns m s p sv1 sv2 sd ta :
      LogMessage.format <$> (sd ++ [m]) ⊆+ ThreadPool.finished p →
      backed_step (mkBacked s p (sv1 ++ m :: sv2) sd ta)
        (mkBacked (arrive m (sy_world s) s) p (sv1 ++ sv2) (sd ++ [m]) ta)
  (** a worker of the pool; its task is [start_backup] *)
  | b_pool s p p' sv sd ta :
      ThreadPool.worker_step p p' → ThreadPool.finished p' = ThreadPool.finished p →
      backed_step (mkBacked s p sv sd ta) (mkBacked s p' sv sd ta)
  | b_task s p p' task w' sv sd ta :
      ThreadPool.worker_step p p' → ThreadPool.finished p' = ThreadPool.finished p ++ [task] →
      CliBackupLog.start_backup task (sy_world s) = Ok (tt, w') →
      backed_step (mkBacked s p sv sd ta) (mkBacked (set_world w' s) p' sv sd ta)
  (** the notification of [enqueue]; the pool's destructor *)
  | b_notify s p p' sv sd ta :
      ThreadPool.enqueue_step p p' → ThreadPool.submitted p' = ThreadPool.submitted p →
      backed_step (mkBacked s p sv sd ta) (mkBacked s p' sv sd ta)
  | b_destructor s p p' sv sd ta :
      ThreadPool.dtor_step p p' → backed_step (mkBacked s p sv sd ta) (mkBacked s p' sv sd ta)
  (** the pushes, the logger's worker and its [Stop] *)
  | b_flush s s' p sv sd ta :
      flush_step cfg s s' → backed_step (mkBacked s p sv sd ta) (mkBacked s' p sv sd ta)
  | b_worker s s' p sv sd ta :
      pipe_step cfg thread_step s s' → backed_step (mkBacked s p sv sd ta) (mkBacked s' p sv sd ta)
  | b_stop s s' p sv sd ta :
      pipe_step cfg Stop s s' → backed_step (mkBacked s p sv sd ta) (mkBacked s' p sv sd ta).

(** A logger and a pool of [n] workers. *)
Definition backed0 (n : nat) (w : LogWorld D) : backed_system D :=
  mkBacked (system0 (AsyncLogger.asyncworker logger) (AsyncLogger.flushs_ logger) w)
    (ThreadPool.ctor n) [] [] [].
End steps.

(** ** The trace only grows *)
Section extends.
Context {D : Type} `{Directories D} `{Platform} (cfg : JsonData).
Implicit Types (w : LogWorld D).

Record extends w w' : Prop := {
  ex_trace : lw_trace w `prefix_of` lw_trace w';
  ex_oracle : lw_oracle w' = lw_oracle w }.
#[export] Instance extends_preorder : PreOrder extends.
Proof.
  split; [by split|]. intros w1 w2 w3 [H1 E1] [H2 E2].
  split; [by transitivity (lw_trace w2)|congruence].
Qed.

Local Abbreviation ext := (along extends).

Lemma ext_same f : (∀ w, lw_trace (f w) = lw_trace w ∧ lw_oracle (f w) = lw_oracle w) → ext (modify f).
Proof. intros Hf. apply along_modify. intros w. destruct (Hf w) as [Et Eo]. by split; rewrite ?Et, ?Eo. Qed.
Lemma ext_sys : ext sys.
Proof. by intros w ? ? [= <- <-]. Qed.
Lemma ext_note e : ext (note e).
Proof. intros w ? ? [= <- <-]. split; [by exists [e]|done]. Qed.
Lemma ext_print : ext print.
Proof. apply ext_note. Qed.
Lemma ext_append name data : ext (modify (append_file name data)).
Proof. by apply ext_same. Qed.
#[local] Hint Resolve ext_sys ext_note ext_print ext_append : along.

Lemma ext_hand_over all data f : ext (hand_over all data f).
Proof. unfold hand_over. along. Qed.
#[local] Hint Resolve ext_hand_over : along.

Lemma ext_fwrite data fs : ext (fwrite data fs).
Proof. unfold fwrite, fwrite_ret. along. Qed.
Lemma ext_fflush f : ext (fflush f).
Proof. unfold fflush. along. Qed.
Lemma ext_fopen name : ext (fopen name).
Proof. unfold fopen. along. Qed.
Lemma ext_fsync f : ext (fsync f).
Proof. unfold fsync. along. by apply ext_same. Qed.
#[local] Hint Resolve ext_fwrite ext_fflush ext_fopen ext_fsync : along.

Lemma ext_Flush data e : ext (LogFlush.Flush cfg data e).
Proof.
  destruct e as [|f|r]; cbn.
  - unfold StdoutFlush.Flush. along. by apply ext_same.
  - unfold FileFlush.Flush. along.
  - unfold RollFileFlush.Flush, RollFileFlush.InitLogFile, RollFileFlush.write_out,
      RollFileFlush.CreateFilename, Date.Now, fclose. along. destruct (RollFileFlush.fs_ _); along.
Qed.
#[local] Hint Resolve ext_Flush : along.

Lemma ext_RealFlush data fl : ext (AsyncLogger.RealFlush cfg data fl).
Proof. induction fl as [|e fl IH]; cbn; along. Qed.

Lemma ext_log_step a fl w a' fl' w' : log_step cfg (a, fl, w) (a', fl', w') → extends w w'.
Proof. intros Hs. inversion Hs; subst; [done|]. by eapply ext_RealFlush. Qed.

Lemma ext_try_connect cnt sock : ext (CliBackupLog.try_connect cnt sock).
Proof. induction cnt as [|cnt IH]; cbn; along. Qed.
#[local] Hint Resolve ext_try_connect : along.
Lemma ext_start_backup message : ext (CliBackupLog.start_backup message).
Proof. unfold CliBackupLog.start_backup. along. Qed.
#[local] Hint Resolve ext_start_backup : along.

Lemma ext_log_at level tp tid logger file line msg : ext (AsyncLogger.log_at level tp tid logger file line msg).
Proof.
  unfold AsyncLogger.log_at, AsyncLogger.serialize, AsyncLogger.backup, Date.Now.
  destruct msg; along. destruct level; along;
    (destruct (ThreadPool.enqueue _ _); along; destruct (ThreadPool.workers _); along).
Qed.

(** A line was reported: on a socket that had just been connected all of it was
    given to one [write], which did not fail and took as many bytes as the
    kernel answered, and the socket was closed. *)
Definition reported (data : list byte) w : Prop :=
  ∃ fd i before after, 0 ≤ sr_ret (lw_oracle w i) ∧
    events w = before ++ [LConnect fd; LSend fd data (sr_ret (lw_oracle w i)); LClose fd] ++ after.

Lemma reported_extends data w w' : extends w w' → reported data w → reported data w'.
Proof.
  intros [[l El] Eo] (fd & i & before & after & Hi & E). exists fd, i, before. eexists. rewrite Eo.
  split; [done|]. unfold events in *. rewrite El, filter_app, E, <-!app_assoc. done.
Qed.

(** While the kernel refuses nothing, the task reports. *)
Lemma start_backup_reports message w :
  io_good w → ∃ w', CliBackupLog.start_backup message w = Ok (tt, w') ∧ reported message w'.
Proof.
  intros Hg. destruct (start_backup_cases message w) as [Hok _].
  destruct (Hok 0%nat) as (w' & E & Hl); [lia|intros j Hj; lia| |].
  { unfold result_at. pose proof (Hg (lw_clock w + 1)%nat). cbn. lia. }
  exists w'. split; [done|]. pose proof (Hg (lw_clock w + 2)%nat) as Hk.
  assert (Hn : result_at (2 + 0) w = sr_ret (lw_oracle w (lw_clock w + 2)%nat)) by done.
  cbv zeta in Hl. rewrite (proj2 (Z.eqb_neq (result_at (2 + 0) w) _)), Hn in Hl by lia.
  exists (result_at 0 w), (lw_clock w + 2)%nat, (events w), []. rewrite (la_oracle _ _ _ _ Hl).
  split; [done|]. by rewrite (la_events _ _ _ _ Hl), app_nil_r.
Qed.
End extends.

(** ** Invariant *)
Section inv.
Context {D : Type} `{Directories D} `{Platform} (cfg : JsonData) (logger : AsyncLogger.t).
Implicit Types (s : system D) (p : ThreadPool.t (list byte)) (st : backed_system D) (m : LogMessage.t).

Lemma format_extends c s s' : format_step logger c s s' → extends (sy_world s) (sy_world s').
Proof. by intros [tp data w' m E|tp w' E]; apply ext_log_at in E. Qed.

Lemma flush_extends s s' : flush_step cfg s s' → extends (sy_world s) (sy_world s').
Proof. by intros []. Qed.

Lemma pipe_extends R s s' : pipe_step cfg R s s' → extends (sy_world s) (sy_world s').
Proof. intros [a' fl' w' _ Hs]. by eapply ext_log_step. Qed.

(** A worker of the pool ends at most one task. *)
Lemma worker_finishes p p' : ThreadPool.worker_step p p' →
  (ThreadPool.finished p' = ThreadPool.finished p ∨
   ∃ task, ThreadPool.finished p' = ThreadPool.finished p ++ [task]) ∧
  ThreadPool.submitted p' = ThreadPool.submitted p ∧ ThreadPool.stop p' = ThreadPool.stop p.
Proof.
  intros [| | |ws1 ws2 E _ _|ws1 ws2 task E]; cbn; try (split; [by left|done]).
  - unfold ThreadPool.section. destruct (ThreadPool.tasks p); cbn; (split; [by left|done]).
  - split; [right; by exists task|done].
Qed.

Lemma enqueue_effect task p p' : ThreadPool.enqueue task p = Ok p' →
  ThreadPool.finished p' = ThreadPool.finished p ∧ ThreadPool.stop p' = ThreadPool.stop p ∧
  ThreadPool.submitted p' = ThreadPool.submitted p ++ [task].
Proof. unfold ThreadPool.enqueue. destruct (ThreadPool.stop p) eqn:E; [done|]. by intros [= <-]. Qed.

Lemma notify_effect p p' : ThreadPool.enqueue_step p p' → ThreadPool.submitted p' = ThreadPool.submitted p →
  ThreadPool.finished p' = ThreadPool.finished p ∧ ThreadPool.stop p' = ThreadPool.stop p.
Proof.
  intros [task p2 _ E|n ws _ _]; [|done]. apply enqueue_effect in E as (_ & _ & ->).
  intros Es%(f_equal length). rewrite length_app in Es. cbn in Es. lia.
Qed.

Lemma dtor_effect p p' : ThreadPool.dtor_step p p' →
  ThreadPool.finished p' = ThreadPool.finished p ∧ ThreadPool.submitted p' = ThreadPool.submitted p ∧
  (ThreadPool.stop p = true → ThreadPool.stop p' = true).
Proof. by intros []. Qed.

Record backed_inv (n : nat) st : Prop := {
  bi_books : books (bs_sys st);
  bi_pool : ThreadPool.pool_inv n (bs_pool st);
  bi_submitted : ThreadPool.submitted (bs_pool st) ≡ₚ LogMessage.format <$> (saved st ++ saving st);
  bi_saved : LogMessage.format <$> saved st ⊆+ ThreadPool.finished (bs_pool st);
  bi_called : Forall (λ m, is_error (LogMessage.level_ m) = true → m ∈ saved st ∨ m ∈ turned_away st)
    (called (bs_sys st));
  bi_closed : turned_away st ≠ [] → ThreadPool.stop (bs_pool st) = true;
  bi_reported : Forall (λ task, reported task (sy_world (bs_sys st))) (ThreadPool.finished (bs_pool st)) }.

(** The logger's own steps: whoever comes to the buffer was no error, or has
    been saved. *)
Lemma backed_inv_sys n s s' p sv sd ta :
  books s' → extends (sy_world s) (sy_world s') →
  Forall (λ m, is_error (LogMessage.level_ m) = true → m ∈ sd ∨ m ∈ ta) (called s') →
  backed_inv n (mkBacked s p sv sd ta) → backed_inv n (mkBacked s' p sv sd ta).
Proof.
  intros Hb He Hc [_ Hp Hs Hf _ Hcl Hr]. split; cbn in *; try done.
  eapply Forall_impl; [exact Hr|]. intros task. by apply reported_extends.
Qed.

(** A pool that moved on without a new task. *)
Lemma backed_inv_pool n s p p' sv sd ta :
  ThreadPool.step p p' → ThreadPool.finished p' = ThreadPool.finished p →
  ThreadPool.submitted p' = ThreadPool.submitted p →
  (ThreadPool.stop p = true → ThreadPool.stop p' = true) →
  backed_inv n (mkBacked s p sv sd ta) → backed_inv n (mkBacked s p' sv sd ta).
Proof.
  intros Hs Ef Es Est [Hb Hp Hsu Hf Hc Hcl Hr]. split; cbn in *; rewrite ?Ef, ?Es; try done.
  - by eapply ThreadPool.pool_inv_step.
  - auto.
Qed.

(** Steps in which nobody comes to the buffer for the first time. *)
Lemma backed_inv_call n s s' p sv sd ta :
  call_step cfg logger s s' → called s' = called s → extends (sy_world s) (sy_world s') →
  backed_inv n (mkBacked s p sv sd ta) → backed_inv n (mkBacked s' p sv sd ta).
Proof.
  intros Hs Ec He Hi. eapply backed_inv_sys; [|done| |exact Hi].
  - eapply (books_step cfg logger); [done|apply (bi_books _ _ Hi)].
  - rewrite Ec. apply (bi_called _ _ Hi).
Qed.

(** A task ends, and with it its report. *)
Lemma backed_inv_task n s p p' task w' sv sd ta :
  io_good (sy_world s) → ThreadPool.worker_step p p' →
  ThreadPool.finished p' = ThreadPool.finished p ++ [task] →
  CliBackupLog.start_backup task (sy_world s) = Ok (tt, w') →
  backed_inv n (mkBacked s p sv sd ta) → backed_inv n (mkBacked (set_world w' s) p' sv sd ta).
Proof.
  intros Hg Hs Ef E [Hb Hp Hsu Hf Hc Hcl Hr]. cbn in Hb, Hp, Hsu, Hf, Hc, Hcl, Hr.
  destruct (worker_finishes _ _ Hs) as (_ & Es & Est).
  destruct (start_backup_reports task (sy_world s) Hg) as (w2 & E2 & Hrep). rewrite E in E2. injection E2 as <-.
  split; cbn; rewrite ?Ef, ?Es, ?Est; try done.
  - by apply books_world.
  - eapply ThreadPool.pool_inv_step; [by left|done].
  - by apply submseteq_inserts_r.
  - apply Forall_app. split; [|by apply Forall_singleton]. eapply Forall_impl; [exact Hr|].
    intros t. apply reported_extends. by eapply ext_start_backup.
Qed.

Lemma backed_inv_step n st st' :
  io_good (sy_world (bs_sys st)) → backed_step cfg logger st st' → backed_inv n st → backed_inv n st'.
Proof.
  intros Hg Hs Hi. destruct Hs as [c s s' p sv sd ta El Hs|c s p p' sv sd ta m El Hu E|c s p f sv sd ta m El Hu E
    |m s p sv1 sv2 sd ta Hsub|s p p' sv sd ta Hs Ef|s p p' task w' sv sd ta Hs Ef E|s p p' sv sd ta Hs Es
    |s p p' sv sd ta Hs|s s' p sv sd ta Hs|s s' p sv sd ta Hs|s s' p sv sd ta Hs].
  - pose proof (bi_called _ _ Hi) as Hc. cbn in Hc.
    eapply backed_inv_sys; [|by eapply format_extends| |exact Hi].
    + eapply (books_step cfg logger); [by eapply c_format|apply (bi_books _ _ Hi)].
    + destruct Hs as [tp data w' m E|tp w' E]; [|done]. cbn. apply Forall_app. split; [done|].
      constructor; [|done]. cbn. congruence.
  - destruct Hi as [Hb Hp Hsu Hf Hc Hcl Hr]. destruct (enqueue_effect _ _ _ E) as (Ef & Est & Esu).
    cbn in *. split; cbn; rewrite ?Ef, ?Est, ?Esu; try done.
    + by apply books_world.
    + eapply ThreadPool.pool_inv_step; [|done]. right. left. by eapply ThreadPool.e_push.
    + rewrite Hsu, !fmap_app. cbn. solve_Permutation.
  - destruct Hi as [Hb Hp Hsu Hf Hc Hcl Hr]. cbn in *. split; cbn; try done.
    + by apply books_arrive.
    + apply Forall_app. split; [|apply Forall_singleton; intros _; right; set_solver].
      eapply Forall_impl; [exact Hc|]. cbn. set_solver.
    + intros _. unfold ThreadPool.enqueue in E. by destruct (ThreadPool.stop p).
    + eapply Forall_impl; [exact Hr|]. intros task. apply reported_extends.
      split; [by apply prefix_app_r|done].
  - destruct Hi as [Hb Hp Hsu Hf Hc Hcl Hr]. cbn in *. split; cbn; try done.
    + by apply books_arrive.
    + rewrite Hsu, !fmap_app. cbn. solve_Permutation.
    + apply Forall_app. split; [|apply Forall_singleton; intros _; left; set_solver].
      eapply Forall_impl; [exact Hc|]. cbn. set_solver.
  - destruct (worker_finishes _ _ Hs) as (_ & Es & Est).
    eapply backed_inv_pool; [by left|done|done|by rewrite Est|done].
  - by eapply backed_inv_task.
  - destruct (notify_effect _ _ Hs Es) as [Ef Est].
    eapply backed_inv_pool; [by right; left|done|done|by rewrite Est|done].
  - destruct (dtor_effect _ _ Hs) as (Ef & Es & Est). eapply backed_inv_pool; [by right; right|done..].
  - eapply backed_inv_call; [by apply c_flush|by destruct Hs|by apply flush_extends|done].
  - eapply backed_inv_call; [by apply c_worker|by destruct Hs|by eapply pipe_extends|done].
  - eapply backed_inv_call; [by apply c_stop|by destruct Hs|by eapply pipe_extends|done].
Qed.
End inv.

(** ** Runs *)
Section run.
Context {D : Type} `{Directories D} `{Platform} (cfg : JsonData) (logger : AsyncLogger.t).
Implicit Types (s : system D) (p : ThreadPool.t (list byte)) (st : backed_system D) (m : LogMessage.t).

Lemma backed_delivers st st' : backed_step cfg logger st st' →
  ∃ buffer, delivered (sy_worker (bs_sys st')) = delivered (sy_worker (bs_sys st)) ++ buffer.
Proof.
  assert (Hc : ∀ s s', call_step cfg logger s s' →
    ∃ buffer, delivered (sy_worker s') = delivered (sy_worker s) ++ buffer)
    by (intros s s'; apply call_step_delivers).
  intros []; cbn; try (by exists []; rewrite app_nil_r); apply Hc;
    [by eapply c_format|by apply c_flush|by apply c_worker|by apply c_stop].
Qed.

Section outputs.
Context (es0 : list LogFlush.t) (w0 : LogWorld D).
Context (Hcfg : flush_log cfg = 1 ∨ flush_log cfg = 2) (Hg : io_good w0) (Hap : apart es0).

Lemma backed_pipe st st' :
  backed_step cfg logger st st' → pipe_inv es0 w0 (sy_pipe (bs_sys st)) →
  bounded es0 (delivered (sy_worker (bs_sys st'))) → pipe_inv es0 w0 (sy_pipe (bs_sys st')).
Proof.
  intros Hs Hp Hb.
  assert (Hw : ∀ s w', untouched (sy_world s) w' → pipe_inv es0 w0 (sy_pipe s) →
    pipe_inv es0 w0 (sy_worker s, sy_flushs s, w')) by (intros s w'; by apply pipe_world with (cfg := cfg)).
  destruct Hs as [c s s' p sv sd ta El Hs|c s p p' sv sd ta m El Hu E|c s p f sv sd ta m El Hu E
    |m s p sv1 sv2 sd ta Hsub|s p p' sv sd ta Hs Ef|s p p' task w' sv sd ta Hs Ef E|s p p' sv sd ta Hs Es
    |s p p' sv sd ta Hs|s s' p sv sd ta Hs|s s' p sv sd ta Hs|s s' p sv sd ta Hs]; cbn in Hp, Hb |- *; try done.
  - eapply (pipe_call cfg logger es0 w0 Hcfg Hg Hap); [by eapply c_format|done|done].
  - by apply (Hw s).
  - by apply (Hw s).
  - apply (Hw s); [|done]. exact (keeps_start_backup _ _ _ _ E).
  - eapply (pipe_call cfg logger es0 w0 Hcfg Hg Hap); [by apply c_flush|done|done].
  - eapply (pipe_call cfg logger es0 w0 Hcfg Hg Hap); [by apply c_worker|done|done].
  - eapply (pipe_call cfg logger es0 w0 Hcfg Hg Hap); [by apply c_stop|done|done].
Qed.

Lemma backed_reachable n st :
  initial (AsyncLogger.asyncworker logger) → AsyncLogger.flushs_ logger = es0 → Forall new_output es0 →
  rtc (backed_step cfg logger) (backed0 logger n w0) st →
  bounded es0 (delivered (sy_worker (bs_sys st))) →
  backed_inv n st ∧ pipe_inv es0 w0 (sy_pipe (bs_sys st)).
Proof.
  intros Hi Hf Hn Hr. revert st Hr. refine (rtc_ind_r _ _ _ _).
  - intros _. split.
    + split; cbn; try done; [by apply books_start|apply ThreadPool.pool_inv_ctor].
    + unfold sy_pipe, backed0. cbn. rewrite Hf. by apply pipe_starts.
  - intros st1 st2 _ Hs IH Hb. destruct IH as [Hi1 Hp1].
    { destruct (backed_delivers _ _ Hs) as [buffer E]. rewrite E in Hb. by eapply bounded_prefix. }
    split; [|by eapply backed_pipe]. eapply (backed_inv_step cfg logger); [|done|done].
    intros k. pose proof (pv_oracle _ _ _ Hp1) as Ho. cbn in Ho. rewrite Ho. apply Hg.
Qed.
End outputs.

(** The pool works off what was submitted. *)
Lemma pool_catches_up n s p sv sd ta :
  io_good (sy_world s) → ThreadPool.pool_inv n p → (0 < n)%nat → ThreadPool.destructor p = ThreadPool.Alive →
  ∃ w' p', rtc (backed_step cfg logger) (mkBacked s p sv sd ta) (mkBacked (set_world w' s) p' sv sd ta) ∧
    ThreadPool.finished p' ≡ₚ ThreadPool.submitted p.
Proof.
  intros Hg Hi Hn Hd. remember (ThreadPool.to_do p) as k eqn:Ek. revert s p Hg Hi Hd Ek.
  induction (Nat.lt_wf_0 k) as [k _ IH]. intros s p Hg Hi Hd ->.
  destruct (ThreadPool.unfinished_progress n p Hi Hn Hd) as [[p1 Hpr]|[_ Hf]].
  2: { exists (sy_world s), p. split; [|done]. destruct s. constructor. }
  destruct (ThreadPool.progress_step _ _ Hpr) as [Hlt Hd1]. destruct Hpr as (Hs & Hsub & _).
  assert (∃ w1, backed_step cfg logger (mkBacked s p sv sd ta) (mkBacked (set_world w1 s) p1 sv sd ta) ∧
    untouched (sy_world s) w1) as (w1 & Hstep & Hu).
  { destruct Hs as [Hs|Hs].
    - destruct (worker_finishes _ _ Hs) as ([Ef|[task Ef]] & _).
      + exists (sy_world s). split; [|done]. destruct s. by apply b_pool.
      + destruct (start_backup_reports task (sy_world s) Hg) as (w1 & E & _).
        exists w1. split; [by eapply b_task|exact (keeps_start_backup _ _ _ _ E)].
    - exists (sy_world s). split; [|done]. destruct s. by apply b_notify. }
  destruct (IH _ Hlt (set_world w1 s) p1) as (w2 & p2 & Hr & Hf).
  - intros j. cbn. rewrite (proj1 Hu). apply Hg.
  - eapply ThreadPool.pool_inv_step; [|exact Hi]. unfold ThreadPool.step. tauto.
  - congruence.
  - done.
  - exists w2, p2. rewrite <- Hsub. split; [by eapply rtc_l|done].
Qed.

(** Once the tasks have ended, every caller goes on. *)
Lemma savers_return s p sv sd ta :
  ThreadPool.finished p ≡ₚ LogMessage.format <$> (sd ++ sv) →
  ∃ s', rtc (backed_step cfg logger) (mkBacked s p sv sd ta) (mkBacked s' p [] (sd ++ sv) ta) ∧
    called s' = called s ++ sv.
Proof.
  revert s sd. induction sv as [|m sv IH]; intros s sd Hf.
  { exists s. by rewrite !app_nil_r. }
  destruct (IH (arrive m (sy_world s) s) (sd ++ [m])) as (s' & Hr & Hc); [by rewrite <- app_assoc|].
  exists s'. rewrite <- app_assoc in Hr. split.
  - eapply rtc_l; [|exact Hr]. apply (b_returns cfg logger m s p [] sv sd ta).
    rewrite Hf, (cons_middle m sd sv), app_assoc, (fmap_app _ (sd ++ [m])). by apply submseteq_inserts_r.
  - rewrite Hc. cbn. by rewrite <- app_assoc.
Qed.

Lemma errors_return n st :
  io_good (sy_world (bs_sys st)) → backed_inv n st → (0 < n)%nat →
  ThreadPool.destructor (bs_pool st) = ThreadPool.Alive →
  ∃ st', rtc (backed_step cfg logger) st st' ∧ saving st' = [] ∧
    called (bs_sys st') = called (bs_sys st) ++ saving st.
Proof.
  intros Hg Hi Hn Hd. destruct st as [s p sv sd ta]. cbn in *.
  destruct (pool_catches_up n s p sv sd ta Hg (bi_pool _ _ Hi) Hn Hd) as (w1 & p1 & Hr1 & Hf).
  destruct (savers_return (set_world w1 s) p1 sv sd ta) as (s2 & Hr2 & Hc).
  { rewrite Hf. apply (bi_submitted _ _ Hi). }
  exists (mkBacked s2 p1 [] (sd ++ sv) ta). split; [by etrans|]. by split.
Qed.

(** C17: an error is reported before it is logged. Let a logger be built with
    outputs that own different things and have names an [int] can count; let
    [flush_log] be 1 or 2, let no call of the kernel fail, and let a rolling
    output get less than 2^64 bytes. Then under every interleaving of the threads that log, the pool's workers and
    destructor, the logger's worker and [Stop]: each task of the pool is the
    line of a caller that waits for it or has come back from it; an error
    message that has come to the logger's buffer, be it logged, refused or
    waiting for room, was before that given, the whole line, to one [write] on a
    socket just connected to the backup server, unless the pool was closed when
    it was enqueued (what the kernel does not take is not sent again); as
    long as the pool has workers and is not being destroyed, the callers that
    wait for it can go on to the buffer; and what the outputs of a logger that
    sleeps were given reads back to the logged messages, each once and in
    order, if no field of a message holds a newline, no name a closing bracket,
    and no line number is negative. *)
Theorem errors_reported_before_logged `{!PlatformOk} name type args n w0 w1 st :
  io_good w0 → Forall short args → apart (outputs_of args) →
  0 ≤ cfg_buffer_size cfg → (flush_log cfg = 1 ∨ flush_log cfg = 2) →
  new_logger cfg name type args w0 = Ok (logger, w1) →
  rtc (backed_step cfg logger) (backed0 logger n w1) st →
  bounded (outputs_of args) (delivered (sy_worker (bs_sys st))) →
  let s := bs_sys st in
  called s ≡ₚ logged s ++ refused s ++ waiting s ++ calling s ∧
  ThreadPool.submitted (bs_pool st) ≡ₚ LogMessage.format <$> (saved st ++ saving st) ∧
  (∀ m, m ∈ called s → is_error (LogMessage.level_ m) = true →
     reported (LogMessage.format m) (sy_world s) ∨
     (m ∈ turned_away st ∧ ThreadPool.stop (bs_pool st) = true)) ∧
  ((0 < n)%nat → ThreadPool.destructor (bs_pool st) = ThreadPool.Alive →
     ∃ st', rtc (backed_step cfg logger) st st' ∧ saving st' = [] ∧ called (bs_sys st') = called s ++ saving st) ∧
  (Forall loggable (called s) → drained (sy_worker s) →
   ∀ e0, e0 ∈ outputs_of args → ∃ text, written e0 w0 text (sy_world s) ∧
     read_log text = Some (line_of <$> logged s)).
Proof.
  intros Hg Hn Hap Hb Hcfg E Hr Hbd s.
  destruct (new_logger_ok cfg name type args w0 logger w1 Hg Hn Hb E) as (Hi & Hf & Ho & Hc0).
  assert (Hg1 : io_good w1) by (intros k; rewrite Ho; apply Hg).
  destruct (backed_reachable (outputs_of args) w1 Hcfg Hg1 Hap n st Hi Hf (outputs_new args) Hr Hbd) as [Hv Hp].
  destruct (bi_books _ _ Hv) as [Hl Hw Hc]. split; [done|]. split; [apply (bi_submitted _ _ Hv)|]. split_and!.
  - intros m Hm He. destruct (proj1 (Forall_forall _ _) (bi_called _ _ Hv) m Hm He) as [Hs|Ht].
    + left. apply (proj1 (Forall_forall _ _) (bi_reported _ _ Hv)).
      eapply elem_of_submseteq; [|exact (bi_saved _ _ Hv)]. by apply list_elem_of_fmap_2.
    + right. split; [done|]. apply (bi_closed _ _ Hv). intros E0. rewrite E0 in Ht. by apply not_elem_of_nil in Ht.
  - intros Hn0 Hd. apply (errors_return n); [|done..].
    intros k. pose proof (pv_oracle _ _ _ Hp) as Hor. cbn in Hor. rewrite Hor. apply Hg1.
  - subst s. intros Hok Hd e0 He. exists (delivered (sy_worker (bs_sys st))).
    split; [eapply written_since; [exact Hc0|by apply (pipe_written _ _ _ _ Hp)]|].
    pose proof (pv_worker _ _ _ Hp) as Hwk. cbn in Hwk. rewrite (drained_accepted _ Hwk Hd), Hl.
    apply read_log_messages. rewrite Hc in Hok. by apply Forall_app in Hok as [? _].
Qed.
End run.

(** ** The call in one piece *)
Section whole_call.
Context {D : Type} `{Directories D} `{Platform}.

(** Undisturbed, the steps of an error's call are those of
    [AsyncLogger.log_at]. *)
Lemma error_call_steps (p p' : ThreadPool.t (list byte)) logger (c : log_call) (s : system D) w' :
  is_error (lc_level c) = true →
  let line := LogMessage.format (message_now logger c s) in
  ThreadPool.enqueue line p = Ok p' → ThreadPool.workers p ≠ [] →
  CliBackupLog.start_backup line (lw_tick (sy_world s)) = Ok (tt, w') →
  AsyncLogger.log_at (lc_level c) (Some p) (lc_tid c) logger (lc_file c) (lc_line c) (Some (lc_text c))
    (sy_world s) = Ok (Some line, w').
Proof.
  intros Hc line E Hw Eb. unfold AsyncLogger.log_at, AsyncLogger.serialize, Date.Now.
  assert (Hb : AsyncLogger.backup (Some p) line (lw_tick (sy_world s)) = Ok (true, w')).
  { unfold AsyncLogger.backup, deref. rewrite (bind_Ok _ _ _ _ _ (ret_Ok _ _)), E.
    destruct (ThreadPool.workers p); [done|]. by rewrite (bind_Ok _ _ _ _ _ Eb). }
  rewrite bind_assoc, (bind_Ok _ _ _ _ _ (sys_ok (sy_world s))), (bind_Ok _ _ _ _ _ (ret_Ok _ _)).
  fold (c_string (lc_text c)).
  change (LogMessage.format (LogMessage.ctor _ _ _ _ _ _ _)) with line.
  destruct (lc_level c); try done; by rewrite (bind_Ok _ _ _ _ _ Hb).
Qed.
End whole_call.

(** ** A concrete run: an error is enqueued, sent, and comes to the buffer *)
Definition demo_error_call : log_call := mkCall LogLevel.ERROR 140 (bytes "a.cpp") 43 (bytes "broken").
Definition demo_start_backed : backed_system (gset (list byte)) := backed0 demo_logger 1 demo_built.2.
Definition demo_error : LogMessage.t :=
  message_now demo_logger demo_error_call (bs_sys demo_start_backed).
Definition demo_error_line : list byte := LogMessage.format (H := UtcPlatform.platform) demo_error.
Definition demo_sent : LogWorld (gset (list byte)) :=
  (result (CliBackupLog.start_backup demo_error_line (lw_tick demo_built.2)) (tt, demo_log_world)).2.
Definition demo_pool (ws : list (ThreadPool.worker_pc (list byte))) (ts started finished : list (list byte))
    : ThreadPool.t (list byte) :=
  ThreadPool.mk ws ts false 1 ThreadPool.Alive [demo_error_line] started finished.
Definition demo_after : system (gset (list byte)) := set_world demo_sent (bs_sys demo_start_backed).
Definition demo_reported : backed_system (gset (list byte)) :=
  mkBacked (arrive demo_error (sy_world demo_after) demo_after)
    (demo_pool [ThreadPool.AtWait] [] [demo_error_line] [demo_error_line]) [] [demo_error] [].

Lemma demo_sent_ok :
  CliBackupLog.start_backup demo_error_line (lw_tick demo_built.2) = Ok (tt, demo_sent).
Proof.
  rewrite (Ok_result (CliBackupLog.start_backup demo_error_line (lw_tick demo_built.2)) (tt, demo_log_world))
    by by vm_compute.
  unfold demo_sent. by destruct (result _ _) as [[] w].
Qed.

Lemma demo_error_run :
  rtc (backed_step (H0 := UtcPlatform.platform) demo_log_config demo_logger) demo_start_backed demo_reported.
Proof.
  set (s0 := bs_sys demo_start_backed). set (s1 := set_world (lw_tick demo_built.2) s0).
  eapply (rtc_l _ _ (mkBacked s1 (demo_pool [ThreadPool.AtWait] [demo_error_line] [] []) [demo_error] [] [])).
  { apply (b_submit demo_log_config demo_logger demo_error_call s0 (ThreadPool.ctor 1) _ [] [] []); [done| |done].
    by intros ?%list_elem_of_singleton. }
  eapply (rtc_l _ _ (mkBacked s1 (demo_pool [ThreadPool.Running demo_error_line] [] [demo_error_line] [])
    [demo_error] [] [])).
  { apply b_pool; [|done]. apply (ThreadPool.w_section (demo_pool [ThreadPool.AtWait] [demo_error_line] [] []) [] []);
      [done| |done]. by intros ?%list_elem_of_singleton. }
  eapply (rtc_l _ _ (mkBacked demo_after
    (demo_pool [ThreadPool.AtWait] [] [demo_error_line] [demo_error_line]) [demo_error] [] [])).
  { apply (b_task demo_log_config demo_logger s1 _ _ demo_error_line demo_sent); [|done|exact demo_sent_ok].
    by apply (ThreadPool.w_end (demo_pool [ThreadPool.Running demo_error_line] [] [demo_error_line] []) [] []). }
  apply rtc_once. apply (b_returns demo_log_config demo_logger demo_error demo_after _ [] [] [] []).
  exact (reflexivity (R := submseteq) [demo_error_line]).
Qed.

Lemma errors_reported_before_logged_witness :
  called (bs_sys demo_reported) = [demo_error] ∧ reported demo_error_line (sy_world (bs_sys demo_reported)).
Proof.
  split; [done|].
  destruct (errors_reported_before_logged (H0 := UtcPlatform.platform) demo_log_config demo_logger
    (bytes "asynclogger") ASYNC_SAFE demo_outputs 1 demo_log_world demo_built.2 demo_reported) as (_ & _ & Hr & _);
    [by intros n|by repeat (apply Forall_cons; split; [by vm_compute|])|by apply all_separate_apart|done|by left
    |reflexivity|apply demo_error_run|by repeat constructor|].
  destruct (Hr demo_error) as [Hrep|[Hin _]]; [by left|done|exact Hrep|].
  by apply not_elem_of_nil in Hin.
Defined.
