(* ===== verification/LogTest.v ===== *)
(** * The test of the logger (log_system/logs_code/test.cpp)

    [main] makes a thread pool it never uses, empties the log directory, builds
    a logger with twenty files and a rolling output, logs 600000 numbered lines
    through it, one call after the other, stops every logger, adds up the sizes
    of the directory's files and deletes the pool.  Its steps are those of
    [LogCalls], interleaved with the steps of the two loggers' workers and of
    the pool's threads.  The times [main] takes and what it prints at the end
    are left out. *)

From stdpp Require Import base tactics numbers list gmap relations strings.
From Stdlib Require Import ZArith Lia.
From S2P Require Import Prelude World LogBuffer AsyncWorker Message Files LogFlush Sinks.
From S2P Require Import ThreadPool Backup Logger LogCalls.

Local Open Scope list_scope.
Local Open Scope Z_scope.
Local Open Scope prog_scope.

Module LogTest.
Definition TOTAL_LOG : Z := 200000.

(** [LOG_DEBUG] is defined. *)
Definition conf : list byte := bytes "./config.conf".
Definition log_dir : list byte := bytes "../logfile".
Definition file_flush_path (i : nat) : list byte :=
  log_dir ++ bytes "/FileFlush_" ++ to_string (Z.of_nat i) ++ bytes ".log".
Definition roll_file_base_path : list byte := log_dir ++ bytes "/RollFile_log".

Definition outputs : list LogFlushFactory.flush_args :=
  (LogFlushFactory.FileFlush_args ∘ file_flush_path <$> seq 1 20) ++
  [LogFlushFactory.RollFileFlush_args roll_file_base_path (1024 * 1024)].

(** ** What [main] does before [test] *)
Record t := mk {
  tp : ThreadPool.t (list byte);
  cfg : JsonData;
  default_logger : AsyncLogger.t;
  asynclogger : AsyncLogger.t;
  manager : LoggerManager.t }.

Section ops.
Context {D : Type} `{Directories D} `{Platform} (parse : list byte → bool * JsonValue).
Local Abbreviation M := (M (LogWorld D)).

Definition init_thread_pool : M (ThreadPool.t (list byte) * JsonData) :=
  let! json := GetJsonData parse conf None in
  ret (ThreadPool.ctor (Z.to_nat (thread_count json.1)), json.1).

(** The default logger is at the address 0, the other at 1. *)
Definition set_up : M t :=
  let! tp := init_thread_pool in
  let cfg := tp.2 in
  let! dirs := gets lw_dirs in
  when (path_exists log_dir dirs) (fs.remove_all log_dir) ;;!
  fs.create_directories log_dir ;;!
  let Glb := LoggerBuilder.BuildLoggerName (bytes "asynclogger") LoggerBuilder.ctor in
  let! Glb := build_flushs outputs Glb in
  let! inst := lift (LoggerManager.GetInstance cfg) in
  let! built := lift (LoggerBuilder.Build cfg Glb) in
  let name := LoggerManager.name_of [inst.1; built.1] in
  ret (mk tp.1 cfg inst.1 built.1 (LoggerManager.AddLogger name 1 inst.2)).
End ops.

(** ** [test] *)
Section test.
Context (file : list byte) (tid : Z).

(** "测试日志-%d" with [cnt]. *)
Definition text (cnt : Z) : list byte := bytes "测试日志-" ++ to_string cnt.
Definition log (level : LogLevel.value) (line cnt : Z) : log_call :=
  mkCall level tid file line (text cnt).

(** The calls of the loop; [None]: the fuel ran out. *)
Fixpoint test_loop (fuel : nat) (cur_size cnt : Z) : option (list log_call) :=
  match fuel with
  | O => None
  | S fuel' =>
      if cur_size <? TOTAL_LOG then
        let round := [log LogLevel.INFO 22 cnt; log LogLevel.WARN 23 (cnt + 1);
                      log LogLevel.DEBUG 24 (cnt + 2)] in
        (round ++.) <$> test_loop fuel' (cur_size + 1) (cnt + 3)
      else Some []
  end.
Definition test : option (list log_call) := test_loop (S (Z.to_nat TOTAL_LOG)) 0 1.

(** The calls of the rounds from [cnt] on. *)
Fixpoint rounds (n : nat) (cnt : Z) : list log_call :=
  match n with
  | O => []
  | S n' => [log LogLevel.INFO 22 cnt; log LogLevel.WARN 23 (cnt + 1); log LogLevel.DEBUG 24 (cnt + 2)]
              ++ rounds n' (cnt + 3)
  end.

(** The fuel is enough. *)
Lemma test_loop_ok n cur cnt : cur + Z.of_nat n = TOTAL_LOG → test_loop (S n) cur cnt = Some (rounds n cnt).
Proof.
  revert cur cnt. induction n as [|n IH]; intros cur cnt Hn.
  - cbn. by rewrite (proj2 (Z.ltb_ge cur TOTAL_LOG)) by lia.
  - change (test_loop (S (S n)) cur cnt) with (if cur <? TOTAL_LOG then
      ([log LogLevel.INFO 22 cnt; log LogLevel.WARN 23 (cnt + 1); log LogLevel.DEBUG 24 (cnt + 2)] ++.)
        <$> test_loop (S n) (cur + 1) (cnt + 3) else Some []).
    rewrite (proj2 (Z.ltb_lt cur TOTAL_LOG)) by lia. by rewrite IH by lia.
Qed.

Definition test_calls : list log_call := rounds (Z.to_nat TOTAL_LOG) 1.

Lemma test_returns : test = Some test_calls.
Proof. apply test_loop_ok. rewrite Z2Nat.id; [done|unfold TOTAL_LOG; lia]. Qed.

Lemma rounds_length n cnt : length (rounds n cnt) = (3 * n)%nat.
Proof. revert cnt. induction n as [|n IH]; intros cnt; [done|]. cbn. rewrite IH. lia. Qed.

(** The calls are numbered from 1 on. *)
Lemma rounds_texts n cnt :
  lc_text <$> rounds n cnt = (λ i, text (cnt + Z.of_nat i)) <$> seq 0 (3 * n).
Proof.
  revert cnt. induction n as [|n IH]; intros cnt; [done|].
  replace (3 * S n)%nat with (3 + 3 * n)%nat by lia. rewrite seq_app, fmap_app. cbn [rounds].
  rewrite fmap_app. f_equal; [cbn; by rewrite Z.add_0_r|].
  rewrite IH. rewrite <- (fmap_add_seq 3 0), <- list_fmap_compose. apply list_fmap_ext.
  intros ? i _. unfold compose. f_equal. rewrite Nat2Z.inj_add. lia.
Qed.
End test.

(** ** The figures at the end *)
Section figures.
Context {D : Type} `{Directories D}.

(** The files [directory_iterator] finds in a directory. *)
Definition in_directory (dir n : list byte) : bool :=
  bool_decide ((dir ++ bytes "/") `prefix_of` n) && bool_decide (x2f ∉ drop (S (length dir)) n).
Definition entry_sizes (dir : list byte) (w : LogWorld D) : list Z :=
  (λ f, zlen f.2) <$> filter (λ f, in_directory dir f.1 = true) (map_to_list (lw_files w)).

(** [total_bytes_written]; an error of the file system ends the loop after some
    of the entries. *)
Definition total_bytes_written (dir : list byte) : M (LogWorld D) Z :=
  let! r := sys in
  let! sizes := gets (entry_sizes dir) in
  if sr_ret r <? 0 then print ;;! ret (foldr Z.add 0 (take (Z.to_nat (- 1 - sr_ret r)) sizes))
  else ret (foldr Z.add 0 sizes).
End figures.
#[global] Arguments total_bytes_written : simpl never.

(** ** The run of the program *)

(** Where [main] is: in [test] with these calls to go; in [StopAllLoggers] with
    these loggers to go, the first of them about to be stopped, to be notified,
    or joined; in [delete(tp)], or returned, with [total_bytes_written]. *)
Inductive main_pc :=
  | Testing (todo : list log_call)
  | Stopping (ls : list Z)
  | Notifying (ls : list Z)
  | Joining (ls : list Z)
  | Deleting (total : Z)
  | Returned (total : Z).

(** The logger "asynclogger" with its callers, the default logger, and the
    thread pool, which is never used. *)
Record state (D : Type) := mkState {
  st_pc : main_pc;
  st_sys : system D;
  st_default : AsyncWorker * list LogFlush.t;
  st_pool : ThreadPool.t (list byte) }.
Arguments mkState {D}.
Arguments st_pc {D}.
Arguments st_sys {D}.
Arguments st_default {D}.
Arguments st_pool {D}.

Section run.
Context {D : Type} `{Directories D} `{Platform} (x : t).
Implicit Types (s : system D) (d : AsyncWorker * list LogFlush.t) (st : state D).

(** A step [R] of one logger's worker or of its [Stop]. *)
Inductive logger_step (R : AsyncWorker → AsyncWorker → Prop) :
    Z → system D → AsyncWorker * list LogFlush.t → system D → AsyncWorker * list LogFlush.t → Prop :=
  | l_default s a fl a' fl' w' :
      R a a' → log_step (cfg x) (a, fl, sy_world s) (a', fl', w') →
      logger_step R 0 s (a, fl) (set_world w' s) (a', fl')
  | l_test s d s' : pipe_step (cfg x) R s s' → logger_step R 1 s d s' d.

Definition worker_at (l : Z) s d : AsyncWorker := if l =? 0 then d.1 else sy_worker s.

(** [stop_ = true], and [notify_all]. *)
Definition stop_set (a a' : AsyncWorker) : Prop := stop_step a a' ∧ stoppers a' = S (stoppers a).
Definition stop_notify (a a' : AsyncWorker) : Prop := stop_step a a' ∧ stoppers a = S (stoppers a').

(** [main] begins a call when the one before has returned. *)
Inductive test_step : state D → state D → Prop :=
  | t_call c todo s s' d p :
      calling s = [] → waiting s = [] → format_step (asynclogger x) c s s' →
      test_step (mkState (Testing (c :: todo)) s d p) (mkState (Testing todo) s' d p)
  | t_flush pc s s' d p : flush_step (cfg x) s s' → test_step (mkState pc s d p) (mkState pc s' d p)
  | t_test_returns s d p :
      calling s = [] → waiting s = [] →
      test_step (mkState (Testing []) s d p) (mkState (Stopping (MyLog.StopAllLoggers (manager x))) s d p)
  | t_set l ls s d s' d' p :
      logger_step stop_set l s d s' d' →
      test_step (mkState (Stopping (l :: ls)) s d p) (mkState (Notifying (l :: ls)) s' d' p)
  | t_notify l ls s d s' d' p :
      logger_step stop_notify l s d s' d' →
      test_step (mkState (Notifying (l :: ls)) s d p) (mkState (Joining (l :: ls)) s' d' p)
  | t_join l ls s d p :
      worker (worker_at l s d) = WDone →
      test_step (mkState (Joining (l :: ls)) s d p) (mkState (Stopping ls) s d p)
  | t_total s d p total w' :
      total_bytes_written log_dir (sy_world s) = Ok (total, w') →
      test_step (mkState (Stopping []) s d p) (mkState (Deleting total) (set_world w' s) d p)
  | t_delete total s d p p' :
      ThreadPool.dtor_step p p' → test_step (mkState (Deleting total) s d p) (mkState (Deleting total) s d p')
  | t_deleted total s d p :
      ThreadPool.destructor p = ThreadPool.Gone →
      test_step (mkState (Deleting total) s d p) (mkState (Returned total) s d p)
  (** the threads of the loggers and of the pool *)
  | t_worker l pc s d s' d' p :
      logger_step thread_step l s d s' d' → test_step (mkState pc s d p) (mkState pc s' d' p)
  | t_pool pc s d p p' :
      ThreadPool.worker_step p p' → test_step (mkState pc s d p) (mkState pc s d p').

Definition returned (total : Z) (st : state D) : Prop := st_pc st = Returned total.

(** [main] after [set_up]. *)
Definition start (calls : list log_call) (w : LogWorld D) : state D :=
  mkState (Testing calls)
    (system0 (AsyncLogger.asyncworker (asynclogger x)) (AsyncLogger.flushs_ (asynclogger x)) w)
    (AsyncLogger.asyncworker (default_logger x), AsyncLogger.flushs_ (default_logger x)) (tp x).
End run.
End LogTest.

(** ** What the directory's files have in them *)
Definition sum_of (zs : list Z) : Z := foldr Z.add 0 zs.

Lemma sum_of_cons z zs : sum_of (z :: zs) = z + sum_of zs.
Proof. done. Qed.
Lemma sum_of_app zs1 zs2 : sum_of (zs1 ++ zs2) = sum_of zs1 + sum_of zs2.
Proof. induction zs1 as [|z zs1 IH]; [done|]. rewrite <- app_comm_cons, !sum_of_cons. lia. Qed.

#[export] Instance sum_of_proper : Proper (Permutation ==> eq) sum_of.
Proof. intros zs1 zs2. induction 1; rewrite ?sum_of_cons; lia. Qed.

Lemma sum_of_zeros zs : Forall (.= 0) zs → sum_of zs = 0.
Proof. by induction 1 as [|z zs -> _ IH]. Qed.

Section directory.
Import LogTest.
Context {D : Type} (dir : list byte).

Definition inside (m : gmap (list byte) (list byte)) : list (list byte * list byte) :=
  filter (λ f, in_directory dir f.1 = true) (map_to_list m).
Definition content_in (m : gmap (list byte) (list byte)) (n : list byte) : list byte := default [] (m !! n).

Lemma content_in_delete m n n' : content_in (delete n m) n' = if decide (n' = n) then [] else content_in m n'.
Proof. unfold content_in. case_decide; [by subst; rewrite lookup_delete_eq|by rewrite lookup_delete_ne]. Qed.

(** The files with something in them are those of [ns]. *)
Lemma sum_inside ns m :
  NoDup ns → Forall (λ n, in_directory dir n = true) ns →
  (∀ n, in_directory dir n = true → n ∉ ns → content_in m n = []) →
  sum_of ((λ f, zlen f.2) <$> inside m) = sum_of ((λ n, zlen (content_in m n)) <$> ns).
Proof.
  intros Hnd. revert m. induction Hnd as [|n ns Hn _ IH]; intros m Hin Hno.
  - apply sum_of_zeros, Forall_fmap, Forall_forall. intros [n c] [Hd Hm%elem_of_map_to_list]%list_elem_of_filter.
    specialize (Hno n Hd (not_elem_of_nil n)). unfold content_in in Hno. rewrite Hm in Hno. cbn in *. by subst.
  - apply Forall_cons in Hin as [Hd Hin]. rewrite fmap_cons, sum_of_cons.
    rewrite <- (list_fmap_ext (λ n', zlen (content_in (delete n m) n')) _ ns), <- IH.
    + unfold inside, content_in. destruct (m !! n) as [c|] eqn:E; [|by rewrite delete_id].
      rewrite <- (map_to_list_delete m n c E) at 1. by rewrite filter_cons_True.
    + done.
    + intros n' Hd' Hn'. rewrite content_in_delete. case_decide; [done|]. apply Hno; [done|]. set_solver.
    + intros i n' Hi%list_elem_of_lookup_2. rewrite content_in_delete. case_decide; [by subst|done].
Qed.

Lemma inside_elem (rest : list byte) : x2f ∉ rest → in_directory dir (dir ++ bytes "/" ++ rest) = true.
Proof.
  intros Hr. unfold in_directory. apply andb_true_iff. split; apply bool_decide_eq_true.
  - exists rest. by rewrite <- app_assoc.
  - rewrite app_assoc, drop_app_length'; [done|]. rewrite length_app. cbn. lia.
Qed.
End directory.

Section empty.
Import LogTest.
Context {D : Type} `{Platform}.

Definition roll0 : RollFileFlush.t := RollFileFlush.mk 0 0 (1024 * 1024) roll_file_base_path None.
Definition test_files : list (list byte) := file_flush_path <$> seq 1 20.

Lemma named_inside n : named roll0 n → in_directory log_dir n = true.
Proof.
  intros (now & k & _ & ->). unfold RollFileFlush.file_name, RollFileFlush.name_stem. cbn [RollFileFlush.basename_ roll0].
  unfold roll_file_base_path. change (bytes "/RollFile_log") with (bytes "/" ++ bytes "RollFile_log").
  rewrite <- !app_assoc. apply inside_elem. rewrite !not_elem_of_app. split_and!; (try by apply to_string_without);
    by apply (bool_decide_unpack _).
Qed.

Lemma same_contents (t : list byte) (w : LogWorld D) ns :
  Forall (λ n, content_of n w = t) ns → sum_of ((λ n, zlen (content_of n w)) <$> ns) = zlen ns * zlen t.
Proof.
  induction 1 as [|n ns Hn _ IH]; [done|]. rewrite fmap_cons, zlen_cons, sum_of_cons, IH, Hn. lia.
Qed.

Lemma parts_contents (w : LogWorld D) ns parts :
  Forall2 (λ n part, content_of n w = part) ns parts →
  sum_of ((λ n, zlen (content_of n w)) <$> ns) = zlen (concat parts).
Proof.
  induction 1 as [|n part ns parts Hn _ IH]; [done|]. rewrite fmap_cons, sum_of_cons. cbn [concat].
  by rewrite zlen_app, <- IH, Hn.
Qed.

Definition opened (n : list byte) : LogFlush.t := output_of (LogFlushFactory.FileFlush_args n).

Lemma outputs_list : outputs_of outputs = (opened <$> test_files) ++ [LogFlush.ToRollFile roll0].
Proof. reflexivity. Qed.

(** The directory was empty, and every output received [text]. *)
Lemma directory_total (w1 w : LogWorld D) (text : list byte) :
  (∀ n, in_directory log_dir n = true → content_of n w1 = []) →
  (∀ e0, e0 ∈ outputs_of outputs → written e0 w1 text w) →
  (∀ r, Forall (λ e, ¬ owns e r) (outputs_of outputs) → content_at r w = content_at r w1) →
  sum_of (entry_sizes log_dir w) = 21 * zlen text.
Proof.
  rewrite outputs_list. intros Hemp Hw Hot.
  assert (Hf : Forall (λ n, content_of n w = text) test_files).
  { apply Forall_forall. intros n Hn. rewrite <- (app_nil_l text), <- (Hemp n).
    - apply (Hw (opened n)), elem_of_app. left. by apply list_elem_of_fmap_2.
    - revert n Hn. by apply Forall_forall, (bool_decide_unpack _). }
  destruct (Hw (LogFlush.ToRollFile roll0)) as (ns & parts & Hnd & Hnm & Hp & Hc & Hno).
  { apply elem_of_app. right. by left. }
  assert (Hsep : Forall (λ n, ¬ stem roll0 `prefix_of` n) test_files) by by apply (bool_decide_unpack _).
  assert (Hin : Forall (λ n, in_directory log_dir n = true) ns) by (eapply Forall_impl; [exact Hnm|apply named_inside]).
  assert (Hc' : Forall2 (λ n part, content_of n w = part) ns parts).
  { clear -Hc Hin Hemp. induction Hc as [|n part ns parts Hn _ IH]; [done|]. apply Forall_cons in Hin as [Hd Hin].
    constructor; [by rewrite Hn, Hemp|by apply IH]. }
  unfold entry_sizes. fold (inside log_dir (lw_files w)). rewrite (sum_inside log_dir (test_files ++ ns)).
  - change (sum_of ((λ n, zlen (content_of n w)) <$> test_files ++ ns) = 21 * zlen text).
    rewrite fmap_app, sum_of_app, (parts_contents w ns parts Hc'), Hp, (same_contents text w test_files Hf). change (zlen test_files) with 20. lia.
  - apply NoDup_app. split_and!; [by apply (bool_decide_unpack _)| |done].
    intros n Hn1 Hn2. rewrite Forall_forall in Hsep, Hnm. by eapply (Hsep n), named_stem, Hnm.
  - apply Forall_app. split; [by apply (bool_decide_unpack _)|done].
  - intros n Hd Hn. apply not_elem_of_app in Hn as [Hn1 Hn2].
    change (content_of n w = []). apply dec_stable. intros Hne.
    assert (Hnn : ¬ named roll0 n) by (intros Hnn; apply Hne; by rewrite Hno, Hemp).
    apply Hne. rewrite <- (Hemp n Hd). apply (Hot (Some n)), Forall_forall.
    intros e [He|He]%elem_of_app.
    + apply list_elem_of_fmap in He as (n' & -> & Hn'). cbn. unfold file_owns. cbn. by intros [= ->].
    + apply list_elem_of_singleton in He as ->. intros (n' & [= <-] & Hx). done.
Qed.
End empty.

(** ** Every run *)
Section inv.
Import LogTest.
Context {D : Type} `{Directories D} `{Platform} (x : t) (calls : list log_call).
Implicit Types (s : system D) (d : AsyncWorker * list LogFlush.t) (st : state D) (a : AsyncWorker).

Definition to_test (pc : main_pc) : list log_call := match pc with Testing cs => cs | _ => [] end.
Definition tested (pc : main_pc) : bool := match pc with Testing _ => false | _ => true end.
Definition to_stop (pc : main_pc) : list Z :=
  match pc with
  | Testing _ => [0; 1]
  | Stopping ls | Notifying ls | Joining ls => ls
  | Deleting _ | Returned _ => []
  end.

Definition made_by (c : log_call) (m : LogMessage.t) : Prop := ∃ now, m = message_of (asynclogger x) now c.

(** Nobody logs through the default logger. *)
Definition unused a : Prop := worker_inv a ∧ accepted a = [].

Record test_inv st : Prop := {
  ti_books : books (st_sys st);
  ti_worker : worker_inv (sy_worker (st_sys st));
  ti_default : unused (st_default st).1;
  ti_made : ∃ cs, cs ++ to_test (st_pc st) = calls ∧ Forall2 made_by cs (called (st_sys st));
  ti_order : called (st_sys st) = logged (st_sys st) ++ waiting (st_sys st) ++ calling (st_sys st);
  ti_one : (length (waiting (st_sys st) ++ calling (st_sys st)) ≤ 1)%nat;
  ti_refused : refused (st_sys st) = [];
  ti_running : stop_ (sy_worker (st_sys st)) = true → tested (st_pc st) = true;
  ti_tested : tested (st_pc st) = true → waiting (st_sys st) ++ calling (st_sys st) = [];
  ti_drained : worker (sy_worker (st_sys st)) = WDone →
    delivered (sy_worker (st_sys st)) = accepted (sy_worker (st_sys st));
  ti_joined : 1 ∉ to_stop (st_pc st) → worker (sy_worker (st_sys st)) = WDone }.

Context (Horder : MyLog.StopAllLoggers (manager x) ≡ₚ [0; 1]).
Context (Hlevel : Forall (λ c, lc_level c ≠ LogLevel.ERROR ∧ lc_level c ≠ LogLevel.FATAL) calls).

Lemma unused_delivered a : unused a → delivered a = [].
Proof. intros [[_ _ Ho _ _ _] Ha]. rewrite Ha in Ho. symmetry in Ho. by apply app_eq_nil in Ho as [? _]. Qed.

Lemma unused_step (R : AsyncWorker → AsyncWorker → Prop) a a' :
  (∀ b b', R b b' → thread_step b b' ∨ Stop b b') → R a a' → unused a → unused a'.
Proof.
  intros HR Hs [Hi Ha]. apply HR in Hs. split.
  - destruct Hs as [Hs|Hs]; [by eapply worker_inv_thread|by eapply worker_inv_stop].
  - destruct (worker_keeps _ _ Hs) as [Ea _]. by rewrite Ea.
Qed.

(** It writes nothing. *)
Lemma unused_writes a fl (w : LogWorld D) a' fl' w' :
  unused a' → log_step (cfg x) (a, fl, w) (a', fl', w') → fl' = fl ∧ w' = w.
Proof.
  intros Hu%unused_delivered Hs. inversion Hs as [|? ? ? ? buffer ? ? ? Hd Hne ?]; subst; [done|].
  rewrite Hu in Hd. symmetry in Hd. apply app_eq_nil in Hd as [_ ?]. done.
Qed.

Lemma set_world_same s : set_world (sy_world s) s = s.
Proof. by destruct s. Qed.

Lemma push_keeps_stop data a a' : push_step (cfg x) data a a' → stop_ a' = stop_ a.
Proof. by destruct 1. Qed.

(** Only a stopped worker turns a line away. *)
Lemma refused_stopped data a a' :
  push_step (cfg x) data a a' → a' = a → data ≠ [] → stop_ a = true.
Proof.
  intros Hs E Hne. destruct Hs as [a _ Hst|a prod _ _ _ _|a _ _ _|a prod v1 v2 _ Ew _ _|a v1 v2 _ Ew _|a b1 b2 Eb];
    [done|exfalso..].
  - apply (f_equal accepted) in E. exact (format_grows _ _ E Hne).
  - apply (f_equal blocked) in E. by apply (format_grows _ _ E).
  - apply (f_equal woken) in E. cbn in E. rewrite Ew in E. exact (shorter _ _ _ E).
  - apply (f_equal woken) in E. cbn in E. rewrite Ew in E. exact (shorter _ _ _ E).
  - apply (f_equal blocked) in E. cbn in E. rewrite Eb in E. exact (shorter _ _ _ E).
Qed.

Lemma log_at_returns c tp (w : LogWorld D) r w' :
  lc_level c ≠ LogLevel.ERROR ∧ lc_level c ≠ LogLevel.FATAL →
  AsyncLogger.log_at (lc_level c) tp (lc_tid c) (asynclogger x) (lc_file c) (lc_line c) (Some (lc_text c)) w
    = Ok (r, w') → r ≠ None.
Proof.
  intros [H1 H2] E. unfold AsyncLogger.log_at, AsyncLogger.serialize in E.
  apply bind_inv in E as (now & w2 & _ & E). by destruct (lc_level c); try done; injection E as <- _.
Qed.

Lemma one_elem {A} (l l1 l2 k : list A) m :
  (length (k ++ l) ≤ 1)%nat → l = l1 ++ m :: l2 → k = [] ∧ l1 = [] ∧ l2 = [].
Proof.
  intros Hl ->. rewrite !length_app in Hl. cbn in Hl.
  destruct k, l1, l2; cbn in Hl; try lia; done.
Qed.

(** A step of the logger's worker, or of its [Stop]; [main] may move on to stop
    it. *)
Lemma test_inv_pipe (R : AsyncWorker → AsyncWorker → Prop) pc pc' s s' d p :
  (∀ a a', R a a' → thread_step a a' ∨ Stop a a') → pipe_step (cfg x) R s s' →
  (∀ a a', R a a' → stop_ a' = true → stop_ a = true ∨ tested pc = true) →
  to_test pc' = to_test pc → tested pc' = tested pc → to_stop pc' = to_stop pc →
  test_inv (mkState pc s d p) → test_inv (mkState pc' s' d p).
Proof.
  intros HR Hs Hst Ept Epd Eps [Hb Hw Hd Hm Ho H1 Hre Hrun Htd Hdr Hj]. cbn in *.
  assert (Hcall : call_step (cfg x) (asynclogger x) s s').
  { destruct Hs as [a' fl' w' Hs Hls]. destruct (HR _ _ Hs); [apply c_worker|apply c_stop]; by split. }
  pose proof (books_step _ _ _ _ Hcall Hb) as Hb'. destruct Hs as [a' fl' w' Hs Hls]. cbn in *.
  pose proof (HR _ _ Hs) as Hs2.
  assert (Hw' : worker_inv a') by (destruct Hs2; [by eapply worker_inv_thread|by eapply worker_inv_stop]).
  assert (Hstep : step (cfg x) (sy_worker s) a') by (destruct Hs2; [right; by left|by right; right]).
  split; cbn; rewrite ?Ept, ?Epd, ?Eps; try done.
  - intros Hst'. destruct (Hst _ _ Hs Hst'); auto.
  - intros Hd'. destruct (decide (worker (sy_worker s) = WDone)) as [E|E].
    + destruct (done_step (cfg x) _ _ Hstep E) as [_ ->]. destruct (worker_keeps _ _ Hs2) as [-> _]. auto.
    + exact (return_drains (cfg x) _ _ Hw Hstep E Hd').
  - intros Hn. by apply (done_step (cfg x) _ _ Hstep), Hj.
Qed.

(** The same of the default logger. *)
Lemma test_inv_logger (R : AsyncWorker → AsyncWorker → Prop) l pc pc' s d s' d' p :
  (∀ a a', R a a' → thread_step a a' ∨ Stop a a') → logger_step x R l s d s' d' →
  (∀ a a', R a a' → stop_ a' = true → stop_ a = true ∨ tested pc = true) →
  to_test pc' = to_test pc → tested pc' = tested pc → to_stop pc' = to_stop pc →
  test_inv (mkState pc s d p) → test_inv (mkState pc' s' d' p).
Proof.
  intros HR Hs Hst Ept Epd Eps Hi. destruct Hs as [s a fl a' fl' w' Hs Hls|s d s' Hs];
    [|by eapply test_inv_pipe].
  pose proof (ti_default _ Hi) as Hu. cbn in Hu. pose proof (unused_step _ _ _ HR Hs Hu) as Hu'.
  destruct (unused_writes _ _ _ _ _ _ Hu' Hls) as [-> ->]. rewrite set_world_same.
  destruct Hi as [Hb Hw Hd Hm Ho H1 Hre Hrun Htd Hdr Hj]. cbn in *.
  split; cbn; rewrite ?Ept, ?Epd, ?Eps; done.
Qed.

(** One of the calls comes to the buffer, waits, or comes back. *)
Lemma test_inv_flush pc s s' d p :
  flush_step (cfg x) s s' → test_inv (mkState pc s d p) → test_inv (mkState pc s' d p).
Proof.
  intros Hs [Hb Hw Hd Hm Ho H1 Hre Hrun Htd Hdr Hj]. cbn in *.
  pose proof (books_flush _ _ _ Hs Hb) as Hb'.
  assert (Ht : tested pc = false).
  { destruct (tested pc); [|done]. specialize (Htd eq_refl) as [Ew Ec]%app_eq_nil.
    exfalso. destruct Hs as [m l1 l2 ? E|m l1 l2 E|m l1 l2 ? E|m l1 l2 ? E|m ? E];
      rewrite ?Ew, ?Ec in E; by first [destruct l1|apply not_elem_of_nil in E]. }
  assert (Hst : stop_ (sy_worker s) = false) by (destruct (stop_ _); [by rewrite Hrun in Ht|done]).
  assert (Hcase : ∀ data a', push_step (cfg x) data (sy_worker s) a' →
    worker_inv a' ∧ stop_ a' = false ∧ worker a' ≠ WDone).
  { intros data a' Hp. pose proof (worker_inv_push _ _ _ _ Hp Hw) as Hw'. split; [done|].
    rewrite (push_keeps_stop _ _ _ Hp). split; [done|]. intros Hdone%(wi_done _ Hw').
    rewrite (push_keeps_stop _ _ _ Hp) in Hdone. congruence. }
  assert (Hnj : ¬ (1 ∉ to_stop pc)) by (destruct pc; [cbn|done..]; set_solver).
  destruct Hs as [m l1 l2 a' Ec Hf Hwk Ha|m l1 l2 Ec Hf|m l1 l2 a' Ec Hf Hwk Hbl
    |m l1 l2 a' Ec Hf Hwk Ha|m a' Hin Hf Hwk Ha].
  2: { pose proof (refused_stopped _ _ _ Hf eq_refl (format_not_nil m)). congruence. }
  all: destruct (Hcase _ _ Hf) as (Hw' & Hst' & Hnd).
  1,2: destruct (one_elem _ _ _ _ _ H1 Ec) as (Ewt & -> & ->); rewrite Ewt, Ec in *.
  3: { rewrite (Permutation_app_comm (waiting s)) in H1.
    destruct (one_elem _ _ _ _ _ H1 Ec) as (Ecl & -> & ->). rewrite Ec, Ecl in *.
    split; cbn; try done; try (intros ?; congruence); [|lia]. by rewrite Ho, !app_nil_r. }
  all: split; cbn; try done; try (intros ?; congruence).
  - by rewrite Ho, !app_nil_r.
  - lia.
Qed.

Lemma test_inv_step st st' : test_step x st st' → test_inv st → test_inv st'.
Proof.
  intros Hs Hi. destruct Hs as [c todo s s' d p Ec Ew Hf|pc s s' d p Hf|s d p Ec Ew|l ls s d s' d' p Hl
    |l ls s d s' d' p Hl|l ls s d p Hd|s d p total w' _| | |l pc s d s' d' p Hl|].
  - destruct Hi as [Hb Hw Hd Hm Ho H1 Hre Hrun Htd Hdr Hj]. cbn in *.
    pose proof (books_step (cfg x) (asynclogger x) _ _ (c_format _ _ _ _ _ Hf) Hb) as Hb'.
    destruct Hm as (cs & Ecs & Hm).
    assert (Hlc : lc_level c ≠ LogLevel.ERROR ∧ lc_level c ≠ LogLevel.FATAL).
    { rewrite <- Ecs in Hlevel. apply Forall_app in Hlevel as [_ Hl]. by apply Forall_cons in Hl as [? _]. }
    destruct Hf as [tp data w' m E|tp w' E]; [|by apply log_at_returns in E].
    split; cbn; try done.
    + exists (cs ++ [c]). rewrite <- app_assoc. split; [done|]. apply Forall2_app; [done|].
      constructor; [by eexists|constructor].
    + rewrite Ho, Ew, Ec. cbn. by rewrite app_nil_r.
    + by rewrite Ew, Ec.
  - by eapply test_inv_flush.
  - destruct Hi as [Hb Hw Hd Hm Ho H1 Hre Hrun Htd Hdr Hj]. cbn in *. split; cbn; try done.
    + by rewrite Ew, Ec.
    + intros Hn. exfalso. apply Hn. rewrite Horder. set_solver.
  - eapply (test_inv_logger stop_set l (Stopping (l :: ls))); [|done| |done..|done]; [by intros a a' []; right|by right].
  - eapply (test_inv_logger stop_notify l (Notifying (l :: ls))); [|done| |done..|done]; [by intros a a' []; right|by right].
  - destruct Hi as [Hb Hw Hu Hm Ho H1 Hre Hrun Htd Hdr Hj]. cbn in *. split; cbn; try done.
    intros Hn. destruct (decide (l = 1)) as [->|Hne]; [done|]. apply Hj. set_solver.
  - destruct Hi as [Hb Hw Hu Hm Ho H1 Hre Hrun Htd Hdr Hj]. cbn in *. split; cbn; try done. by apply books_world.
  - by destruct Hi.
  - by destruct Hi.
  - eapply (test_inv_logger thread_step l pc); [|done| |done..|done]; [by left|].
    intros a a' Ht Hst. left. by destruct Ht; cbn in *; repeat case_match.
  - by destruct Hi.
Qed.
End inv.

(** *** A worker that keeps up *)
Section idle.
Context (cfg : JsonData).
Implicit Types a : AsyncWorker.

Definition empty_buffer (n : Z) (b : Buffer.t) : Prop :=
  Buffer.wf b ∧ Buffer.content b = [] ∧ Buffer.write_pos_ b = 0 ∧ Buffer.size b = n.

(** Nothing to do, and nobody waits. *)
Definition idle (n : Z) a : Prop :=
  async_type_ a = ASYNC_SAFE ∧ stop_ a = false ∧ worker a = WEnter ∧ blocked a = [] ∧ woken a = [] ∧
  empty_buffer n (buffer_productor_ a) ∧ empty_buffer n (buffer_consumer_ a).

Lemma new_worker_idle a :
  AsyncLogger.new_worker cfg ASYNC_SAFE = Ok a → 0 ≤ cfg_buffer_size cfg → idle (cfg_buffer_size cfg) a.
Proof.
  intros E Hs. pose proof (new_worker_initial _ _ _ E Hs) as (Hst & Hw & _ & Hb & Hwk & _ & _ & Hp & Hpc & Hc & Hcc).
  unfold AsyncLogger.new_worker, Buffer.ctor in E.
  destruct (vec_resize (cfg_buffer_size cfg) []) as [v|] eqn:Ev; [|done]. apply zlen_vec_resize in Ev; [|done].
  injection E as <-. by split_and!.
Qed.

Lemma empty_reset b : Buffer.wf b → empty_buffer (Buffer.size b) (Buffer.Reset b).
Proof. intros Hb. split_and!; [by apply Reset_wf|apply Reset_content|done|done]. Qed.

(** A line goes through an idle worker: the push, the section, the callback. *)
Lemma idle_pass n a data :
  idle n a → data ≠ [] → zlen data < n →
  ∃ a1 a2 a3, push_step cfg data a a1 ∧ woken a1 = [] ∧ accepted a1 = accepted a ++ data ∧
    thread_step a1 a2 ∧ delivered a2 = delivered a1 ∧ thread_step a2 a3 ∧ accepted a3 = accepted a1 ∧ idle n a3.
Proof.
  intros (Ht & Hst & Hw & Hb & Hwk & (Hp & Hpc & Hp0 & Hps) & (Hc & Hcc & Hc0 & Hcs)) Hne Hlt.
  assert (Hroom : Buffer.WriteableSize (buffer_productor_ a) = n) by (rewrite wf_writeable by done; lia).
  destruct (Push_small cfg data (buffer_productor_ a) Hp ltac:(lia)) as (prod & E & Hwf & Hct & Hsz).
  rewrite Hpc in Hct. cbn in Hct.
  assert (Hemp : Buffer.IsEmpty prod = false) by (rewrite IsEmpty_spec, Hct by done; by apply bool_decide_eq_false).
  set (a1 := pushed prod data (blocked a) (woken a) a).
  set (a2 := mkAsyncWorker (async_type_ a) (stop_ a) (buffer_consumer_ a) prod WHandle (stoppers a) [] []
    (accepted a ++ data) (delivered a)).
  exists a1, a2, (handled data WEnter a2). split_and!; try done.
  - apply push_now; [by unfold unlocked; rewrite Hw|done| |done].
    unfold has_room. rewrite Ht. apply Z.leb_le. lia.
  - pose proof (t_section a1 (buffer_consumer_ a) prod true [] [] data) as Hs. cbn in Hs.
    rewrite Hst in Hs. unfold a2. rewrite Hst. apply Hs.
    + by rewrite Hw.
    + unfold wake_up, a1. cbn. by rewrite Hst, Hemp.
    + unfold swap_buffers, a1. cbn. by rewrite Hemp.
    + rewrite Ht, Hb, Hwk, bool_decide_true by done. constructor.
    + by rewrite Readable_ok, Hct.
  - apply t_handle; [done|]. cbn. by rewrite Readable_ok, Hct.
  - split_and!; try done. cbn. rewrite <- Hps, <- Hsz. by apply empty_reset.
Qed.

(** [Stop] of an idle worker: the flag, the notification, the worker's return. *)
Lemma idle_stop n a :
  idle n a → ∃ a1 a2 a3, LogTest.stop_set a a1 ∧ LogTest.stop_notify a1 a2 ∧ thread_step a2 a3 ∧
    worker a3 = WDone ∧ delivered a1 = delivered a ∧ delivered a2 = delivered a1 ∧ delivered a3 = delivered a2.
Proof.
  intros (Ht & Hst & Hw & Hb & Hwk & (Hp & Hpc & _) & (Hc & Hcc & _)).
  assert (Hpe : Buffer.IsEmpty (buffer_productor_ a) = true) by by rewrite IsEmpty_spec, bool_decide_true.
  assert (Hce : Buffer.IsEmpty (buffer_consumer_ a) = true) by by rewrite IsEmpty_spec, bool_decide_true.
  set (a1 := mkAsyncWorker (async_type_ a) true (buffer_productor_ a) (buffer_consumer_ a) (worker a)
    (S (stoppers a)) (blocked a) (woken a) (accepted a) (delivered a)).
  set (a2 := mkAsyncWorker (async_type_ a) true (buffer_productor_ a) (buffer_consumer_ a)
    (notify_worker (worker a)) (stoppers a) (blocked a) (woken a) (accepted a) (delivered a)).
  eexists a1, a2, _. split_and!.
  - split; [apply s_set|done].
  - split; [by apply (s_notify a1)|done].
  - eapply (t_section a2 (buffer_productor_ a) (buffer_consumer_ a) false (blocked a) (woken a) []).
    + unfold a2. cbn. by rewrite Hw.
    + done.
    + unfold swap_buffers, a2. cbn. by rewrite Hpe.
    + done.
    + by rewrite Readable_ok, Hcc.
  - cbn. by rewrite Hpe, Hce.
  - done.
  - done.
  - cbn. by rewrite Hpe, Hce.
Qed.
End idle.

(** *** With its outputs *)
Section outputs.
Import LogTest.
Context {D : Type} `{Directories D} `{Platform} (x : t) (calls : list log_call).
Context (es0 : list LogFlush.t) (w1 : LogWorld D) (max : Z).
Implicit Types (s : system D) (st : state D).
Context (Hcfg : flush_log (cfg x) = 1 ∨ flush_log (cfg x) = 2) (Hg : io_good w1) (Hap : apart es0).
Context (Horder : MyLog.StopAllLoggers (manager x) ≡ₚ [0; 1]).
Context (Hlevel : Forall (λ c, lc_level c ≠ LogLevel.ERROR ∧ lc_level c ≠ LogLevel.FATAL) calls).

(** No line is longer than [max], and all together are fewer than 2^64 bytes. *)
Context (Hshort : ∀ c m, c ∈ calls → made_by x c m → zlen (LogMessage.format m) ≤ max).
Context (Hbound : zlen calls * max < 2 ^ 64).

Lemma short_concat ms :
  Forall (λ m, zlen (LogMessage.format m) ≤ max) ms → zlen (concat (LogMessage.format <$> ms)) ≤ zlen ms * max.
Proof.
  induction 1 as [|m ms Hm _ IH]; [done|]. rewrite fmap_cons. cbn [concat].
  rewrite zlen_app, zlen_cons. lia.
Qed.

Lemma called_short st : test_inv x calls st → Forall (λ m, zlen (LogMessage.format m) ≤ max) (called (st_sys st)).
Proof.
  intros Hi. destruct (ti_made _ _ _ Hi) as (cs & Ecs & Hm). apply Forall_lookup. intros i m Em.
  destruct (Forall2_lookup_r _ _ _ _ _ Hm Em) as (c & Ec & Hc). eapply Hshort; [|done].
  rewrite <- Ecs. apply elem_of_app. left. by eapply list_elem_of_lookup_2.
Qed.

Lemma all_bounded st : 0 ≤ max → test_inv x calls st → bounded es0 (accepted (sy_worker (st_sys st))).
Proof.
  intros Hmax Hi. assert (Hlt : zlen (accepted (sy_worker (st_sys st))) < 2 ^ 64).
  { rewrite (bk_logged _ (ti_books _ _ _ Hi)).
    pose proof (called_short _ Hi) as Hs. rewrite (ti_order _ _ _ Hi) in Hs. apply Forall_app in Hs as [Hs _].
    apply short_concat in Hs. destruct (ti_made _ _ _ Hi) as (cs & Ecs & Hm). apply Forall2_length in Hm.
    rewrite (ti_order _ _ _ Hi) in Hm. rewrite length_app in Hm.
    assert (zlen (logged (st_sys st)) ≤ zlen calls)
      by (rewrite <- Ecs; unfold zlen; rewrite length_app; lia).
    nia. }
  apply Forall_forall. by intros [|f|r] _.
Qed.

Lemma test_bounded st : 0 ≤ max → test_inv x calls st → bounded es0 (delivered (sy_worker (st_sys st))).
Proof.
  intros Hmax Hi. pose proof (all_bounded _ Hmax Hi) as Hb.
  rewrite (wi_order _ (ti_worker _ _ _ Hi)) in Hb. by eapply bounded_prefix.
Qed.

(** The figure is what the directory's files have in them. *)
Definition total_of (pc : main_pc) : option Z :=
  match pc with Deleting total | Returned total => Some total | _ => None end.
Definition counted (pc : main_pc) (w : LogWorld D) : Prop :=
  ∀ total, total_of pc = Some total → total = sum_of (entry_sizes log_dir w).

Record test_ready st : Prop := {
  tr_inv : test_inv x calls st;
  tr_pipe : pipe_inv es0 w1 (sy_pipe (st_sys st));
  tr_counted : counted (st_pc st) (sy_world (st_sys st)) }.

Lemma total_ok dir (w : LogWorld D) :
  io_good w → total_bytes_written dir w = Ok (sum_of (entry_sizes dir w), lw_tick w).
Proof.
  intros Hio. unfold total_bytes_written. cbn. by rewrite (proj2 (Z.ltb_ge _ 0)) by apply Hio.
Qed.

(** A worker that has returned writes nothing. *)
Lemma done_writes (R : AsyncWorker → AsyncWorker → Prop) s s' :
  pipe_step (cfg x) R s s' → worker (sy_worker s) = WDone → sy_world s' = sy_world s.
Proof.
  intros [a' fl' w' _ Hs] Hd. inversion Hs as [|? ? ? ? buffer ? ? Hst Hb Hne ?]; subst; [done|]. cbn in *.
  destruct (done_step (cfg x) _ _ Hst Hd) as [_ E]. rewrite E in Hb.
  symmetry in Hb. by rewrite <- (app_nil_r (delivered (sy_worker s))) in Hb at 2; apply app_inv_head in Hb.
Qed.

Lemma flush_keeps_world s s' : flush_step (cfg x) s s' → sy_world s' = sy_world s.
Proof. by destruct 1. Qed.

Lemma counted_logger (R : AsyncWorker → AsyncWorker → Prop) l pc s d s' d' :
  (∀ a a', R a a' → thread_step a a' ∨ Stop a a') → logger_step x R l s d s' d' → unused d.1 →
  (1 ∉ to_stop pc → worker (sy_worker s) = WDone) →
  counted pc (sy_world s) → counted pc (sy_world s').
Proof.
  intros HR Hs Hu Hj Hc total Ht. assert (Hw : sy_world s' = sy_world s).
  { destruct Hs as [s a fl a' fl' w' Hs Hls|s d s' Hs].
    - by destruct (unused_writes _ _ _ _ _ _ _ (unused_step _ _ _ HR Hs Hu) Hls).
    - eapply done_writes; [done|]. apply Hj. destruct pc; try done; apply not_elem_of_nil. }
  rewrite Hw. by apply Hc.
Qed.

Lemma pipe_logger (R : AsyncWorker → AsyncWorker → Prop) l s d s' d' :
  (∀ a a', R a a' → thread_step a a' ∨ Stop a a') → logger_step x R l s d s' d' →
  unused d.1 → bounded es0 (delivered (sy_worker s')) →
  pipe_inv es0 w1 (sy_pipe s) → pipe_inv es0 w1 (sy_pipe s').
Proof.
  intros HR Hs Hu Hb Hp. destruct Hs as [s a fl a' fl' w' Hs Hls|s d s' Hs].
  - destruct (unused_writes _ _ _ _ _ _ _ (unused_step _ _ _ HR Hs Hu) Hls) as [_ ->]. by rewrite set_world_same.
  - eapply (pipe_call (cfg x) (asynclogger x) es0 w1 Hcfg Hg Hap); [|done|done].
    destruct Hs as [a' fl' w' Hs Hls]. destruct (HR _ _ Hs); [apply c_worker|apply c_stop]; by split.
Qed.

Lemma test_ready_step st st' : 0 ≤ max → test_step x st st' → test_ready st → test_ready st'.
Proof.
  intros Hmax Hs [Hi Hp Hc]. pose proof (test_inv_step x calls Horder Hlevel _ _ Hs Hi) as Hi'.
  pose proof (test_bounded _ Hmax Hi') as Hb. pose proof (ti_default _ _ _ Hi) as Hu.
  pose proof (ti_joined _ _ _ Hi) as Hj.
  assert (Hio : io_good (sy_world (st_sys st))) by (intros k; rewrite (pv_oracle _ _ _ Hp : lw_oracle (sy_world _) = _); apply Hg).
  split; [done|clear Hc|clear Hp]; destruct Hs as [c todo s s' d p Ec Ew Hf|pc s s' d p Hf|s d p Ec Ew
    |l ls s d s' d' p Hl|l ls s d s' d' p Hl|l ls s d p Hd|s d p total w' E| | |l pc s d s' d' p Hl|];
    cbn in *; try done.
  - eapply (pipe_call (cfg x) (asynclogger x) es0 w1 Hcfg Hg Hap); [by eapply c_format|done|done].
  - eapply (pipe_call (cfg x) (asynclogger x) es0 w1 Hcfg Hg Hap); [by apply c_flush|done|done].
  - eapply (pipe_logger stop_set); [|done..]. by intros a a' []; right.
  - eapply (pipe_logger stop_notify); [|done..]. by intros a a' []; right.
  - rewrite total_ok in E by done. injection E as <- <-. by apply (pipe_world (cfg x) es0 w1 Hcfg _ _ (sy_world s)).
  - eapply (pipe_logger thread_step); [|done..]. by left.
  - intros t. by rewrite (flush_keeps_world _ _ Hf); apply Hc.
  - rewrite total_ok in E by done. by injection E as <- <-; intros t [= <-].
  - eapply (counted_logger thread_step); [|done..]. by left.
Qed.

Lemma test_ready_reachable st st' : 0 ≤ max → rtc (test_step x) st st' → test_ready st → test_ready st'.
Proof. intros Hmax Hr Hi. induction Hr as [|s1 s2 s3 Hs _ IH]; [done|]. by eapply IH, test_ready_step. Qed.

(** When [StopAllLoggers] has returned, every line is where it should be. *)
Lemma test_result st total : test_ready st → returned total st →
  let s := st_sys st in
  refused s = [] ∧ total = sum_of (entry_sizes log_dir (sy_world s)) ∧ Forall2 (made_by x) calls (logged s) ∧
  (∀ e0, e0 ∈ es0 → written e0 w1 (concat (LogMessage.format <$> logged s)) (sy_world s)) ∧
  ∀ r, Forall (λ e, ¬ owns e r) es0 → content_at r (sy_world s) = content_at r w1.
Proof.
  intros [Hi Hp Htot] Hret s. pose proof Hret as Hpc. unfold returned in Hpc.
  pose proof (ti_tested _ _ _ Hi ltac:(by rewrite Hpc)) as [Ew Ec]%app_eq_nil.
  pose proof (ti_joined _ _ _ Hi ltac:(rewrite Hpc; apply not_elem_of_nil)) as Hd.
  split; [apply (ti_refused _ _ _ Hi)|]. split; [by apply Htot; rewrite Hpc|]. split_and!; [| |apply (pv_others _ _ _ Hp)].
  - destruct (ti_made _ _ _ Hi) as (cs & Ecs & Hm). rewrite Hpc in Ecs. cbn in Ecs.
    rewrite app_nil_r in Ecs. subst cs. rewrite (ti_order _ _ _ Hi), Ew, Ec in Hm.
    cbn in Hm. by rewrite app_nil_r in Hm.
  - intros e0 He. unfold s. rewrite <- (bk_logged _ (ti_books _ _ _ Hi)), <- (ti_drained _ _ _ Hi Hd).
    by apply (pipe_written es0 w1 _ e0 Hp).
Qed.

Lemma test_ready_start :
  initial (AsyncLogger.asyncworker (asynclogger x)) → AsyncLogger.flushs_ (asynclogger x) = es0 →
  initial (AsyncLogger.asyncworker (default_logger x)) → Forall new_output es0 →
  test_ready (start x calls w1).
Proof.
  intros Hi Hf Hid Hn. split.
  - pose proof Hi as (Hst & Hw & _). split; cbn; rewrite ?Hst, ?Hw; try done.
    + by apply books_start.
    + by apply worker_inv_initial.
    + split; [by apply worker_inv_initial|]. apply Hid.
    + by exists [].
    + lia.
    + intros Hn1. exfalso. apply Hn1. set_solver.
  - unfold sy_pipe, start. cbn. rewrite Hf. by apply pipe_starts.
  - done.
Qed.

(** **** A run that ends *)

Lemma bounded_now st a : 0 ≤ max → test_inv x calls st → worker_inv a →
  accepted a = accepted (sy_worker (st_sys st)) → bounded es0 (delivered a).
Proof.
  intros Hmax Hi Ha E. pose proof (wi_order _ Ha) as Ho. rewrite E in Ho.
  apply (bounded_prefix _ _ (Buffer.content (buffer_consumer_ a) ++ Buffer.content (buffer_productor_ a))).
  rewrite <- Ho. by eapply all_bounded.
Qed.

Lemma log_at_some c (w : LogWorld D) :
  lc_level c ≠ LogLevel.ERROR ∧ lc_level c ≠ LogLevel.FATAL →
  ∃ data w', AsyncLogger.log_at (lc_level c) None (lc_tid c) (asynclogger x) (lc_file c) (lc_line c)
    (Some (lc_text c)) w = Ok (Some data, w').
Proof. intros [H1 H2]. unfold AsyncLogger.log_at, AsyncLogger.serialize. destruct (lc_level c); try done; by do 2 eexists. Qed.

(** A call that goes through at once, and the worker writes its line. *)
Lemma call_passes n c todo s d p :
  0 ≤ max < n → test_ready (mkState (Testing (c :: todo)) s d p) → idle n (sy_worker s) →
  waiting s = [] → calling s = [] →
  ∃ s', rtc (test_step x) (mkState (Testing (c :: todo)) s d p) (mkState (Testing todo) s' d p) ∧
    idle n (sy_worker s') ∧ waiting s' = [] ∧ calling s' = [].
Proof.
  intros Hmax Hrd Hid Hw Hc. pose proof (tr_inv _ Hrd) as Hi.
  destruct (ti_made _ _ _ Hi) as (cs & Ecs & _). cbn in Ecs.
  assert (Hin : c ∈ calls) by (rewrite <- Ecs; set_solver).
  pose proof (proj1 (Forall_forall _ _) Hlevel c Hin) as Hlc.
  destruct (log_at_some c (sy_world s) Hlc) as (line & w' & E).
  set (m := message_of (asynclogger x) (sr_ret (lw_oracle (sy_world s) (lw_clock (sy_world s)))) c).
  assert (Hm : zlen (LogMessage.format m) ≤ max) by (apply (Hshort c); [done|by eexists]).
  assert (Hlt : zlen (LogMessage.format m) < n) by lia.
  destruct (idle_pass (cfg x) n _ (LogMessage.format m) Hid (format_not_nil m) Hlt)
    as (a1 & a2 & a3 & Hp & Hw1 & Ha1 & Ht2 & Hd2 & Ht3 & Ha3 & Hid3).
  pose proof Hid as (_ & _ & _ & _ & Hwk & _).
  set (s1 := mkSystem (sy_worker s) (sy_flushs s) w' (called s ++ [m]) (calling s ++ [m])
    (waiting s) (logged s) (refused s)).
  assert (H1 : test_step x (mkState (Testing (c :: todo)) s d p) (mkState (Testing todo) s1 d p))
    by (by apply t_call; [..|by eapply f_line]).
  set (s2 := set_calls a1 [] (waiting s1) (logged s1 ++ [m]) (refused s1) s1).
  assert (H2 : test_step x (mkState (Testing todo) s1 d p) (mkState (Testing todo) s2 d p)).
  { apply t_flush, (p_accepted (cfg x) s1 m [] [] a1); [cbn; by rewrite Hc|done|cbn; congruence|].
    cbn. rewrite Ha1. intros E1. by eapply format_grows, format_not_nil. }
  set (s3 := mkSystem a2 (sy_flushs s2) (sy_world s2) (called s2) (calling s2) (waiting s2) (logged s2)
    (refused s2)).
  assert (H3 : test_step x (mkState (Testing todo) s2 d p) (mkState (Testing todo) s3 d p)).
  { apply (t_worker x 1), l_test, p_step; [done|]. apply ls_quiet; [right; by left|done]. }
  assert (Hrd3 : test_ready (mkState (Testing todo) s3 d p)).
  { eapply test_ready_reachable; [lia| |exact Hrd].
    eapply rtc_l; [exact H1|]. eapply rtc_l; [exact H2|]. by apply rtc_once. }
  pose proof (ti_worker _ _ _ (tr_inv _ Hrd3)) as Hv3.
  assert (Ha23 : accepted a3 = accepted a2) by (destruct (worker_keeps _ _ (or_introl Ht3)) as [-> _]; done).
  destruct (pipe_progress (cfg x) es0 w1 Hcfg Hg Hap a2 a3 (sy_flushs s3) (sy_world s3) (tr_pipe _ Hrd3))
    as (fl' & w4 & Hls); [right; by left| |].
  { eapply bounded_now; [lia|exact (tr_inv _ Hrd3)|by eapply worker_inv_thread|done]. }
  exists (mkSystem a3 fl' w4 (called s3) (calling s3) (waiting s3) (logged s3) (refused s3)).
  split; [|by split_and!].
  eapply rtc_l; [exact H1|]. eapply rtc_l; [exact H2|]. eapply rtc_l; [exact H3|]. apply rtc_once.
  by apply (t_worker x 1), l_test, p_step.
Qed.

Lemma calls_pass n todo s d p :
  0 ≤ max < n → test_ready (mkState (Testing todo) s d p) → idle n (sy_worker s) →
  waiting s = [] → calling s = [] →
  ∃ s', rtc (test_step x) (mkState (Testing todo) s d p) (mkState (Testing []) s' d p) ∧
    idle n (sy_worker s') ∧ waiting s' = [] ∧ calling s' = [].
Proof.
  intros Hmax. revert s. induction todo as [|c todo IH]; intros s Hrd Hid Hw Hc; [by exists s|].
  destruct (call_passes n c todo s d p Hmax Hrd Hid Hw Hc) as (s1 & Hr1 & Hid1 & Hw1 & Hc1).
  destruct (IH s1) as (s2 & Hr2 & H2); [eapply test_ready_reachable; [lia|done|done]|done..|].
  exists s2. split; [by etrans|done].
Qed.

(** An idle logger is stopped; the others are as they were. *)
Lemma logger_stops n l ls s d p :
  l = 0 ∨ l = 1 → idle n (worker_at l s d) →
  ∃ s' d', rtc (test_step x) (mkState (Stopping (l :: ls)) s d p) (mkState (Stopping ls) s' d' p) ∧
    ∀ l', l' = 0 ∨ l' = 1 → l' ≠ l → worker_at l' s' d' = worker_at l' s d.
Proof.
  intros Hl Hid. destruct (idle_stop n _ Hid) as (a1 & a2 & a3 & H1 & H2 & H3 & Hd & E1 & E2 & E3).
  pose proof (proj1 H1) as S1. pose proof (proj1 H2) as S2.
  destruct Hl as [->| ->]; cbn in H1.
  - destruct d as [a fl]. cbn in H1. exists s, (a3, fl). split; [|intros l' [->| ->]; done].
    assert (Hq : ∀ b b' (R : AsyncWorker → AsyncWorker → Prop), R b b' → step (cfg x) b b' →
      delivered b' = delivered b → logger_step x R 0 s (b, fl) s (b', fl)).
    { intros b b' R HR Hs E. rewrite <- (set_world_same s) at 2. apply l_default; [done|]. by apply ls_quiet. }
    eapply rtc_l; [apply t_set, (Hq a a1); [done|by right; right|done]|].
    eapply rtc_l; [apply t_notify, (Hq a1 a2); [done|by right; right|done]|].
    eapply rtc_l; [apply (t_worker x 0), (Hq a2 a3); [done|by right; left|done]|].
    apply rtc_once. by apply t_join.
  - set (at_ b := mkSystem b (sy_flushs s) (sy_world s) (called s) (calling s) (waiting s) (logged s) (refused s)).
    exists (at_ a3), d. split; [|intros l' [->| ->]; done].
    assert (Hq : ∀ b b' (R : AsyncWorker → AsyncWorker → Prop), R b b' → step (cfg x) b b' →
      delivered b' = delivered b → logger_step x R 1 (at_ b) d (at_ b') d).
    { intros b b' R HR Hs E. apply l_test, (p_step (cfg x) R (at_ b)); [done|by apply ls_quiet]. }
    replace s with (at_ (sy_worker s)) at 1 by by destruct s.
    eapply rtc_l; [apply t_set, (Hq _ a1); [done|by right; right|done]|].
    eapply rtc_l; [apply t_notify, (Hq a1 a2); [done|by right; right|done]|].
    eapply rtc_l; [apply (t_worker x 1), (Hq a2 a3); [done|by right; left|done]|].
    apply rtc_once. by apply t_join.
Qed.

Lemma loggers_stop n ls s d p :
  NoDup ls → (∀ l, l ∈ ls → (l = 0 ∨ l = 1) ∧ idle n (worker_at l s d)) →
  ∃ s' d', rtc (test_step x) (mkState (Stopping ls) s d p) (mkState (Stopping []) s' d' p).
Proof.
  intros Hnd. revert s d. induction Hnd as [|l ls Hn _ IH]; intros s d Hl; [by exists s, d|].
  destruct (Hl l) as [H1 H2]; [by left|].
  destruct (logger_stops n l ls s d p H1 H2) as (s1 & d1 & Hr & Hk).
  destruct (IH s1 d1) as (s2 & d2 & Hr2).
  { intros l' Hin. destruct (Hl l') as [H3 H4]; [by right|]. split; [done|].
    rewrite Hk; [done|done|]. intros ->. done. }
  exists s2, d2. by etrans.
Qed.

(** [delete(tp)] of the pool nobody used. *)
Lemma pool_deleted total s d threads :
  ∃ p, rtc (test_step x) (mkState (Deleting total) s d (ThreadPool.ctor threads)) (mkState (Returned total) s d p).
Proof.
  destruct (ThreadPool.unused_pool_ends (T := list byte) threads) as (p & Hr & Hd). exists p.
  apply (rtc_r _ (mkState (Deleting total) s d p)); [|by apply t_deleted].
  clear Hd. induction Hr as [|p1 p2 p3 Hs _ IH]; [done|].
  eapply rtc_l; [|exact IH]. destruct Hs; [by apply t_pool|by apply t_delete].
Qed.

(** The program can return: no call is stuck as long as its line fits. *)
Lemma test_can_return n threads :
  0 ≤ max < n → test_ready (start x calls w1) → tp x = ThreadPool.ctor threads →
  idle n (AsyncLogger.asyncworker (asynclogger x)) → idle n (AsyncLogger.asyncworker (default_logger x)) →
  ∃ total st, rtc (test_step x) (start x calls w1) st ∧ returned total st.
Proof.
  intros Hmax Hrd Htp Hid Hid0.
  destruct (calls_pass n calls _ _ (tp x) Hmax Hrd Hid eq_refl eq_refl) as (s1 & Hr1 & Hid1 & Hw1 & Hc1).
  set (d := (AsyncLogger.asyncworker (default_logger x), AsyncLogger.flushs_ (default_logger x))) in *.
  destruct (loggers_stop n (MyLog.StopAllLoggers (manager x)) s1 d (tp x)) as (s2 & d2 & Hr2).
  { rewrite Horder. by apply (bool_decide_unpack _). }
  { intros l Hl. rewrite Horder in Hl. apply elem_of_cons in Hl as [->|[->|[]%not_elem_of_nil]%elem_of_cons].
    - split; [by left|done].
    - split; [by right|done]. }
  assert (Hr : rtc (test_step x) (start x calls w1) (mkState (Stopping []) s2 d2 (tp x))).
  { etrans; [exact Hr1|]. eapply rtc_l; [by apply t_test_returns|done]. }
  assert (Hio : io_good (sy_world s2)).
  { assert (Hrd2 : test_ready (mkState (Stopping []) s2 d2 (tp x))) by (eapply test_ready_reachable; [lia|done|done]).
    intros k. pose proof (pv_oracle _ _ _ (tr_pipe _ Hrd2)) as E. cbn in E. rewrite E. apply Hg. }
  set (total := sum_of (entry_sizes log_dir (sy_world s2))). set (s3 := set_world (lw_tick (sy_world s2)) s2).
  destruct (pool_deleted total s3 d2 threads) as (p & Hrp).
  exists total, (mkState (Returned total) s3 d2 p). split; [|done].
  etrans; [exact Hr|]. rewrite Htp. eapply rtc_l; [|exact Hrp]. by apply t_total, total_ok.
Qed.
End outputs.

(** ** What [main] sets up *)
Section set_up.
Import LogTest.
Context {D : Type} `{Directories D} `{Platform} (parse : list byte → bool * JsonValue).
Implicit Types (w : LogWorld D).

(** The kernel's answers stay what they are. *)
Lemma keeps_GetJsonData c d : along (untouched (D := D)) (GetJsonData parse c d).
Proof.
  unfold GetJsonData, load_config, JsonUtil.UnSerialize, File.Exists, File.GetContent, File.FileSize.
  destruct d; along.
Qed.

Lemma filesystem_oracle f w r w' :
  (∀ w, lw_oracle (f w) = lw_oracle w) → fs.filesystem f w = Ok (r, w') → lw_oracle w' = lw_oracle w.
Proof.
  intros Hf E. unfold fs.filesystem in E. apply bind_inv in E as (a & w1 & E1 & E2).
  injection E1 as _ <-. destruct (_ <? 0); [done|]. injection E2 as _ <-. by rewrite Hf.
Qed.

Definition same_dirs w w' : Prop := lw_dirs w' = lw_dirs w.
#[local] Instance same_dirs_preorder : PreOrder same_dirs.
Proof. split; [done|]. unfold same_dirs. intros ???. congruence. Qed.

Lemma dirs_GetJsonData c d : along same_dirs (GetJsonData parse c d).
Proof.
  assert (Hsys : along same_dirs sys) by by intros w ? ? [= <- <-].
  assert (Hnote : ∀ e, along same_dirs (note e)) by by intros e w ? ? [= <- <-].
  unfold GetJsonData, load_config, JsonUtil.UnSerialize, File.Exists, File.GetContent, File.FileSize, print.
  destruct d; along.
Qed.

(** A file is in a directory that exists. *)
Definition tree_ok (dir : list byte) w : Prop :=
  ∀ n, in_directory dir n = true → is_Some (lw_files w !! n) → path_exists dir (lw_dirs w) = true.

Lemma filesystem_good f w r w' :
  io_good w → fs.filesystem f w = Ok (r, w') → w' = f (lw_tick w).
Proof.
  intros Hg E. unfold fs.filesystem in E. apply bind_inv in E as (a & w1 & E1 & E2).
  injection E1 as <- <-. rewrite (proj2 (Z.ltb_ge _ 0)) in E2 by apply Hg. by injection E2 as _ <-.
Qed.

(** After [remove_all] the directory's files are gone. *)
Lemma removed_content dir w w' r n :
  io_good w → fs.remove_all dir w = Ok (r, w') → in_directory dir n = true → content_of n w' = [].
Proof.
  intros Hg ->%filesystem_good [Hp%bool_decide_eq_true _]%andb_true_iff; [|done].
  unfold content_of. cbn. rewrite map_lookup_filter_None_2; [done|]. right. by intros c _ [_ Hn].
Qed.

Lemma cleared_content dir w w' r n :
  tree_ok dir w → io_good w → when (path_exists dir (lw_dirs w)) (fs.remove_all dir) w = Ok (r, w') →
  in_directory dir n = true → content_of n w' = [].
Proof.
  intros Ht Hg E Hin. unfold when in E. destruct (path_exists _ _) eqn:Ep; [by eapply removed_content|].
  injection E as _ <-. unfold content_of. destruct (lw_files w !! n) eqn:El; [|done].
  rewrite (Ht n Hin) in Ep; [done|by rewrite El].
Qed.

Lemma set_up_ok w0 x w1 :
  tree_ok log_dir w0 → io_good w0 → set_up parse w0 = Ok (x, w1) → 0 ≤ cfg_buffer_size (cfg x) →
  io_good w1 ∧
  AsyncLogger.logger_name_ (asynclogger x) = bytes "asynclogger" ∧
  AsyncLogger.flushs_ (asynclogger x) = outputs_of outputs ∧
  MyLog.GetLogger (bytes "asynclogger") (manager x) = Some 1 ∧
  MyLog.StopAllLoggers (manager x) ≡ₚ [0; 1] ∧
  initial (AsyncLogger.asyncworker (asynclogger x)) ∧ initial (AsyncLogger.asyncworker (default_logger x)) ∧
  idle (cfg_buffer_size (cfg x)) (AsyncLogger.asyncworker (asynclogger x)) ∧
  idle (cfg_buffer_size (cfg x)) (AsyncLogger.asyncworker (default_logger x)) ∧
  tp x = ThreadPool.ctor (Z.to_nat (thread_count (cfg x))) ∧
  ∀ n, in_directory log_dir n = true → content_of n w1 = [].
Proof.
  intros Ht Hg E Hn. unfold set_up in E.
  apply bind_inv in E as ([pool c] & v1 & E1 & E). unfold init_thread_pool in E1.
  apply bind_inv in E1 as (json & v1' & Ej & E1). injection E1 as <- <- <-.
  pose proof (dirs_GetJsonData _ _ _ _ _ Ej) as Hd1. apply keeps_GetJsonData in Ej as (Ho1 & Hf1 & _).
  apply bind_inv in E as (dirs & v2 & E2 & E). injection E2 as <- <-.
  apply bind_inv in E as ([] & v2 & E2 & E). apply bind_inv in E as ([] & v3 & E3 & E).
  assert (Ho2 : lw_oracle v2 = lw_oracle v1').
  { unfold when in E2. destruct (path_exists _ _); [|by injection E2 as <-].
    by eapply filesystem_oracle; [|exact E2]. }
  assert (Ho3 : lw_oracle v3 = lw_oracle v2) by (by eapply filesystem_oracle; [|exact E3]).
  assert (Hemp : ∀ n, in_directory log_dir n = true → content_of n v3 = []).
  { intros n Hin. apply filesystem_good in E3 as ->; [|intros k; rewrite Ho2, Ho1; apply Hg].
    change (content_of n v2 = []). eapply cleared_content; [| |exact E2|done].
    - intros k. unfold same_dirs in Hd1. rewrite Hf1, Hd1. apply Ht.
    - intros k. rewrite Ho1. apply Hg. }
  apply bind_inv in E as (b & v4 & E4 & E). apply bind_inv in E as ([dl mg] & v5 & E5 & E).
  apply bind_inv in E as ([al b'] & v6 & E6 & E). injection E as <- <-. cbn [cfg asynclogger default_logger manager tp] in *.
  assert (Hg3 : io_good v3) by (intros k; rewrite Ho3, Ho2, Ho1; apply Hg).
  destruct (build_flushs_ok outputs (LoggerBuilder.BuildLoggerName (bytes "asynclogger") LoggerBuilder.ctor) v3 Hg3)
    as (v4' & E4' & Ho4 & Hc4); [by repeat (apply Forall_cons; split; [by vm_compute|])|].
  rewrite E4 in E4'. injection E4' as -> ->.
  unfold lift in E5, E6. destruct (LoggerManager.GetInstance _) as [i|] eqn:Ei; [|done].
  injection E5 as -> ->. destruct (LoggerBuilder.Build _ _) as [[l b2]|] eqn:EB in E6; [|done].
  injection E6 as -> -> ->. destruct (Build_ok _ _ _ _ EB Hn) as (Hnm & Hnw & Hi & Hfl).
  unfold LoggerManager.GetInstance in Ei.
  destruct (LoggerBuilder.Build _ _) as [[l0 b0]|] eqn:EB0 in Ei; [|done]. injection Ei as -> <-.
  destruct (Build_ok _ _ _ _ EB0 Hn) as (Hnm0 & Hnw0 & Hi0 & _).
  cbn [LoggerBuilder.logger_name_ LoggerBuilder.async_type_ LoggerBuilder.flushs_] in *.
  assert (Hm : LoggerManager.AddLogger (LoggerManager.name_of [dl; al]) 1 (LoggerManager.ctor 0) =
    LoggerManager.mk 0 (<[bytes "asynclogger" := 1]> {[bytes "default" := 0]})).
  { assert (Hn1 : LoggerManager.name_of [dl; al] 1 = bytes "asynclogger") by exact Hnm.
    unfold LoggerManager.AddLogger, LoggerManager.insert_logger. rewrite Hn1.
    by replace (LoggerManager.LoggerExist _ _) with false by done. }
  split_and!; try done.
  - intros k. rewrite Ho4. apply Hg3.
  - rewrite Hm. apply lookup_insert_eq.
  - unfold MyLog.StopAllLoggers, LoggerManager.StopAll. rewrite Hm. cbn [LoggerManager.loggers_].
    rewrite map_to_list_insert, map_to_list_singleton by done. cbn. by apply Permutation_swap.
  - by apply new_worker_idle.
  - by apply new_worker_idle.
  - intros n Hin. pose proof (Hc4 (Some n)) as Hc. cbn in Hc. by rewrite Hc, Hemp.
Qed.
End set_up.

(** ** The program *)
Section program.
Import LogTest.
Context {D : Type} `{Directories D} `{PlatformOk} (parse : list byte → bool * JsonValue).
Context (file : list byte) (tid : Z).

(** What a line of the test takes at most. *)
Definition line_max : Z := 59 + zlen (thread_text tid) + zlen file.

Lemma rounds_calls n cnt c : c ∈ rounds file tid n cnt →
  ∃ level line k, c = log file tid level line k ∧ (level ≠ LogLevel.ERROR ∧ level ≠ LogLevel.FATAL) ∧
    22 ≤ line ≤ 24 ∧ cnt ≤ k < cnt + 3 * Z.of_nat n.
Proof.
  revert cnt. induction n as [|n IH]; intros cnt Hc; [by apply not_elem_of_nil in Hc|].
  cbn [rounds] in Hc. apply elem_of_app in Hc as [Hc|Hc].
  - repeat (apply elem_of_cons in Hc as [->|Hc]; [do 3 eexists; split; [done|]; split; [done|]; lia|]).
    by apply not_elem_of_nil in Hc.
  - destruct (IH _ Hc) as (level & line & k & -> & Hl & Hn & Hk). exists level, line, k.
    split; [done|]. split; [done|]. lia.
Qed.

Lemma test_call c : c ∈ test_calls file tid →
  ∃ level line k, c = log file tid level line k ∧ (level ≠ LogLevel.ERROR ∧ level ≠ LogLevel.FATAL) ∧
    22 ≤ line ≤ 24 ∧ 1 ≤ k < 10 ^ 6.
Proof.
  intros Hc. destruct (rounds_calls _ _ _ Hc) as (level & line & k & Ec & Hl & Hn & Hk).
  exists level, line, k. split; [done|]. split; [done|]. unfold TOTAL_LOG in Hk. lia.
Qed.

(** The text is printable. *)
Lemma text_without b k : 0 ≤ k → b ∉ bytes "测试日志-" → bool_decide (is_digit b) = false → b ∉ text k.
Proof.
  intros Hk Hb Hd. unfold text. rewrite not_elem_of_app. split; [done|].
  apply digits_without; [done|by apply to_string_digits].
Qed.

Lemma text_c_string k : 0 ≤ k → c_string (text k) = text k.
Proof. intros Hk. apply c_string_all, text_without; [done|by apply (bool_decide_unpack _)|done]. Qed.

Lemma level_length level : zlen (LogLevel.ToString level) ≤ 5.
Proof. by destruct level. Qed.

Context (x : t) (Hname : AsyncLogger.logger_name_ (asynclogger x) = bytes "asynclogger").

Lemma test_line_short c m : c ∈ test_calls file tid → made_by x c m → zlen (LogMessage.format m) ≤ line_max.
Proof.
  intros Hc [now ->]. destruct (test_call c Hc) as (level & line & k & -> & _ & Hn & Hk).
  unfold message_of, log, LogMessage.ctor, LogMessage.format, line_max. cbn [lc_tid lc_level lc_file lc_line lc_text
    LogMessage.ctime_ LogMessage.tid_ LogMessage.level_ LogMessage.name_ LogMessage.file_name_ LogMessage.line_
    LogMessage.payload_]. rewrite text_c_string, Hname by lia. unfold text. rewrite !zlen_app.
  pose proof (level_length level). pose proof (to_string_length 1 line ltac:(cbn; lia)).
  pose proof (to_string_length 5 k ltac:(cbn in *; lia)).
  change (zlen (LogMessage.clock_text now)) with 8.
  repeat match goal with |- context [zlen (bytes ?s)] => let n := eval vm_compute in (zlen (bytes s)) in
    change (zlen (bytes s)) with n end. cbn [zlen] in *.
  change (zlen [x09]) with 1. change (zlen [x0a]) with 1. lia.
Qed.

Lemma test_line_loggable c m :
  x5d ∉ file → x0a ∉ file → c ∈ test_calls file tid → made_by x c m → loggable m.
Proof.
  intros Hf1 Hf2 Hc [now ->]. destruct (test_call c Hc) as (level & line & k & -> & _ & Hn & Hk).
  unfold loggable, message_of, LogMessage.ctor, log; cbn -[text c_string]. rewrite text_c_string, Hname by lia.
  split; [lia|]. split_and!; try done; try by apply (bool_decide_unpack _).
  apply text_without; [lia|by apply (bool_decide_unpack _)|done].
Qed.

Lemma test_texts ms : Forall2 (made_by x) (test_calls file tid) ms →
  LogMessage.payload_ <$> ms = text <$> seqZ 1 (3 * TOTAL_LOG).
Proof.
  intros Hm. transitivity (lc_text <$> test_calls file tid).
  - assert (Hall : Forall (λ c, c_string (lc_text c) = lc_text c) (test_calls file tid)).
    { apply Forall_forall. intros c Hc. destruct (test_call c Hc) as (level & line & k & -> & _ & _ & Hk).
      apply text_c_string. lia. }
    induction Hm as [|c m cs ms [now ->] _ IH]; [done|]. apply Forall_cons in Hall as [Hc Hall].
    rewrite !fmap_cons, IH by done. f_equal. exact Hc.
  - unfold test_calls. rewrite rounds_texts. unfold seqZ. rewrite <- list_fmap_compose.
    replace (Z.to_nat (3 * TOTAL_LOG)) with (3 * Z.to_nat TOTAL_LOG)%nat by (unfold TOTAL_LOG; lia).
    apply list_fmap_ext. intros ? i _. unfold compose. f_equal. lia.
Qed.
End program.

Section theorem.
Import LogTest.
Context {D : Type} `{Directories D} `{PlatformOk} (parse : list byte → bool * JsonValue).

(** C18: the logger's test program. Let no call of the kernel fail, let a file
    be in the log directory only if the directory is there, and let the
    configuration read have [flush_log] 1 or 2 and a buffer that is longer than
    a line, but no longer than 2^40 bytes. Then there is a run of the program in
    which [main] returns. And whenever it has returned, after whatever
    interleaving of [main], the two workers and the threads of the pool, no line
    was refused; the lines logged are those numbered from 1 to 600000, in this
    order; the directory was emptied before, and then each of the twenty files,
    and the rolled files one after the other, were extended by exactly the text
    that reads back to these lines, if the source file's name holds no bracket
    and no newline; and the sizes [main] adds up are 21 times this text's. *)
Theorem log_test_writes_every_line file tid calls w0 x w1 :
  io_good w0 → tree_ok log_dir w0 → set_up parse w0 = Ok (x, w1) → test file tid = Some calls →
  (flush_log (cfg x) = 1 ∨ flush_log (cfg x) = 2) → line_max file tid < cfg_buffer_size (cfg x) ≤ 2 ^ 40 →
  x5d ∉ file → x0a ∉ file →
  MyLog.GetLogger (bytes "asynclogger") (manager x) = Some 1 ∧
  (∀ n, in_directory log_dir n = true → content_of n w1 = []) ∧
  (∃ total st, rtc (test_step x) (start x calls w1) st ∧ returned total st) ∧
  ∀ total st, rtc (test_step x) (start x calls w1) st → returned total st →
    refused (st_sys st) = [] ∧
    LogMessage.payload_ <$> logged (st_sys st) = text <$> seqZ 1 (3 * TOTAL_LOG) ∧
    ∃ t, read_log t = Some (line_of <$> logged (st_sys st)) ∧
      (∀ e0, e0 ∈ outputs_of outputs → written e0 w1 t (sy_world (st_sys st))) ∧
      total = 21 * zlen t.
Proof.
  intros Hg Htree Es Et Hcfg [Hmax Hle] Hb Hn. rewrite test_returns in Et. injection Et as <-.
  assert (Hl0 : 0 ≤ line_max file tid) by (unfold line_max; pose proof (zlen_nonneg file);
    pose proof (zlen_nonneg (thread_text tid)); lia).
  destruct (set_up_ok parse w0 x w1 Htree Hg Es ltac:(lia))
    as (Hg1 & Hname & Hfl & Hget & Horder & Hi & Hi0 & Hid & Hid0 & Htp & Hemp).
  pose proof (test_line_short file tid x Hname) as Hshort.
  assert (Hlevel : Forall (λ c, lc_level c ≠ LogLevel.ERROR ∧ lc_level c ≠ LogLevel.FATAL) (test_calls file tid)).
  { apply Forall_forall. intros c Hc. by destruct (test_call _ _ c Hc) as (? & ? & ? & -> & ? & _). }
  assert (Hbound : zlen (test_calls file tid) * line_max file tid < 2 ^ 64).
  { unfold zlen at 1. unfold test_calls. rewrite rounds_length. unfold TOTAL_LOG. lia. }
  assert (Hap : apart (outputs_of outputs)) by by apply all_separate_apart; vm_compute.
  assert (Hrd : test_ready x (test_calls file tid) (outputs_of outputs) w1 (start x (test_calls file tid) w1))
    by (apply (test_ready_start x _ _ w1 _ Hcfg Hg1 Hap Horder Hlevel Hshort Hbound); [done..|apply outputs_new]).
  split; [done|]. split; [done|]. split.
  - eapply (test_can_return x _ _ w1 (line_max file tid) Hcfg Hg1 Hap Horder Hlevel Hshort Hbound); [|done..]. lia.
  - intros total st Hr Hret.
    pose proof (test_ready_reachable x _ _ w1 _ Hcfg Hg1 Hap Horder Hlevel Hshort Hbound _ _ Hl0 Hr Hrd) as Hrd'.
    destruct (test_result x _ _ w1 _ _ Hrd' Hret) as (Href & Htot & Hm & Hw & Hot). split; [done|].
    split; [by eapply test_texts|]. eexists. split; [|split; [exact Hw|by rewrite Htot; apply (directory_total w1)]].
    apply read_log_messages, Forall_lookup. intros i m Em.
    destruct (Forall2_lookup_r _ _ _ _ _ Hm Em) as (c & Ec & Hc).
    eapply test_line_loggable; [done..| |done]. by eapply list_elem_of_lookup_2.
Qed.
End theorem.

(** ** A concrete start *)
Definition test_root : JsonValue :=
  mkJsonValue (λ name, if decide (name = "buffer_size") then Some 256 else asInt64 shipped_root name)%string
    (asInt shipped_root) (asString shipped_root).
Definition test_world : LogWorld (gset (list byte)) :=
  mkLogWorld {[LogTest.conf := bytes "{}"]} ∅ {[LogTest.conf; bytes ".."; LogTest.log_dir]} []
    (λ _, ret_only 2) 0 [].
Definition test_set_up : outcome (LogTest.t * LogWorld (gset (list byte))) :=
  LogTest.set_up (λ _, (true, test_root)) test_world.
Definition test_configured (o : outcome (LogTest.t * LogWorld (gset (list byte)))) : bool :=
  match o with
  | Ok (x, _) => (flush_log (LogTest.cfg x) =? 1) && (cfg_buffer_size (LogTest.cfg x) =? 256)
  | Fault _ => false
  end.

Lemma log_test_writes_every_line_witness :
  ∃ x w1 total st t, test_set_up = Ok (x, w1) ∧
    rtc (LogTest.test_step (H0 := UtcPlatform.platform) x)
      (LogTest.start x (LogTest.test_calls (bytes "test.cpp") 140) w1) st ∧
    LogTest.returned total st ∧ refused (LogTest.st_sys st) = [] ∧
    LogMessage.payload_ <$> logged (LogTest.st_sys st) = LogTest.text <$> seqZ 1 (3 * LogTest.TOTAL_LOG) ∧
    read_log t = Some (line_of <$> logged (LogTest.st_sys st)) ∧
    Forall (λ e0, written e0 w1 t (sy_world (LogTest.st_sys st))) (outputs_of LogTest.outputs) ∧
    total = 21 * zlen t.
Proof.
  assert (Hc : test_configured test_set_up = true) by by vm_compute.
  pose proof (log_test_writes_every_line (H0 := UtcPlatform.platform) (λ _, (true, test_root)) (bytes "test.cpp") 140
    (LogTest.test_calls (bytes "test.cpp") 140) test_world) as Hp.
  fold test_set_up in Hp. destruct test_set_up as [[x w1]|f]; [|done]. exists x, w1.
  apply andb_true_iff in Hc as [Hf%Z.eqb_eq Hb%Z.eqb_eq].
  destruct (Hp x w1) as (_ & _ & (total & st & Hr & Hret) & Hall);
    [by intros n|by intros n _ _|done|by apply LogTest.test_returns|by left| | | |].
  - by rewrite Hb.
  - by apply (bool_decide_unpack _).
  - by apply (bool_decide_unpack _).
  - destruct (Hall total st Hr Hret) as (H1 & H2 & t & H3 & H4 & H5). exists total, st, t.
    split_and!; try done. by apply Forall_forall.
Defined.
