(* ===== verification/Main.v ===== *)
(** * The whole program: [main] of src/testserver.cpp

    The set-up of the logger and of its directory, and after it the server:
    what [main] does before [loop.loop()], and the iterations of the loops. *)

From stdpp Require Import base tactics numbers list gmap strings.
From Stdlib Require Import ZArith Lia.
From S2P Require Import Prelude NetBuffer Kernel World Poller Demo Loop Channels Connection.
From S2P Require Import ConnFacts Inet LoopPool Server ServerFacts System Safety SafeTasks Handlers.
From S2P Require Import SafeRun Startup LogBuffer AsyncWorker Message Files ThreadPool LogFlush.
From S2P Require Import Backup Logger.

Local Open Scope Z_scope.
Local Open Scope prog_scope.

Module EchoMain.
(** The logger objects, at the addresses 0 and 1. *)
Record Logging := mkLogging {
  tp : ThreadPool.t (list byte);
  loggers : list AsyncLogger.t;
  manager : LoggerManager.t }.

(** What the other files ask the registry: whether [GetLogger] finds a name. *)
Definition registered (lg : Logging) : gset string :=
  set_map String.string_of_list_byte (dom (LoggerManager.loggers_ (manager lg))).

Section ops.
Context {D : Type} `{Directories D} (parse : list byte → bool * JsonValue).
Local Abbreviation M := (M (LogWorld D)).

Definition conf : list byte := bytes "../log_system/logs_code/config.conf".
Definition log_dir : list byte := bytes "../logfile".

(** [main] before [EventLoop loop]. *)
Definition setup_logging : M Logging :=
  let! json := GetJsonData parse conf None in
  let cfg := json.1 in
  let tp := ThreadPool.ctor (Z.to_nat (thread_count cfg)) in
  let! dirs := gets lw_dirs in
  when (path_exists log_dir dirs) (fs.remove_all log_dir) ;;!
  fs.create_directories log_dir ;;!
  let Glb := LoggerBuilder.BuildLoggerName (bytes "asynclogger") LoggerBuilder.ctor in
  let! inst := lift (LoggerManager.GetInstance cfg) in
  let! built := lift (LoggerBuilder.Build cfg Glb) in
  let loggers := [inst.1; built.1] in
  ret (mkLogging tp loggers (LoggerManager.AddLogger (LoggerManager.name_of loggers) 1 inst.2)).
End ops.
End EchoMain.

(** ** The set-up of the logger *)
Section setup.
Context {D : Type} `{Directories D} (parse : list byte → bool * JsonValue).
Implicit Types (wl : LogWorld D).
Import EchoMain.

(** Whatever the state, [m] faults in one of these two ways or its result has
    the property [Q]. *)
Definition setup_fault (f : fault) : Prop := f = Terminated ∨ f = LengthError.
Definition always {A} (m : M (LogWorld D) A) (Q : A → Prop) : Prop :=
  ∀ wl, wp setup_fault m wl (λ a _, Q a).

Lemma always_ret {A} (a : A) (Q : A → Prop) : Q a → always (ret a) Q.
Proof. by intros HQ wl. Qed.
Lemma always_gets {A} (f : LogWorld D → A) : always (gets f) (λ _, True).
Proof. by intros wl. Qed.
Lemma always_modify f : always (modify f) (λ _, True).
Proof. by intros wl. Qed.
Lemma always_sys : always sys (λ _, True).
Proof. by intros wl. Qed.
Lemma always_terminated {A} (Q : A → Prop) : always (throw Terminated) Q.
Proof. intros wl. by left. Qed.
Lemma always_resize n v : always (lift (vec_resize n v)) (λ _, True).
Proof. intros wl. unfold wp, lift, vec_resize. destruct (_ <? _); [by right|done]. Qed.
Lemma always_bind {A B} (m : M (LogWorld D) A) (k : A → M (LogWorld D) B) (P : A → Prop) Q :
  always m P → (∀ a, P a → always (k a) Q) → always (bind m k) Q.
Proof.
  intros Hm Hk wl. apply wp_bind. eapply wp_mono; [apply Hm|]. intros a wl' Ha. by apply Hk.
Qed.
Lemma always_then {A B} (m : M (LogWorld D) A) (k : A → M (LogWorld D) B) Q :
  always m (λ _, True) → (∀ a, always (k a) Q) → always (bind m k) Q.
Proof. intros Hm Hk. eapply always_bind; [done|]. intros a _. apply Hk. Qed.
Lemma always_if {A} (b : bool) (m1 m2 : M (LogWorld D) A) Q :
  always m1 Q → always m2 Q → always (if b then m1 else m2) Q.
Proof. by destruct b. Qed.

Lemma always_config root : always (lift (JsonData_ctor root)) (λ _, True).
Proof.
  intros wl. unfold wp, lift, JsonData_ctor. destruct root as [root|]; [|done].
  repeat match goal with |- context [converted ?v] => destruct v; cbn; [|by left] end. done.
Qed.

(** Goes through a program statement by statement. *)
Local Ltac always :=
  repeat match goal with
    | |- always (bind _ _) _ => apply always_then; [|intros ?]
    | |- always (if _ then _ else _) _ => apply always_if
    | |- always (ret _) _ => by apply always_ret
    | |- always (gets _) _ => apply always_gets
    | |- always (modify _) _ => apply always_modify
    | |- always sys _ => apply always_sys
    | |- always (lift (vec_resize _ _)) _ => apply always_resize
    | |- always (throw Terminated) _ => apply always_terminated
    | |- always (lift (JsonData_ctor _)) _ => apply always_config
    end.

Lemma always_GetContent name : always (File.GetContent name) (λ _, True).
Proof. unfold File.GetContent, File.FileSize, print, note. always. Qed.

Lemma always_GetJsonData conf d : always (GetJsonData parse conf d) (λ _, True).
Proof.
  unfold GetJsonData, load_config, JsonUtil.UnSerialize, File.Exists, print, note.
  destruct d; [always|]. apply always_then; [|intros; always]. apply always_then; [always|]. intros d.
  apply always_if; [|always]. apply always_then; [apply always_GetContent|]. intros r. always.
Qed.

Lemma always_filesystem f : always (fs.filesystem f) (λ _, True).
Proof. unfold fs.filesystem. always. Qed.

Lemma always_Build cfg b :
  LoggerBuilder.logger_name_ b ≠ [] →
  always (lift (LoggerBuilder.Build cfg b))
    (λ r, AsyncLogger.logger_name_ r.1 = LoggerBuilder.logger_name_ b).
Proof.
  intros Hne wl. unfold LoggerBuilder.Build, AsyncLogger.ctor, AsyncLogger.new_worker, Buffer.ctor, vec_resize.
  rewrite decide_False by done. unfold wp, lift. destruct (_ <? _); cbn; [by right|].
  by destruct (LoggerBuilder.flushs_ b).
Qed.

Record logging_ready (lg : Logging) : Prop := {
  lr_registered : registered lg = {["default"; "asynclogger"]}%string;
  lr_found : MyLog.GetLogger (bytes "asynclogger") (manager lg) = Some 1;
  lr_default : MyLog.GetLogger (bytes "default") (manager lg) = Some (MyLog.DefaultLogger (manager lg)) }.

Lemma always_setup : always (setup_logging parse) logging_ready.
Proof.
  unfold setup_logging. apply always_then; [apply always_GetJsonData|]. intros json.
  apply always_then; [always|]. intros dirs.
  apply always_then; [apply always_if; [apply always_filesystem|always]|]. intros _.
  apply always_then; [apply always_filesystem|]. intros _.
  set (b1 := LoggerBuilder.BuildLoggerName (bytes "default") LoggerBuilder.ctor).
  apply (always_bind _ _ (λ r, AsyncLogger.logger_name_ r.1 = bytes "default" ∧ r.2 = LoggerManager.ctor 0)).
  - intros wl. pose proof (always_Build json.1 b1 ltac:(done) wl) as Hb. unfold LoggerManager.GetInstance. fold b1.
    unfold wp, lift in *. by destruct (LoggerBuilder.Build json.1 b1).
  - intros [l0 m] [Hl0 Hm]. cbn [fst snd] in *. subst m.
    eapply always_bind; [by apply always_Build|]. intros [l1 b] Hl1. cbn [fst snd] in *.
    apply always_ret. assert (Hn : LoggerManager.name_of [l0; l1] 1 = bytes "asynclogger") by done.
    set (m := LoggerManager.ctor 0).
    assert (Hm : LoggerManager.AddLogger (LoggerManager.name_of [l0; l1]) 1 m =
      LoggerManager.mk 0 (<[bytes "asynclogger" := 1]> {[bytes "default" := 0]})).
    { unfold LoggerManager.AddLogger, LoggerManager.insert_logger. rewrite Hn.
      replace (LoggerManager.LoggerExist _ m) with false by done. done. }
    rewrite Hm. split;
      unfold registered, MyLog.GetLogger, LoggerManager.GetLogger, LoggerManager.loggers_, manager.
    + rewrite dom_insert_L, dom_singleton_L, set_map_union_L, !set_map_singleton_L.
      unfold bytes. by rewrite !String.string_of_list_byte_of_string, (union_comm_L {["asynclogger"%string]}).
    + apply lookup_insert_eq.
    + rewrite lookup_insert_ne by done. apply lookup_singleton_eq.
Qed.
End setup.

(** ** The program *)
Section program.
Context {K : Type} `{KernelOk K} `{InetLibOk}.
Context {D : Type} `{Directories D} (parse : list byte → bool * JsonValue).
Implicit Types (w : World K) (wl : LogWorld D).
Import EchoMain.

(** C2: the whole echo server. Whatever the kernel answers, if only the four
    epoll instances get descriptors of their own and addresses are IPv4, and
    whatever is in the configuration file, the set-up of the logger ends in an uncaught
    exception or registers the loggers "default" and "asynclogger". With these
    the set-up of the server succeeds and leaves a base loop, at address 1, and
    a pool of three other loops. Then, whichever loops turn and in whatever
    order, each on its own thread, the program never touches freed memory,
    memory outside a buffer or a null pointer other than the logger
    "asyclogger", which is not registered. It can end in [bad_function_call],
    [length_error] or the overflow of the connection counter; otherwise every
    pointer that epoll, the queues and the server's map hold is to a live
    connection, and no connection leaks. *)
Theorem echo_program_safe wl w :
  boot w →
  match setup_logging parse wl with
  | Fault f => f = Terminated ∨ f = LengthError
  | Ok (lg, _) =>
      registered lg = {["default"; "asynclogger"]}%string ∧
      (w_loggers w = registered lg →
       ∃ w1 ls, EchoServer.main_setup w = Ok (tt, w1) ∧ length ls = 3%nat ∧ NoDup (1 :: ls) ∧
         (∀ l, is_Some (w_loops w1 !! l) ↔ l ∈ 1 :: ls) ∧ srv_loop_ (w_server w1) = 1 ∧
         EventLoopThreadPool.getAllLoops (pool_of w1) = ls ∧
         ∀ run, Forall (λ l, l ∈ 1 :: ls) run →
           match mapM_ (turn (H3 := EchoServer.user)) run w1 with
           | Ok (_, w') => all_live w'
           | Fault f => f = BadFunctionCall ∨ f = SignedOverflow ∨ f = LengthError ∨ f = NullDeref
           end)
  end.
Proof.
  intros Hb. pose proof (always_setup parse wl) as Hs. unfold wp in Hs.
  destruct (setup_logging parse wl) as [[lg wl']|f]; [|exact Hs]. destruct Hs as [Hreg _ _].
  split; [done|]. intros Hw.
  destruct (echo_runs_safely w Hb) as (w1 & ls & E & Hlen & Hnd & Hls & Hbase & Hall & Hrun);
    [rewrite Hw, Hreg; set_solver|].
  exists w1, ls. split_and!; [done..|]. intros run Hr. specialize (Hrun run Hr).
  destruct (mapM_ turn run w1) as [[u w']|f]; [done|]. tauto.
Qed.
End program.

(** ** A concrete start *)
Definition demo_root : JsonValue :=
  mkJsonValue (λ name, if decide (name = "buffer_size") then Some 8 else asInt64 shipped_root name)%string
    (asInt shipped_root) (asString shipped_root).

Definition demo_log_start : LogWorld (gset (list byte)) :=
  mkLogWorld {[EchoMain.conf := bytes "{}"]} ∅ {[EchoMain.conf; bytes ".."; EchoMain.log_dir]} []
    (λ _, mkSysret 2 [] [] demo_addr) 0 [].

(** The set-up succeeds, starts three workers and makes the directory. *)
Definition demo_set_up (o : outcome (EchoMain.Logging * LogWorld (gset (list byte)))) : bool :=
  match o with
  | Ok (lg, wl) => (length (ThreadPool.workers (EchoMain.tp lg)) =? 3)%nat &&
      path_exists EchoMain.log_dir (lw_dirs wl)
  | Fault _ => false
  end.

Lemma echo_program_safe_witness :
  ∃ lg wl', EchoMain.setup_logging (λ _, (true, demo_root)) demo_log_start = Ok (lg, wl') ∧
    length (ThreadPool.workers (EchoMain.tp lg)) = 3%nat ∧
    path_exists EchoMain.log_dir (lw_dirs wl') = true ∧
    ∃ w1 ls, EchoServer.main_setup demo_boot = Ok (tt, w1) ∧ length ls = 3%nat ∧ NoDup (1 :: ls) ∧
      (∀ l, is_Some (w_loops w1 !! l) ↔ l ∈ 1 :: ls) ∧ srv_loop_ (w_server w1) = 1 ∧
      EventLoopThreadPool.getAllLoops (pool_of w1) = ls ∧
      ∀ run, Forall (λ l, l ∈ 1 :: ls) run →
        match mapM_ (turn (H3 := EchoServer.user)) run w1 with
        | Ok (_, w') => all_live w'
        | Fault f => f = BadFunctionCall ∨ f = SignedOverflow ∨ f = LengthError ∨ f = NullDeref
        end.
Proof.
  assert (Hc : demo_set_up (EchoMain.setup_logging (λ _, (true, demo_root)) demo_log_start) = true)
    by by vm_compute.
  pose proof (echo_program_safe (λ _, (true, demo_root)) demo_log_start demo_boot demo_boot_ok) as Hp.
  revert Hc Hp. generalize (EchoMain.setup_logging (λ _, (true, demo_root)) demo_log_start).
  intros [[lg wl']|f] Hc Hp; [|done]. exists lg, wl'. split; [done|].
  apply andb_true_iff in Hc as [Hw Hd]. split; [by apply Nat.eqb_eq|]. split; [done|].
  destruct Hp as [Hreg Hp]. apply Hp. by rewrite Hreg.
Defined.
